(* ===== verification/_CoqProject ===== *)
-Q . S2P
Prelude.v
Structs.v
Framing.v
SendPipeline.v
Expected.v
Callbacks.v
Dispatcher.v
AsyncLogger.v
TcpSession.v
TcpConnection.v
TcpClient.v
ConnectSend.v
TcpServer.v
CallbackSteps.v
ServerHandlers.v
CallsEnd.v
UdpEndpoint.v
UdpSession.v
UdpThread.v
UdpSteps.v
EndToEnd.v
Factory.v
Application.v
DatagramApp.v
WireHeader.v
DemoApp.v
SensorNetwork.v
HybridGateway.v
LoneSender.v
UdpLone.v
Benchmark.v
BenchClient.v
BenchEnds.v
Tests.v
