(* ===== verification/Prelude.v ===== *)
(** * librim: a verification development

    librim is a header-only C++ library for message-based networking over Boost.Asio:
    framed TCP connections with a pool of send buffers, a TCP server and client, a UDP
    endpoint, a typed message dispatcher, an asynchronous binary logger, and
    [RimApplication], which puts them together.  This development models the library,
    its three example programs and its benchmark, and proves what they promise.  This file is its
    root: the documentation, and the vocabulary that the other files share.

    ** How the program works, and which file models what

    Everything an endpoint does to its own state runs in its strand, one handler after
    another; threads outside the strand call [send], [close] and [broadcast]; the
    kernel completes reads and writes and may read a write's buffers at any time
    until it does.  Each component is therefore a machine: a record for its state, an
    event for each statement at which threads interleave, an executable step function
    ([exec], [sess_exec], [server_exec] ...; [None] when the event is not possible,
    otherwise an [outcome]), and reachability as its closure.  Functions that run to
    their end inside the strand are plain functions with the code's names.

    - Prelude.v: machine integers, [outcome] (return, exception, undefined behaviour,
      never, out of fuel), bytes, byte order.
    - Structs.v: packed structs: fields laid end to end, in place or copied.
    - Framing.v: [start_receive], its completion handler and [process_buffer], which
      tcp_server.hpp and tcp_client.hpp both contain.  [frames] is the specification:
      a stream is a sequence of well-framed messages and an end.
    - SendPipeline.v: [send], the posted lambda, [do_write] and its completion handler
      of the same two files, over a shared heap of buffers, and the destructor.
      [pipe_inv] is the invariant; the abstract specification is a FIFO channel.
    - Expected.v: expected.hpp.
    - Callbacks.v: what an application may do inside a callback, as a free monad over
      [send] and [close]; callbacks may also throw, be undefined or not return.
    - Dispatcher.v: message_dispatcher.hpp.  A handler is a callback.
    - AsyncLogger.v: async_logger.hpp: producers, worker and destructor with their
      mutex and condition variable.
    - TcpSession.v: the two halves of a TCP endpoint joined, with the read timer and
      [close]; class [Owner] is what [TcpConnection] and [TcpClient] add.
    - TcpConnection.v (tcp_server.hpp), TcpClient.v (tcp_client.hpp, with [connect] and
      reconnection), ConnectSend.v (a client that sends when it is connected).
    - CallbackSteps.v: the session with its receive callback running statement by
      statement ([stepping_exec]): the calls that it makes on its own endpoint interleave
      with other threads.  TcpSession.v runs it in one step.
    - TcpServer.v: [TcpServer] of tcp_server.hpp: the accept loop, the set of
      connections, [broadcast]; any number of connections of TcpConnection.v.
      ServerHandlers.v: the same server with receive callbacks that call [broadcast], as
      the handlers of a TCP server application do: a callback runs statement by
      statement, and its strand is busy meanwhile ([handler_exec]).  CallsEnd.v: that the
      calls of threads outside the strands come back once the strands rest.
    - UdpEndpoint.v: udp_endpoint.hpp, over a heap of typed objects.  UdpSession.v adds
      the receive callback, run inside the strand as a program over [send], [send_to] and
      [close]; UdpSteps.v runs it statement by statement; UdpThread.v is a thread that runs
      a program of [send]s on an endpoint.
    - EndToEnd.v: one endpoint's send path, a connection, and the other's receive path.
    - Factory.v: context.hpp and factory.hpp.
    - Application.v: application.hpp over all of the above; threads may still be inside
      [send] when [run] destroys the endpoint ([calls_inside]).  DatagramApp.v: the receive
      lambda of its UDP server on the endpoint of UdpSession.v.
    - WireHeader.v, DemoApp.v, SensorNetwork.v, HybridGateway.v: the header that the
      programs of examples/ share, and 01_basic_demo.cpp, 02_sensor_network_udp.cpp and
      03_hybrid_gateway.cpp.  Class [WireProtocol] is what such an application promises
      to peers that keep to its messages.
    - Benchmark.v, BenchClient.v: the two programs of benchmark/.  The global counters are
      part of machines ([metrics_exec], [bench_exec]) in which any number of threads
      interleave; class [Transport] is what a thread that pumps needs of its endpoint, a
      client of TcpClient.v or an endpoint of UdpEndpoint.v.  BenchEnds.v: that the threads
      end, by LoneSender.v and UdpLone.v: where one thread sends, over TCP or UDP, it never
      waits for ever.
    - Tests.v: the programs of tests/, as schedules of the machines.

    ** What is proved

    - Reassembly and delivery: the messages of a stream are delivered whole, in order
      and once, however the stream is cut ([stream_reassembly], [framed_roundtrip],
      [process_buffer_correct]); with a peer's send path in front ([end_to_end]); with
      handlers behind ([framed_dispatch], [app_dispatches]); and for the programs
      ([demo_log], [demo_end_to_end], [gateway_relays], [gateway_chain]).
    - Handlers that broadcast from inside their strands: the server underneath stays the
      server of TcpServer.v ([handlers_refine_server]), their broadcasts reach everybody
      ([handler_broadcast_complete]), they end unless they wait for a buffer
      ([handlers_finish]), and those that wait for each other wait for ever
      ([handlers_deadlock]).
    - Datagrams: sent intact, in order and each to its target ([udp_datagrams_intact],
      [udp_drains], [udp_thread_sends]); a callback on the endpoint refines the endpoint
      ([udp_session_refines]), also among other threads ([udp_callbacks_served]), answers
      ([udp_answers]) and serves an application's handlers ([app_serves_datagrams]); and,
      with senders, receiver and handlers together, example 02 ([sensors_logged],
      [sensor_network_end_to_end]).
    - Termination and bounds: [process_buffer_terminates], [zero_header_diverges],
      [receive_buffer_bounded].
    - The send path: refinement of a FIFO channel, absence of races and use after free,
      conservation of buffers, draining, and what goes wrong after a failed write
      ([send_path_refines_fifo], [send_path_safe], [buffers_conserved],
      [send_path_drains], [stalled_sender_never_returns]).
    - Endpoints: invariants over all reachable states and absence of undefined steps
      ([connection_lifecycle], [connection_safe], [client_first_connection],
      [client_safe], [server_tracks_connections], [server_safe], [udp_safe],
      [udp_heap_typed]); [broadcast]; reconnection.
    - Callbacks that send on their own endpoint: what they are answered and what they have
      accepted ([callbacks_served], [replies_in_order]), that they end unless they wait for
      a buffer, and then for ever ([callback_ends_or_starves], [reply_deadlock]), and that
      running them in one step shows nothing that cannot happen ([one_step_contained]);
      over UDP likewise ([udp_callback_ends_or_starves], [udp_one_step_contained]).
    - Dispatcher: [dispatch_correct].  Logger: what it appends to the file, between what
      was there and what others append, decodes to what was logged ([log_file_roundtrip],
      [logger_safe]), no lost wake-ups before destruction, and a destructor that can hang.
    - The benchmark: what its counters show ([bench_counts]), and that its clients come to
      the end of their function, where a TCP client is destroyed cleanly and a UDP endpoint
      with an idle item is not ([pumps_end]).
    - Application: where [send] goes ([app_send_routes]), and how [run] ends: cleanly when
      no thread is inside [send], undefined when one is ([app_shutdown]); that handlers and
      threads can come out of [send] before it does, unless they wait for a buffer
      ([app_stop_ends]); and that a handler that waits keeps it from ending
      ([app_stop_blocked]).
    Some theorems show a defect: what the code does where it should do better.

    ** Bounds and fuel

    The loop of [process_buffer] is the only one with fuel; [read_handler] gives it one
    more than the bytes in the buffer.  [process_buffer_terminates] shows that one per
    header that fits is enough when the header is not empty, and [zero_header_diverges]
    that nothing is when it is.  The receive theorems ask for sizes up to 2^62
    ([small_limits]), so that sums of [size_t] do not wrap, and the send theorems for at
    most 8192 pooled buffers, the constructors' number.  Every theorem about an endpoint
    is for any such number, any schedule, and any number of threads and messages.

    ** Assumed of code outside the repository

    [CircularBuffer]: [push_back] appends to a buffer that is not full and never grows
    one past its capacity.  Host: one of the two byte orders.  The operating system's
    answers are arguments.  The logger's file is opened for appending: each of its writes
    goes to the end of the file in one piece, or fails after a part, whoever else appends.

    ** Not modelled

    - Weak memory: atomics and plain fields are sequentially consistent.
    - Boost.Asio itself: its strand, timers and sockets appear as the events of the
      machines; an [io_context] as the interleaving.  Calling [connect] while a read is
      outstanding, [start] or [start_receive] twice, and a callback that uses both its
      own connection and [broadcast].  A receive callback that sends on its own endpoint
      is one step in TcpSession.v and UdpSession.v and as many as it has in CallbackSteps.v
      and UdpSteps.v, likewise one that broadcasts in ServerHandlers.v; a connect callback
      that sends is one step: it takes its buffers without other threads taking some meanwhile.
    - In Application.v the application's events are the endpoints' own; the handlers of a
      UDP server run on the machine of UdpSession.v (DatagramApp.v), and the relay of
      example 03 runs its handlers' calls of [send] behind them, in the same order: a
      handler of the model does not wait for the relay's pool.  A thread that calls the
      application's [send] enters the endpoint in the same step in which it reads the
      pointer; the use of an endpoint destroyed under a thread shows at the end of [run],
      not at that thread's next statement.
    - The state that handlers keep is one per connection; handlers of several
      connections that share one object race on it, which the model does not show.
    - Wall-clock time (timers expire at any time), the wording of log lines, and
      reading a float through an integer pointer, which the model takes for its bits.
    - The drivers: [main] of the examples, the waiting in tests/, the arguments, clocks and
      printing of benchmark/; build files.  The functions of examples/ and tests/ are
      followed up to their last statement; what the destructors of their endpoints do after
      it is shown with the endpoints ([destructor_frees], [udp_destructor_undefined]). *)

From Stdlib Require Import ZArith Lia Bool.
From Stdlib Require Export Strings.Byte.
From stdpp Require Export base list gmap.

#[export] Set Default Goal Selector "!".

Declare Scope size_scope.
Delimit Scope size_scope with size.

Create HintDb librim.

(** ** Machine integers

    [std::size_t] and [uint64_t] values are [Z] in [0, 2^64), [uint32_t]
    values [Z] in [0, 2^32).  The C++ operations wrap. *)

Definition wrap (w z : Z) : Z := z mod 2 ^ w.

Definition size_add (a b : Z) : Z := wrap 64 (a + b).

Definition size_sub (a b : Z) : Z := wrap 64 (a - b).

Definition is_size (z : Z) : Prop := (0 <= z < 2 ^ 64)%Z.

Arguments wrap : simpl never.
Arguments size_add : simpl never.
Arguments size_sub : simpl never.

Infix "+!" := size_add (at level 50, left associativity) : size_scope.
Infix "-!" := size_sub (at level 50, left associativity) : size_scope.

Lemma wrap_small w z : (0 <= z < 2 ^ w)%Z -> wrap w z = z.
Proof. apply Z.mod_small. Qed.

Lemma wrap_range w z : (0 <= w)%Z -> (0 <= wrap w z < 2 ^ w)%Z.
Proof. intros Hw. apply Z.mod_pos_bound, Z.pow_pos_nonneg; lia. Qed.

Lemma size_add_small a b : is_size (a + b) -> size_add a b = (a + b)%Z.
Proof. apply wrap_small. Qed.

Lemma size_sub_small a b : is_size (a - b) -> size_sub a b = (a - b)%Z.
Proof. apply wrap_small. Qed.

Lemma size_sub_nat (a b : nat) :
  b <= a -> (Z.of_nat a < 2 ^ 64)%Z ->
  size_sub (Z.of_nat a) (Z.of_nat b) = Z.of_nat (a - b).
Proof. intros. rewrite size_sub_small; unfold is_size; lia. Qed.

Lemma size_add_nat (a b : nat) :
  (Z.of_nat (a + b) < 2 ^ 64)%Z ->
  size_add (Z.of_nat a) (Z.of_nat b) = Z.of_nat (a + b).
Proof. intros. rewrite size_add_small; unfold is_size; lia. Qed.

Lemma wrap_add_l w a b : (0 <= w)%Z -> wrap w (wrap w a + b) = wrap w (a + b).
Proof. intros Hw. unfold wrap. apply Z.add_mod_idemp_l, Z.pow_nonzero; lia. Qed.

Lemma wrap_add_r w a b : (0 <= w)%Z -> wrap w (a + wrap w b) = wrap w (a + b).
Proof. intros Hw. unfold wrap. apply Z.add_mod_idemp_r, Z.pow_nonzero; lia. Qed.

(** ** Lists *)

Lemma sum_list_insert {T} (g : T -> nat) (l : list T) i x y :
  l !! i = Some x -> sum_list (g <$> <[i := y]> l) + g x = sum_list (g <$> l) + g y.
Proof.
  revert i. induction l as [|z l IH]; intros [|i]; cbn; try done.
  - intros [= ->]. lia.
  - intros Hi. specialize (IH i Hi).
    change (g z + sum_list (g <$> <[i := y]> l) + g x = g z + sum_list (g <$> l) + g y). lia.
Qed.

Lemma Forall2_with {T U} (P : T -> U -> Prop) (Q : U -> Prop) l k :
  Forall2 P l k -> Forall Q k -> Forall2 (fun x y => P x y /\ Q y) l k.
Proof. induction 1; intros HQ; [constructor|]. apply Forall_cons in HQ as [? ?]. constructor; auto. Qed.

(** ** Results of code that may fail to come back

    - [Ret a]: a normal return;
    - [Throw e]: a C++ exception leaves the call;
    - [UB]: the C++ standard gives the call no meaning;
    - [Hang]: the call never returns (a spin loop whose exit condition nothing
      can establish any more);
    - [OutOfFuel]: a loop used up the bound given to its model.  The code has
      no fuel: every loop modelled with it has a theorem that says which fuel
      is enough, or that none is. *)

Inductive exn : Type :=
| bad_function_call
| bad_variant_access
| system_error (code : Z)
| length_error.

#[export] Instance exn_eq_dec : EqDecision exn.
Proof. solve_decision. Defined.

Inductive outcome (A : Type) : Type :=
| Ret (a : A)
| Throw (e : exn)
| UB
| Hang
| OutOfFuel.
Arguments Ret {A} a.
Arguments Throw {A} e.
Arguments UB {A}.
Arguments Hang {A}.
Arguments OutOfFuel {A}.

#[export] Instance outcome_ret : MRet outcome := @Ret.

#[export] Instance outcome_bind : MBind outcome :=
  fun A B f m =>
    match m with
    | Ret a => f a
    | Throw e => Throw e
    | UB => UB
    | Hang => Hang
    | OutOfFuel => OutOfFuel
    end.

Lemma bind_Ret {A} (m : outcome A) : mbind Ret m = m.
Proof. by destruct m. Qed.

(** [outcome_rel R m n]: [n] ends exactly the way [m] does, with values
    related by [R].  In particular [n] runs out of fuel only if [m] did. *)
Inductive outcome_rel {A B} (R : A -> B -> Prop) : outcome A -> outcome B -> Prop :=
| rel_Ret a b : R a b -> outcome_rel R (Ret a) (Ret b)
| rel_Throw e : outcome_rel R (Throw e) (Throw e)
| rel_UB : outcome_rel R UB UB
| rel_Hang : outcome_rel R Hang Hang
| rel_OutOfFuel : outcome_rel R OutOfFuel OutOfFuel.
#[export] Hint Constructors outcome_rel : librim.

Lemma outcome_rel_bind {A B C D} (R : A -> B -> Prop) (Q : C -> D -> Prop) m n f g :
  outcome_rel R m n ->
  (forall a b, R a b -> outcome_rel Q (f a) (g b)) ->
  outcome_rel Q (mbind f m) (mbind g n).
Proof. destruct 1; simpl; auto with librim. Qed.

Lemma outcome_rel_after {A B D} (R : A -> B -> Prop) (Q : A -> D -> Prop) m n (g : B -> outcome D) :
  outcome_rel R m n -> (forall a b, R a b -> outcome_rel Q (Ret a) (g b)) -> outcome_rel Q m (mbind g n).
Proof. destruct 1; simpl; auto with librim. Qed.

Lemma outcome_rel_mono {A B} (R Q : A -> B -> Prop) m n :
  (forall a b, R a b -> Q a b) -> outcome_rel R m n -> outcome_rel Q m n.
Proof. destruct 2; auto with librim. Qed.

(** ** Byte sequences *)

#[export] Instance byte_eq_dec : EqDecision byte := Byte.byte_eq_dec.

Definition byte_to_Z (b : byte) : Z := Z.of_N (Byte.to_N b).

Definition byte_of_Z (z : Z) : byte :=
  match Byte.of_N (Z.to_N (wrap 8 z)) with
  | Some b => b
  | None => x00
  end.

(** The element count of a container, as the [size_t] that [size()] returns. *)
Definition size_of {A} (l : list A) : Z := Z.of_nat (length l).

(** [std::span(data + off, n)]. *)
Definition subspan (l : list byte) (off n : Z) : list byte :=
  take (Z.to_nat n) (drop (Z.to_nat off) l).

(** [memcpy]/[memmove] of [new] to [l.data() + off]. *)
Definition splice (l : list byte) (off : Z) (new : list byte) : list byte :=
  take (Z.to_nat off) l ++ new ++ drop (Z.to_nat off + length new) l.

(** [std::vector::resize(n)]: new elements are value-initialised. *)
Definition vec_resize (n : Z) (l : list byte) : list byte :=
  resize (Z.to_nat n) x00 l.
Arguments vec_resize : simpl never.

Lemma byte_to_Z_range b : (0 <= byte_to_Z b < 256)%Z.
Proof.
  unfold byte_to_Z. pose proof (Byte.to_N_bounded b). lia.
Qed.

Lemma byte_of_to_Z b : byte_of_Z (byte_to_Z b) = b.
Proof.
  unfold byte_of_Z. rewrite wrap_small.
  - unfold byte_to_Z. rewrite N2Z.id, Byte.of_to_N. reflexivity.
  - pose proof (byte_to_Z_range b). lia.
Qed.

Lemma byte_to_of_Z z : byte_to_Z (byte_of_Z z) = wrap 8 z.
Proof.
  unfold byte_of_Z, byte_to_Z.
  pose proof (wrap_range 8 z ltac:(lia)) as Hr.
  destruct (Byte.of_N _) as [b|] eqn:E.
  - apply Byte.to_of_N in E. rewrite E, Z2N.id; lia.
  - apply Byte.of_N_None_iff in E. lia.
Qed.

Lemma byte_to_Z_inj b c : byte_to_Z b = byte_to_Z c -> b = c.
Proof. intros E. rewrite <- (byte_of_to_Z b), E. apply byte_of_to_Z. Qed.

Lemma size_of_app {A} (l k : list A) :
  size_of (l ++ k) = (size_of l + size_of k)%Z.
Proof. unfold size_of. rewrite length_app. lia. Qed.

Lemma size_of_nonneg {A} (l : list A) : (0 <= size_of l)%Z.
Proof. unfold size_of. lia. Qed.

Lemma to_nat_size_of {A} (l : list A) : Z.to_nat (size_of l) = length l.
Proof. apply Nat2Z.id. Qed.

Lemma take_size_of_app {A} (l k : list A) : take (Z.to_nat (size_of l)) (l ++ k) = l.
Proof. rewrite to_nat_size_of. apply take_app_length. Qed.

Lemma drop_size_of_app {A} (l k : list A) : drop (Z.to_nat (size_of l)) (l ++ k) = k.
Proof. rewrite to_nat_size_of. apply drop_app_length. Qed.

Lemma length_splice l off new :
  Z.to_nat off + length new <= length l ->
  length (splice l off new) = length l.
Proof.
  intros. unfold splice. rewrite !length_app, length_take, length_drop. lia.
Qed.

Lemma take_splice l off new n :
  n <= Z.to_nat off -> Z.to_nat off <= length l ->
  take n (splice l off new) = take n l.
Proof.
  intros. unfold splice.
  rewrite take_app_le by (rewrite length_take; lia).
  rewrite take_take. f_equal. lia.
Qed.

Lemma drop_splice l off new n :
  Z.to_nat off + length new <= n -> Z.to_nat off <= length l ->
  drop n (splice l off new) = drop n l.
Proof.
  intros. unfold splice.
  rewrite drop_app_ge by (rewrite length_take; lia).
  rewrite length_take, Nat.min_l by lia.
  rewrite drop_app_ge by lia.
  rewrite drop_drop. f_equal. lia.
Qed.

Lemma take_splice_end l off new :
  Z.to_nat off <= length l ->
  take (Z.to_nat off + length new) (splice l off new) = take (Z.to_nat off) l ++ new.
Proof.
  intros. unfold splice.
  rewrite take_app_ge by (rewrite length_take; lia).
  rewrite length_take, Nat.min_l by lia. f_equal.
  rewrite Nat.add_comm, Nat.add_sub. apply take_app_length.
Qed.

Lemma length_subspan l off n :
  Z.to_nat off + Z.to_nat n <= length l ->
  length (subspan l off n) = Z.to_nat n.
Proof.
  intros. unfold subspan. rewrite length_take, length_drop. lia.
Qed.

Lemma splice_subspan l off n :
  Z.to_nat off + Z.to_nat n <= length l -> splice l off (subspan l off n) = l.
Proof.
  intros. unfold splice. rewrite length_subspan by lia. unfold subspan.
  rewrite <- drop_drop, take_drop. apply take_drop.
Qed.

Lemma length_vec_resize n l : length (vec_resize n l) = Z.to_nat n.
Proof. apply length_resize. Qed.

Lemma take_vec_resize n l k :
  k <= length l -> length l <= Z.to_nat n ->
  take k (vec_resize n l) = take k l.
Proof.
  intros. unfold vec_resize. rewrite take_resize_le by lia.
  apply resize_le. lia.
Qed.

(** ** Byte order

    [memcpy] between an unsigned integer object and memory reads and writes
    its object representation, which depends on the host's endianness;
    [htobe32] and its siblings are the identity on a big-endian host and
    reverse the bytes on a little-endian one. *)

Open Scope Z_scope.

Fixpoint le_bytes (n : nat) (z : Z) : list byte :=
  match n with
  | O => []
  | S n => byte_of_Z z :: le_bytes n (z / 256)
  end.

Fixpoint le_value (bs : list byte) : Z :=
  match bs with
  | [] => 0
  | b :: bs => byte_to_Z b + 256 * le_value bs
  end.

Definition be_bytes (n : nat) (z : Z) : list byte := rev (le_bytes n z).

Definition be_value (bs : list byte) : Z := le_value (rev bs).

Inductive endian := LittleEndian | BigEndian.

(** The object representation of an [8 * n]-bit unsigned integer. *)
Definition store_uint (host : endian) (n : nat) (z : Z) : list byte :=
  match host with LittleEndian => le_bytes n z | BigEndian => be_bytes n z end.

Definition load_uint (host : endian) (bs : list byte) : Z :=
  match host with LittleEndian => le_value bs | BigEndian => be_value bs end.

(** [htobe32] ([n = 4]), [htobe64] ([n = 8]) and, being involutions, also
    [be32toh] and [be64toh]. *)
Definition htobe (host : endian) (n : nat) (z : Z) : Z :=
  match host with LittleEndian => be_value (le_bytes n z) | BigEndian => z end.

Lemma length_le_bytes n z : length (le_bytes n z) = n.
Proof. revert z. induction n; intros z; simpl; auto. Qed.

Lemma length_be_bytes n z : length (be_bytes n z) = n.
Proof. unfold be_bytes. rewrite length_rev. apply length_le_bytes. Qed.

Lemma length_store_uint host n z : length (store_uint host n z) = n.
Proof. destruct host; [apply length_le_bytes | apply length_be_bytes]. Qed.

Lemma le_value_range bs : 0 <= le_value bs < 256 ^ Z.of_nat (length bs).
Proof.
  induction bs as [|b bs IH]; [simpl; lia|].
  cbn [le_value length]. rewrite Nat2Z.inj_succ, Z.pow_succ_r by lia.
  pose proof (byte_to_Z_range b). lia.
Qed.

Lemma be_value_range bs : 0 <= be_value bs < 256 ^ Z.of_nat (length bs).
Proof. unfold be_value. rewrite <- length_rev. apply le_value_range. Qed.

Lemma le_value_le_bytes n z :
  0 <= z < 256 ^ Z.of_nat n -> le_value (le_bytes n z) = z.
Proof.
  revert z. induction n as [|n IH]; intros z Hz; cbn [le_bytes le_value].
  - simpl in Hz. lia.
  - rewrite Nat2Z.inj_succ, Z.pow_succ_r in Hz by lia.
    rewrite IH by (split; [apply Z.div_pos | apply Z.div_lt_upper_bound]; lia).
    rewrite byte_to_of_Z. unfold wrap. change (2 ^ 8) with 256.
    pose proof (Z.div_mod z 256). lia.
Qed.

Lemma le_bytes_le_value bs : le_bytes (length bs) (le_value bs) = bs.
Proof.
  induction bs as [|b bs IH]; [done|]. cbn [length le_bytes le_value].
  pose proof (byte_to_Z_range b).
  f_equal.
  - apply byte_to_Z_inj. rewrite byte_to_of_Z. unfold wrap. change (2 ^ 8) with 256.
    rewrite Z.mul_comm, Z_mod_plus_full, Z.mod_small; lia.
  - rewrite Z.mul_comm, Z.div_add, Z.div_small, Z.add_0_l by lia. done.
Qed.

Lemma be_value_be_bytes n z :
  0 <= z < 256 ^ Z.of_nat n -> be_value (be_bytes n z) = z.
Proof.
  intros. unfold be_value, be_bytes. rewrite rev_involutive. by apply le_value_le_bytes.
Qed.

Lemma be_bytes_be_value n bs : length bs = n -> be_bytes n (be_value bs) = bs.
Proof.
  intros <-. unfold be_value, be_bytes.
  rewrite <- (length_rev bs), le_bytes_le_value. apply rev_involutive.
Qed.

Lemma load_store_uint host n z :
  0 <= z < 256 ^ Z.of_nat n -> load_uint host (store_uint host n z) = z.
Proof. destruct host; [apply le_value_le_bytes | apply be_value_be_bytes]. Qed.

Lemma store_load_uint host n bs : length bs = n -> store_uint host n (load_uint host bs) = bs.
Proof. intros <-. destruct host; [apply le_bytes_le_value | by apply be_bytes_be_value]. Qed.

(** Writing an integer field back where it was read changes nothing. *)
Lemma splice_store_load host l off n :
  (Z.to_nat off + n <= length l)%nat ->
  splice l off (store_uint host n (load_uint host (subspan l off (Z.of_nat n)))) = l.
Proof.
  intros. rewrite store_load_uint by (rewrite length_subspan; lia).
  apply splice_subspan. lia.
Qed.

(** The length of a byte sequence built from parts. *)
Ltac solve_length :=
  repeat first
    [ rewrite length_app | rewrite length_store_uint | rewrite length_take
    | rewrite length_drop
    | rewrite length_subspan by solve_length
    | rewrite length_splice by solve_length ];
  simpl length; lia.

(** On every host, an integer converted to network order is stored most
    significant byte first, and is read back by the inverse conversion. *)
Lemma store_htobe host n z :
  0 <= z < 256 ^ Z.of_nat n -> store_uint host n (htobe host n z) = be_bytes n z.
Proof.
  intros Hz. destruct host; simpl; [|done].
  unfold be_bytes, be_value.
  rewrite <- (length_le_bytes n z) at 1. rewrite <- length_rev. apply le_bytes_le_value.
Qed.

Lemma htobe_load host n bs :
  length bs = n -> htobe host n (load_uint host bs) = be_value bs.
Proof.
  intros <-. destruct host; simpl; [|done]. by rewrite le_bytes_le_value.
Qed.

Lemma prefix_concat_take {A} (l : list (list A)) n : concat (take n l) `prefix_of` concat l.
Proof. exists (concat (drop n l)). by rewrite <- concat_app, take_drop. Qed.

Lemma prefix_take_concat {A} (l k : list (list A)) i n :
  take i (concat (take n l)) `prefix_of` concat (l ++ k).
Proof.
  etrans; [apply prefix_take|]. etrans; [apply prefix_concat_take|].
  rewrite concat_app. by apply prefix_app_r.
Qed.

Lemma take_length_take {A} (l : list A) n : take (length (take n l)) l = take n l.
Proof.
  rewrite length_take. destruct (decide (n <= length l)%nat) as [Hn|Hn].
  - by rewrite Nat.min_l.
  - rewrite Nat.min_r, !take_ge by lia. done.
Qed.
