(* ===== verification/Structs.v ===== *)
(** * Structs on the wire

    What the library and its applications do with C++ structs: copy them to and
    from byte buffers and read them in place.  A struct under [#pragma pack(1)]
    whose members are unsigned integers is its members' object representations
    laid end to end; the byte order is the host's. *)

From S2P Require Import Prelude.
From Stdlib Require Import ZArith Lia.

Open Scope Z_scope.

(** A trivially copyable struct: [sizeof], reading its fields from its object
    representation ([memcpy], [reinterpret_cast]), and writing the fields back to
    it, which leaves the padding bytes alone. *)
Class Layout (T : Type) := {
  sizeof : nat;
  load : list byte -> T;
  store : T -> list byte -> list byte;
  length_store t bs : length bs = sizeof -> length (store t bs) = sizeof;
  store_load bs : length bs = sizeof -> store (load bs) bs = bs;
}.
Arguments sizeof T {_}.

(** The byte order of the machine the program runs on. *)
Class Host := host_endian : endian.

(** ** Fields laid end to end *)

Section Fields.

Context `{!Host}.

Fixpoint load_fields (ws : list nat) (bs : list byte) : list Z :=
  match ws with
  | [] => []
  | w :: ws => load_uint host_endian (take w bs) :: load_fields ws (drop w bs)
  end.

(** What lies behind the fields is left alone. *)
Fixpoint store_fields (ws : list nat) (vs : list Z) (bs : list byte) : list byte :=
  match ws, vs with
  | w :: ws, v :: vs => store_uint host_endian w v ++ store_fields ws vs (drop w bs)
  | _, _ => bs
  end.

Lemma length_load_fields ws bs : length (load_fields ws bs) = length ws.
Proof. revert bs. induction ws as [|w ws IH]; intros bs; simpl; [done|]. by rewrite IH. Qed.

Lemma length_store_fields ws vs bs :
  (sum_list ws <= length bs)%nat -> length (store_fields ws vs bs) = length bs.
Proof.
  revert vs bs. induction ws as [|w ws IH]; intros [|v vs] bs; simpl; try done. intros Hb.
  rewrite length_app, length_store_uint, IH; rewrite length_drop; lia.
Qed.

Lemma store_load_fields ws bs :
  (sum_list ws <= length bs)%nat -> store_fields ws (load_fields ws bs) bs = bs.
Proof.
  revert bs. induction ws as [|w ws IH]; intros bs; simpl; [done|]. intros Hb.
  rewrite store_load_uint by (rewrite length_take; lia).
  rewrite IH by (rewrite length_drop; lia). apply take_drop.
Qed.

(** A value that fits into [w] bytes. *)
Definition fits (w : nat) (v : Z) : Prop := 0 <= v < 256 ^ Z.of_nat w.

Lemma load_store_fields ws vs bs rest :
  Forall2 fits ws vs -> load_fields ws (store_fields ws vs bs ++ rest) = vs.
Proof.
  intros Hvs. revert bs. induction Hvs as [|w v ws vs Hv _ IH]; intros bs; simpl; [done|].
  assert (length (store_uint host_endian w v) = w) as Hw by apply length_store_uint.
  rewrite <- app_assoc, take_app_length', drop_app_length' by done.
  by rewrite IH, load_store_uint.
Qed.

End Fields.

(** ** Packed structs *)

Class Packed (T : Type) := {
  widths : list nat;
  fields : T -> list Z;
  of_fields : list Z -> T;
  length_fields t : length (fields t) = length widths;
  of_fields_fields t : of_fields (fields t) = t;
  fields_of_fields vs : length vs = length widths -> fields (of_fields vs) = vs;
}.
Arguments widths T {_}.

Section Packed.

Context `{!Host} {T : Type} `{!Packed T}.

Definition load_packed (bs : list byte) : T := of_fields (load_fields (widths T) bs).

Definition store_packed (t : T) (bs : list byte) : list byte := store_fields (widths T) (fields t) bs.

Lemma length_store_packed t bs :
  length bs = sum_list (widths T) -> length (store_packed t bs) = sum_list (widths T).
Proof. intros Hb. unfold store_packed. rewrite length_store_fields; lia. Qed.

Lemma store_load_packed bs : length bs = sum_list (widths T) -> store_packed (load_packed bs) bs = bs.
Proof.
  intros Hb. unfold store_packed, load_packed. rewrite fields_of_fields by apply length_load_fields.
  apply store_load_fields. lia.
Qed.

#[export] Instance packed_layout : Layout T := {|
  sizeof := sum_list (widths T); load := load_packed; store := store_packed;
  length_store := length_store_packed; store_load := store_load_packed;
|}.

(** The object representation of a struct, as [memcpy] copies it. *)
Definition object_bytes (t : T) : list byte := store t (replicate (sizeof T) x00).

Lemma length_object_bytes t : length (object_bytes t) = sizeof T.
Proof. apply length_store. apply length_replicate. Qed.

Lemma load_object_bytes t rest :
  Forall2 fits (widths T) (fields t) -> load (object_bytes t ++ rest) = t.
Proof.
  intros Ht. unfold object_bytes. cbn [load store packed_layout]. unfold load_packed, store_packed.
  rewrite load_store_fields by done. apply of_fields_fields.
Qed.

(** The bytes of the struct alone decide what is read. *)
Lemma load_take bs : load (take (sizeof T) bs) = load bs.
Proof.
  cbn [load sizeof packed_layout]. unfold load_packed. f_equal. generalize (widths T) bs.
  induction l as [|w ws IH]; intros cs; simpl; [done|].
  rewrite take_take, Nat.min_l by lia. f_equal.
  rewrite skipn_firstn_comm. replace (w + sum_list ws - w)%nat with (sum_list ws) by lia. apply IH.
Qed.

End Packed.

(** ** Network byte order *)

(** [htobe32] and [be32toh] are the same function. *)
Definition be32toh `{!Host} (z : Z) : Z := htobe host_endian 4 z.
Definition htobe32 `{!Host} (z : Z) : Z := htobe host_endian 4 z.
Definition be64toh `{!Host} (z : Z) : Z := htobe host_endian 8 z.
Definition htobe64 `{!Host} (z : Z) : Z := htobe host_endian 8 z.

Lemma htobe_fits host n z : fits n z -> fits n (htobe host n z).
Proof.
  intros Hz. destruct host; [|done]. pose proof (be_value_range (le_bytes n z)) as Hr.
  by rewrite length_le_bytes in Hr.
Qed.

Lemma htobe_htobe host n z : fits n z -> htobe host n (htobe host n z) = z.
Proof.
  intros Hz. destruct host; [|done]. pose proof (le_bytes_le_value (rev (le_bytes n z))) as Hr.
  rewrite length_rev, length_le_bytes in Hr. simpl. unfold be_value at 2. rewrite Hr.
  unfold be_value. rewrite rev_involutive. by apply le_value_le_bytes.
Qed.

(** The field lists of a packed record, by cases on their length. *)
Ltac solve_fields :=
  let vs := fresh "vs" in let Hvs := fresh "Hvs" in
  intros vs Hvs; repeat (destruct vs as [|? vs]; try discriminate Hvs); reflexivity.

(** A value converted to network order and back is itself. *)
Lemma be32toh_htobe32 `{!Host} z : fits 4 z -> be32toh (htobe32 z) = z.
Proof. apply htobe_htobe. Qed.

Lemma be64toh_htobe64 `{!Host} z : fits 8 z -> be64toh (htobe64 z) = z.
Proof. apply htobe_htobe. Qed.

Lemma htobe32_fits `{!Host} z : fits 4 z -> fits 4 (htobe32 z).
Proof. apply htobe_fits. Qed.

Lemma htobe64_fits `{!Host} z : fits 8 z -> fits 8 (htobe64 z).
Proof. apply htobe_fits. Qed.

Lemma load_uint_fits `{!Host} bs : fits (length bs) (load_uint host_endian bs).
Proof. unfold fits, load_uint. destruct host_endian; [apply le_value_range|apply be_value_range]. Qed.

(** The fields that are read fit their widths. *)
Lemma load_fields_fit `{!Host} ws bs : (sum_list ws <= length bs)%nat -> Forall2 fits ws (load_fields ws bs).
Proof.
  revert bs. induction ws as [|w ws IH]; intros bs Hb; simpl in *; constructor.
  - pose proof (load_uint_fits (take w bs)) as Hu. by rewrite length_take, Nat.min_l in Hu by lia.
  - apply IH. rewrite length_drop. lia.
Qed.

#[export] Hint Resolve htobe32_fits htobe64_fits : librim.
