(* ===== verification/Framing.v ===== *)
(** * The TCP receive path: length-prefixed framing of a byte stream

    [TcpConnection] (tcp_server.hpp) and [TcpClient] (tcp_client.hpp) contain
    the same three functions, [start_receive], its completion handler and
    [process_buffer].  They are modelled once here, over any endpoint that can
    close itself and re-arm its read timer; TcpConnection.v and TcpClient.v
    instantiate them. *)

From S2P Require Import Prelude.
From Stdlib Require Import ZArith Lia.

Open Scope Z_scope.
Open Scope size_scope.

(** What the receive path needs from the endpoint it belongs to. *)
Class StreamEndpoint (St : Type) := {
  ep_is_open : St -> bool;
  ep_close : St -> St;
  ep_reset_read_timeout : St -> St;
  ep_close_closes st : ep_is_open (ep_close st) = false;
  ep_reset_is_open st : ep_is_open (ep_reset_read_timeout st) = ep_is_open st;
}.

(** The three framing fields of the endpoint.  [get_total_size_] is a
    [std::function]; [None] is the empty one, whose call throws. *)
Record framing_config := FramingConfig {
  header_size_ : Z;
  max_message_size_ : Z;
  get_total_size_ : option (list byte -> Z);
}.

Definition framing_config_wf (cfg : framing_config) : Prop :=
  is_size (header_size_ cfg) /\ is_size (max_message_size_ cfg).

(** The receive state.  [read_op] is the outstanding [async_read_some], as the
    offset and the size of the region of [recv_buffer_] it was given;
    [delivered] is a history variable, the messages handed to the receive
    callback so far. *)
Record rx_state := Rx {
  recv_buffer_ : list byte;
  active_bytes_ : Z;
  read_op : option (Z * Z);
  delivered : list (list byte);
}.

(** The constructor: [recv_buffer_.resize(65536)], [active_bytes_{0}]. *)
Definition rx_init : rx_state := Rx (vec_resize 65536 []) 0 None [].

(** A receive callback gets the message as a span into [recv_buffer_]; it may
    write to the bytes of the span (the dispatcher casts the [const] away) and
    it may call the public functions of the endpoint. *)
Record receive_callback (St : Type) := ReceiveCallback {
  rc_call : St -> list byte -> outcome (St * list byte);
  rc_length st m st' m' : rc_call st m = Ret (st', m') -> length m' = length m;
}.
Arguments ReceiveCallback {St}.
Arguments rc_call {St}.
Arguments rc_length {St}.

(** How the loop of [process_buffer] was left. *)
Inductive loop_exit := LoopClosed | LoopEnded.

Section Receiver.

Context {St : Type} `{!StreamEndpoint St}.
Context (cfg : framing_config) (on_recv_ : option (receive_callback St)).

Definition deliver (r : rx_state) (st : St) (current_offset total_size : Z) :
    outcome (rx_state * St) :=
  match on_recv_ with
  | None => Ret (r, st)
  | Some cb =>
      let full_message := subspan (recv_buffer_ r) current_offset total_size in
      '(st', full_message') ← rc_call cb st full_message;
      Ret (Rx (splice (recv_buffer_ r) current_offset full_message')
              (active_bytes_ r) (read_op r) (delivered r ++ [full_message]), st')
  end.

Fixpoint process_loop (fuel : nat) (r : rx_state) (current_offset : Z) (st : St) :
    outcome (loop_exit * rx_state * Z * St) :=
  match fuel with
  | O => OutOfFuel
  | S fuel =>
      if header_size_ cfg <=? active_bytes_ r -! current_offset then
        match get_total_size_ cfg with
        | None => Throw bad_function_call
        | Some get_total_size =>
            let header_span := subspan (recv_buffer_ r) current_offset (header_size_ cfg) in
            let total_size := wrap 64 (get_total_size header_span) in
            if (total_size <? header_size_ cfg) || (max_message_size_ cfg <? total_size) then
              Ret (LoopClosed, r, current_offset, ep_close st)
            else if total_size <=? active_bytes_ r -! current_offset then
              '(r', st') ← deliver r st current_offset total_size;
              process_loop fuel r' (current_offset +! total_size) st'
            else Ret (LoopEnded, r, current_offset, st)
        end
      else Ret (LoopEnded, r, current_offset, st)
  end.

Definition start_receive (r : rx_state) : rx_state :=
  let buf :=
    if size_of (recv_buffer_ r) <? active_bytes_ r +! 65536
    then vec_resize (active_bytes_ r +! 65536) (recv_buffer_ r)
    else recv_buffer_ r in
  Rx buf (active_bytes_ r) (Some (active_bytes_ r, size_of buf -! active_bytes_ r))
     (delivered r).

Definition process_buffer (fuel : nat) (r : rx_state) (st : St) :
    outcome (rx_state * St) :=
  '(why, r, current_offset, st) ← process_loop fuel r 0 st;
  match why with
  | LoopClosed => Ret (r, st)
  | LoopEnded =>
      let unparsed_bytes := active_bytes_ r -! current_offset in
      let buf :=
        if (0 <? unparsed_bytes) && (0 <? current_offset)
        then splice (recv_buffer_ r) 0
               (subspan (recv_buffer_ r) current_offset unparsed_bytes)
        else recv_buffer_ r in
      let r := Rx buf unparsed_bytes (read_op r) (delivered r) in
      let st := ep_reset_read_timeout st in
      Ret (start_receive r, st)
  end.

(** The bound on loop iterations given to the model: one more than the bytes
    in the buffer.  Enough when [header_size_ > 0], see [process_loop_spec]. *)
Definition process_fuel (r : rx_state) : nat := S (Z.to_nat (active_bytes_ r)).

(** The completion handler of [async_read_some].  Before it runs, the kernel
    has written [data] to the region it was given. *)
Definition read_handler (r : rx_state) (ec : bool) (data : list byte) (st : St) :
    outcome (rx_state * St) :=
  match read_op r with
  | None => UB
  | Some (off, room) =>
      let r := Rx (splice (recv_buffer_ r) off data) (active_bytes_ r) None (delivered r) in
      let bytes_recvd := size_of data in
      if negb ec && (0 <? bytes_recvd) then
        let r := Rx (recv_buffer_ r) (active_bytes_ r +! bytes_recvd) (read_op r) (delivered r) in
        process_buffer (process_fuel r) r st
      else Ret (r, ep_close st)
  end.

(** Successive reads from the socket: each chunk completes the outstanding
    read; when no read is outstanding the rest of the stream stays in the
    kernel. *)
Fixpoint read_all (chunks : list (list byte)) (r : rx_state) (st : St) :
    outcome (rx_state * St) :=
  match chunks with
  | [] => Ret (r, st)
  | c :: cs =>
      match read_op r with
      | None => Ret (r, st)
      | Some _ => '(r, st) ← read_handler r false c st; read_all cs r st
      end
  end.

(** Chunks a kernel can give to the successive reads: at least one byte, and no
    more than the read has room for. *)
Fixpoint reads_fit (chunks : list (list byte)) (r : rx_state) (st : St) : Prop :=
  match chunks with
  | [] => True
  | c :: cs =>
      match read_op r with
      | None => True
      | Some (_, room) =>
          0 < size_of c <= room /\
          forall r' st', read_handler r false c st = Ret (r', st') -> reads_fit cs r' st'
      end
  end.

(** The callback run on messages one after another. *)
Fixpoint deliver_all (st : St) (ms : list (list byte)) : outcome St :=
  match ms with
  | [] => Ret st
  | m :: ms =>
      match on_recv_ with
      | None => deliver_all st ms
      | Some cb => '(st', _) ← rc_call cb st m; deliver_all st' ms
      end
  end.

(** What the receive path does to its endpoint, it does through the endpoint's
    operations and the callback. *)
Section Preserves.

Context (P : St -> Prop).
Hypothesis close_preserves : forall st, P st -> P (ep_close st).
Hypothesis reset_preserves : forall st, P st -> P (ep_reset_read_timeout st).
Hypothesis call_preserves : forall cb st m st' m',
  on_recv_ = Some cb -> P st -> rc_call cb st m = Ret (st', m') -> P st'.

Lemma deliver_preserves r st off n r' st' :
  P st -> deliver r st off n = Ret (r', st') -> P st'.
Proof using call_preserves.
  intros Hst. unfold deliver. destruct on_recv_ as [cb|] eqn:Hcb; [|by intros [= _ <-]].
  destruct (rc_call cb st _) as [[st1 m1]| | | |] eqn:Hc; simpl; try done. intros [= _ <-].
  by eapply call_preserves.
Qed.

Lemma process_loop_preserves fuel r off st why r' off' st' :
  P st -> process_loop fuel r off st = Ret (why, r', off', st') -> P st'.
Proof using close_preserves call_preserves.
  revert r off st. induction fuel as [|fuel IH]; intros r off st Hst; simpl; [done|].
  destruct (_ <=? _); [|by intros [= _ _ _ <-]].
  destruct (get_total_size_ cfg) as [g|]; [|done].
  destruct (_ || _); [intros [= _ _ _ <-]; auto|].
  destruct (_ <=? _); [|by intros [= _ _ _ <-]].
  destruct (deliver r st off _) as [[r1 st1]| | | |] eqn:Hd; simpl; try done.
  apply IH. by eapply deliver_preserves.
Qed.

Lemma read_handler_preserves r ec data st r' st' :
  P st -> read_handler r ec data st = Ret (r', st') -> P st'.
Proof using close_preserves reset_preserves call_preserves.
  intros Hst. unfold read_handler. destruct (read_op r) as [[off room]|]; [|done].
  destruct (_ && _); [|intros [= _ <-]; auto]. unfold process_buffer.
  destruct (process_loop _ _ _ _) as [[[[why r1] off1] st1]| | | |] eqn:Hl; simpl; try done.
  apply process_loop_preserves in Hl; [|done]. destruct why; intros [= _ <-]; auto.
Qed.

End Preserves.

End Receiver.

Arguments start_receive : simpl never.

(** ** The framing specification

    A stream is a sequence of well-framed messages followed by an incomplete
    one ([Partial]) or by a header that the endpoint refuses ([Violation]). *)

Inductive frame_end :=
| Partial (rest : list byte)
| Violation (rest : list byte).

Definition rest_of (e : frame_end) : list byte :=
  match e with Partial rest => rest | Violation rest => rest end.

Definition exit_of (e : frame_end) : loop_exit :=
  match e with Partial _ => LoopEnded | Violation _ => LoopClosed end.

Section Spec.

Context (hdr mx : Z) (f : list byte -> Z).

(** The total size announced by the header at the front of [s]. *)
Definition announced (s : list byte) : Z := wrap 64 (f (take (Z.to_nat hdr) s)).

Definition well_framed (m : list byte) : Prop :=
  hdr <= size_of m /\ announced m = size_of m /\ size_of m <= mx.

Inductive frames : list byte -> list (list byte) -> frame_end -> Prop :=
| frames_short s :
    size_of s < hdr -> frames s [] (Partial s)
| frames_wait s :
    hdr <= size_of s -> hdr <= announced s <= mx -> size_of s < announced s ->
    frames s [] (Partial s)
| frames_bad s :
    hdr <= size_of s -> (announced s < hdr \/ mx < announced s) ->
    frames s [] (Violation s)
| frames_msg m rest ms e :
    well_framed m -> frames rest ms e -> frames (m ++ rest) (m :: ms) e.

Lemma announced_app m s : hdr <= size_of m -> announced (m ++ s) = announced m.
Proof using.
  intros H. unfold announced. rewrite take_app_le; [done|].
  unfold size_of in H. lia.
Qed.

Lemma frames_concat s ms e : frames s ms e -> s = concat ms ++ rest_of e.
Proof using. induction 1; simpl; [done..|]. subst. by rewrite app_assoc. Qed.

Lemma frames_well_framed s ms e : frames s ms e -> Forall well_framed ms.
Proof using. induction 1; auto. Qed.

Lemma announced_short s1 s2 :
  hdr <= size_of s1 -> s1 `prefix_of` s2 -> announced s2 = announced s1.
Proof using. intros H [k ->]. by apply announced_app. Qed.

(** A stream has one framing at most. *)
Lemma frames_det s ms e :
  frames s ms e -> forall ms' e', frames s ms' e' -> ms = ms' /\ e = e'.
Proof using.
  induction 1 as [s H|s H1 H2 H3|s H1 H2|m rest ms e (H1 & H2 & H3) Hf IH];
    intros ms' e' H'.
  - inversion H' as [| | |m' ? ? ? (? & ? & ?)]; subst; try (split; congruence || lia).
    rewrite size_of_app in H. pose proof (size_of_nonneg rest). lia.
  - inversion H' as [| | |m' rest ? ? (? & ? & ?)]; subst; try (split; congruence || lia).
    rewrite announced_app, size_of_app in * by done.
    pose proof (size_of_nonneg rest). lia.
  - inversion H' as [| | |m' rest ? ? (? & ? & ?)]; subst; try (split; congruence || lia).
    rewrite announced_app in * by done. lia.
  - assert (announced (m ++ rest) = size_of m) as Ha by (rewrite announced_app; done).
    pose proof (size_of_nonneg rest).
    remember (m ++ rest) as s eqn:Hs.
    assert (size_of s = size_of m + size_of rest) as Hsz by (subst; apply size_of_app).
    destruct H' as [| | |m' rest' ms' e' (H1' & H2' & H3') Hf']; try lia.
    rewrite announced_app in Ha by done.
    apply app_inj_1 in Hs as [-> ->].
    + destruct (IH _ _ Hf') as [-> ->]. done.
    + unfold size_of in *. lia.
Qed.

(** The framing of a stream does not depend on where it is cut: the messages
    of a prefix are delivered, and framing resumes from what it left. *)
Lemma frames_app s1 ms1 e1 s2 ms2 e2 :
  frames s1 ms1 e1 -> frames (rest_of e1 ++ s2) ms2 e2 ->
  frames (s1 ++ s2) (ms1 ++ ms2) e2.
Proof using.
  induction 1 as [| | |m rest ms e Hm Hf IH]; simpl; [done..|].
  intros H2. rewrite <- app_assoc. apply frames_msg; auto.
Qed.

Lemma frames_violation_app s ms r s2 :
  frames s ms (Violation r) -> frames (s ++ s2) ms (Violation (r ++ s2)).
Proof using.
  remember (Violation r) as e eqn:He. intros Hf. revert r He.
  induction Hf as [| |s H1 H2|m rest ms e Hm Hf IH]; intros r' [=]; subst.
  - apply frames_bad.
    + rewrite size_of_app. pose proof (size_of_nonneg s2). lia.
    + by rewrite announced_app.
  - rewrite <- app_assoc. apply frames_msg; auto.
Qed.

(** What is left over holds no complete message. *)
Lemma frames_rest s ms r :
  frames s ms (Partial r) -> frames r [] (Partial r).
Proof.
  remember (Partial r) as e eqn:He. intros Hf. revert r He.
  induction Hf; intros r' [=]; subst; eauto using frames.
Qed.

(** What is left over after framing is shorter than a header or than a
    message the endpoint accepts. *)
Lemma frames_partial_bound s ms r :
  frames s ms (Partial r) -> size_of r < Z.max hdr mx.
Proof using.
  remember (Partial r) as e eqn:He. intros Hf. revert r He.
  induction Hf; intros r' [=]; subst; lia || eauto.
Qed.

Hypothesis hdr_pos : 0 < hdr.

Lemma frames_length s ms e :
  frames s ms e -> (length ms <= length s)%nat.
Proof using hdr_pos.
  induction 1 as [| | |m rest ms e [Hm _] _ IH]; simpl; try lia.
  rewrite length_app. unfold size_of in Hm. lia.
Qed.

Lemma frames_headers s ms e :
  frames s ms e -> size_of ms * hdr <= size_of s.
Proof using hdr_pos.
  induction 1 as [s _|s _ _ _|s _ _|m rest ms e [Hm _] _ IH]; unfold size_of in *; cbn [length] in *;
    rewrite ?length_app; nia.
Qed.

(** With a header of at least one byte, every stream has a framing. *)
Lemma frames_total s : exists ms e, frames s ms e.
Proof using hdr_pos.
  remember (length s) as n eqn:Hn. revert s Hn.
  induction n as [n IH] using lt_wf_ind. intros s ->.
  destruct (decide (size_of s < hdr)) as [|Hh]; [eauto using frames|].
  destruct (decide (announced s < hdr \/ mx < announced s)) as [|Hb].
  { do 2 eexists. apply frames_bad; [lia|done]. }
  destruct (decide (size_of s < announced s)) as [|Ht].
  { do 2 eexists. apply frames_wait; lia. }
  destruct (IH (length (drop (Z.to_nat (announced s)) s))) with
    (s := drop (Z.to_nat (announced s)) s) as (ms & e & Hf); [|done|].
  { rewrite length_drop. unfold size_of in *. lia. }
  assert (size_of (take (Z.to_nat (announced s)) s) = announced s) as Hsz.
  { unfold size_of in *. rewrite length_take. lia. }
  assert (announced (take (Z.to_nat (announced s)) s) = announced s) as Ha.
  { rewrite <- (take_drop (Z.to_nat (announced s)) s) at 3.
    symmetry. apply announced_app. lia. }
  rewrite <- (take_drop (Z.to_nat (announced s)) s).
  do 2 eexists. apply frames_msg; [|apply Hf].
  unfold well_framed. lia.
Qed.

Lemma frames_messages ms :
  Forall well_framed ms -> frames (concat ms) ms (Partial []).
Proof using hdr_pos.
  induction 1 as [|m ms Hm _ IH]; simpl.
  - apply frames_short. unfold size_of; simpl. lia.
  - apply frames_msg; done.
Qed.

End Spec.

(** ** The loop implements the specification *)

(** [recv_buffer_] is large enough for [active_bytes_], and no length in sight
    reaches the width of [size_t]. *)
Definition rx_wf (r : rx_state) : Prop :=
  0 <= active_bytes_ r <= size_of (recv_buffer_ r) /\ size_of (recv_buffer_ r) < 2 ^ 63.

(** The bytes from [off] on that are received and not consumed. *)
Definition pending (r : rx_state) (off : Z) : list byte :=
  drop (Z.to_nat off) (take (Z.to_nat (active_bytes_ r)) (recv_buffer_ r)).

Section WindowLemmas.

Context (r : rx_state) (off : Z) (Hwf : rx_wf r) (Hoff : 0 <= off <= active_bytes_ r).

Lemma size_pending : size_of (pending r off) = active_bytes_ r - off.
Proof using Hwf Hoff.
  destruct Hwf. unfold pending, size_of in *. rewrite length_drop, length_take. lia.
Qed.

Lemma pending_sub : active_bytes_ r -! off = size_of (pending r off).
Proof using Hwf Hoff.
  destruct Hwf. rewrite size_pending. apply size_sub_small. unfold is_size. lia.
Qed.

Lemma subspan_pending n :
  0 <= n <= size_of (pending r off) ->
  subspan (recv_buffer_ r) off n = take (Z.to_nat n) (pending r off).
Proof using Hwf Hoff.
  rewrite size_pending. intros. unfold subspan, pending.
  rewrite skipn_firstn_comm, take_take. f_equal. lia.
Qed.

Lemma pending_splice op d (new : list byte) :
  size_of new <= size_of (pending r off) ->
  pending (Rx (splice (recv_buffer_ r) off new) (active_bytes_ r) op d)
          (off + size_of new) = drop (length new) (pending r off).
Proof using Hwf Hoff.
  rewrite size_pending. intros. destruct Hwf. unfold pending, size_of in *; simpl.
  rewrite !skipn_firstn_comm, drop_splice by lia.
  rewrite !drop_drop. f_equal; [lia|]. f_equal. lia.
Qed.

Lemma rx_wf_splice op d (new : list byte) :
  size_of new <= size_of (pending r off) ->
  rx_wf (Rx (splice (recv_buffer_ r) off new) (active_bytes_ r) op d).
Proof using Hwf Hoff.
  rewrite size_pending. intros. destruct Hwf. unfold rx_wf, size_of in *; simpl.
  rewrite length_splice; lia.
Qed.

End WindowLemmas.

Section LoopSpec.

Context {St : Type} `{!StreamEndpoint St}.
Context (cfg : framing_config) (on_recv_ : option (receive_callback St)).
Context (f : list byte -> Z) (Hf : get_total_size_ cfg = Some f).
Context (Hcfg : framing_config_wf cfg).

Abbreviation hdr := (header_size_ cfg).
Abbreviation mx := (max_message_size_ cfg).

Definition seen (ms : list (list byte)) : list (list byte) :=
  if on_recv_ is Some _ then ms else [].

Definition finish (e : frame_end) (st : St) : St :=
  match e with Partial _ => st | Violation _ => ep_close st end.

(** The state in which the loop leaves the buffer. *)
Definition loop_post (r : rx_state) (off : Z) (ms : list (list byte)) (e : frame_end)
    (st1 : St) (res : loop_exit * rx_state * Z * St) : Prop :=
  let '(why, r', off', st') := res in
  why = exit_of e /\ st' = finish e st1 /\
  off' = off + size_of (concat ms) /\ 0 <= off' <= active_bytes_ r' /\
  rx_wf r' /\ size_of (recv_buffer_ r') = size_of (recv_buffer_ r) /\
  active_bytes_ r' = active_bytes_ r /\ read_op r' = read_op r /\
  pending r' off' = rest_of e /\ delivered r' = delivered r ++ seen ms.

Lemma loop_stop r off st e :
  rx_wf r -> 0 <= off <= active_bytes_ r -> pending r off = rest_of e ->
  loop_post r off [] e st (exit_of e, r, off, finish e st).
Proof using.
  intros. unfold loop_post, seen. simpl. rewrite Z.add_0_r.
  split_and!; try (done || lia). destruct on_recv_; by rewrite app_nil_r.
Qed.

Lemma announced_pending r off :
  rx_wf r -> 0 <= off <= active_bytes_ r -> hdr <= size_of (pending r off) ->
  wrap 64 (f (subspan (recv_buffer_ r) off hdr)) = announced hdr f (pending r off).
Proof using Hcfg.
  intros Hwf Hoff ?. destruct Hcfg as [[? ?] _]. by rewrite (subspan_pending r off Hwf Hoff).
Qed.

Lemma deliver_spec r off st m rest :
  rx_wf r -> 0 <= off <= active_bytes_ r -> pending r off = m ++ rest ->
  outcome_rel (fun st1 '(r', st') =>
      st' = st1 /\ rx_wf r' /\ size_of (recv_buffer_ r') = size_of (recv_buffer_ r) /\
      active_bytes_ r' = active_bytes_ r /\ read_op r' = read_op r /\
      off + size_of m <= active_bytes_ r' /\
      pending r' (off + size_of m) = rest /\ delivered r' = delivered r ++ seen [m])
    (deliver_all on_recv_ st [m]) (deliver on_recv_ r st off (size_of m)).
Proof using.
  intros Hwf Hoff Hp.
  pose proof (size_pending r off Hwf Hoff) as Hsz.
  rewrite Hp, size_of_app in Hsz. pose proof (size_of_nonneg rest).
  pose proof (size_of_nonneg m).
  unfold deliver, seen; simpl. destruct on_recv_ as [cb|]; simpl.
  - rewrite (subspan_pending r off Hwf Hoff) by (rewrite Hp, size_of_app; lia).
    rewrite Hp, take_size_of_app.
    destruct (rc_call cb st m) as [[st' m']|e| | |] eqn:Hcb; simpl; [|constructor..].
    apply rc_length in Hcb.
    assert (size_of m' = size_of m) as Hm by (unfold size_of; lia).
    assert (size_of m' <= size_of (pending r off)) by (rewrite Hp, size_of_app; lia).
    constructor. simpl.
    split; [done|]. split; [by eapply rx_wf_splice|].
    split. { destruct Hwf. unfold size_of in *. rewrite length_splice; lia. }
    do 2 (split; [done|]). split; [lia|]. split; [|done].
    rewrite <- Hm, (pending_splice r off Hwf Hoff) by done.
    rewrite Hp, Hcb. apply drop_app_length.
  - constructor. repeat split; try done || (destruct Hwf; lia).
    + unfold pending in *.
      rewrite Z2Nat.inj_add, <- drop_drop, Hp by lia. apply drop_size_of_app.
    + by rewrite app_nil_r.
Qed.

Lemma deliver_all_app st ms ms' :
  deliver_all on_recv_ st (ms ++ ms') =
  (st' ← deliver_all on_recv_ st ms; deliver_all on_recv_ st' ms').
Proof using.
  revert st. induction ms as [|m ms IH]; intros st; simpl; [done|].
  destruct on_recv_ as [cb|]; [|apply IH].
  destruct (rc_call cb st m) as [[? ?]|e| | |]; simpl; [apply IH|done..].
Qed.

Lemma process_loop_spec s ms e :
  frames hdr mx f s ms e ->
  forall fuel r off st,
  rx_wf r -> 0 <= off <= active_bytes_ r -> pending r off = s ->
  (length ms < fuel)%nat ->
  outcome_rel (loop_post r off ms e)
    (deliver_all on_recv_ st ms) (process_loop cfg on_recv_ fuel r off st).
Proof using Hf Hcfg.
  induction 1 as [s H|s H1 H2 H3|s H1 H2|m rest ms e (H1 & H2 & H3) Hfr IH];
    intros fuel r off st Hwf Hoff Hp Hfuel;
    (destruct fuel as [|fuel]; [simpl in Hfuel; lia|]); cbn [process_loop];
    rewrite (pending_sub r off Hwf Hoff).
  - rewrite Hp. replace (hdr <=? size_of s) with false by lia.
    constructor. by apply loop_stop.
  - rewrite Hp, Hf. replace (hdr <=? size_of s) with true by lia.
    rewrite (announced_pending r off Hwf Hoff), Hp by (by rewrite Hp).
    replace (_ || _) with false by lia.
    replace (announced hdr f s <=? size_of s) with false by lia.
    constructor. by apply loop_stop.
  - rewrite Hp, Hf. replace (hdr <=? size_of s) with true by lia.
    rewrite (announced_pending r off Hwf Hoff), Hp by (by rewrite Hp).
    replace (_ || _) with true by lia.
    constructor. by apply (loop_stop r off st (Violation s)).
  - pose proof (size_of_nonneg rest). pose proof (size_of_nonneg m).
    rewrite Hp, Hf, size_of_app.
    replace (hdr <=? size_of m + size_of rest) with true by lia.
    rewrite (announced_pending r off Hwf Hoff), Hp by (rewrite Hp, size_of_app; lia).
    rewrite announced_app, H2 by done.
    replace (_ || _) with false by lia.
    replace (size_of m <=? size_of m + size_of rest) with true by lia.
    change (m :: ms) with ([m] ++ ms). rewrite deliver_all_app.
    eapply outcome_rel_bind; [by apply (deliver_spec r off st m rest)|].
    intros st1 [r' st'] (-> & Hwf' & Hbuf & Hact & Hop & Hle & Hp' & Hdel).
    rewrite size_add_small by (destruct Hwf'; unfold is_size in *; lia).
    eapply outcome_rel_mono; [|apply IH; [done|lia|done|simpl in Hfuel; lia]].
    intros st2 [[[why r2] off2] st2'] (-> & -> & -> & Hoff2 & Hwf2 & Hb2 & Ha2 & Ho2 & Hp2 & Hd2).
    unfold loop_post. simpl. rewrite size_of_app, <- Z.add_assoc in *.
    split_and!; try (done || lia || congruence).
    rewrite Hd2, Hdel, <- app_assoc. unfold seen. by destruct on_recv_.
Qed.

(** ** [process_buffer] *)

Definition process_post (r : rx_state) (ms : list (list byte)) (e : frame_end)
    (st1 : St) (res : rx_state * St) : Prop :=
  let '(r', st') := res in
  rx_wf r' /\ delivered r' = delivered r ++ seen ms /\
  match e with
  | Partial rest =>
      pending r' 0 = rest /\ st' = ep_reset_read_timeout st1 /\
  read_op r' = Some (active_bytes_ r', size_of (recv_buffer_ r') - active_bytes_ r') /\
  65536 <= size_of (recv_buffer_ r') - active_bytes_ r' /\
  size_of (recv_buffer_ r') = Z.max (size_of (recv_buffer_ r)) (active_bytes_ r' + 65536)
  | Violation rest =>
      st' = ep_close st1 /\ read_op r' = read_op r /\
  size_of (recv_buffer_ r') = size_of (recv_buffer_ r)
  end.

Lemma start_receive_spec r :
  rx_wf r ->
  active_bytes_ r + 65536 < 2 ^ 63 ->
  let r' := start_receive r in
  rx_wf r' /\ pending r' 0 = pending r 0 /\ delivered r' = delivered r /\
  active_bytes_ r' = active_bytes_ r /\
  read_op r' = Some (active_bytes_ r, size_of (recv_buffer_ r') - active_bytes_ r) /\
  size_of (recv_buffer_ r') = Z.max (size_of (recv_buffer_ r)) (active_bytes_ r + 65536).
Proof using.
  intros [Ha Hb] Hroom. unfold start_receive, pending, rx_wf; simpl.
  rewrite size_add_small by (unfold is_size; lia).
  destruct (Z.ltb_spec (size_of (recv_buffer_ r)) (active_bytes_ r + 65536)).
  - assert (size_of (vec_resize (active_bytes_ r + 65536) (recv_buffer_ r))
            = active_bytes_ r + 65536) as Hs.
    { unfold size_of. rewrite length_vec_resize. lia. }
    rewrite Hs, size_sub_small by (unfold is_size; lia).
    split_and!; try (done || lia).
    unfold size_of in *. rewrite take_vec_resize by lia. done.
  - rewrite size_sub_small by (unfold is_size; lia). split_and!; done || lia.
Qed.

(** The window [memmove]d to the front of the buffer. *)
Lemma compact_spec r off op :
  rx_wf r -> 0 <= off <= active_bytes_ r ->
  let n := size_of (pending r off) in
  let buf := if (0 <? n) && (0 <? off)
             then splice (recv_buffer_ r) 0 (subspan (recv_buffer_ r) off n)
             else recv_buffer_ r in
  let r' := Rx buf n op (delivered r) in
  rx_wf r' /\ pending r' 0 = pending r off /\
  size_of buf = size_of (recv_buffer_ r).
Proof using.
  intros Hwf Hoff n buf r'.
  pose proof (size_pending r off Hwf Hoff) as Hn. fold n in Hn.
  assert (subspan (recv_buffer_ r) off n = pending r off) as Hsub.
  { rewrite (subspan_pending r off Hwf Hoff) by lia.
    rewrite <- (app_nil_r (pending r off)) at 1. apply take_size_of_app. }
  assert (length (pending r off) = Z.to_nat n) as Hlen by (unfold n, size_of; lia).
  destruct Hwf as [Ha Hb].
  assert (size_of buf = size_of (recv_buffer_ r)) as Hbuf.
  { unfold buf. destruct (_ && _); [|done].
    unfold size_of in *. rewrite Hsub, length_splice; lia. }
  unfold rx_wf, r'; simpl. split_and!; try (done || lia).
  unfold pending at 1; simpl. rewrite drop_0. unfold buf. rewrite Hsub.
  destruct (Z.ltb_spec 0 n); simpl.
  - destruct (Z.ltb_spec 0 off); simpl.
    + rewrite <- Hlen. rewrite <- (Nat.add_0_l (length (pending r off))).
      apply (take_splice_end _ 0). lia.
    + replace off with 0 by lia. unfold pending. rewrite drop_0. f_equal. lia.
  - replace (Z.to_nat n) with 0%nat by lia. rewrite take_0.
    symmetry. apply nil_length_inv. lia.
Qed.

Lemma process_buffer_spec s ms e fuel r st :
  frames hdr mx f s ms e -> mx <= 2 ^ 62 -> hdr <= 2 ^ 62 ->
  rx_wf r -> pending r 0 = s -> (length ms < fuel)%nat ->
  outcome_rel (process_post r ms e)
    (deliver_all on_recv_ st ms) (process_buffer cfg on_recv_ fuel r st).
Proof using Hf Hcfg.
  intros Hfr Hmx Hhdr Hwf Hp Hfuel. unfold process_buffer.
  rewrite <- (bind_Ret (deliver_all on_recv_ st ms)).
  eapply outcome_rel_bind.
  { apply process_loop_spec with (s := s); [done|done| |done|done].
    destruct Hwf. lia. }
  intros st1 [[[why r1] off1] st1'] (-> & -> & _ & Hoff & Hwf1 & Hb1 & Ha1 & Ho1 & Hp1 & Hd1).
  destruct e as [rest|rest]; constructor; [|simpl; split_and!; done].
  simpl in Hp1. subst rest. rewrite (pending_sub r1 off1 Hwf1 Hoff).
  destruct (compact_spec r1 off1 (read_op r1) Hwf1 Hoff) as (Hwf2 & Hp2 & Hb2).
  pose proof (frames_partial_bound _ _ _ _ _ _ Hfr) as Hbound.
  edestruct start_receive_spec as (Hwf3 & Hp3 & Hd3 & Ha3 & Ho3 & Hb3); [exact Hwf2| |].
  { simpl. lia. }
  match type of Hwf3 with rx_wf ?x => generalize dependent x end. simpl.
  intros r3 Hwf3 Hp3 Hd3 Ha3 Ho3 Hb3.
  rewrite Ha3, Hd3, Hp3, Hp2, Ho3, Hb3, Hb2, Hb1.
  split_and!; done || lia.
Qed.

(** ** Reads *)

(** A read is outstanding, into at least 65536 free bytes behind the active
    ones, and the buffer has not outgrown one refused message and one read. *)
Definition rx_armed (r : rx_state) : Prop :=
  rx_wf r /\
  read_op r = Some (active_bytes_ r, size_of (recv_buffer_ r) - active_bytes_ r) /\
  65536 <= size_of (recv_buffer_ r) - active_bytes_ r /\
  size_of (recv_buffer_ r) <= Z.max hdr mx + 65536.

(** Limits for which no [size_t] computation of the receive path wraps: the
    bound is 2^62 bytes of memory. *)
Definition small_limits : Prop := 0 < hdr <= 2 ^ 62 /\ 0 <= mx <= 2 ^ 62.

Lemma process_buffer_framed s ms e r st :
  small_limits -> rx_wf r -> pending r 0 = s -> frames hdr mx f s ms e ->
  outcome_rel (process_post r ms e)
    (deliver_all on_recv_ st ms) (process_buffer cfg on_recv_ (process_fuel r) r st).
Proof using Hf Hcfg.
  intros [? ?] Hwf Hp Hfr. apply (process_buffer_spec s); try done; try lia.
  apply frames_length in Hfr; [|lia]. subst s. unfold process_fuel.
  pose proof (size_pending r 0 Hwf) as Hs. destruct Hwf. unfold size_of in Hs. lia.
Qed.

Definition callback_returns : Prop :=
  match on_recv_ with
  | None => True
  | Some cb => forall st m, exists st' m', rc_call cb st m = Ret (st', m')
  end.

Lemma size_rx_init : size_of (recv_buffer_ rx_init) = 65536.
Proof using. unfold size_of. cbn [rx_init recv_buffer_]. rewrite length_vec_resize. lia. Qed.

Lemma rx_init_armed :
  small_limits ->
  let r := start_receive rx_init in rx_armed r /\ pending r 0 = [] /\ delivered r = [].
Proof using.
  intros [? ?].
  assert (rx_wf rx_init) as Hwf by (split; rewrite size_rx_init; simpl; lia).
  destruct (start_receive_spec rx_init Hwf) as (Hwf' & Hp & Hd & Ha & Ho & Hb); [simpl; lia|].
  rewrite size_rx_init in Hb. unfold rx_armed. cbn [rx_init active_bytes_ delivered] in *.
  rewrite Ho, Ha, Hb. split_and!; try lia; first [exact Hwf' | exact Hp | exact Hd | reflexivity].
Qed.

(** The buffer after the kernel has written [c] and the handler has counted it. *)
Lemma received_spec r c :
  rx_armed r -> size_of c <= size_of (recv_buffer_ r) - active_bytes_ r ->
  let r' := Rx (splice (recv_buffer_ r) (active_bytes_ r) c)
               (active_bytes_ r +! size_of c) None (delivered r) in
  rx_wf r' /\ pending r' 0 = pending r 0 ++ c /\
  size_of (recv_buffer_ r') = size_of (recv_buffer_ r).
Proof using.
  intros ([Ha Hb] & _ & Hroom & _) Hc r'. pose proof (size_of_nonneg c).
  unfold r', rx_wf, pending; simpl. rewrite !drop_0.
  rewrite size_add_small by (unfold is_size; lia).
  unfold size_of in *. rewrite length_splice by lia.
  split_and!; try lia.
  rewrite Z2Nat.inj_add, Nat2Z.id by lia. apply take_splice_end. lia.
Qed.

(** The receive state while a completion handler runs: no read outstanding. *)
Definition idle (r : rx_state) : rx_state :=
  Rx (recv_buffer_ r) (active_bytes_ r) None (delivered r).

Lemma read_handler_spec r c ms e st :
  small_limits -> rx_armed r -> 0 < size_of c <= size_of (recv_buffer_ r) - active_bytes_ r ->
  frames hdr mx f (pending r 0 ++ c) ms e ->
  outcome_rel (process_post (idle r) ms e)
    (deliver_all on_recv_ st ms) (read_handler cfg on_recv_ r false c st).
Proof using Hf Hcfg.
  intros [Hhdr Hmx] Harm Hc Hfr.
  destruct (received_spec r c Harm) as (Hwf & Hp & Hb); [lia|].
  destruct Harm as (_ & Hop & _ & _).
  unfold read_handler. rewrite Hop. cbn [negb andb].
  replace (0 <? size_of c) with true by lia. cbn [active_bytes_ recv_buffer_ read_op delivered].
  remember (Rx (splice _ _ _) _ _ _) as r1 eqn:Hr1.
  assert (delivered r1 = delivered (idle r) /\ read_op r1 = None) as [Hd Ho] by by subst.
  eapply outcome_rel_mono;
    [|eapply (process_buffer_spec _ ms e _ r1 st Hfr); [lia|lia|done|done|]].
  - intros st1 [r' st']. unfold process_post. rewrite Hd, Hb, Ho. done.
  - apply frames_length in Hfr; [|lia]. unfold process_fuel.
    rewrite <- Hp in Hfr. pose proof (size_pending r1 0 Hwf) as Hs.
    destruct Hwf. unfold size_of in Hs. lia.
Qed.

Lemma process_post_armed r ms rest s st1 r' st' :
  small_limits -> rx_armed r -> frames hdr mx f s ms (Partial rest) ->
  process_post (idle r) ms (Partial rest) st1 (r', st') ->
  rx_armed r' /\ pending r' 0 = rest /\ frames hdr mx f rest [] (Partial rest).
Proof using.
  intros [? ?] (_ & _ & _ & Hmax) Hfr (Hwf & Hd & Hp & _ & Hop & Hroom & Hb).
  split_and!; [|done|by eapply frames_rest].
  apply frames_partial_bound in Hfr. rewrite <- Hp in Hfr.
  rewrite (size_pending r' 0 Hwf) in Hfr by (destruct Hwf; lia).
  split_and!; try done. rewrite Hb. simpl. lia.
Qed.

(** Where reading stops. *)
Definition read_post (r : rx_state) (ms : list (list byte)) (e : frame_end)
    (r' : rx_state) (st' : St) : Prop :=
  delivered r' = delivered r ++ seen ms /\
  match e with
  | Partial rest => rx_armed r' /\ pending r' 0 = rest
  | Violation _ =>
      read_op r' = None /\ ep_is_open st' = false /\ rx_wf r' /\
      size_of (recv_buffer_ r') <= Z.max hdr mx + 65536
  end.

(** ** Termination *)

(** More iterations than the loop makes change nothing. *)
Lemma process_loop_fuel fuel fuel' r off st :
  (fuel <= fuel')%nat -> process_loop cfg on_recv_ fuel r off st <> OutOfFuel ->
  process_loop cfg on_recv_ fuel' r off st = process_loop cfg on_recv_ fuel r off st.
Proof using.
  clear f Hf Hcfg. revert fuel' r off st. induction fuel as [|fuel IH]; intros fuel' r off st Hle; [done|].
  destruct fuel' as [|fuel']; [lia|]. cbn [process_loop].
  destruct (_ <=? _); [|done]. destruct (get_total_size_ cfg); [|done].
  destruct (_ || _); [done|]. destruct (_ <=? _); [|done].
  destruct (deliver _ _ _ _ _) as [[r1 st1]| | | |]; simpl; try done. apply IH. lia.
Qed.

Definition callback_bounded : Prop :=
  forall cb st m, on_recv_ = Some cb -> rc_call cb st m <> OutOfFuel.

Lemma deliver_all_bounded ms st : callback_bounded -> deliver_all on_recv_ st ms <> OutOfFuel.
Proof using.
  intros Hcb. revert st. induction ms as [|m ms IH]; intros st; cbn [deliver_all]; [done|].
  unfold callback_bounded in Hcb. destruct on_recv_ as [cb|]; [|apply IH].
  pose proof (Hcb cb st m eq_refl). by destruct (rc_call cb st m) as [[st1 m1]| | | |]; simpl.
Qed.

(** The bytes in the buffer bound the iterations by the header size. *)
Lemma process_buffer_fuel fuel r st :
  small_limits -> callback_bounded -> rx_wf r -> active_bytes_ r / hdr < Z.of_nat fuel ->
  process_buffer cfg on_recv_ fuel r st <> OutOfFuel.
Proof using Hf Hcfg.
  intros [Hhdr Hmx] Hcb Hwf Hfuel.
  destruct (frames_total hdr mx f ltac:(lia) (pending r 0)) as (ms & e & Hfr).
  assert (length ms < fuel)%nat as Hlen.
  { apply frames_headers in Hfr; [|lia]. rewrite (size_pending r 0 Hwf) in Hfr by (destruct Hwf; lia).
    apply Nat2Z.inj_lt. eapply Z.le_lt_trans; [|exact Hfuel].
    apply Z.div_le_lower_bound; unfold size_of in *; lia. }
  pose proof (process_buffer_spec _ ms e fuel r st Hfr ltac:(lia) ltac:(lia) Hwf eq_refl Hlen) as Hspec.
  pose proof (deliver_all_bounded ms st Hcb) as Hd. intros Heq. rewrite Heq in Hspec. by inversion Hspec.
Qed.

(** What the application keeps in the endpoint's state, as a function of the messages
    delivered: [g] is what the callback does to it on a well-framed message, and the
    endpoint's own operations leave it alone. *)
Section Tracked.

Context {X : Type} (proj : St -> X) (g : X -> list byte -> X).

Record tracks : Prop := {
  track_close st : proj (ep_close st) = proj st;
  track_reset st : proj (ep_reset_read_timeout st) = proj st;
  track_call cb st m : on_recv_ = Some cb -> well_framed hdr mx f m ->
    exists st' m', rc_call cb st m = Ret (st', m') /\ proj st' = g (proj st) m;
}.

Lemma deliver_all_tracked ms st :
  tracks -> Forall (well_framed hdr mx f) ms ->
  exists st', deliver_all on_recv_ st ms = Ret st' /\ proj st' = foldl g (proj st) (seen ms).
Proof using.
  intros [_ _ Hcb] Hms. revert st. induction Hms as [|m ms Hm _ IH]; intros st.
  { exists st. unfold seen. by destruct on_recv_. }
  unfold seen in *. cbn [deliver_all]. destruct on_recv_ as [cb|]; [|apply IH].
  destruct (Hcb cb st m eq_refl Hm) as (st1 & m1 & -> & Hst1).
  destruct (IH st1) as (st' & Hrun & Hst'). exists st'. split; [exact Hrun|].
  cbn [foldl]. by rewrite Hst', Hst1.
Qed.

Lemma read_all_tracked cs r st p ms e :
  small_limits -> tracks -> rx_armed r ->
  reads_fit cfg on_recv_ cs r st ->
  pending r 0 = p -> frames hdr mx f p [] (Partial p) ->
  frames hdr mx f (p ++ concat cs) ms e ->
  exists r' st', read_all cfg on_recv_ cs r st = Ret (r', st') /\ read_post r ms e r' st' /\
    proj st' = foldl g (proj st) (seen ms).
Proof using Hf Hcfg.
  intros Hlim Hcb. revert r st p ms. induction cs as [|c cs IH];
    intros r st p ms Harm Hcs Hp Hleft Hfr; cbn [read_all].
  - simpl in Hfr. rewrite app_nil_r in Hfr.
    destruct (frames_det _ _ _ _ _ _ Hleft _ _ Hfr) as [<- <-].
    exists r, st. split; [done|]. unfold read_post, seen.
    split_and!; try done; destruct on_recv_; by rewrite ?app_nil_r.
  - pose proof Harm as (_ & Hop0 & _ & _). cbn [reads_fit] in Hcs. rewrite Hop0 in Hcs.
    destruct Hcs as [Hc Hcs]. destruct (frames_total hdr mx f ltac:(apply Hlim) (p ++ c)) as (ms1 & e1 & Hfr1).
    destruct (deliver_all_tracked ms1 st Hcb) as (st1 & Hst1 & Hpr1); [by eapply frames_well_framed|].
    pose proof Hfr1 as Hh. rewrite <- Hp in Hh.
    apply (read_handler_spec r c ms1 e1 st Hlim Harm Hc) in Hh. rewrite Hst1 in Hh.
    pose proof Harm as (Hwf & Hop & Hroom & Hmax). rewrite Hop.
    inversion Hh as [? [r1 st1'] Hpost Heq1 Heq2| | | |]; subst. clear Hh.
    specialize (Hcs r1 st1' (eq_sym Heq2)).
    simpl. simpl in Hfr. rewrite app_assoc in Hfr.
    destruct e1 as [rest1|rest1].
    + destruct (process_post_armed _ _ _ _ _ _ _ Hlim Harm Hfr1 Hpost) as (Harm1 & Hp1 & Hleft1).
      destruct (frames_total hdr mx f ltac:(apply Hlim) (rest1 ++ concat cs)) as (ms2 & e2 & Hfr2).
      pose proof (frames_app _ _ _ _ _ _ _ _ _ Hfr1 Hfr2) as Hfr'.
      destruct (frames_det _ _ _ _ _ _ Hfr _ _ Hfr') as [-> ->].
      destruct (IH r1 st1' rest1 ms2 Harm1 Hcs Hp1 Hleft1 Hfr2) as (r2 & st2 & -> & [Hd2 Hpost2] & Hpr2).
      exists r2, st2. split; [done|]. split.
      2: { destruct Hpost as (_ & _ & _ & -> & _). rewrite Hpr2, (track_reset Hcb), Hpr1, <- foldl_app.
           f_equal. unfold seen. by destruct on_recv_. }
      split; [|done].
      rewrite Hd2. destruct Hpost as (_ & Hd1 & _). rewrite Hd1. simpl.
      rewrite <- app_assoc. f_equal. unfold seen. by destruct on_recv_.
    + apply (frames_violation_app _ _ _ _ _ _ (concat cs)) in Hfr1.
      destruct (frames_det _ _ _ _ _ _ Hfr _ _ Hfr1) as [-> ->].
      destruct Hpost as (Hwf1 & Hd1 & -> & Hop1 & Hb1). simpl in Hop1, Hb1, Hd1.
      exists r1, (ep_close st1). split.
      { destruct cs; simpl; [done|]. by rewrite Hop1. }
      split; [|by rewrite (track_close Hcb)].
      unfold read_post. rewrite ep_close_closes. split_and!; done || lia.
Qed.

End Tracked.

Lemma read_all_spec cs r st p ms e :
  small_limits -> callback_returns -> rx_armed r ->
  reads_fit cfg on_recv_ cs r st ->
  pending r 0 = p -> frames hdr mx f p [] (Partial p) ->
  frames hdr mx f (p ++ concat cs) ms e ->
  exists r' st', read_all cfg on_recv_ cs r st = Ret (r', st') /\ read_post r ms e r' st'.
Proof using Hf Hcfg.
  intros Hlim Hcb Harm Hcs Hp Hleft Hfr.
  destruct (read_all_tracked (fun _ => tt) (fun _ _ => tt) cs r st p ms e) as (r' & st' & Hrun & Hpost & _);
    [done| |done..|eauto].
  split; [done..|]. intros cb st0 m Heq _. unfold callback_returns in Hcb. rewrite Heq in Hcb.
  destruct (Hcb st0 m) as (st1 & m1 & Hcall). eauto.
Qed.

(** There is always room for 64 KiB. *)
Lemma small_reads_fit cs r st :
  small_limits -> rx_armed r ->
  Forall (fun c => 0 < size_of c <= 65536) cs -> reads_fit cfg on_recv_ cs r st.
Proof using Hf Hcfg.
  intros Hlim Harm Hcs. revert r st Harm.
  induction Hcs as [|c cs Hc _ IH]; intros r st Harm; cbn [reads_fit]; [done|].
  pose proof Harm as (_ & Hop & Hroom & _). rewrite Hop. split; [lia|]. intros r' st' Hret.
  destruct (frames_total hdr mx f ltac:(apply Hlim) (pending r 0 ++ c)) as (ms & e & Hfr).
  pose proof (read_handler_spec r c ms e st Hlim Harm ltac:(lia) Hfr) as Hh.
  rewrite Hret in Hh. inversion Hh as [st1 ? Hpost| | | |]; subst.
  destruct e as [rest|rest].
  - apply IH. by eapply process_post_armed.
  - destruct Hpost as (_ & _ & _ & Hop' & _). simpl in Hop'.
    destruct cs; simpl; [done|]. by rewrite Hop'.
Qed.

End LoopSpec.

Lemma small_limits_wf cfg : small_limits cfg -> framing_config_wf cfg.
Proof. unfold small_limits, framing_config_wf, is_size. lia. Qed.

#[export] Hint Resolve small_limits_wf : librim.

(** ** Without a header there may be no progress

    With [header_size_ = 0] (the default of [ServerConfig] and [ClientConfig])
    a framing function that announces 0 bytes passes every test of the loop and
    moves nothing. *)

Section NoHeader.

Context {St : Type} `{!StreamEndpoint St}.
Context (cfg : framing_config) (cb : receive_callback St) (f : list byte -> Z).

Lemma process_loop_stuck fuel r off st :
  get_total_size_ cfg = Some f -> callback_returns (Some cb) ->
  header_size_ cfg = 0 -> 0 <= max_message_size_ cfg -> wrap 64 (f []) = 0 ->
  process_loop cfg (Some cb) fuel r off st = OutOfFuel.
Proof.
  intros Hf Hcb Hh Hm H0. revert r off st.
  induction fuel as [|fuel IH]; intros r off st; simpl; [done|].
  assert (subspan (recv_buffer_ r) off 0 = []) as Hempty by done.
  rewrite Hf, Hh, Hempty, H0.
  pose proof (wrap_range 64 (active_bytes_ r - off) ltac:(lia)) as Hsub.
  change (wrap 64 (active_bytes_ r - off)) with (active_bytes_ r -! off) in Hsub.
  replace (0 <=? active_bytes_ r -! off) with true by lia. simpl.
  replace (max_message_size_ cfg <? 0) with false by lia.
  destruct (Hcb st []) as (st' & m' & Hret). rewrite Hempty, Hret. simpl. apply IH.
Qed.

End NoHeader.

(** ** Properties *)

Section Properties.

Context {St : Type} `{!StreamEndpoint St}.
Context (cfg : framing_config) (cb : receive_callback St) (f : list byte -> Z).

(** C1: reassembly.  Whatever way the kernel cuts the byte stream into reads
    of one byte up to the room each read has, the receive path returns, hands the callback exactly the
    messages of the stream's framing, in order, and then either has a read
    outstanding with the unfinished message kept at the front of the buffer,
    or, if the stream has a header the endpoint refuses, has closed the endpoint
    and reads no more. *)
Theorem stream_reassembly cs ms e st :
  get_total_size_ cfg = Some f -> small_limits cfg -> callback_returns (Some cb) ->
  reads_fit cfg (Some cb) cs (start_receive rx_init) st ->
  frames (header_size_ cfg) (max_message_size_ cfg) f (concat cs) ms e ->
  exists r' st',
    read_all cfg (Some cb) cs (start_receive rx_init) st = Ret (r', st') /\
    delivered r' = ms /\
    match e with
    | Partial rest => pending r' 0 = rest /\ is_Some (read_op r')
    | Violation _ => read_op r' = None /\ ep_is_open st' = false
    end.
Proof.
  intros Hf Hlim Hcb Hcs Hfr.
  destruct (rx_init_armed cfg Hlim) as (Harm & Hp & Hd).
  destruct (read_all_spec cfg (Some cb) f Hf (small_limits_wf _ Hlim) cs _ st [] ms e
              Hlim Hcb Harm Hcs Hp) as (r' & st' & Hrun & Hdel & Hend).
  { apply frames_short. unfold size_of. simpl. destruct Hlim. lia. }
  { done. }
  exists r', st'. split; [done|]. rewrite Hdel, Hd. split; [done|].
  destruct e; [|tauto]. destruct Hend as ((_ & -> & _) & ->). eauto.
Qed.

(** Round trip.  A peer that sends well-framed messages back to back has
    exactly these messages delivered, in order, byte for byte, however the
    stream is cut; afterwards nothing is left in the buffer and the endpoint
    is waiting for more. *)
Theorem framed_roundtrip cs ms st :
  get_total_size_ cfg = Some f -> small_limits cfg -> callback_returns (Some cb) ->
  Forall (well_framed (header_size_ cfg) (max_message_size_ cfg) f) ms ->
  reads_fit cfg (Some cb) cs (start_receive rx_init) st -> concat cs = concat ms ->
  exists r' st',
    read_all cfg (Some cb) cs (start_receive rx_init) st = Ret (r', st') /\
    delivered r' = ms /\ active_bytes_ r' = 0 /\ is_Some (read_op r').
Proof.
  intros Hf Hlim Hcb Hms Hcs Hcat.
  destruct (rx_init_armed cfg Hlim) as (Harm & Hp & Hd).
  destruct (read_all_spec cfg (Some cb) f Hf (small_limits_wf _ Hlim) cs _ st [] ms (Partial [])
              Hlim Hcb Harm Hcs Hp) as (r' & st' & Hrun & Hdel & Harm' & Hrest).
  { apply frames_short. unfold size_of. simpl. destruct Hlim. lia. }
  { simpl. rewrite Hcat. apply frames_messages; [apply Hlim|done]. }
  exists r', st'. split; [done|]. rewrite Hdel, Hd. split; [done|].
  destruct Harm' as (Hwf & -> & _). split; [|eauto].
  destruct Hwf. pose proof (size_pending r' 0) as Hs. rewrite Hrest in Hs.
  rewrite <- (Z.sub_0_r (active_bytes_ r')), <- Hs; [done|split; lia|lia].
Qed.

(** C11: one run of [process_buffer] terminates within its fuel and consumes
    exactly the complete messages at the front of the buffer: it ends the way
    the callbacks run on these messages end (normally, by an exception, or
    never); on a normal end the incomplete rest is moved to offset 0, the timeout
    is re-armed, and a read into at least 65536 free bytes is started; on a
    header that announces less than itself or more than the limit the endpoint
    is closed and no read is started. *)
Theorem process_buffer_correct r s ms e st :
  get_total_size_ cfg = Some f -> small_limits cfg ->
  rx_wf r -> pending r 0 = s ->
  frames (header_size_ cfg) (max_message_size_ cfg) f s ms e ->
  outcome_rel (process_post (Some cb) r ms e)
    (deliver_all (Some cb) st ms)
    (process_buffer cfg (Some cb) (process_fuel r) r st).
Proof.
  intros Hf Hlim Hwf Hp Hfr.
  by apply (process_buffer_framed cfg (Some cb) f Hf (small_limits_wf _ Hlim) s).
Qed.

(** C14: memory bound.  Whatever bytes a peer sends, cut in whatever way, the
    receive buffer never grows beyond the larger of the two limits plus one
    64 KiB read, and the region given to an outstanding read lies inside it. *)
Theorem receive_buffer_bounded cs st :
  get_total_size_ cfg = Some f -> small_limits cfg -> callback_returns (Some cb) ->
  reads_fit cfg (Some cb) cs (start_receive rx_init) st ->
  exists r' st',
    read_all cfg (Some cb) cs (start_receive rx_init) st = Ret (r', st') /\
    size_of (recv_buffer_ r') <= Z.max (header_size_ cfg) (max_message_size_ cfg) + 65536 /\
    forall off room, read_op r' = Some (off, room) ->
      0 <= off /\ 65536 <= room /\ off + room = size_of (recv_buffer_ r').
Proof.
  intros Hf Hlim Hcb Hcs.
  destruct (rx_init_armed cfg Hlim) as (Harm & Hp & Hd).
  destruct (frames_total (header_size_ cfg) (max_message_size_ cfg) f
              ltac:(apply Hlim) (concat cs)) as (ms & e & Hfr).
  destruct (read_all_spec cfg (Some cb) f Hf (small_limits_wf _ Hlim) cs _ st [] ms e
              Hlim Hcb Harm Hcs Hp) as (r' & st' & Hrun & _ & Hend).
  { apply frames_short. unfold size_of. simpl. destruct Hlim. lia. }
  { done. }
  exists r', st'. split; [done|]. destruct e.
  - destruct Hend as [([? ?] & Hop & ? & ?) _]. split; [done|].
    intros off room. rewrite Hop. intros [= <- <-]. lia.
  - destruct Hend as (Hop & _ & _ & ?). split; [done|]. by rewrite Hop.
Qed.

(** C12: termination of the framing loop.  With a header of at least one byte and a
    callback that itself terminates, [process_buffer] leaves its loop after at most
    one iteration per header that fits into the buffer, and one more, for every
    content of the buffer and every framing function: so many iterations are enough,
    and allowing more changes nothing. *)
Theorem process_buffer_terminates r st fuel :
  get_total_size_ cfg = Some f -> small_limits cfg -> callback_bounded (Some cb) -> rx_wf r ->
  active_bytes_ r / header_size_ cfg < Z.of_nat fuel ->
  process_buffer cfg (Some cb) fuel r st <> OutOfFuel /\
  forall fuel', (fuel <= fuel')%nat ->
    process_buffer cfg (Some cb) fuel' r st = process_buffer cfg (Some cb) fuel r st.
Proof.
  intros Hf Hlim Hcb Hwf Hfuel.
  pose proof (process_buffer_fuel cfg (Some cb) f Hf (small_limits_wf _ Hlim) fuel r st Hlim Hcb Hwf Hfuel)
    as Hok.
  split; [exact Hok|]. intros fuel' Hle. unfold process_buffer in *.
  rewrite (process_loop_fuel cfg (Some cb) fuel fuel'); [done|exact Hle|].
  intros Heq. by rewrite Heq in Hok.
Qed.

(** Non-termination.  With [header_size_ = 0] and a framing function that
    announces 0 bytes, no number of iterations is enough: [process_buffer]
    spins for ever, inside the strand, calling the callback with an empty span. *)
Theorem zero_header_diverges r st fuel :
  get_total_size_ cfg = Some f -> callback_returns (Some cb) ->
  header_size_ cfg = 0 -> 0 <= max_message_size_ cfg -> wrap 64 (f []) = 0 ->
  process_buffer cfg (Some cb) fuel r st = OutOfFuel.
Proof.
  intros. unfold process_buffer. by erewrite process_loop_stuck.
Qed.

End Properties.

(** ** Witnesses

    The framing of tests/test_networking.cpp: a 4-byte length of what follows,
    returned by the lambda as [uint32_t], on a little-endian host. *)

Definition test_get_total_size (hdr : list byte) : Z :=
  wrap 32 (load_uint LittleEndian (take 4 hdr) + 4).

Definition test_config : framing_config :=
  FramingConfig 4 (10 * 1024 * 1024) (Some test_get_total_size).

#[local] Instance flag_endpoint : StreamEndpoint bool := {|
  ep_is_open st := st;
  ep_close _ := false;
  ep_reset_read_timeout st := st;
  ep_close_closes _ := eq_refl;
  ep_reset_is_open _ := eq_refl;
|}.

Definition silent_callback : receive_callback bool.
Proof. refine (ReceiveCallback (fun st m => Ret (st, m)) _). congruence. Defined.

Definition demo_message : list byte := [x03; x00; x00; x00; x61; x62; x63].

Lemma test_config_small : small_limits test_config.
Proof. unfold small_limits; simpl. lia. Qed.

Lemma silent_returns : callback_returns (Some silent_callback).
Proof. intros st m. by exists st, m. Qed.

Lemma demo_well_framed :
  well_framed (header_size_ test_config) (max_message_size_ test_config)
    test_get_total_size demo_message.
Proof. unfold well_framed. by vm_compute. Qed.

Lemma demo_reads_fit cs :
  Forall (fun c => 0 < size_of c <= 65536) cs ->
  reads_fit test_config (Some silent_callback) cs (start_receive rx_init) true.
Proof.
  apply (small_reads_fit test_config (Some silent_callback) test_get_total_size eq_refl
           (small_limits_wf _ test_config_small) _ _ _ test_config_small).
  apply (rx_init_armed test_config test_config_small).
Qed.

Lemma stream_reassembly_witness :
  exists r' st',
    read_all test_config (Some silent_callback) [take 5 demo_message; [x62; x63; x01]]
      (start_receive rx_init) true = Ret (r', st') /\
    delivered r' = [demo_message] /\ pending r' 0 = [x01] /\ is_Some (read_op r').
Proof.
  apply (stream_reassembly test_config silent_callback test_get_total_size
           [take 5 demo_message; [x62; x63; x01]] [demo_message] (Partial [x01]) true).
  - reflexivity.
  - apply test_config_small.
  - apply silent_returns.
  - apply demo_reads_fit. repeat constructor; by vm_compute.
  - change (concat _) with (demo_message ++ [x01]).
    apply frames_msg; [apply demo_well_framed|]. by apply frames_short.
Defined.

Lemma framed_roundtrip_witness :
  exists r' st',
    read_all test_config (Some silent_callback)
      [take 9 (demo_message ++ demo_message); drop 9 (demo_message ++ demo_message)]
      (start_receive rx_init) true = Ret (r', st') /\
    delivered r' = [demo_message; demo_message] /\ active_bytes_ r' = 0 /\
    is_Some (read_op r').
Proof.
  apply (framed_roundtrip test_config silent_callback test_get_total_size
           [take 9 (demo_message ++ demo_message); drop 9 (demo_message ++ demo_message)]
           [demo_message; demo_message] true).
  - reflexivity.
  - apply test_config_small.
  - apply silent_returns.
  - repeat constructor; apply demo_well_framed.
  - apply demo_reads_fit. repeat constructor; by vm_compute.
  - reflexivity.
Defined.

Lemma process_buffer_correct_witness :
  outcome_rel
    (process_post (Some silent_callback) (Rx demo_message 7 None []) [demo_message] (Partial []))
    (Ret true)
    (process_buffer test_config (Some silent_callback) 8 (Rx demo_message 7 None []) true).
Proof.
  apply (process_buffer_correct test_config silent_callback test_get_total_size
           (Rx demo_message 7 None []) demo_message [demo_message] (Partial []) true).
  - reflexivity.
  - apply test_config_small.
  - split; by vm_compute.
  - reflexivity.
  - rewrite <- (app_nil_r demo_message) at 1.
    apply frames_msg; [apply demo_well_framed|]. by apply frames_short.
Defined.

(** Twenty bytes and a header of four: six iterations are enough. *)
Lemma process_buffer_terminates_witness :
  process_buffer test_config (Some silent_callback) 6 (Rx (demo_message ++ demo_message ++ take 6 demo_message) 20 None [])
    true <> OutOfFuel.
Proof.
  apply (process_buffer_terminates test_config silent_callback test_get_total_size
           (Rx (demo_message ++ demo_message ++ take 6 demo_message) 20 None []) true 6 eq_refl test_config_small).
  - by intros cb st m [= <-].
  - split; by vm_compute.
  - by vm_compute.
Defined.

Lemma receive_buffer_bounded_witness :
  exists r' st',
    read_all test_config (Some silent_callback) [take 5 demo_message]
      (start_receive rx_init) true = Ret (r', st') /\
    size_of (recv_buffer_ r') <= Z.max 4 (10 * 1024 * 1024) + 65536 /\
    forall off room, read_op r' = Some (off, room) ->
      0 <= off /\ 65536 <= room /\ off + room = size_of (recv_buffer_ r').
Proof.
  apply (receive_buffer_bounded test_config silent_callback test_get_total_size
           [take 5 demo_message] true).
  - reflexivity.
  - apply test_config_small.
  - apply silent_returns.
  - apply demo_reads_fit. repeat constructor; by vm_compute.
Defined.

Lemma zero_header_diverges_witness :
  process_buffer (FramingConfig 0 (10 * 1024 * 1024) (Some (fun _ => 0)))
    (Some silent_callback) 1000 (Rx [x00] 1 None []) true = OutOfFuel.
Proof.
  apply (zero_header_diverges (FramingConfig 0 (10 * 1024 * 1024) (Some (fun _ => 0)))
           silent_callback (fun _ => 0)); try reflexivity; [apply silent_returns|].
  simpl. lia.
Defined.
