(* ===== verification/SendPipeline.v ===== *)
(** * The TCP send path: buffer pool, strand queue, gathered writes

    [TcpConnection] and [TcpClient] contain the same send path: [send] pops an
    idle buffer from the lock-free pool (spinning while it is empty), copies the
    payload and posts the buffer to the strand; the posted lambda appends it to
    [send_queue_] and starts [do_write] when the queue was empty; [do_write]
    gathers up to 512 buffers into one [async_write], whose completion handler
    recycles them and starts the next batch.

    Application threads, the strand and the kernel interleave.  The model is a
    machine whose events are the atomic actions of each of them, over a heap of
    buffers shared by all: the kernel reads a buffer byte by byte, at any time
    between the start of the write and its completion. *)

From S2P Require Import Prelude.
From Stdlib Require Import ZArith Lia.

Open Scope nat_scope.

(** [buffer_pool_{8192}] and the loop that fills it; [send_queue_{8192}]; the
    scatter/gather limit of [do_write]. *)
Definition pool_capacity : nat := Z.to_nat 8192.
Definition queue_capacity : nat := Z.to_nat 8192.
Definition batch_limit : nat := Z.to_nat 512.

Lemma batch_limit_pos : 0 < batch_limit.
Proof. unfold batch_limit. lia. Qed.

Lemma queue_capacity_pos : 0 < queue_capacity.
Proof. unfold queue_capacity. lia. Qed.

Lemma pool_queue_capacity : pool_capacity <= queue_capacity.
Proof. unfold pool_capacity, queue_capacity. lia. Qed.

#[global] Opaque pool_capacity queue_capacity batch_limit.

(** [boost::circular_buffer], as far as the send path relies on it: its content
    in order, and what its documentation says of [push_back] on a buffer of
    capacity [cap] (a full one overwrites its oldest element). *)
Class CircularBuffer := {
  circular_push_back : nat -> list nat -> nat -> list nat;
  circular_push_back_room cap q x :
    length q < cap -> circular_push_back cap q x = q ++ [x];
  circular_push_back_length cap q x :
    length (circular_push_back cap q x) = Nat.min cap (S (length q));
}.

Section Model.

Context `{!CircularBuffer}.

(** A thread inside [send(data)], by the statement it executes next. *)
Inductive sender :=
| Popping (data : list byte)
| Copying (data : list byte) (buf_ptr : nat)
| Posting (data : list byte) (buf_ptr : nat).

Definition sender_buf (s : sender) : list nat :=
  match s with Popping _ => [] | Copying _ b => [b] | Posting _ b => [b] end.

(** Buffers are named by their address.  [write_op] is the outstanding
    [async_write], as the number of bytes already handed to the network;
    [posted] the lambdas waiting in the strand, oldest first.  [accepted] and
    [wire] are history variables: the payloads in the order of their [post],
    and the bytes that have left on the socket. *)
Record pipe := Pipe {
  is_open : bool;
  heap : gmap nat (list byte);
  buffer_pool_ : list nat;
  send_queue_ : list nat;
  write_buffers_ : list (nat * nat);
  active_writes_ : nat;
  write_op : option nat;
  posted : list nat;
  threads : gmap nat sender;
  accepted : list (list byte);
  wire : list byte;
}.

(** The constructor, with [n] buffers. *)
Definition pipe_init (n : nat) : pipe :=
  Pipe true (list_to_map ((fun b => (b, [])) <$> seq 0 n)) (seq 0 n) [] [] 0 None [] ∅ [] [].

Definition set_threads (ts : gmap nat sender) (p : pipe) : pipe :=
  Pipe (is_open p) (heap p) (buffer_pool_ p) (send_queue_ p) (write_buffers_ p)
       (active_writes_ p) (write_op p) (posted p) ts (accepted p) (wire p).

Definition set_write (wb : list (nat * nat)) (n : nat) (op : option nat) (p : pipe) : pipe :=
  Pipe (is_open p) (heap p) (buffer_pool_ p) (send_queue_ p) wb n op
       (posted p) (threads p) (accepted p) (wire p).

Definition set_storage (h : gmap nat (list byte)) (pool q : list nat) (p : pipe) : pipe :=
  Pipe (is_open p) h pool q (write_buffers_ p) (active_writes_ p) (write_op p)
       (posted p) (threads p) (accepted p) (wire p).

Definition set_posted (l : list nat) (acc : list (list byte)) (p : pipe) : pipe :=
  Pipe (is_open p) (heap p) (buffer_pool_ p) (send_queue_ p) (write_buffers_ p)
       (active_writes_ p) (write_op p) l (threads p) acc (wire p).

Definition set_wire (op : option nat) (w : list byte) (p : pipe) : pipe :=
  Pipe (is_open p) (heap p) (buffer_pool_ p) (send_queue_ p) (write_buffers_ p)
       (active_writes_ p) op (posted p) (threads p) (accepted p) w.

(** [socket_.close()]. *)
Definition close_socket (p : pipe) : pipe :=
  Pipe false (heap p) (buffer_pool_ p) (send_queue_ p) (write_buffers_ p)
       (active_writes_ p) (write_op p) (posted p) (threads p) (accepted p) (wire p).

(** ** The strand's functions *)

(** The loop of [do_write]: [write_buffers_] and [active_writes_] after the
    buffers of [q]. *)
Fixpoint collect (h : gmap nat (list byte)) (q : list nat) (wb : list (nat * nat)) (n : nat) :
    outcome (list (nat * nat) * nat) :=
  match q with
  | [] => Ret (wb, n)
  | b :: q =>
      if batch_limit <=? n then Ret (wb, n)
      else match h !! b with
           | None => UB
           | Some data => collect h q (wb ++ [(b, length data)]) (S n)
           end
  end.

(** Starting an [async_write] while another one is outstanding on the same
    stream is outside Asio's contract. *)
Definition do_write (p : pipe) : outcome pipe :=
  '(wb, n) ← collect (heap p) (send_queue_ p) [] 0;
  match write_op p with
  | Some _ => UB
  | None => Ret (set_write wb n (Some 0) p)
  end.

(** The lambda posted by [send]. *)
Definition post_handler (buf_ptr : nat) (p : pipe) : outcome pipe :=
  let start_write := match send_queue_ p with [] => true | _ => false end in
  let p := set_storage (heap p) (buffer_pool_ p)
             (circular_push_back queue_capacity (send_queue_ p) buf_ptr) p in
  if start_write then do_write p else Ret p.

(** The recycling loop of the completion handler.  [push_ok b] tells whether
    [buffer_pool_.push(b)] succeeds; [front] of an empty buffer is undefined. *)
Fixpoint recycle (push_ok : nat -> bool) (n : nat) (p : pipe) : outcome pipe :=
  match n with
  | O => Ret p
  | S n =>
      match send_queue_ p with
      | [] => UB
      | b :: q =>
          recycle push_ok n
            (if push_ok b then set_storage (heap p) (buffer_pool_ p ++ [b]) q p
             else set_storage (delete b (heap p)) (buffer_pool_ p) q p)
      end
  end.

(** The completion handler of [async_write]; the flag of the result tells
    whether it goes on to call [close()]. *)
Definition write_handler (ec : bool) (push_ok : nat -> bool) (p : pipe) :
    outcome (pipe * bool) :=
  p ← recycle push_ok (active_writes_ p) (set_write (write_buffers_ p) (active_writes_ p) None p);
  if negb ec && match send_queue_ p with [] => false | _ => true end
  then p ← do_write p; Ret (p, false)
  else Ret (p, ec).

(** ** The machine *)

Inductive event :=
| EvSend (t : nat) (data : list byte)   (* thread [t] enters [send(data)] *)
| EvPop (t : nat)                       (* one [buffer_pool_.pop(buf_ptr)] *)
| EvCopy (t : nat)                      (* [resize] and [memcpy] *)
| EvPost (t : nat)                      (* [boost::asio::post], then return *)
| EvRunPosted                           (* the strand runs the oldest lambda *)
| EvTransmit                            (* the kernel sends one more byte *)
| EvWriteDone (ec : bool) (push_ok : nat -> bool)
| EvClose.                              (* [close()] executes in the strand *)

(** The bytes an outstanding write refers to, read from the heap as it is
    now; [None] when a buffer is gone or has become shorter. *)
Definition gather1 (h : gmap nat (list byte)) (cb : nat * nat) : option (list byte) :=
  data ← h !! cb.1; if cb.2 <=? length data then Some (take cb.2 data) else None.

Definition gather (h : gmap nat (list byte)) (wb : list (nat * nat)) : option (list byte) :=
  @concat byte <$> mapM (gather1 h) wb.

(** [None]: the event is not possible in this state. *)
Definition exec (e : event) (p : pipe) : option (outcome pipe) :=
  match e with
  | EvSend t data =>
      match threads p !! t with
      | Some _ => None
      | None =>
          if is_open p then Some (Ret (set_threads (<[t := Popping data]> (threads p)) p))
          else Some (Ret p) (* returns not_connected *)
      end
  | EvPop t =>
      match threads p !! t with
      | Some (Popping data) =>
          match buffer_pool_ p with
          | [] => Some (Ret p) (* yield, and try again *)
          | b :: pool =>
              Some (Ret (set_threads (<[t := Copying data b]> (threads p))
                          (set_storage (heap p) pool (send_queue_ p) p)))
          end
      | _ => None
      end
  | EvCopy t =>
      match threads p !! t with
      | Some (Copying data b) =>
          Some (match heap p !! b with
                | None => UB
                | Some _ =>
                    Ret (set_threads (<[t := Posting data b]> (threads p))
                           (set_storage (<[b := data]> (heap p)) (buffer_pool_ p) (send_queue_ p) p))
                end)
      | _ => None
      end
  | EvPost t =>
      match threads p !! t with
      | Some (Posting data b) =>
          Some (Ret (set_threads (delete t (threads p))
                       (set_posted (posted p ++ [b]) (accepted p ++ [data]) p)))
      | _ => None
      end
  | EvRunPosted =>
      match posted p with
      | [] => None
      | b :: l => Some (post_handler b (set_posted l (accepted p) p))
      end
  | EvTransmit =>
      match write_op p with
      | Some k =>
          if is_open p then
            match gather (heap p) (write_buffers_ p) with
            | None => Some UB
            | Some data =>
                match data !! k with
                | Some byte => Some (Ret (set_wire (Some (S k)) (wire p ++ [byte]) p))
                | None => None
                end
            end
          else None
      | None => None
      end
  | EvWriteDone ec push_ok =>
      match write_op p with
      | Some k =>
          if ec || (k =? sum_list (snd <$> write_buffers_ p)) then
            Some ('(p, must_close) ← write_handler ec push_ok p;
                  Ret (if must_close : bool then close_socket p else p))
          else None (* success is reported only when everything was sent *)
      | None => None
      end
  | EvClose => Some (Ret (close_socket p))
  end.

(** The events that neither complete a write nor close the socket. *)
Definition send_path_only (e : event) : bool :=
  match e with EvWriteDone _ _ | EvClose => false | _ => true end.

(** Reachability from a connection with [n] buffers. *)
Inductive reachable (n : nat) : pipe -> Prop :=
| reach_init : reachable n (pipe_init n)
| reach_step p e p' : reachable n p -> exec e p = Some (Ret p') -> reachable n p'.

(** Executing a schedule; [None] when an event of it is not possible or does
    not return normally. *)
Fixpoint run (es : list event) (p : pipe) : option pipe :=
  match es with
  | [] => Some p
  | e :: es => match exec e p with Some (Ret p') => run es p' | _ => None end
  end.

(** ** Views of a state *)

(** The payloads of the buffers [l]. *)
Definition contents (h : gmap nat (list byte)) (l : list nat) : list (list byte) :=
  (fun b => default [] (h !! b)) <$> l.

(** The buffers held by threads inside [send]. *)
Definition held (ts : gmap nat sender) : list nat :=
  map_to_list ts ≫= (fun x => sender_buf x.2).

(** Every place a buffer can be in. *)
Definition places (p : pipe) : list nat :=
  buffer_pool_ p ++ send_queue_ p ++ posted p ++ held (threads p).

(** The buffers of the outstanding write. *)
Definition batch (p : pipe) : list nat := take (active_writes_ p) (send_queue_ p).

Lemma contents_app h l k : contents h (l ++ k) = contents h l ++ contents h k.
Proof. apply fmap_app. Qed.

Lemma contents_ext h h' l :
  (forall b, b ∈ l -> h' !! b = h !! b) -> contents h' l = contents h l.
Proof.
  intros Hext. apply list_fmap_ext. intros i b Hb.
  rewrite Hext; [done|]. by eapply list_elem_of_lookup_2.
Qed.

Lemma contents_take h n l : contents h (take n l) = take n (contents h l).
Proof. apply fmap_take. Qed.

Lemma held_lookup ts t s :
  ts !! t = Some s -> held ts ≡ₚ sender_buf s ++ held (delete t ts).
Proof.
  intros Ht. unfold held. rewrite <- (map_to_list_delete ts t s Ht). done.
Qed.

Lemma held_insert ts t s :
  held (<[t := s]> ts) ≡ₚ sender_buf s ++ held (delete t ts).
Proof.
  rewrite (held_lookup (<[t := s]> ts) t s) by apply lookup_insert_eq.
  by rewrite delete_insert_eq.
Qed.

Lemma held_delete_none ts t : ts !! t = None -> held (delete t ts) = held ts.
Proof. intros Ht. by rewrite delete_id. Qed.

Lemma elem_of_held ts t s b : ts !! t = Some s -> b ∈ sender_buf s -> b ∈ held ts.
Proof. intros Ht Hb. rewrite held_lookup by done. set_solver. Qed.

(** Two threads never hold the same buffer. *)
Lemma held_disjoint ts t1 t2 s1 s2 b :
  NoDup (held ts) -> ts !! t1 = Some s1 -> ts !! t2 = Some s2 -> t1 <> t2 ->
  b ∈ sender_buf s1 -> b ∉ sender_buf s2.
Proof.
  intros Hnd H1 H2 Hne Hb1 Hb2.
  rewrite (held_lookup ts t1 s1 H1) in Hnd.
  apply NoDup_app in Hnd as (_ & Hdis & _).
  apply (Hdis b Hb1), (elem_of_held _ t2 s2); [|done].
  by rewrite lookup_delete_ne.
Qed.

(** ** The invariant *)

(** Each live buffer is in exactly one place. *)
Definition storage_inv (p : pipe) : Prop :=
  NoDup (places p) /\ forall b, b ∈ places p <-> is_Some (heap p !! b).

Definition write_inv (p : pipe) : Prop :=
  match write_op p with
  | None => is_open p = true -> send_queue_ p = []
  | Some k =>
      write_buffers_ p = (fun b => (b, length (default [] (heap p !! b)))) <$> batch p /\
      0 < active_writes_ p <= length (send_queue_ p) /\ active_writes_ p <= batch_limit /\
      k <= length (concat (contents (heap p) (batch p)))
  end.

(** While the socket is open: what was accepted is what has been recycled
    ([done]), then what the queue holds, then what the strand holds, and the
    bytes sent are [done] and the transmitted part of the current batch. *)
Definition stream_inv (p : pipe) : Prop :=
  exists don,
    accepted p = don ++ contents (heap p) (send_queue_ p ++ posted p) /\
    wire p = concat don ++
      take (default 0 (write_op p)) (concat (contents (heap p) (batch p))).

Record pipe_inv (n : nat) (p : pipe) : Prop := {
  inv_storage : storage_inv p;
  inv_size : size (heap p) <= n;
  inv_posting t d b : threads p !! t = Some (Posting d b) -> heap p !! b = Some d;
  inv_write : write_inv p;
  inv_stream : is_open p = true -> stream_inv p;
  inv_wire : wire p `prefix_of` concat (accepted p);
}.

Lemma stream_wire p : stream_inv p -> wire p `prefix_of` concat (accepted p).
Proof.
  intros (don & -> & ->). rewrite concat_app, contents_app. unfold batch.
  rewrite contents_take. apply prefix_app, prefix_take_concat.
Qed.

Lemma elem_of_places p b :
  b ∈ places p <->
  b ∈ buffer_pool_ p \/ b ∈ send_queue_ p \/ b ∈ posted p \/ b ∈ held (threads p).
Proof. unfold places. set_solver. Qed.

(** Moving a buffer from one place to another. *)
Lemma storage_inv_perm p p' :
  storage_inv p -> heap p' = heap p -> places p' ≡ₚ places p -> storage_inv p'.
Proof.
  intros [Hnd Hdom] Hh Hp. split; [by rewrite Hp|].
  intros b. by rewrite Hp, Hh.
Qed.

Lemma storage_length p : storage_inv p -> length (places p) = size (heap p).
Proof.
  intros [Hnd Hdom].
  rewrite <- (size_list_to_set (C := gset nat) (places p)) by done.
  rewrite <- size_dom. f_equal. apply set_eq. intros b.
  rewrite elem_of_list_to_set, elem_of_dom. apply Hdom.
Qed.

(** The queue has room for every buffer that can be posted to it. *)
Lemma queue_bound n p :
  pipe_inv n p -> length (send_queue_ p) + length (posted p) <= n.
Proof.
  intros [Hst Hsz _ _ _ _]. apply storage_length in Hst.
  unfold places in Hst. rewrite !length_app in Hst. lia.
Qed.

(** ** [do_write] *)

Definition const_buffers (h : gmap nat (list byte)) (l : list nat) : list (nat * nat) :=
  (fun b => (b, length (default [] (h !! b)))) <$> l.

Lemma collect_spec h q wb n :
  (forall b, b ∈ q -> is_Some (h !! b)) ->
  collect h q wb n =
  Ret (wb ++ const_buffers h (take (batch_limit - n) q), n + length (take (batch_limit - n) q)).
Proof.
  revert wb n. induction q as [|b q IH]; intros wb n Hq; simpl.
  - rewrite take_nil. unfold const_buffers. simpl. by rewrite app_nil_r, Nat.add_0_r.
  - destruct (Nat.leb_spec batch_limit n) as [Hle|Hlt].
    + replace (batch_limit - n) with 0 by lia. unfold const_buffers. simpl. by rewrite app_nil_r, Nat.add_0_r.
    + destruct (Hq b) as [data Hb]; [set_solver|]. rewrite Hb, IH by set_solver.
      replace (batch_limit - n) with (S (batch_limit - S n)) by lia. simpl.
      rewrite Hb. simpl. rewrite <- app_assoc. do 2 f_equal. lia.
Qed.

Definition write_started (p : pipe) : pipe :=
  set_write (const_buffers (heap p) (take batch_limit (send_queue_ p)))
            (length (take batch_limit (send_queue_ p))) (Some 0) p.

Lemma do_write_spec p :
  storage_inv p -> write_op p = None -> do_write p = Ret (write_started p).
Proof.
  intros [_ Hdom] Hop. unfold do_write. rewrite collect_spec, Hop; simpl.
  - unfold write_started. by rewrite Nat.sub_0_r.
  - intros b Hb. apply Hdom, elem_of_places. auto.
Qed.

Lemma batch_write_started p : batch (write_started p) = take batch_limit (send_queue_ p).
Proof. apply take_length_take. Qed.

Lemma write_inv_started p : send_queue_ p <> [] -> write_inv (write_started p).
Proof.
  intros Hq. unfold write_inv. rewrite batch_write_started. simpl.
  rewrite length_take. pose proof batch_limit_pos.
  destruct (send_queue_ p); [done|]. simpl. split_and!; [done|lia..].
Qed.

(** ** The recycling loop *)

Lemma recycle_spec push_ok n p :
  n <= length (send_queue_ p) -> storage_inv p ->
  exists h pool,
    let p' := set_storage h pool (drop n (send_queue_ p)) p in
    recycle push_ok n p = Ret p' /\ storage_inv p' /\ size h <= size (heap p) /\
    (forall b, b ∉ take n (send_queue_ p) -> h !! b = heap p !! b) /\
    ((forall b, push_ok b = true) ->
       h = heap p /\ pool = buffer_pool_ p ++ take n (send_queue_ p)).
Proof.
  revert p. induction n as [|n IH]; intros p Hn Hst.
  - exists (heap p), (buffer_pool_ p). rewrite drop_0, take_0, app_nil_r.
    split_and!; try done. by destruct p.
  - destruct (send_queue_ p) as [|b q] eqn:Hq; simpl in Hn; [lia|].
    cbn [recycle]. rewrite Hq.
    set (p1 := if push_ok b then _ else _).
    assert (send_queue_ p1 = q) as Hq1 by (unfold p1; by destruct (push_ok b)).
    assert (storage_inv p1 /\ size (heap p1) <= size (heap p) /\
            (forall b', b' <> b -> heap p1 !! b' = heap p !! b') /\
            (push_ok b = true -> heap p1 = heap p /\ buffer_pool_ p1 = buffer_pool_ p ++ [b]))
      as (Hst1 & Hsz1 & Hext1 & Hok1).
    { unfold p1. destruct (push_ok b) eqn:Hok; simpl.
      - split_and!; try done. eapply storage_inv_perm; [exact Hst|done|].
        unfold places; simpl. rewrite Hq. solve_Permutation.
      - split_and!; [|rewrite map_size_delete; destruct (heap p !! b); unfold id; lia|by intros; rewrite lookup_delete_ne|done].
        destruct Hst as [Hnd Hdom]. unfold storage_inv, places in *; simpl. rewrite Hq in *.
        assert (NoDup (b :: buffer_pool_ p ++ q ++ posted p ++ held (threads p))) as Hnd'.
        { eapply NoDup_Permutation_proper; [|exact Hnd]. solve_Permutation. }
        apply NoDup_cons in Hnd' as [Hb Hnd']. split; [done|].
        intros b'. destruct (decide (b' = b)) as [->|Hne].
        + rewrite lookup_delete_eq. split; [done|by intros []].
        + rewrite lookup_delete_ne, <- Hdom by done.
          rewrite !elem_of_app, elem_of_cons. naive_solver. }
    assert (forall h pool q', set_storage h pool q' p1 = set_storage h pool q' p) as Hset.
    { intros. unfold p1. by destruct (push_ok b). }
    clearbody p1. rewrite <- Hq1 in Hn.
    destruct (IH p1 ltac:(lia) Hst1) as (h & pool & -> & Hst2 & Hsz2 & Hext2 & Hok2).
    rewrite Hq1 in *.
    exists h, pool. rewrite Hset in *. cbn [drop take].
    split_and!; [done|done|lia| |].
    + intros b' Hb'. rewrite Hext2, Hext1; [done|set_solver..].
    + intros Hok. destruct (Hok1 (Hok b)) as [Hh Hp]. destruct (Hok2 Hok) as [-> ->].
      by rewrite Hh, Hp, <- app_assoc.
Qed.

(** ** Each event preserves the invariant *)

(** Heap changes outside the queued and posted buffers. *)
Lemma stream_inv_ext p p' :
  stream_inv p ->
  send_queue_ p' = send_queue_ p -> posted p' = posted p ->
  active_writes_ p' = active_writes_ p -> write_op p' = write_op p ->
  accepted p' = accepted p -> wire p' = wire p ->
  (forall b, b ∈ send_queue_ p ++ posted p -> heap p' !! b = heap p !! b) ->
  stream_inv p'.
Proof.
  intros (don & Hacc & Hw) Hq Hp Ha Ho Hac Hwi Hext. exists don.
  unfold batch in *. rewrite Hq, Hp, Ha, Ho, Hac, Hwi, Hacc, Hw.
  rewrite (contents_ext (heap p) (heap p') (_ ++ _)) by done. split; [done|].
  rewrite (contents_ext (heap p) (heap p') (take _ _)); [done|].
  intros b Hb. apply Hext. apply elem_of_app. left. by apply elem_of_take in Hb as (? & ?%list_elem_of_lookup_2 & ?).
Qed.

Lemma write_inv_ext p p' :
  write_inv p ->
  is_open p' = is_open p -> send_queue_ p' = send_queue_ p ->
  active_writes_ p' = active_writes_ p -> write_op p' = write_op p ->
  write_buffers_ p' = write_buffers_ p ->
  (forall b, b ∈ send_queue_ p -> heap p' !! b = heap p !! b) ->
  write_inv p'.
Proof.
  intros Hw Hopen Hq Ha Ho Hb Hext. unfold write_inv, batch in *.
  rewrite Hopen, Ho, Hq, Ha, Hb.
  destruct (write_op p) as [k|]; [|done].
  assert (forall b, b ∈ take (active_writes_ p) (send_queue_ p) -> heap p' !! b = heap p !! b) as Hext'.
  { intros b Hin. apply Hext. by apply elem_of_take in Hin as (? & ?%list_elem_of_lookup_2 & ?). }
  rewrite (contents_ext (heap p) (heap p') (take _ _)) by done.
  destruct Hw as (Hwb & Hrest). split; [|done]. rewrite Hwb.
  apply list_fmap_ext. intros i b Hin%list_elem_of_lookup_2. by rewrite Hext'.
Qed.

Definition posting_inv (p : pipe) : Prop :=
  forall t d b, threads p !! t = Some (Posting d b) -> heap p !! b = Some d.

(** A step that leaves the queue, the strand and the socket alone. *)
Lemma inv_thread_step n p p' :
  pipe_inv n p -> storage_inv p' -> size (heap p') <= size (heap p) -> posting_inv p' ->
  is_open p' = is_open p -> send_queue_ p' = send_queue_ p -> posted p' = posted p ->
  active_writes_ p' = active_writes_ p -> write_op p' = write_op p ->
  write_buffers_ p' = write_buffers_ p -> accepted p' = accepted p -> wire p' = wire p ->
  (forall b, b ∈ send_queue_ p ++ posted p -> heap p' !! b = heap p !! b) ->
  pipe_inv n p'.
Proof.
  intros [] ? ? ? Hopen ? ? ? ? ? Hacc Hwire Hext. split; try done.
  - lia.
  - eapply write_inv_ext; try done. set_solver.
  - rewrite Hopen. intros Ho. eapply stream_inv_ext; [by apply inv_stream0|done..].
  - by rewrite Hacc, Hwire.
Qed.

Lemma inv_send n p t data :
  pipe_inv n p -> threads p !! t = None ->
  pipe_inv n (set_threads (<[t := Popping data]> (threads p)) p).
Proof.
  intros Hinv Ht. eapply inv_thread_step; try done; destruct Hinv.
  - eapply storage_inv_perm; [done..|]. unfold places; simpl.
    rewrite held_insert, held_delete_none; done.
  - intros t' d b; simpl. rewrite lookup_insert. case_decide; [done|]. apply inv_posting0.
Qed.

Lemma inv_pop n p t data b pool :
  pipe_inv n p -> threads p !! t = Some (Popping data) -> buffer_pool_ p = b :: pool ->
  pipe_inv n (set_threads (<[t := Copying data b]> (threads p))
                (set_storage (heap p) pool (send_queue_ p) p)).
Proof.
  intros Hinv Ht Hpool. eapply inv_thread_step; try done; destruct Hinv.
  - eapply storage_inv_perm; [done..|]. unfold places; simpl.
    rewrite held_insert, (held_lookup (threads p) t) by done. rewrite Hpool. simpl.
    solve_Permutation.
  - intros t' d b'; simpl. rewrite lookup_insert. case_decide; [done|]. apply inv_posting0.
Qed.

Lemma NoDup_places_held p : storage_inv p -> NoDup (held (threads p)).
Proof. intros [Hnd _]. unfold places in Hnd. by do 3 apply NoDup_app in Hnd as (_ & _ & Hnd). Qed.

Lemma held_not_queued p b :
  storage_inv p -> b ∈ held (threads p) -> b ∉ send_queue_ p ++ posted p.
Proof.
  intros [Hnd _] Hb Hin. unfold places in Hnd. rewrite !app_assoc in Hnd.
  apply NoDup_app in Hnd as (_ & Hdis & _). apply (Hdis b); [|done]. set_solver.
Qed.

Lemma inv_copy n p t data b :
  pipe_inv n p -> threads p !! t = Some (Copying data b) ->
  pipe_inv n (set_threads (<[t := Posting data b]> (threads p))
                (set_storage (<[b := data]> (heap p)) (buffer_pool_ p) (send_queue_ p) p)).
Proof.
  intros Hinv Ht. pose proof Hinv as [Hst Hsz Hpost _ _ _].
  assert (b ∈ held (threads p)) as Hheld by (eapply elem_of_held; [done|set_solver]).
  assert (is_Some (heap p !! b)) as Hb.
  { apply Hst, elem_of_places. auto. }
  eapply inv_thread_step; try done.
  - destruct Hst as [Hnd Hdom]. unfold storage_inv. 
    assert (places (set_threads (<[t:=Posting data b]> (threads p))
       (set_storage (<[b:=data]> (heap p)) (buffer_pool_ p) (send_queue_ p) p)) ≡ₚ places p) as Hpl.
    { unfold places; simpl. by rewrite held_insert, (held_lookup (threads p) t) by done. }
    split; [by rewrite Hpl|]. intros b'. rewrite Hpl, Hdom. simpl.
    rewrite lookup_insert. case_decide as Hbb; [|done]. subst. naive_solver.
  - simpl. by rewrite map_size_insert_Some.
  - intros t' d b'; simpl. rewrite lookup_insert. case_decide as Htt.
    + intros [= -> ->]. apply lookup_insert_eq.
    + intros Ht'. rewrite lookup_insert_ne; [by eapply Hpost|]. intros <-.
      eapply (held_disjoint (threads p) t t' _ _ b); [by apply NoDup_places_held|done..| |]; set_solver.
  - intros b' Hb'; simpl. rewrite lookup_insert_ne; [done|]. intros <-.
    by eapply held_not_queued.
Qed.

Lemma inv_post n p t data b :
  pipe_inv n p -> threads p !! t = Some (Posting data b) ->
  pipe_inv n (set_threads (delete t (threads p))
                (set_posted (posted p ++ [b]) (accepted p ++ [data]) p)).
Proof.
  intros [Hst Hsz Hpost Hwr Hstr Hwire] Ht. split; try done.
  - eapply storage_inv_perm; [done..|]. unfold places; simpl.
    rewrite (held_lookup (threads p) t) by done. simpl. solve_Permutation.
  - intros t' d b'; simpl. rewrite lookup_delete. case_decide; [done|]. apply Hpost.
  - intros Ho. destruct (Hstr Ho) as (don & Hacc & Hw). exists don. simpl. split; [|done].
    rewrite Hacc, !contents_app, !app_assoc. f_equal.
    unfold contents; simpl. by rewrite (Hpost _ _ _ Ht).
  - simpl. rewrite concat_app. by apply prefix_app_r.
Qed.

Lemma inv_close n p : pipe_inv n p -> pipe_inv n (close_socket p).
Proof.
  intros []. split; try done. unfold write_inv in *. simpl. by destruct (write_op p).
Qed.

(** A step that starts a write on a non-empty queue. *)
Lemma inv_write_started n p :
  storage_inv p -> size (heap p) <= n -> posting_inv p -> send_queue_ p <> [] ->
  (is_open p = true -> exists don,
     accepted p = don ++ contents (heap p) (send_queue_ p ++ posted p) /\
     wire p = concat don) ->
  wire p `prefix_of` concat (accepted p) ->
  pipe_inv n (write_started p).
Proof.
  intros Hst Hsz Hpost Hq Hstr Hw. split; try done.
  - by apply write_inv_started.
  - intros Ho. destruct (Hstr Ho) as (don & Hacc & Hwire). exists don. simpl.
    by rewrite app_nil_r.
Qed.

Lemma no_write_op_empty p : write_inv p -> send_queue_ p = [] -> write_op p = None.
Proof.
  unfold write_inv. intros Hw Hq. destruct (write_op p); [|done].
  rewrite Hq in Hw. simpl in Hw. lia.
Qed.

Definition enqueued (b : nat) (l : list nat) (p p' : pipe) : Prop :=
  send_queue_ p' = send_queue_ p ++ [b] /\ posted p' = l /\
  accepted p' = accepted p /\ wire p' = wire p /\ threads p' = threads p /\
  is_open p' = is_open p /\ buffer_pool_ p' = buffer_pool_ p /\ heap p' = heap p.

Lemma inv_run_posted n p b l :
  n <= queue_capacity -> pipe_inv n p -> posted p = b :: l ->
  exists p', post_handler b (set_posted l (accepted p) p) = Ret p' /\
             pipe_inv n p' /\ enqueued b l p p'.
Proof.
  intros Hn Hinv Hposted. pose proof (queue_bound n p Hinv) as Hbound.
  rewrite Hposted in Hbound. simpl in Hbound.
  destruct Hinv as [Hst Hsz Hpost Hwr Hstr Hwire].
  unfold post_handler. cbn [send_queue_ set_posted heap buffer_pool_ set_storage].
  rewrite circular_push_back_room by lia.
  set (p1 := set_storage _ _ _ _).
  assert (storage_inv p1) as Hst1.
  { eapply storage_inv_perm; [exact Hst|done|]. unfold places; simpl.
    rewrite Hposted. solve_Permutation. }
  assert (contents (heap p) (send_queue_ p ++ posted p) =
          contents (heap p1) (send_queue_ p1 ++ posted p1)) as Hcont.
  { simpl. rewrite Hposted. by rewrite <- app_assoc. }
  destruct (send_queue_ p) as [|b0 q] eqn:Hq.
  - pose proof (no_write_op_empty p Hwr Hq) as Hop.
    exists (write_started p1). split; [by apply do_write_spec|]. split.
    + apply inv_write_started; try done. intros Ho.
      destruct (Hstr Ho) as (don & Hacc & Hw). exists don. rewrite <- Hcont. split.
      { simpl. rewrite Hacc, Hq. done. }
      simpl. rewrite Hw, Hop, take_0. apply app_nil_r.
    + unfold enqueued; simpl. rewrite Hq. done.
  - exists p1. split; [done|]. split.
    + assert (is_Some (write_op p) \/ is_open p = false) as Hact.
      { unfold write_inv in Hwr. destruct (write_op p); [eauto|].
        destruct (is_open p); [|auto]. specialize (Hwr eq_refl). congruence. }
      assert (write_op p <> None -> batch p1 = batch p) as Hbatch.
      { unfold write_inv in Hwr. intros Hop. destruct (write_op p); [|done].
        change (take (active_writes_ p) ((b0 :: q) ++ [b]) = batch p).
        rewrite <- Hq, take_app_le by lia. done. }
      split; try done.
      * unfold write_inv in *; simpl. destruct (write_op p) eqn:Hop.
        { rewrite Hbatch by done. rewrite length_app. simpl. rewrite Hq in Hwr. simpl in *.
          destruct Hwr as (? & ? & ? & ?). split_and!; try done || lia. }
        { intros Ho. by destruct Hact as [[]|]; congruence. }
      * simpl. intros Ho. destruct Hact as [Hact|]; [|congruence].
        destruct (Hstr Ho) as (don & Hacc & Hw). exists don. rewrite <- Hcont. split.
        { simpl. by rewrite Hacc, Hq. }
        rewrite Hbatch; [done|]. by destruct Hact as [? ->].
    + unfold enqueued; simpl. rewrite Hq. done.
Qed.

(** ** The kernel's view of the buffers *)

Lemma gather_const_buffers h l :
  (forall b, b ∈ l -> is_Some (h !! b)) ->
  gather h (const_buffers h l) = Some (concat (contents h l)).
Proof.
  intros Hl. unfold gather.
  assert (mapM (gather1 h) (const_buffers h l) = Some (contents h l)) as ->; [|done].
  induction l as [|b l IH]; [done|]. simpl.
  destruct (Hl b) as [data Hb]; [set_solver|].
  rewrite IH by set_solver. unfold gather1; simpl. rewrite Hb; simpl.
  rewrite Nat.leb_refl; simpl. by rewrite firstn_all.
Qed.

Lemma sum_const_buffers h l :
  sum_list (snd <$> const_buffers h l) = length (concat (contents h l)).
Proof.
  induction l as [|b l IH]; [done|]. simpl. rewrite length_app. f_equal. apply IH.
Qed.

Lemma batch_live p b : storage_inv p -> b ∈ batch p -> is_Some (heap p !! b).
Proof.
  intros [_ Hdom] Hb. apply Hdom, elem_of_places.
  apply elem_of_take in Hb as (? & ?%list_elem_of_lookup_2 & ?). auto.
Qed.

Lemma gather_batch p k :
  storage_inv p -> write_inv p -> write_op p = Some k ->
  gather (heap p) (write_buffers_ p) = Some (concat (contents (heap p) (batch p))) /\
  sum_list (snd <$> write_buffers_ p) = length (concat (contents (heap p) (batch p))).
Proof.
  intros Hst Hw Hop. unfold write_inv in Hw. rewrite Hop in Hw.
  destruct Hw as (-> & _). split; [|apply sum_const_buffers].
  apply gather_const_buffers. intros b. by apply batch_live.
Qed.

Lemma inv_transmit n p k byte :
  pipe_inv n p -> write_op p = Some k -> is_open p = true ->
  concat (contents (heap p) (batch p)) !! k = Some byte ->
  pipe_inv n (set_wire (Some (S k)) (wire p ++ [byte]) p).
Proof.
  intros [Hst Hsz Hpost Hwr Hstr Hwire] Hop Ho Hk.
  assert (stream_inv (set_wire (Some (S k)) (wire p ++ [byte]) p)) as Hstr'.
  { destruct (Hstr Ho) as (don & Hacc & Hw). exists don. split; [done|].
    change (wire (set_wire _ _ _)) with (wire p ++ [byte]). simpl.
    change (batch (set_wire _ _ _)) with (batch p).
    erewrite take_S_r by done. by rewrite Hw, Hop, app_assoc. }
  split; try done; [|by apply stream_wire].
  apply lookup_lt_Some in Hk. unfold write_inv in *. rewrite Hop in Hwr. simpl.
  change (batch (set_wire _ _ _)) with (batch p).
  destruct Hwr as (? & ? & ? & ?). split_and!; done || lia.
Qed.

(** ** The completion handler *)

Lemma NoDup_queue p : storage_inv p -> NoDup (send_queue_ p).
Proof.
  intros [Hnd _]. unfold places in Hnd.
  apply NoDup_app in Hnd as (_ & _ & Hnd). by apply NoDup_app in Hnd as (Hnd & _ & _).
Qed.

(** The buffers that stay queued or posted are not the recycled ones. *)
Lemma rest_not_batch p b :
  storage_inv p -> b ∈ drop (active_writes_ p) (send_queue_ p) ++ posted p -> b ∉ batch p.
Proof.
  intros [Hnd _] Hin Hb. unfold places in Hnd. unfold batch in Hb.
  rewrite <- (take_drop (active_writes_ p) (send_queue_ p)) in Hnd.
  apply NoDup_app in Hnd as (_ & _ & Hnd).
  rewrite !app_assoc in Hnd. apply NoDup_app in Hnd as (Hnd & _ & _).
  rewrite <- app_assoc in Hnd. apply NoDup_app in Hnd as (_ & Hdis & _).
  by apply (Hdis b).
Qed.

Definition recycled (ec : bool) (push_ok : nat -> bool) (p p' : pipe) : Prop :=
  send_queue_ p' = drop (active_writes_ p) (send_queue_ p) /\ posted p' = posted p /\
  accepted p' = accepted p /\ wire p' = wire p /\ threads p' = threads p /\
  is_open p' = is_open p /\
  ((forall b, push_ok b = true) ->
     heap p' = heap p /\ buffer_pool_ p' = buffer_pool_ p ++ batch p).

Lemma inv_write_done n p k ec push_ok :
  pipe_inv n p -> write_op p = Some k ->
  (ec = false -> k = length (concat (contents (heap p) (batch p)))) ->
  exists p', write_handler ec push_ok p = Ret (p', ec) /\
             pipe_inv n (if ec then close_socket p' else p') /\
             recycled ec push_ok p p' /\
             (ec = true -> write_op p' = None).
Proof.
  intros [Hst Hsz Hpost Hwr Hstr Hwire] Hop Hk.
  pose proof Hwr as Hwr0. unfold write_inv in Hwr0. rewrite Hop in Hwr0.
  destruct Hwr0 as (_ & Hact & _ & _).
  unfold write_handler. set (p0 := set_write _ _ None p).
  assert (storage_inv p0) as Hst0 by exact Hst.
  destruct (recycle_spec push_ok (active_writes_ p) p0) as (h & pool & -> & Hst1 & Hsz1 & Hext & Hok);
    [simpl; lia|done|].
  simpl in Hst1, Hsz1, Hext, Hok |- *.
  set (p1 := set_storage h pool _ p0) in *.
  assert (forall b, b ∈ send_queue_ p1 ++ posted p1 -> h !! b = heap p !! b) as Hrest.
  { intros b Hb. apply Hext. by apply rest_not_batch. }
  assert (posting_inv p1) as Hpost1.
  { intros t d b Ht. simpl in Ht |- *. rewrite Hext; [by eapply Hpost|].
    intros Hb%elem_of_take. destruct Hb as (? & ?%list_elem_of_lookup_2 & _).
    apply (held_not_queued p b Hst); [|set_solver].
    eapply elem_of_held; [done|set_solver]. }
  assert (recycled ec push_ok p p1) as Hrec by done.
  assert (contents h (send_queue_ p1 ++ posted p1) =
          contents (heap p) (send_queue_ p1 ++ posted p1)) as Hcont
    by (by apply contents_ext).
  assert (is_open p = true -> ec = false -> exists don,
     accepted p1 = don ++ contents h (send_queue_ p1 ++ posted p1) /\
     wire p1 = concat don) as Hstr1.
  { intros Ho ->. destruct (Hstr Ho) as (don & Hacc & Hw).
    exists (don ++ contents (heap p) (batch p)). rewrite Hcont. split.
    - simpl. rewrite Hacc, <- app_assoc. f_equal. rewrite <- contents_app, app_assoc.
      unfold batch. by rewrite take_drop.
    - simpl. rewrite Hw, Hop, concat_app. f_equal. simpl. rewrite Hk by done.
      apply firstn_all. }
  destruct ec; cbn [negb andb].
  - exists p1. split; [done|]. split; [|split; [exact Hrec|done]].
    split; try done; simpl; lia.
  - destruct (drop (active_writes_ p) (send_queue_ p)) as [|b q] eqn:Hdrop.
    + exists p1. split; [done|]. split; [|split; [exact Hrec|done]].
      split; try done; [simpl; lia|].
      intros Ho. destruct (Hstr1 Ho eq_refl) as (don & Hacc & Hw).
      exists don. split; [done|]. rewrite Hw. simpl. by rewrite take_0, app_nil_r.
    + rewrite (do_write_spec p1 Hst1) by done. exists (write_started p1).
      split; [done|]. split; [|split; [exact Hrec|done]].
      apply inv_write_started; try done; [simpl; lia|].
      intros Ho. by apply Hstr1.
Qed.

(** ** Reachable states *)

Lemma held_empty : held ∅ = [].
Proof. unfold held. by rewrite map_to_list_empty. Qed.

Lemma inv_init n : pipe_inv n (pipe_init n).
Proof.
  assert (((fun b : nat => (b, [] : list byte)) <$> seq 0 n).*1 = seq 0 n) as Hfst.
  { rewrite <- list_fmap_compose. apply list_fmap_id. }
  assert (dom (heap (pipe_init n)) = list_to_set (C := gset nat) (seq 0 n)) as Hdom.
  { simpl. by rewrite dom_list_to_map_L, Hfst. }
  split; try done.
  - split.
    + unfold places; simpl. rewrite held_empty, app_nil_r. apply NoDup_seq.
    + intros b. rewrite <- elem_of_dom, Hdom, elem_of_list_to_set.
      unfold places; simpl. by rewrite held_empty, app_nil_r.
  - rewrite <- size_dom, Hdom, size_list_to_set by apply NoDup_seq. by rewrite length_seq.
  - intros _. by exists [].
Qed.

(** Every event that is possible returns normally and keeps the invariant. *)
Lemma exec_inv n e p o :
  n <= queue_capacity -> pipe_inv n p -> exec e p = Some o ->
  exists p', o = Ret p' /\ pipe_inv n p'.
Proof.
  intros Hn Hinv. pose proof Hinv as [Hst _ _ Hwr _ _].
  destruct e as [t data|t|t|t| | |ec push_ok|]; simpl.
  - destruct (threads p !! t) eqn:Ht; [done|].
    destruct (is_open p); intros [= <-]; eauto using inv_send.
  - destruct (threads p !! t) as [[data| |]|] eqn:Ht; try done.
    destruct (buffer_pool_ p) eqn:Hp; intros [= <-]; eauto using inv_pop.
  - destruct (threads p !! t) as [[|data b|]|] eqn:Ht; try done. intros [= <-].
    assert (is_Some (heap p !! b)) as [d ->].
    { apply Hst, elem_of_places. do 3 right. eapply elem_of_held; [done|set_solver]. }
    eauto using inv_copy.
  - destruct (threads p !! t) as [[| |data b]|] eqn:Ht; try done. intros [= <-].
    eauto using inv_post.
  - destruct (posted p) as [|b l] eqn:Hl; [done|]. intros [= <-].
    destruct (inv_run_posted n p b l Hn Hinv Hl) as (p' & -> & ? & _). eauto.
  - destruct (write_op p) as [k|] eqn:Hop; [|done]. destruct (is_open p) eqn:Ho; [|done].
    destruct (gather_batch p k Hst Hwr Hop) as [-> _].
    destruct (_ !! k) as [byte|] eqn:Hk; [|done]. intros [= <-].
    eauto using inv_transmit.
  - destruct (write_op p) as [k|] eqn:Hop; [|done].
    destruct (gather_batch p k Hst Hwr Hop) as [_ ->].
    destruct (_ || _) eqn:Hec; [|done]. intros [= <-].
    destruct (inv_write_done n p k ec push_ok Hinv Hop) as (p' & -> & ? & _); [|simpl; eauto].
    intros ->. simpl in Hec. by apply Nat.eqb_eq in Hec.
  - intros [= <-]. eauto using inv_close.
Qed.

Lemma reachable_inv n p : n <= queue_capacity -> reachable n p -> pipe_inv n p.
Proof.
  intros Hn. induction 1 as [|p e p' _ IH He]; [apply inv_init|].
  destruct (exec_inv n e p _ Hn IH He) as (p'' & [= <-] & ?). done.
Qed.

Lemma reachable_run n es p p' : reachable n p -> run es p = Some p' -> reachable n p'.
Proof.
  revert p. induction es as [|e es IH]; intros p Hr; simpl; [by intros [= <-]|].
  destruct (exec e p) as [[p1| | | |]|] eqn:He; try done.
  apply IH. by eapply reach_step.
Qed.

Lemma run_app es1 es2 p :
  run (es1 ++ es2) p = run es1 p ≫= run es2.
Proof.
  revert p. induction es1 as [|e es1 IH]; intros p; simpl; [done|].
  destruct (exec e p) as [[p1| | | |]|]; simpl; auto.
Qed.

(** ** Draining *)

(** Events of the strand and the kernel in which nothing fails. *)
Definition benign (e : event) : Prop :=
  match e with
  | EvRunPosted | EvTransmit => True
  | EvWriteDone ec push_ok => ec = false /\ forall b, push_ok b = true
  | _ => False
  end.

(** What draining leaves unchanged. *)
Definition same_load (p p' : pipe) : Prop :=
  accepted p' = accepted p /\ threads p' = threads p /\ is_open p' = is_open p /\
  buffer_pool_ p' ++ send_queue_ p' ++ posted p' ≡ₚ
  buffer_pool_ p ++ send_queue_ p ++ posted p.

Lemma same_load_trans p q r : same_load p q -> same_load q r -> same_load p r.
Proof.
  intros (Ha & Ht & Ho & Hp) (Ha' & Ht' & Ho' & Hp'). split_and!; try congruence.
  by rewrite Hp'.
Qed.

(** The kernel sends the whole outstanding batch. *)
Lemma run_transmit n p k m :
  pipe_inv n p -> n <= queue_capacity -> is_open p = true -> write_op p = Some k ->
  k + m = length (concat (contents (heap p) (batch p))) ->
  exists p', run (replicate m EvTransmit) p = Some p' /\ pipe_inv n p' /\
    p' = set_wire (Some (k + m)) (wire p') p.
Proof.
  revert p k. induction m as [|m IH]; intros p k Hinv Hn Ho Hop Hk.
  - exists p. split_and!; try done. rewrite Nat.add_0_r, <- Hop. by destruct p.
  - pose proof Hinv as [Hst _ _ Hwr _ _].
    destruct (lookup_lt_is_Some_2 (concat (contents (heap p) (batch p))) k) as [byte Hb]; [lia|].
    pose proof (inv_transmit n p k byte Hinv Hop Ho Hb) as Hinv'.
    destruct (IH _ (S k) Hinv' Hn Ho eq_refl) as (p' & Hrun & Hi & Hp').
    { change (S k + m = length (concat (contents (heap p) (batch p)))). lia. }
    exists p'. split_and!; [|done|].
    + cbn [replicate run exec]. rewrite Hop, Ho.
      destruct (gather_batch p k Hst Hwr Hop) as [-> _]. by rewrite Hb.
    + rewrite Hp'. unfold set_wire; simpl. do 2 f_equal. lia.
Qed.

(** One batch is sent and recycled. *)
Lemma run_batch n p k :
  pipe_inv n p -> n <= queue_capacity -> is_open p = true -> write_op p = Some k ->
  exists es p', Forall benign es /\ run es p = Some p' /\ pipe_inv n p' /\ same_load p p' /\
    posted p' = posted p /\ length (send_queue_ p') < length (send_queue_ p).
Proof.
  intros Hinv Hn Ho Hop.
  pose proof (inv_write _ _ Hinv) as Hw. unfold write_inv in Hw. rewrite Hop in Hw.
  destruct Hw as (_ & Hact & _ & Hk).
  set (m := length (concat (contents (heap p) (batch p))) - k).
  destruct (run_transmit n p k m Hinv Hn Ho Hop) as (p1 & Hrun1 & Hinv1 & Hp1); [lia|].
  set (ok := fun _ : nat => true).
  destruct (inv_write_done n p1 (k + m) false ok Hinv1) as (p2 & Hwd & Hinv2 & Hrec & _).
  { by rewrite Hp1. }
  { intros _. rewrite Hp1. unfold m.
    change (k + (length (concat (contents (heap p) (batch p))) - k)
            = length (concat (contents (heap p) (batch p)))). lia. }
  exists (replicate m EvTransmit ++ [EvWriteDone false ok]), p2.
  destruct Hrec as (Hq & Hpo & Hac & _ & Hth & Hop2 & Hok).
  destruct (Hok ltac:(done)) as [Hh Hpool].
  split_and!; [| |done| | |].
  - apply Forall_app. split; [by apply Forall_replicate|]. by repeat constructor.
  - rewrite run_app, Hrun1. cbn [mbind option_bind run exec].
    assert (write_op p1 = Some (k + m)) as Hop1 by by rewrite Hp1. rewrite Hop1.
    pose proof Hinv1 as [Hst1 _ _ Hwr1 _ _].
    destruct (gather_batch p1 _ Hst1 Hwr1 Hop1) as [_ ->].
    replace (k + m =? _) with true; [by rewrite Hwd|].
    symmetry. apply Nat.eqb_eq. rewrite Hp1. unfold m.
    change (k + (length (concat (contents (heap p) (batch p))) - k)
            = length (concat (contents (heap p) (batch p)))). lia.
  - unfold same_load. rewrite Hac, Hth, Hop2, Hpool, Hq, Hpo, Hp1. split_and!; try done.
    unfold batch. simpl.
    rewrite <- app_assoc, (app_assoc (take _ _)), take_drop. done.
  - by rewrite Hpo, Hp1.
  - rewrite Hq, Hp1. simpl. rewrite length_drop. lia.
Qed.

Lemma drain n p :
  pipe_inv n p -> n <= queue_capacity -> is_open p = true ->
  exists es p', Forall benign es /\ run es p = Some p' /\ pipe_inv n p' /\ same_load p p' /\
    posted p' = [] /\ send_queue_ p' = [].
Proof.
  remember (2 * length (posted p) + length (send_queue_ p)) as x eqn:Hx. revert p Hx.
  induction x as [x IH] using lt_wf_ind. intros p -> Hinv Hn Ho.
  destruct (send_queue_ p) as [|b0 q] eqn:Hq.
  - destruct (posted p) as [|b l] eqn:Hl.
    { exists [], p. by split_and!. }
    destruct (inv_run_posted n p b l Hn Hinv Hl) as (p1 & Hexec & Hinv1 & Henq).
    destruct Henq as (Hq1 & Hp1 & Ha1 & _ & Ht1 & Ho1 & Hpool1 & _).
    destruct (IH (2 * length (posted p1) + length (send_queue_ p1))) with (p := p1)
      as (es & p2 & Hes & Hrun & Hinv2 & Hload & Hend); try done.
    { rewrite Hq1, Hp1, Hq. simpl. lia. }
    { by rewrite Ho1. }
    exists (EvRunPosted :: es), p2. split_and!; [by constructor| |done| |apply Hend..].
    + simpl. by rewrite Hl, Hexec.
    + eapply same_load_trans; [|exact Hload]. unfold same_load.
      rewrite Ha1, Ht1, Ho1, Hpool1, Hq1, Hp1, Hq, Hl. by split_and!.
  - assert (is_Some (write_op p)) as [k Hop].
    { pose proof (inv_write _ _ Hinv) as Hw. unfold write_inv in Hw.
      destruct (write_op p); [eauto|]. rewrite Hq in Hw. by specialize (Hw Ho). }
    destruct (run_batch n p k Hinv Hn Ho Hop)
      as (es1 & p1 & Hes1 & Hrun1 & Hinv1 & Hload1 & Hpo1 & Hlen1).
    destruct (IH (2 * length (posted p1) + length (send_queue_ p1))) with (p := p1)
      as (es & p2 & Hes & Hrun & Hinv2 & Hload & Hend); try done.
    { rewrite Hpo1. rewrite Hq in Hlen1. simpl in *. lia. }
    { destruct Hload1 as (_ & _ & -> & _). done. }
    exists (es1 ++ es), p2. split_and!; [by apply Forall_app| |done| |apply Hend..].
    + by rewrite run_app, Hrun1.
    + by eapply same_load_trans.
Qed.

(** On an open connection with nothing waiting, everything accepted is on the wire. *)
Lemma drained n p :
  pipe_inv n p -> is_open p = true -> send_queue_ p = [] -> posted p = [] ->
  wire p = concat (accepted p).
Proof.
  intros [_ _ _ Hwr Hstr _] Ho Hq Hp. destruct (Hstr Ho) as (don & -> & ->).
  rewrite Hq, Hp. simpl. by rewrite (no_write_op_empty p Hwr Hq), take_0, !app_nil_r.
Qed.

(** ** After a failed write *)

(** The socket is closed, messages are queued, and no write is outstanding:
    the state in which a failed [async_write] leaves a queue that was longer
    than its batch. *)
Definition stalled (p : pipe) : Prop :=
  is_open p = false /\ send_queue_ p <> [] /\ write_op p = None.

Lemma circular_push_back_cons (q : list nat) x : circular_push_back queue_capacity q x <> [].
Proof.
  intros Hq. pose proof (circular_push_back_length queue_capacity q x) as Hlen.
  rewrite Hq in Hlen. pose proof queue_capacity_pos. simpl in Hlen. lia.
Qed.

(** Messages are queued and no write is outstanding, whatever the socket. *)
Definition jammed (p : pipe) : Prop := send_queue_ p <> [] /\ write_op p = None.

Lemma exec_jammed e p p' :
  jammed p -> exec e p = Some (Ret p') -> jammed p' /\ wire p' = wire p.
Proof.
  intros [Hq Hop]. unfold jammed. destruct e as [t data|t|t|t| | |ec push_ok|]; simpl.
  - destruct (threads p !! t); [done|]. by destruct (is_open p); intros [= <-].
  - destruct (threads p !! t) as [[]|]; try done. by destruct (buffer_pool_ p); intros [= <-].
  - destruct (threads p !! t) as [[]|]; try done. destruct (heap p !! _); by intros [= <-].
  - destruct (threads p !! t) as [[]|]; try done. by intros [= <-].
  - destruct (posted p) as [|b l]; [done|]. intros [= Heq]. revert Heq.
    unfold post_handler. simpl. destruct (send_queue_ p) as [|b0 q] eqn:Hq'; [done|].
    intros [= <-]. simpl. split_and!; try done. by apply circular_push_back_cons.
  - by rewrite Hop.
  - by rewrite Hop.
  - by intros [= <-].
Qed.

(** Nothing ever starts a write again, and no buffer comes back to the pool. *)
Lemma exec_stalled e p p' :
  stalled p -> exec e p = Some (Ret p') ->
  stalled p' /\ wire p' = wire p /\ buffer_pool_ p' `suffix_of` buffer_pool_ p.
Proof.
  intros (Ho & Hq & Hop). unfold stalled.
  destruct e as [t data|t|t|t| | |ec push_ok|]; simpl.
  - destruct (threads p !! t); [done|]. rewrite Ho. by intros [= <-].
  - destruct (threads p !! t) as [[]|]; try done.
    destruct (buffer_pool_ p) as [|b pool] eqn:Hp; intros [= <-]; simpl; [by rewrite Hp|].
    split_and!; try done. by exists [b].
  - destruct (threads p !! t) as [[]|]; try done.
    destruct (heap p !! _); intros [= <-]. simpl. by split_and!.
  - destruct (threads p !! t) as [[]|]; try done. intros [= <-]. simpl. by split_and!.
  - destruct (posted p) as [|b l]; [done|]. intros [= Heq]. revert Heq.
    unfold post_handler. simpl. destruct (send_queue_ p) as [|b0 q] eqn:Hq'; [done|].
    intros [= <-]. simpl. split_and!; try done. by apply circular_push_back_cons.
  - by rewrite Hop.
  - by rewrite Hop.
  - intros [= <-]. simpl. by split_and!.
Qed.

Lemma exec_popping e p p' t data :
  buffer_pool_ p = [] -> threads p !! t = Some (Popping data) -> stalled p ->
  exec e p = Some (Ret p') -> threads p' !! t = Some (Popping data).
Proof.
  intros Hpool Ht (Ho & Hq & Hop).
  destruct e as [t' data'|t'|t'|t'| | |ec push_ok|]; simpl.
  - destruct (decide (t' = t)) as [->|Hne]; [by rewrite Ht|].
    destruct (threads p !! t'); [done|]. rewrite Ho. by intros [= <-].
  - rewrite Hpool. destruct (threads p !! t') as [[]|]; try done. by intros [= <-].
  - destruct (decide (t' = t)) as [->|Hne]; [by rewrite Ht|].
    destruct (threads p !! t') as [[]|]; try done. destruct (heap p !! _); intros [= <-].
    simpl. by rewrite lookup_insert_ne.
  - destruct (decide (t' = t)) as [->|Hne]; [by rewrite Ht|].
    destruct (threads p !! t') as [[]|]; try done. intros [= <-].
    simpl. by rewrite lookup_delete_ne.
  - destruct (posted p) as [|b l]; [done|]. intros [= Heq]. revert Heq.
    unfold post_handler. simpl. destruct (send_queue_ p) as [|b0 q] eqn:Hq'; [done|].
    by intros [= <-].
  - by rewrite Hop.
  - by rewrite Hop.
  - by intros [= <-].
Qed.

(** ** The destructor *)

(** [delete] of an address that is not a live buffer is undefined. *)
Fixpoint delete_all (l : list nat) (h : gmap nat (list byte)) :
    outcome (gmap nat (list byte)) :=
  match l with
  | [] => Ret h
  | b :: l => match h !! b with None => UB | Some _ => delete_all l (delete b h) end
  end.

Definition destroy (p : pipe) : outcome (gmap nat (list byte)) :=
  h ← delete_all (buffer_pool_ p) (heap p);
  delete_all (send_queue_ p) h.

Lemma delete_all_spec l h :
  NoDup l -> (forall b, b ∈ l -> is_Some (h !! b)) ->
  exists h', delete_all l h = Ret h' /\
    forall b, is_Some (h' !! b) <-> is_Some (h !! b) /\ b ∉ l.
Proof.
  revert h. induction l as [|b l IH]; intros h Hnd Hlive; simpl.
  - exists h. split; [done|]. set_solver.
  - apply NoDup_cons in Hnd as [Hb Hnd].
    destruct (Hlive b) as [d ->]; [set_solver|].
    destruct (IH (delete b h) Hnd) as (h' & -> & Hh').
    { intros b' Hb'. rewrite lookup_delete_ne by set_solver. apply Hlive. set_solver. }
    exists h'. split; [done|]. intros b'. rewrite Hh', not_elem_of_cons, lookup_delete.
    case_decide; [|naive_solver]. subst. split; [by intros [[]]|naive_solver].
Qed.

Lemma destroy_frees n p :
  pipe_inv n p ->
  exists h, destroy p = Ret h /\
    forall b, is_Some (h !! b) <-> b ∈ posted p ++ held (threads p).
Proof.
  intros [[Hnd Hdom] _ _ _ _ _].
  unfold places in Hnd. apply NoDup_app in Hnd as (Hnd1 & Hdis1 & Hnd).
  apply NoDup_app in Hnd as (Hnd2 & Hdis2 & _).
  destruct (delete_all_spec (buffer_pool_ p) (heap p) Hnd1) as (h1 & Hd1 & Hh1).
  { intros b Hb. apply Hdom, elem_of_places. auto. }
  destruct (delete_all_spec (send_queue_ p) h1 Hnd2) as (h2 & Hd2 & Hh2).
  { intros b Hb. apply Hh1. split; [apply Hdom, elem_of_places; auto|].
    intros Hb'. apply (Hdis1 b Hb'). set_solver. }
  exists h2. unfold destroy. rewrite Hd1. split; [done|]. intros b.
  rewrite Hh2, Hh1, <- Hdom, elem_of_places, elem_of_app. set_solver.
Qed.

(** ** The abstract channel

    What the send path promises: messages are submitted, and bytes come out
    that are, at any time, a prefix of the submitted messages laid end to
    end. *)

Record fifo := Fifo { submitted : list (list byte); emitted : list byte }.

Inductive fifo_step : fifo -> fifo -> Prop :=
| fifo_submit ms out m : fifo_step (Fifo ms out) (Fifo (ms ++ [m]) out)
| fifo_emit ms out b :
    out ++ [b] `prefix_of` concat ms -> fifo_step (Fifo ms out) (Fifo ms (out ++ [b])).

Definition channel (p : pipe) : fifo := Fifo (accepted p) (wire p).

Lemma do_write_channel p p' : do_write p = Ret p' -> channel p' = channel p.
Proof.
  unfold do_write. destruct (collect _ _ _ _) as [[wb n]| | | |]; simpl; try done.
  destruct (write_op p); [done|]. by intros [= <-].
Qed.

(** ** Properties *)

Section Properties.

Context (n : nat) (p : pipe).

Lemma pool_fits : n <= pool_capacity -> n <= queue_capacity.
Proof. intros. etrans; [eassumption|]. apply pool_queue_capacity. Qed.

(** C9: no undefined behaviour.  Whatever threads call [send], however their
    steps interleave with the strand and the kernel, and whichever operations
    fail: no second [async_write] is started while one is outstanding, [front]
    is never called on an empty queue, and no freed or resized buffer is ever
    read or written.  Every possible step returns. *)
Theorem send_path_safe e o :
  n <= pool_capacity -> reachable n p -> exec e p = Some o ->
  exists p', o = Ret p'.
Proof.
  intros Hn%pool_fits Hr He.
  destruct (exec_inv n e p o Hn (reachable_inv n p Hn Hr) He) as (p' & -> & _). eauto.
Qed.

(** C10: buffer conservation.  A buffer is always in exactly one place (the
    pool, the queue, a posted lambda or a thread inside [send]), the live
    buffers are exactly those, and the queue has room for every buffer that can
    still be posted, so that [circular_buffer::push_back] never overwrites. *)
Theorem buffers_conserved :
  n <= pool_capacity -> reachable n p ->
  NoDup (places p) /\ (forall b, b ∈ places p <-> is_Some (heap p !! b)) /\
  length (send_queue_ p) + length (posted p) <= queue_capacity.
Proof.
  intros Hn%pool_fits Hr. pose proof (reachable_inv n p Hn Hr) as Hinv.
  pose proof (queue_bound n p Hinv). destruct (inv_storage n p Hinv).
  split_and!; [done|done|lia].
Qed.

(** C8: refinement.  Every step of the concurrent send path is a step of the
    abstract channel or leaves it unchanged: messages come out in the order in
    which they were posted, whole, unmixed, with the bytes that were given to
    [send], although the buffers that carry them are shared and reused. *)
Theorem send_path_refines_fifo e p' :
  n <= pool_capacity -> reachable n p -> exec e p = Some (Ret p') ->
  channel p' = channel p \/ fifo_step (channel p) (channel p').
Proof.
  intros Hn%pool_fits Hr He.
  pose proof (reachable_inv n p Hn Hr) as Hinv.
  destruct (exec_inv n e p _ Hn Hinv He) as (p'' & [= <-] & [_ _ _ _ _ Hwire]).
  pose proof Hinv as [Hst _ _ Hwr _ _].
  destruct e as [t data|t|t|t| | |ec push_ok|]; simpl in He.
  - destruct (threads p !! t); [done|]. destruct (is_open p); simplify_eq; auto.
  - destruct (threads p !! t) as [[]|]; try done. destruct (buffer_pool_ p); simplify_eq; auto.
  - destruct (threads p !! t) as [[]|]; try done. destruct (heap p !! _); simplify_eq; auto.
  - destruct (threads p !! t) as [[]|]; simplify_eq. right. apply fifo_submit.
  - destruct (posted p) as [|b l] eqn:Hl; [done|].
    destruct (inv_run_posted n p b l Hn Hinv Hl) as (p1 & Hp1 & _ & Henq).
    rewrite Hp1 in He. simplify_eq. left. unfold channel.
    by destruct Henq as (_ & _ & -> & -> & _).
  - destruct (write_op p) as [k|] eqn:Hop; [|done]. destruct (is_open p); [|done].
    destruct (gather _ _); [|done]. destruct (_ !! k); [|done]. simplify_eq.
    right. by apply fifo_emit.
  - destruct (write_op p) as [k|] eqn:Hop; [|done].
    destruct (gather_batch p k Hst Hwr Hop) as [_ Hsum]. rewrite Hsum in He.
    destruct (_ || _) eqn:Hec; [|done].
    destruct (inv_write_done n p k ec push_ok Hinv Hop) as (p1 & Hp1 & _ & Hrec & _).
    { intros ->. simpl in Hec. by apply Nat.eqb_eq in Hec. }
    rewrite Hp1 in He. simpl in He. simplify_eq. left.
    destruct Hrec as (_ & _ & Ha & Hw & _). unfold channel. rewrite <- Ha, <- Hw.
    by destruct ec.
  - simplify_eq. by left.
Qed.

(** Nothing is lost.  On an open connection whose strand and queue are
    empty, the bytes sent are exactly the accepted messages laid end to end. *)
Theorem drained_sent_everything :
  n <= pool_capacity -> reachable n p ->
  is_open p = true -> send_queue_ p = [] -> posted p = [] ->
  wire p = concat (accepted p).
Proof.
  intros Hn%pool_fits Hr. apply (drained n). by apply reachable_inv.
Qed.

(** C13: progress.  From every reachable state of an open connection, the
    strand and the kernel alone can finish: there is a schedule without
    failures after which all accepted bytes are sent and every queued or posted
    buffer is back in the pool. *)
Theorem send_path_drains :
  n <= pool_capacity -> reachable n p -> is_open p = true ->
  exists es p', Forall benign es /\ run es p = Some p' /\
    posted p' = [] /\ send_queue_ p' = [] /\
    accepted p' = accepted p /\ wire p' = concat (accepted p) /\
    buffer_pool_ p' ≡ₚ buffer_pool_ p ++ send_queue_ p ++ posted p.
Proof.
  intros Hn%pool_fits Hr Ho. pose proof (reachable_inv n p Hn Hr) as Hinv.
  destruct (drain n p Hinv Hn Ho) as (es & p' & Hes & Hrun & Hinv' & Hload & Hp & Hq).
  destruct Hload as (Ha & _ & Ho' & Hperm). rewrite Hp, Hq, !app_nil_r in Hperm.
  exists es, p'. split_and!; try done.
  rewrite <- Ha. apply (drained n); [done|congruence|done|done].
Qed.

(** After a failed write that left messages in the queue, the connection
    stays closed, sends nothing and returns no buffer to the pool; a thread
    that had passed [send]'s [is_open] test and finds the pool empty spins in
    [while (!buffer_pool_.pop(buf_ptr))] for ever, since the loop does not test
    the socket again. *)
Theorem stalled_sender_never_returns t data es p' :
  stalled p -> buffer_pool_ p = [] -> threads p !! t = Some (Popping data) ->
  run es p = Some p' ->
  stalled p' /\ wire p' = wire p /\ buffer_pool_ p' = [] /\
  threads p' !! t = Some (Popping data).
Proof.
  revert p. induction es as [|e es IH]; intros q Hst Hpool Ht; cbn [run].
  { intros [= <-]. by split_and!. }
  destruct (exec e q) as [[q1| | | |]|] eqn:He; try done. intros Hrun.
  destruct (exec_stalled e q q1 Hst He) as (Hst1 & Hw1 & Hpool1).
  rewrite Hpool in Hpool1. apply suffix_nil_inv in Hpool1.
  rewrite <- Hw1. apply IH; try done. by apply (exec_popping e q).
Qed.

(** The destructor.  It frees every buffer of the pool and of the queue,
    none twice, and none of those that a posted lambda or a thread inside
    [send] still holds: a buffer whose lambda never ran is leaked. *)
Theorem destructor_frees :
  n <= pool_capacity -> reachable n p ->
  exists h, destroy p = Ret h /\
    forall b, is_Some (h !! b) <-> b ∈ posted p ++ held (threads p).
Proof.
  intros Hn%pool_fits Hr. by apply (destroy_frees n), reachable_inv.
Qed.

End Properties.

End Model.

(** ** Witnesses: two buffers *)

#[local] Program Instance overwriting_buffer : CircularBuffer := {|
  circular_push_back cap q x :=
    if decide (length q < cap) then q ++ [x] else drop (S (length q) - cap) (q ++ [x]);
|}.
Next Obligation. intros cap q x Hq. simpl. by rewrite decide_True. Qed.
Next Obligation.
  intros cap q x. simpl. case_decide; [|rewrite length_drop]; rewrite length_app; simpl; lia.
Qed.

Definition send_schedule (t : nat) (data : list byte) : list event :=
  [EvSend t data; EvPop t; EvCopy t; EvPost t].

(** Two messages queued, the first being written; the second posted while the
    first was in flight. *)
Definition two_messages : list event :=
  send_schedule 1 [x61; x62] ++ [EvRunPosted; EvTransmit] ++
  send_schedule 2 [x63] ++ [EvRunPosted].

Definition two_messages_state : pipe :=
  default (pipe_init 2) (run two_messages (pipe_init 2)).

Definition finish_schedule : list event :=
  [EvTransmit; EvWriteDone false (fun _ => true); EvTransmit;
   EvWriteDone false (fun _ => true)].

Definition all_sent_state : pipe :=
  default (pipe_init 2) (run finish_schedule two_messages_state).

(** The write of the first message fails while threads 3 and 4 are inside
    [send]; thread 3 takes the buffer that came back. *)
Definition hang_schedule : list event :=
  [EvSend 3 [x64]; EvSend 4 [x65]; EvWriteDone true (fun _ => true); EvPop 3].

Definition hang_state : pipe :=
  default (pipe_init 2) (run hang_schedule two_messages_state).

Lemma small_pool : 2 <= pool_capacity.
Proof. apply Nat2Z.inj_le. vm_compute. discriminate. Qed.

Lemma two_messages_reachable : reachable 2 two_messages_state.
Proof. apply (reachable_run 2 two_messages (pipe_init 2)); [constructor|by vm_compute]. Qed.

Lemma all_sent_reachable : reachable 2 all_sent_state.
Proof.
  apply (reachable_run 2 finish_schedule two_messages_state); [apply two_messages_reachable|].
  by vm_compute.
Qed.

Lemma hang_reachable : reachable 2 hang_state.
Proof.
  apply (reachable_run 2 hang_schedule two_messages_state); [apply two_messages_reachable|].
  by vm_compute.
Qed.

Lemma send_path_safe_witness :
  exists p', exec (EvWriteDone true (fun _ => true)) two_messages_state = Some (Ret p').
Proof.
  destruct (exec (EvWriteDone true (fun _ => true)) two_messages_state) as [o|] eqn:E.
  - destruct (send_path_safe 2 two_messages_state (EvWriteDone true (fun _ => true)) o
                small_pool two_messages_reachable E) as [p' ->]. by exists p'.
  - exfalso. revert E. by vm_compute.
Defined.

Lemma buffers_conserved_witness :
  NoDup (places two_messages_state) /\
  (forall b, b ∈ places two_messages_state <-> is_Some (heap two_messages_state !! b)) /\
  length (send_queue_ two_messages_state) + length (posted two_messages_state)
    <= queue_capacity.
Proof. exact (buffers_conserved 2 two_messages_state small_pool two_messages_reachable). Defined.

Lemma send_path_refines_fifo_witness :
  exists p', exec EvTransmit two_messages_state = Some (Ret p') /\
    (channel p' = channel two_messages_state \/
     fifo_step (channel two_messages_state) (channel p')).
Proof.
  destruct (exec EvTransmit two_messages_state) as [[p'| | | |]|] eqn:E;
    try (exfalso; revert E; by vm_compute).
  exists p'. split; [done|].
  exact (send_path_refines_fifo 2 two_messages_state EvTransmit p'
           small_pool two_messages_reachable E).
Defined.

Lemma drained_sent_everything_witness : wire all_sent_state = [x61; x62; x63].
Proof.
  exact (drained_sent_everything 2 all_sent_state small_pool all_sent_reachable
           eq_refl eq_refl eq_refl).
Defined.

Lemma send_path_drains_witness :
  exists es p', Forall benign es /\ run es two_messages_state = Some p' /\
    posted p' = [] /\ send_queue_ p' = [] /\
    accepted p' = accepted two_messages_state /\ wire p' = [x61; x62; x63] /\
    buffer_pool_ p' ≡ₚ [0; 1].
Proof.
  exact (send_path_drains 2 two_messages_state small_pool two_messages_reachable eq_refl).
Defined.

Lemma stalled_sender_never_returns_witness :
  reachable 2 hang_state /\
  forall es p', run es hang_state = Some p' -> threads p' !! 4 = Some (Popping [x65]).
Proof.
  split.
  - apply hang_reachable.
  - intros es p' Hrun.
    refine (proj2 (proj2 (proj2 (stalled_sender_never_returns hang_state 4 [x65] es p' _ _ _ Hrun)))).
    + split; [by vm_compute|]. split; [by vm_compute|by vm_compute].
    + by vm_compute.
    + by vm_compute.
Defined.

Lemma destructor_frees_witness :
  exists h, destroy hang_state = Ret h /\
    forall b, is_Some (h !! b) <-> b ∈ posted hang_state ++ held (threads hang_state).
Proof.
  exact (destructor_frees 2 hang_state small_pool hang_reachable).
Defined.
