(* ===== verification/Expected.v ===== *)
(** * expected.hpp: [unexpected<E>], [expected<T, E>] and [expected<void, E>]

    A [std::variant] of a value and a wrapped error.  [value()] and [error()]
    are [std::get], which throws [std::bad_variant_access] on the other
    alternative; [value()] of the [void] specialisation does nothing. *)

From S2P Require Import Prelude.

Inductive unexpected (E : Type) := Unexpected (val : E).
Arguments Unexpected {E} val.

Definition val {E} (u : unexpected E) : E := let 'Unexpected v := u in v.

(** Index 0 and index 1 of the variant. *)
Inductive expected (T E : Type) :=
| Alt0 (t : T)
| Alt1 (u : unexpected E).
Arguments Alt0 {T E} t.
Arguments Alt1 {T E} u.

(** The two constructors; the second converts the error type. *)
Definition of_value {T E} (t : T) : expected T E := Alt0 t.

Definition of_unexpected {T E Err} (conv : Err -> E) (err : unexpected Err) : expected T E :=
  Alt1 (Unexpected (conv (val err))).

Definition has_value {T E} (x : expected T E) : bool :=
  match x with Alt0 _ => true | Alt1 _ => false end.

Definition operator_bool {T E} (x : expected T E) : bool := has_value x.

Definition value {T E} (x : expected T E) : outcome T :=
  match x with Alt0 t => Ret t | Alt1 _ => Throw bad_variant_access end.

Definition error {T E} (x : expected T E) : outcome E :=
  match x with Alt0 _ => Throw bad_variant_access | Alt1 u => Ret (val u) end.

(** The [void] specialisation: [std::monostate] in place of the value. *)
Abbreviation expected_void E := (expected unit E).

Definition ok {E} : expected_void E := Alt0 tt.

Definition value_void {E} (x : expected_void E) : outcome unit := Ret tt.

Definition has_value_void {E} (x : expected_void E) : bool :=
  match x with Alt0 tt => true | Alt1 _ => false end.

Definition operator_bool_void {E} (x : expected_void E) : bool := has_value_void x.

Definition error_void {E} (x : expected_void E) : outcome E :=
  match x with Alt0 tt => Throw bad_variant_access | Alt1 u => Ret (val u) end.

(** The usual reading as a sum. *)
Definition to_sum {T E} (x : expected T E) : T + E :=
  match x with Alt0 t => inl t | Alt1 u => inr (val u) end.

Definition error_of {T} (e : Z) : expected T Z := of_unexpected id (Unexpected e).

#[export] Instance expected_eq_dec {T E} `{EqDecision T, EqDecision E} :
  EqDecision (expected T E).
Proof.
  assert (EqDecision (unexpected E)) by solve_decision. solve_decision.
Defined.

(** Exactly one accessor of an [expected] succeeds, and [has_value] tells
    which: it is a faithful sum type, except that [value()] of the [void]
    specialisation succeeds on an error too. *)
Theorem expected_is_sum {T E} (x : expected T E) :
  match to_sum x with
  | inl t => has_value x = true /\ value x = Ret t /\ error x = Throw bad_variant_access
  | inr e => has_value x = false /\ value x = Throw bad_variant_access /\ error x = Ret e
  end.
Proof. by destruct x as [t|[e]]. Qed.

(** The specialisation is the sum with [unit], apart from [value()]. *)
Lemma expected_void_is_sum {E} (x : expected_void E) :
  has_value_void x = has_value x /\ operator_bool_void x = operator_bool x /\ error_void x = error x /\
  value_void x = match to_sum x with inl _ => value x | inr _ => Ret tt end.
Proof. by destruct x as [[]|[e]]. Qed.
