(* ===== verification/Callbacks.v ===== *)
(** * Application callbacks

    What the library calls back into is the application's.  A callback is a
    program over the public operations of the endpoint it was registered with:
    it may call [send] and [close], look at what [send] returned, keep a state
    of its own and write to the bytes of the span it was given; it may also throw,
    be undefined or never return.  The programs are a free monad, which
    Dispatcher.v uses for message handlers. *)

From S2P Require Import Prelude Framing Expected SendPipeline.
From Stdlib Require Import ZArith Lia.

(** [boost::asio::error::not_connected] and [bad_descriptor]: [ENOTCONN] and
    [EBADF] of Linux. *)
Definition not_connected : Z := 107.
Definition bad_descriptor : Z := 9.

Definition send_result : Type := expected_void Z.

(** The ways in which a program does not come back. *)
Inductive failure := Raises (e : exn) | Undefined | Loops.

Definition fail_as {A} (f : failure) : outcome A :=
  match f with Raises e => Throw e | Undefined => UB | Loops => Hang end.

Inductive app_prog (R : Type) : Type :=
| Return (r : R)
| CallSend (data : list byte) (k : send_result -> app_prog R)
| CallClose (k : app_prog R)
| Fails (f : failure).
Arguments Return {R} r.
Arguments CallSend {R} data k.
Arguments CallClose {R} k.
Arguments Fails {R} f.

#[export] Instance app_prog_ret : MRet app_prog := @Return.

#[export] Instance app_prog_bind : MBind app_prog :=
  fun R S f => fix bind p :=
    match p with
    | Return r => f r
    | CallSend data k => CallSend data (fun res => bind (k res))
    | CallClose k => CallClose (bind k)
    | Fails e => Fails e
    end.

(** The results a program can return, whatever [send] answers. *)
Fixpoint returns {R} (P : R -> Prop) (p : app_prog R) : Prop :=
  match p with
  | Return r => P r
  | CallSend _ k => forall res, returns P (k res)
  | CallClose k => returns P k
  | Fails _ => True
  end.

(** It comes back, whatever [send] answers. *)
Fixpoint never_fails {R} (p : app_prog R) : Prop :=
  match p with
  | Return _ => True
  | CallSend _ k => forall res, never_fails (k res)
  | CallClose k => never_fails k
  | Fails _ => False
  end.

Lemma returns_bind {R S} (P : R -> Prop) (Q : S -> Prop) (p : app_prog R) (f : R -> app_prog S) :
  returns P p -> (forall r, P r -> returns Q (f r)) -> returns Q (mbind f p).
Proof. intros Hp Hf. induction p; simpl in *; auto. Qed.

Lemma never_fails_bind {R S} (P : R -> Prop) (p : app_prog R) (f : R -> app_prog S) :
  never_fails p -> returns P p -> (forall r, P r -> never_fails (f r)) -> never_fails (mbind f p).
Proof. intros Hn Hp Hf. induction p; simpl in *; auto. Qed.

Lemma returns_mono {R} (P Q : R -> Prop) (p : app_prog R) :
  (forall r, P r -> Q r) -> returns P p -> returns Q p.
Proof. intros HPQ. induction p; simpl; auto. Qed.

Lemma returns_trivial {R} (P : R -> Prop) (p : app_prog R) : (forall r, P r) -> returns P p.
Proof. intros HP. induction p; simpl; auto. Qed.

(** It returns without a call of [send] or [close]. *)
Definition quiet {R} (p : app_prog R) : Prop := match p with Return _ => True | _ => False end.

Lemma quiet_bind {R S} (p : app_prog R) (f : R -> app_prog S) :
  quiet p -> (forall r, quiet (f r)) -> quiet (mbind f p).
Proof. destruct p; simpl; auto; done. Qed.

Lemma quiet_never_fails {R} (p : app_prog R) : quiet p -> never_fails p.
Proof. by destruct p. Qed.

(** A receive callback with state [A].  It cannot change the length of the
    span. *)
Record app_callback (A : Type) := AppCallback {
  app_on_recv : A -> list byte -> app_prog (A * list byte);
  app_length a m : returns (fun r => length r.2 = length m) (app_on_recv a m);
}.
Arguments AppCallback {A}.
Arguments app_on_recv {A}.
Arguments app_length {A}.

(** What a callback can do to the endpoint, from inside its strand. *)
Class Sender (St : Type) `{!StreamEndpoint St} := {
  ep_send : list byte -> St -> outcome (send_result * St);
}.

Section Interp.

Context {St : Type} `{Sender St}.

Fixpoint interp {R} (p : app_prog R) (st : St) : outcome (R * St) :=
  match p with
  | Return r => Ret (r, st)
  | CallSend data k => '(res, st) ← ep_send data st; interp (k res) st
  | CallClose k => interp k (ep_close st)
  | Fails f => fail_as f
  end.

Lemma interp_bind {R S} (p : app_prog R) (f : R -> app_prog S) st :
  interp (mbind f p) st = ('(r, st) ← interp p st; interp (f r) st).
Proof.
  revert st. induction p as [r|data k IH|k IH|[]]; intros st; simpl; try done.
  destruct (ep_send data st) as [[res st']| | | |]; simpl; auto.
Qed.

Lemma interp_returns {R} (P : R -> Prop) (p : app_prog R) st r st' :
  returns P p -> interp p st = Ret (r, st') -> P r.
Proof.
  revert st. induction p as [r0|data k IH|k IH|f]; intros st Hp; simpl in *.
  - by intros [= <- _].
  - destruct (ep_send data st) as [[res st1]| | | |]; simpl; try done. by apply IH.
  - by apply IH.
  - by destruct f.
Qed.

Lemma interp_preserves {R} (P : St -> Prop) (p : app_prog R) st r st' :
  (forall data st res st', P st -> ep_send data st = Ret (res, st') -> P st') ->
  (forall st, P st -> P (ep_close st)) ->
  P st -> interp p st = Ret (r, st') -> P st'.
Proof.
  intros Hsend Hclose. revert st. induction p as [r0|data k IH|k IH|f]; intros st Hst; simpl.
  - by intros [= _ <-].
  - destruct (ep_send data st) as [[res st1]| | | |] eqn:Hs; simpl; try done. eauto.
  - eauto.
  - by destruct f.
Qed.

(** The callback as the receive path sees it; the application's state lives
    beside the endpoint's. *)
Context {A : Type} (get : St -> A) (put : A -> St -> St).

Definition lift_callback (cb : app_callback A) : receive_callback St.
Proof.
  refine (ReceiveCallback
    (fun st m => '((a, m'), st') ← interp (app_on_recv cb (get st) m) st; Ret (put a st', m')) _).
  intros st m st' m'.
  destruct (interp _ st) as [[[a m1] st1]| | | |] eqn:Hi; simpl; try done.
  intros [= _ <-]. apply (interp_returns _ _ _ _ _ (app_length cb (get st) m)) in Hi. done.
Defined.

End Interp.

(** ** [send] called inside the strand

    The statements of [send] run one after another without the strand doing
    anything else; other threads may only take buffers from the pool.  Buffers
    come back to the pool in the write completion handler, which the strand
    cannot run before the callback returns: with an empty pool the loop of
    [send] never ends. *)

Section Strand.

Context `{!CircularBuffer}.

Definition send_in_strand (data : list byte) (p : pipe) : outcome (send_result * pipe) :=
  if is_open p then
    match buffer_pool_ p with
    | [] => Hang
    | b :: pool =>
        match heap p !! b with
        | None => UB
        | Some _ =>
            Ret (ok, set_posted (posted p ++ [b]) (accepted p ++ [data])
                       (set_storage (<[b := data]> (heap p)) pool (send_queue_ p) p))
        end
    end
  else Ret (error_of not_connected, p).

(** It is a run of the send path by a thread that is not inside [send] yet. *)
Lemma send_in_strand_run data p res p' :
  send_in_strand data p = Ret (res, p') ->
  exists es, Forall (fun e => send_path_only e = true) es /\ run es p = Some p'.
Proof.
  unfold send_in_strand. destruct (is_open p) eqn:Ho; [|intros [= _ <-]; by exists []].
  destruct (buffer_pool_ p) as [|b pool] eqn:Hp; [done|].
  destruct (heap p !! b) eqn:Hb; [|done]. intros [= _ <-].
  set (t := fresh (dom (threads p))).
  assert (threads p !! t = None) as Ht by apply not_elem_of_dom, is_fresh.
  exists [EvSend t data; EvPop t; EvCopy t; EvPost t]. split; [by repeat constructor|].
  unfold run. cbn [exec]. rewrite Ht, Ho. cbn [threads set_threads].
  rewrite lookup_insert_eq. cbn [buffer_pool_ set_threads]. rewrite Hp.
  cbn [threads set_threads heap set_storage]. rewrite lookup_insert_eq, Hb.
  cbn [threads set_threads heap set_storage posted accepted]. rewrite lookup_insert_eq.
  rewrite !insert_insert_eq, delete_insert_id by done. by destruct p.
Qed.

Lemma send_in_strand_safe n data p :
  pipe_inv n p -> send_in_strand data p <> UB.
Proof.
  intros [[_ Hdom] _ _ _ _ _]. unfold send_in_strand. destruct (is_open p); [|done].
  destruct (buffer_pool_ p) as [|b pool] eqn:Hp; [done|].
  assert (is_Some (heap p !! b)) as [d ->]; [|done].
  apply Hdom, elem_of_places. left. rewrite Hp. set_solver.
Qed.

End Strand.
