(* ===== verification/Dispatcher.v ===== *)
(** * message_dispatcher.hpp: [MessageDispatcher<MessageType, HeaderType>]

    The routing table is a map from message types to raw handlers.  A raw
    handler gets the span of the whole message; it is the same kind of object as
    a receive callback, so it may write to the bytes of the span: [add_handler]
    casts the [const] away and hands out a [MsgDef&] into it. *)

From S2P Require Import Prelude Framing Structs Expected SendPipeline Callbacks.
From Stdlib Require Import ZArith Lia.

Open Scope Z_scope.

(** A raw handler is a callback of the application: a program over the endpoint
    that received the message.  [A] is the application's state. *)
Definition RawHandler (A : Type) := app_callback A.

Section Dispatcher.

Context {MessageType HeaderType A : Type}.
Context `{EqDecision MessageType, !Countable MessageType, !Layout HeaderType}.

(** [extractor_] is a [std::function]: [None] is the empty one. *)
Record dispatcher := MessageDispatcher {
  extractor_ : option (HeaderType -> MessageType * Z);
  handlers_ : gmap MessageType (RawHandler A);
}.

Definition dispatcher_init (extractor : option (HeaderType -> MessageType * Z)) : dispatcher :=
  MessageDispatcher extractor ∅.

(** The lambda that [add_handler<MsgDef>] stores: drop what is shorter than the
    struct, else run the handler on the struct in place.  [h] sees the bytes of
    the span from the struct on, which is what a [MsgDef&] gives access to. *)
Definition checked (size : nat) (h : RawHandler A) : RawHandler A.
Proof.
  refine (AppCallback
    (fun a data => if (length data <? size)%nat then Return (a, data) else app_on_recv h a data) _).
  intros a m. destruct (_ <? _)%nat; [done|apply app_length].
Defined.

(** A handler that uses nothing but the fields of its [MsgDef&]. *)
Definition by_ref {MsgDef} `{!Layout MsgDef} (h : A -> MsgDef -> app_prog (A * MsgDef)) :
    RawHandler A.
Proof.
  refine (AppCallback
    (fun a data =>
       if (length data <? sizeof MsgDef)%nat then Fails Undefined
       else '(a', m) ← h a (load (take (sizeof MsgDef) data));
            Return (a', store m (take (sizeof MsgDef) data) ++ drop (sizeof MsgDef) data)) _).
  intros a m. destruct (Nat.ltb_spec (length m) (sizeof MsgDef)); [done|].
  apply (returns_bind (fun _ => True)); [by apply returns_trivial|]. intros [a1 m1] _.
  cbn [returns snd]. rewrite length_app, length_store, length_drop; [lia|]. rewrite length_take. lia.
Defined.

(** The three overloads of [add_handler]: a callable, a function pointer, and
    an instance with a member function. *)
Definition add_handler (MsgDef : Type) `{!Layout MsgDef} (type : MessageType)
    (handler : RawHandler A) (d : dispatcher) : dispatcher :=
  MessageDispatcher (extractor_ d) (<[type := checked (sizeof MsgDef) handler]> (handlers_ d)).

Definition add_handler_fn (MsgDef : Type) `{!Layout MsgDef} (type : MessageType)
    (handler : A -> MsgDef -> app_prog (A * MsgDef)) (d : dispatcher) : dispatcher :=
  MessageDispatcher (extractor_ d)
    (<[type := checked (sizeof MsgDef) (by_ref handler)]> (handlers_ d)).

Definition add_handler_member (MsgDef : Type) `{!Layout MsgDef} {ClassType : Type}
    (type : MessageType) (instance : ClassType)
    (handler : ClassType -> RawHandler A) (d : dispatcher) : dispatcher :=
  MessageDispatcher (extractor_ d)
    (<[type := checked (sizeof MsgDef) (handler instance)]> (handlers_ d)).

(** [dispatch]: its return value, the state the handler left, and the bytes of
    the span afterwards. *)
Definition dispatch (d : dispatcher) (a : A) (data : list byte) : app_prog (bool * A * list byte) :=
  if (length data <? sizeof HeaderType)%nat then Return (false, a, data)
  else
    let header := load (take (sizeof HeaderType) data) in
    match extractor_ d with
    | None => Fails (Raises bad_function_call)
    | Some extractor =>
        let '(type, _) := extractor header in
        match handlers_ d !! type with
        | Some h => '(a', data') ← app_on_recv h a data; Return (true, a', data')
        | None => Return (false, a, data)
        end
    end.

(** The framing function for the TCP endpoints.  It is called on a span of
    [header_size()] bytes. *)
Definition get_size_lambda (d : dispatcher) : option (list byte -> Z) :=
  match extractor_ d with
  | None => None
  | Some ext => Some (fun data => snd (ext (load (take (sizeof HeaderType) data))))
  end.

Definition header_size : Z := Z.of_nat (sizeof HeaderType).

Lemma dispatch_length d a m : returns (fun r => length r.2 = length m) (dispatch d a m).
Proof.
  unfold dispatch. destruct (_ <? _)%nat; [done|].
  destruct (extractor_ d) as [ext|]; [|done]. destruct (ext _) as [type size].
  destruct (handlers_ d !! type) as [h|]; [|done].
  eapply returns_bind; [apply app_length|]. by intros [a' m'] Hm.
Qed.

(** [dispatch] as a receive callback, the way RimApplication uses it. *)
Definition dispatch_callback (d : dispatcher) : app_callback A.
Proof.
  refine (AppCallback (fun a m => '(_, a', m') ← dispatch d a m; Return (a', m')) _).
  intros a m. eapply returns_bind; [apply dispatch_length|]. by intros [[b a'] m'] Hm.
Defined.

(** ** Routing *)

(** The type of a message, when it has a header and an extractor to read it. *)
Definition type_of (d : dispatcher) (data : list byte) : option MessageType :=
  if (length data <? sizeof HeaderType)%nat then None
  else match extractor_ d with
       | None => None
       | Some ext => Some (fst (ext (load (take (sizeof HeaderType) data))))
       end.

(** What [dispatch] does, given the message's type. *)
Lemma dispatch_typed d a data type :
  type_of d data = Some type ->
  dispatch d a data =
  match handlers_ d !! type with
  | Some h => '(a', data') ← app_on_recv h a data; Return (true, a', data')
  | None => Return (false, a, data)
  end.
Proof.
  unfold type_of, dispatch. destruct (_ <? _)%nat; [done|].
  destruct (extractor_ d) as [ext|]; [|done].
  destruct (ext _) as [type' size]. cbn [fst]. by intros [= <-].
Qed.

(** One call of [add_handler], with any of its overloads. *)
Record registration := Registration {
  reg_type : MessageType;
  reg_size : nat;
  reg_handler : RawHandler A;
}.

Definition reg_of (MsgDef : Type) `{!Layout MsgDef} (type : MessageType)
    (handler : RawHandler A) : registration :=
  Registration type (sizeof MsgDef) handler.

Definition registered (regs : list registration) (d : dispatcher) : dispatcher :=
  foldl (fun d r => MessageDispatcher (extractor_ d)
           (<[reg_type r := checked (reg_size r) (reg_handler r)]> (handlers_ d))) d regs.

Lemma add_handler_registered MsgDef `{!Layout MsgDef} type h regs d :
  add_handler MsgDef type h (registered regs d) =
  registered (regs ++ [reg_of MsgDef type h]) d.
Proof. unfold registered. by rewrite foldl_app. Qed.

Lemma add_handler_fn_registered MsgDef `{!Layout MsgDef} type h regs d :
  add_handler_fn MsgDef type h (registered regs d) =
  registered (regs ++ [reg_of MsgDef type (by_ref h)]) d.
Proof. unfold registered. by rewrite foldl_app. Qed.

Lemma add_handler_member_registered MsgDef `{!Layout MsgDef} C type (inst : C) h regs d :
  add_handler_member MsgDef type inst h (registered regs d) =
  registered (regs ++ [reg_of MsgDef type (h inst)]) d.
Proof. unfold registered. by rewrite foldl_app. Qed.

(** The registration in force for a type: the last one. *)
Fixpoint last_reg (type : MessageType) (regs : list registration) : option registration :=
  match regs with
  | [] => None
  | r :: regs =>
      match last_reg type regs with
      | Some r' => Some r'
      | None => if decide (reg_type r = type) then Some r else None
      end
  end.

Lemma extractor_registered regs d : extractor_ (registered regs d) = extractor_ d.
Proof. revert d. induction regs as [|r regs IH]; intros d; simpl; [done|]. by rewrite IH. Qed.

Lemma type_of_registered regs d data : type_of (registered regs d) data = type_of d data.
Proof. unfold type_of. by rewrite extractor_registered. Qed.

Lemma handlers_registered regs d type :
  handlers_ (registered regs d) !! type =
  match last_reg type regs with
  | Some r => Some (checked (reg_size r) (reg_handler r))
  | None => handlers_ d !! type
  end.
Proof.
  revert d. induction regs as [|r regs IH]; intros d; [done|].
  change (registered (r :: regs) d) with
    (registered regs (MessageDispatcher (extractor_ d)
       (<[reg_type r := checked (reg_size r) (reg_handler r)]> (handlers_ d)))).
  rewrite IH. cbn [last_reg handlers_]. destruct (last_reg type regs); [done|].
  rewrite lookup_insert. by case_decide.
Qed.

(** ** The specification: what happens to a message *)

Definition route (regs : list registration) (ext : HeaderType -> MessageType * Z)
    (a : A) (data : list byte) : app_prog (bool * A * list byte) :=
  if (length data <? sizeof HeaderType)%nat then Return (false, a, data)
  else match last_reg (ext (load (take (sizeof HeaderType) data))).1 regs with
       | None => Return (false, a, data)
       | Some r =>
           if (length data <? reg_size r)%nat then Return (true, a, data)
           else '(a', data') ← app_on_recv (reg_handler r) a data; Return (true, a', data')
       end.

Lemma dispatch_route regs ext a data :
  dispatch (registered regs (dispatcher_init (Some ext))) a data = route regs ext a data.
Proof.
  unfold route. destruct (length data <? sizeof HeaderType)%nat eqn:Hlen.
  { unfold dispatch. by rewrite Hlen. }
  rewrite (dispatch_typed _ _ _ (ext (load (take (sizeof HeaderType) data))).1).
  - rewrite handlers_registered. destruct (last_reg _ regs) as [r|]; [|done].
    cbn [checked app_on_recv]. by destruct (length data <? reg_size r)%nat.
  - rewrite type_of_registered. unfold type_of, dispatcher_init. by rewrite Hlen.
Qed.

(** Every registered handler comes back from the messages of a set that are long
    enough for its struct. *)
Definition handlers_defined (regs : list registration) (ext : HeaderType -> MessageType * Z)
    (P : list byte -> Prop) : Prop :=
  forall a m r, P m -> last_reg (ext (load (take (sizeof HeaderType) m))).1 regs = Some r ->
    (reg_size r <= length m)%nat -> never_fails (app_on_recv (reg_handler r) a m).

Lemma dispatch_callback_defined regs ext (P : list byte -> Prop) a m :
  handlers_defined regs ext P -> P m ->
  never_fails (app_on_recv (dispatch_callback (registered regs (dispatcher_init (Some ext)))) a m).
Proof.
  intros Hh Hm. cbn [app_on_recv dispatch_callback]. rewrite dispatch_route. unfold route.
  destruct (_ <? _)%nat; [done|]. destruct (last_reg _ regs) as [r|] eqn:Hr; [|done].
  destruct (Nat.ltb_spec (length m) (reg_size r)); [done|].
  apply (never_fails_bind (fun _ => True)); [|by apply returns_trivial|by intros [[b a'] m'] _].
  apply (never_fails_bind (fun _ => True)); [by eapply Hh|by apply returns_trivial|].
  by intros [a' m'] _.
Qed.

(** The same for handlers that only change the application's state. *)
Lemma dispatched_quiet regs ext a m :
  (forall r, last_reg (ext (load (take (sizeof HeaderType) m))).1 regs = Some r ->
     (reg_size r <= length m)%nat -> quiet (app_on_recv (reg_handler r) a m)) ->
  quiet (app_on_recv (dispatch_callback (registered regs (dispatcher_init (Some ext)))) a m).
Proof.
  intros Hh. cbn [app_on_recv dispatch_callback]. rewrite dispatch_route. unfold route.
  destruct (_ <? _)%nat; [done|]. destruct (last_reg _ regs) as [r|]; [|done].
  destruct (Nat.ltb_spec (length m) (reg_size r)); [done|].
  apply quiet_bind; [|by intros [[b a'] m']]. apply quiet_bind; [auto|by intros [a' m']].
Qed.

Lemma dispatched_call regs ext a m r :
  (sizeof HeaderType <= length m)%nat ->
  last_reg (ext (load (take (sizeof HeaderType) m))).1 regs = Some r -> (reg_size r <= length m)%nat ->
  app_on_recv (dispatch_callback (registered regs (dispatcher_init (Some ext)))) a m =
  ('(_, a', m') ← ('(a', m') ← app_on_recv (reg_handler r) a m; Return (true, a', m')); Return (a', m')).
Proof.
  intros Hl Hr Hs. cbn [app_on_recv dispatch_callback]. rewrite dispatch_route. unfold route.
  destruct (Nat.ltb_spec (length m) (sizeof HeaderType)); [lia|]. rewrite Hr.
  by destruct (Nat.ltb_spec (length m) (reg_size r)); [lia|].
Qed.

Lemma dispatched_return regs ext a m r a' m' :
  (sizeof HeaderType <= length m)%nat ->
  last_reg (ext (load (take (sizeof HeaderType) m))).1 regs = Some r ->
  (reg_size r <= length m)%nat -> app_on_recv (reg_handler r) a m = Return (a', m') ->
  app_on_recv (dispatch_callback (registered regs (dispatcher_init (Some ext)))) a m = Return (a', m').
Proof. intros Hl Hr Hs Hh. by rewrite (dispatched_call regs ext a m r Hl Hr Hs), Hh. Qed.

(** The extractor never announces less than the struct registered for the type. *)
Definition sizes_agree (regs : list registration) (ext : HeaderType -> MessageType * Z) : Prop :=
  forall h r, last_reg (ext h).1 regs = Some r -> Z.of_nat (reg_size r) <= wrap 64 (ext h).2.

(** A well-framed message is long enough for its header, and for the struct that is
    registered for it. *)
Lemma framed_long_enough regs ext mx m :
  sizes_agree regs ext ->
  well_framed header_size mx (fun m => (ext (load (take (sizeof HeaderType) m))).2) m ->
  (sizeof HeaderType <= length m)%nat /\
  forall r, last_reg (ext (load (take (sizeof HeaderType) m))).1 regs = Some r ->
    (reg_size r <= length m)%nat.
Proof.
  intros Hag (Hh & Ha & _). unfold header_size, size_of in Hh. split; [lia|]. intros r Hr.
  assert (take (sizeof HeaderType) (take (Z.to_nat header_size) m) =
          take (sizeof HeaderType) m) as Htt.
  { unfold header_size. rewrite Nat2Z.id, take_take. f_equal. lia. }
  apply Hag in Hr. unfold announced in Ha. rewrite Htt in Ha. unfold size_of in Ha. lia.
Qed.

(** ** On an endpoint *)

Section OnEndpoint.

Context {St : Type} `{!StreamEndpoint St, !Sender St}.
Context (get : St -> A) (put : A -> St -> St) (put_get : forall st, put (get st) st = st).

(** The handlers run on messages one after another; what is shorter than the
    registered struct is passed over. *)
Fixpoint run_handlers (regs : list registration) (ext : HeaderType -> MessageType * Z)
    (st : St) (ms : list (list byte)) : outcome St :=
  match ms with
  | [] => Ret st
  | m :: ms =>
      match last_reg (ext (load (take (sizeof HeaderType) m))).1 regs with
      | None => run_handlers regs ext st ms
      | Some r =>
          if (length m <? reg_size r)%nat then run_handlers regs ext st ms
          else
            '((a, _), st') ← interp (app_on_recv (reg_handler r) (get st) m) st;
            run_handlers regs ext (put a st') ms
      end
  end.

Lemma deliver_dispatched regs ext st mx ms :
  Forall (well_framed header_size mx (fun m => (ext (load (take (sizeof HeaderType) m))).2)) ms ->
  deliver_all
    (Some (lift_callback get put (dispatch_callback (registered regs (dispatcher_init (Some ext))))))
    st ms =
  run_handlers regs ext st ms.
Proof using put_get.
  intros Hms. revert st. induction Hms as [|m ms (Hh & _) _ IH]; intros st; [done|].
  unfold header_size, size_of in Hh.
  cbn [deliver_all run_handlers lift_callback rc_call dispatch_callback app_on_recv].
  rewrite dispatch_route. unfold route.
  destruct (Nat.ltb_spec (length m) (sizeof HeaderType)); [lia|].
  destruct (last_reg _ regs) as [r|]; [|cbn; by rewrite put_get, IH].
  destruct (length m <? reg_size r)%nat; [cbn; by rewrite put_get, IH|].
  rewrite !interp_bind.
  destruct (interp (app_on_recv (reg_handler r) (get st) m) st) as [[[a m'] st']| | | |]; [|done..].
  apply IH.
Qed.

End OnEndpoint.

End Dispatcher.
Arguments dispatcher MessageType HeaderType A {_ _}.
Arguments registration MessageType A : clear implicits.

(** ** Properties *)

Section Properties.

Context {MessageType HeaderType A : Type}.
Context `{EqDecision MessageType, !Countable MessageType, !Layout HeaderType}.

(** C17: a dispatcher built by any sequence of [add_handler] calls routes every
    message, of any length and content, the way the list of registrations says:
    too short for a header, nothing happens and the result is [false]; the type
    read from the header selects the last registration for it, and without one
    the result is [false]; a message shorter than the registered struct is
    dropped without a call of the handler, yet the result is [true]; in every
    other case the handler runs on the message in place and the result is
    [true]. *)
Theorem dispatch_correct (regs : list (registration MessageType A))
    (ext : HeaderType -> MessageType * Z) a data :
  dispatch (registered regs (dispatcher_init (Some ext))) a data = route regs ext a data.
Proof. apply dispatch_route. Qed.

(** The framing taken from a dispatcher and the dispatcher itself fit
    together.  With [header_size()] and [get_size_lambda()] as the framing of a
    TCP endpoint, a run of [process_buffer] hands every complete message of the
    buffer, whole, to the handler registered for its type, in order, passing over
    what is shorter than the registered struct; with an extractor that announces at
    least that struct nothing is.  The handlers may send on the endpoint and close
    it. *)
Theorem framed_dispatch {St} `{!StreamEndpoint St, !Sender St} (get : St -> A) (put : A -> St -> St)
    (regs : list (registration MessageType A)) (ext : HeaderType -> MessageType * Z) mx r ms e st :
  let d := registered regs (dispatcher_init (Some ext)) in
  let cfg := FramingConfig (header_size (HeaderType := HeaderType)) mx (get_size_lambda d) in
  let cb := Some (lift_callback get put (dispatch_callback d)) in
  let f := fun m => (ext (load (take (sizeof HeaderType) m))).2 in
  (forall st, put (get st) st = st) ->
  small_limits cfg -> rx_wf r ->
  frames (header_size (HeaderType := HeaderType)) mx f (pending r 0) ms e ->
  outcome_rel (process_post cb r ms e)
    (run_handlers get put regs ext st ms) (process_buffer cfg cb (process_fuel r) r st) /\
  (sizes_agree regs ext ->
   Forall (fun m => forall q, last_reg (ext (load (take (sizeof HeaderType) m))).1 regs = Some q ->
             (reg_size q <= length m)%nat) ms).
Proof.
  intros d cfg cb f Hpg Hlim Hwf Hfr.
  assert (Forall (well_framed header_size mx f) ms) as Hms by by eapply frames_well_framed.
  split; [|intros Hag; eapply Forall_impl; [exact Hms|]; intros m Hm;
    exact (proj2 (framed_long_enough regs ext mx m Hag Hm))].
  assert (get_total_size_ cfg = Some f) as Hf.
  { unfold cfg, d, get_size_lambda. simpl. by rewrite extractor_registered. }
  rewrite <- (deliver_dispatched get put Hpg regs ext st mx ms) by exact Hms.
  by apply (process_buffer_framed cfg cb f Hf (small_limits_wf _ Hlim) (pending r 0)).
Qed.

End Properties.

(** ** Witnesses: the messages of tests/test_dispatcher.cpp, on a little-endian
    host whose ABI aligns [uint32_t] to 4 bytes. *)

Record TestHeader := mkTestHeader { th_type : Z; th_length : Z }.

Record MsgA := mkMsgA { a_header : TestHeader; a_a : Z; a_b : Z }.

Definition load_TestHeader (bs : list byte) : TestHeader :=
  mkTestHeader (load_uint LittleEndian (subspan bs 0 4)) (load_uint LittleEndian (subspan bs 4 4)).

Definition store_TestHeader (h : TestHeader) (bs : list byte) : list byte :=
  splice (splice bs 0 (store_uint LittleEndian 4 (th_type h))) 4
    (store_uint LittleEndian 4 (th_length h)).

Definition load_MsgA (bs : list byte) : MsgA :=
  mkMsgA (load_TestHeader (subspan bs 0 8)) (load_uint LittleEndian (subspan bs 8 1))
    (load_uint LittleEndian (subspan bs 12 4)).

Definition store_MsgA (m : MsgA) (bs : list byte) : list byte :=
  splice (splice (splice bs 0 (store_TestHeader (a_header m) (subspan bs 0 8))) 8
    (store_uint LittleEndian 1 (a_a m))) 12 (store_uint LittleEndian 4 (a_b m)).

Lemma length_store_TestHeader h bs : length bs = 8%nat -> length (store_TestHeader h bs) = 8%nat.
Proof.
  intros Hb. unfold store_TestHeader. solve_length.
Qed.

Lemma store_load_TestHeader bs :
  length bs = 8%nat -> store_TestHeader (load_TestHeader bs) bs = bs.
Proof.
  intros Hb. unfold store_TestHeader, load_TestHeader. cbn [th_type th_length].
  rewrite (splice_store_load _ _ 0 4) by lia. apply (splice_store_load _ _ 4 4). lia.
Qed.

Lemma length_store_MsgA m bs : length bs = 16%nat -> length (store_MsgA m bs) = 16%nat.
Proof.
  intros Hb. unfold store_MsgA.
  assert (length (store_TestHeader (a_header m) (subspan bs 0 8)) = 8%nat) as Hh.
  { apply length_store_TestHeader. solve_length. }
  rewrite length_splice; rewrite length_splice; rewrite length_splice; rewrite ?Hh; solve_length.
Qed.

Lemma store_load_MsgA bs : length bs = 16%nat -> store_MsgA (load_MsgA bs) bs = bs.
Proof.
  intros Hb. unfold store_MsgA, load_MsgA. cbn [a_header a_a a_b].
  rewrite store_load_TestHeader by solve_length.
  rewrite splice_subspan by lia.
  rewrite (splice_store_load _ _ 8 1) by lia. apply (splice_store_load _ _ 12 4). lia.
Qed.

#[export] Instance Layout_TestHeader : Layout TestHeader := {|
  sizeof := 8; load := load_TestHeader; store := store_TestHeader;
  length_store := length_store_TestHeader; store_load := store_load_TestHeader;
|}.

#[export] Instance Layout_MsgA : Layout MsgA := {|
  sizeof := 16; load := load_MsgA; store := store_MsgA;
  length_store := length_store_MsgA; store_load := store_load_MsgA;
|}.

(** The extractor of the test: [{h.type, h.length + sizeof(TestHeader)}]. *)
Definition test_extractor (h : TestHeader) : Z * Z := (th_type h, th_length h +! 8).

(** A handler that keeps the two fields the test looks at. *)
Definition note_fields : RawHandler (list (Z * Z)) :=
  by_ref (fun st (m : MsgA) => Return (st ++ [(a_a m, a_b m)], m)).

Definition packetA : list byte :=
  [x01; x00; x00; x00; x08; x00; x00; x00; x2a; x00; x00; x00; x64; x00; x00; x00].

Definition test_dispatcher : dispatcher Z TestHeader (list (Z * Z)) :=
  add_handler MsgA 1 note_fields (dispatcher_init (Some test_extractor)).

Example dispatch_packetA :
  dispatch test_dispatcher [] packetA = Return (true, [(42, 100)], packetA).
Proof. reflexivity. Qed.

(** A message cut after its header: nothing runs, and the result is [true]. *)
Example dispatch_truncated :
  dispatch test_dispatcher [] (take 8 packetA) = Return (true, [], take 8 packetA).
Proof. reflexivity. Qed.

Example dispatch_short : dispatch test_dispatcher [] (take 7 packetA) = Return (false, [], take 7 packetA).
Proof. reflexivity. Qed.

(** An endpoint that keeps a log and what was sent. *)
Definition log_state : Type := list (Z * Z) * list (list byte) * bool.

#[local] Instance log_endpoint : StreamEndpoint log_state := {|
  ep_is_open st := snd st;
  ep_close st := (fst st, false);
  ep_reset_read_timeout st := st;
  ep_close_closes _ := eq_refl;
  ep_reset_is_open _ := eq_refl;
|}.

#[local] Instance log_sender : Sender log_state := {|
  ep_send data '(log, sent, open) := Ret (ok, (log, sent ++ [data], open));
|}.

Definition log_of (st : log_state) : list (Z * Z) := st.1.1.
Definition put_log (log : list (Z * Z)) (st : log_state) : log_state := (log, st.1.2, st.2).

(** A handler that notes the fields and acknowledges with the first byte. *)
Definition note_and_answer : RawHandler (list (Z * Z)) :=
  by_ref (fun log (m : MsgA) =>
    CallSend [byte_of_Z (a_a m)] (fun _ => Return (log ++ [(a_a m, a_b m)], m))).

(** An extractor for messages of fixed size. *)
Definition fixed_extractor (h : TestHeader) : Z * Z := (th_type h, 16).

Lemma framed_dispatch_witness :
  let d := registered [reg_of MsgA 1 note_and_answer] (dispatcher_init (Some fixed_extractor)) in
  let cfg := FramingConfig (header_size (HeaderType := TestHeader)) 100 (get_size_lambda d) in
  let cb := Some (lift_callback log_of put_log (dispatch_callback d)) in
  let r := Rx (packetA ++ [x01]) 17 None [] in
  outcome_rel (process_post cb r [packetA] (Partial [x01]))
    (Ret ([(42, 100)], [[x2a]], true))
    (process_buffer cfg cb (process_fuel r) r ([], [], true)).
Proof.
  intros d cfg cb r.
  replace (Ret ([(42, 100)], [[x2a]], true)) with
    (run_handlers log_of put_log [reg_of MsgA 1 note_and_answer] fixed_extractor ([], [], true) [packetA])
    by (vm_compute; reflexivity).
  apply (framed_dispatch log_of put_log [reg_of MsgA 1 note_and_answer] fixed_extractor 100
           (Rx (packetA ++ [x01]) 17 None []) [packetA] (Partial [x01]) ([], [], true)).
  - by intros [[log sent] open].
  - split; split; by vm_compute.
  - split; by vm_compute.
  - change (pending _ 0) with (packetA ++ [x01]).
    apply frames_msg; [by vm_compute|]. by apply frames_short.
Defined.
