(* ===== verification/AsyncLogger.v ===== *)
(** * async_logger.hpp: [RimHeader] and [AsyncLogger]

    Any number of threads call [log]; a worker thread swaps the two buffers and
    writes to the file; the destructor stops the worker and flushes the rest.
    The model is a machine whose events are the statements the threads
    interleave at.  A critical section of [log] or of the destructor is one
    event, possible when the worker does not hold the mutex; the worker, which
    reads [running_] (not protected by the mutex) while it holds the mutex, has
    an event for each statement of [cv_.wait].  Atomics are sequentially
    consistent.

    The file is opened for appending, under a name that changes every second, so it may
    hold bytes already, and others may append to it: a logger of the same or of another
    process that was made within the same second.  The model has both: [before] is what
    the file held, and at any moment anything may be appended by others.  A write of this
    logger is appended in one piece, or fails after a part of it. *)

From S2P Require Import Prelude.
From Stdlib Require Import ZArith Lia.

Open Scope Z_scope.
Open Scope size_scope.

(** ** Records *)

(** What [log] was asked to store, and when. *)
Record record := Rec { record_id : Z; timestamp_ns : Z; payload : list byte }.

#[export] Instance record_eq_dec : EqDecision record.
Proof. solve_decision. Defined.

Section Host.

Context (host : endian).

(** The packed header, as the bytes of its three fields. *)
Definition RimHeader (record_id length timestamp_ns : Z) : list byte :=
  store_uint host 4 record_id ++ store_uint host 4 length ++ store_uint host 8 timestamp_ns.

(** The header [log] fills in, followed by the payload. *)
Definition forge_header (r : record) : list byte :=
  RimHeader (htobe host 4 (record_id r))
    (htobe host 4 (wrap 32 (size_of (payload r))))
    (htobe host 8 (timestamp_ns r)).

Definition encode (r : record) : list byte := forge_header r ++ payload r.

(** ** The threads *)

(** A thread inside [log], by the statement it executes next. *)
Inductive producer :=
| PAppend (r : record)   (* about to lock the mutex *)
| PNotify.               (* about to call [cv_.notify_one()] *)

(** The worker inside [process_loop]. *)
Inductive worker :=
| WTest        (* the loop condition *)
| WLock        (* waiting for the mutex, before the predicate of [cv_.wait] *)
| WPred        (* owns the mutex, evaluates the predicate *)
| WEnterWait   (* owns the mutex, predicate false: about to release and block *)
| WWaiting     (* blocked in [cv_.wait] *)
| WSwap        (* owns the mutex, past [cv_.wait] *)
| WFlush       (* released the mutex, about to write *)
| WDone        (* returned from [process_loop] *)
| WNone.       (* [worker_] is not a thread: never started, or joined *)

#[export] Instance worker_eq_dec : EqDecision worker.
Proof. solve_decision. Defined.

(** The destructor. *)
Inductive dtor :=
| DNotCalled
| DNotify      (* [running_] cleared, about to notify *)
| DJoin        (* in [worker_.join()] *)
| DFinal       (* about to flush the residual bytes *)
| DDone.

#[export] Instance dtor_eq_dec : EqDecision dtor.
Proof. solve_decision. Defined.

(** [file_] is what the file holds.  [file_good] is the stream state: a failed write sets
    [badbit] and every later write does nothing.  History: [accepted], the records inserted
    in the active buffer, in order; [chunks], what has been appended to the file since it
    was opened, and whether by this logger. *)
Record logger := Logger {
  max_capacity_ : Z;
  dropped_logs_ : Z;
  file_open : bool;
  file_good : bool;
  file_ : list byte;
  active_buffer_ : list byte;
  flush_buffer_ : list byte;
  running_ : bool;
  worker_ : worker;
  producers : gmap nat producer;
  destructor : dtor;
  accepted : list record;
  chunks : list (bool * list byte);
}.

(** The constructor: [opened] tells whether [file_.open] succeeded, [before] is what the
    file held then. *)
Definition logger_init (max_capacity : Z) (before : list byte) (opened : bool) : logger :=
  Logger max_capacity 0 opened true before [] [] opened (if opened then WTest else WNone)
    ∅ DNotCalled [] [].

Definition set_worker (w : worker) (s : logger) : logger :=
  Logger (max_capacity_ s) (dropped_logs_ s) (file_open s) (file_good s) (file_ s)
    (active_buffer_ s) (flush_buffer_ s) (running_ s) w (producers s) (destructor s) (accepted s) (chunks s).

Definition set_producers (ps : gmap nat producer) (s : logger) : logger :=
  Logger (max_capacity_ s) (dropped_logs_ s) (file_open s) (file_good s) (file_ s)
    (active_buffer_ s) (flush_buffer_ s) (running_ s) (worker_ s) ps (destructor s) (accepted s) (chunks s).

Definition set_destructor (running : bool) (d : dtor) (s : logger) : logger :=
  Logger (max_capacity_ s) (dropped_logs_ s) (file_open s) (file_good s) (file_ s)
    (active_buffer_ s) (flush_buffer_ s) running (worker_ s) (producers s) d (accepted s) (chunks s).

Definition set_buffers (active flush : list byte) (s : logger) : logger :=
  Logger (max_capacity_ s) (dropped_logs_ s) (file_open s) (file_good s) (file_ s)
    active flush (running_ s) (worker_ s) (producers s) (destructor s) (accepted s) (chunks s).

(** Bytes appended to the file, by this logger ([own]) or by others. *)
Definition append_file (own good : bool) (bs : list byte) (s : logger) : logger :=
  Logger (max_capacity_ s) (dropped_logs_ s) (file_open s) good (file_ s ++ bs)
    (active_buffer_ s) (flush_buffer_ s) (running_ s) (worker_ s) (producers s)
    (destructor s) (accepted s) (chunks s ++ [(own, bs)]).

(** The mutex is free unless the worker owns it. *)
Definition mutex_free (s : logger) : bool :=
  match worker_ s with WPred | WEnterWait | WSwap => false | _ => true end.

(** The critical section of [log]: [true] when the record was inserted. *)
Definition append (r : record) (s : logger) : logger * bool :=
  let hdr_span := forge_header r in
  if max_capacity_ s <? size_of (active_buffer_ s) +! size_of hdr_span +! size_of (payload r) then
    (Logger (max_capacity_ s) (dropped_logs_ s +! 1) (file_open s) (file_good s) (file_ s)
       (active_buffer_ s) (flush_buffer_ s) (running_ s) (worker_ s) (producers s)
       (destructor s) (accepted s) (chunks s), false)
  else
    (Logger (max_capacity_ s) (dropped_logs_ s) (file_open s) (file_good s) (file_ s)
       ((active_buffer_ s ++ hdr_span) ++ payload r) (flush_buffer_ s) (running_ s) (worker_ s)
       (producers s) (destructor s) (accepted s ++ [r]) (chunks s), true).

(** [cv_.notify_one()]: the worker is the only thread that ever waits. *)
Definition notify_one (s : logger) : logger :=
  match worker_ s with WWaiting => set_worker WLock s | _ => s end.

(** [file_.write(data); file_.flush()].  [failed] is [Some k] when the disk
    takes only [k] bytes of it. *)
Definition file_write (failed : option nat) (data : list byte) (s : logger) : logger :=
  if file_good s then
    match failed with
    | None => append_file true true data s
    | Some k => append_file true false (take k data) s
    end
  else s.

(** The part of the worker's loop after the critical section. *)
Definition flush_step (failed : option nat) (s : logger) : logger :=
  match flush_buffer_ s with
  | [] => s
  | data => set_buffers (active_buffer_ s) []
              (if file_open s then file_write failed data s else s)
  end.

(** The destructor's manual flush. *)
Definition final_flush (failed : option nat) (s : logger) : logger :=
  match active_buffer_ s with
  | [] => s
  | data => if file_open s then file_write failed data s else s
  end.

Inductive event :=
| EvLog (t : nat) (r : record)         (* thread [t] enters [log], at time [timestamp_ns r] *)
| EvAppend (t : nat)
| EvNotify (t : nat)
| EvWorker (failed : option nat)       (* the worker's next statement *)
| EvSpurious                           (* [cv_.wait] wakes up without a notification *)
| EvDestroy (failed : option nat).     (* the destructor's next statement *)

Definition worker_step (failed : option nat) (s : logger) : option logger :=
  match worker_ s with
  | WTest => Some (set_worker (if running_ s then WLock else WDone) s)
  | WLock => Some (set_worker WPred s)
  | WPred =>
      Some (set_worker
        (match active_buffer_ s with
         | [] => if running_ s then WEnterWait else WSwap
         | _ => WSwap
         end) s)
  | WEnterWait => Some (set_worker WWaiting s)
  | WSwap => Some (set_worker WFlush (set_buffers (flush_buffer_ s) (active_buffer_ s) s))
  | WFlush => Some (set_worker WTest (flush_step failed s))
  | WWaiting | WDone | WNone => None
  end.

(** The destructor may only be called when no thread is inside [log]. *)
Definition destructor_step (failed : option nat) (s : logger) : option logger :=
  match destructor s with
  | DNotCalled =>
      if decide (producers s = ∅) then
        Some (set_destructor false (if running_ s then DNotify else DFinal) s)
      else None
  | DNotify => Some (set_destructor false DJoin (notify_one s))
  | DJoin =>
      match worker_ s with
      | WDone | WNone => Some (set_destructor false DFinal (set_worker WNone s))
      | _ => None
      end
  | DFinal =>
      if mutex_free s then Some (set_destructor false DDone (final_flush failed s)) else None
  | DDone => None
  end.

(** Others append to the file. *)
Definition others_append (bs : list byte) (s : logger) : logger := append_file false (file_good s) bs s.

(** [None]: the event is not possible in this state. *)
Definition exec (e : event) (s : logger) : option logger :=
  match e with
  | EvLog t r =>
      match destructor s, producers s !! t with
      | DNotCalled, None =>
          if negb (running_ s) || (size_of (payload r) =? 0) then Some s
          else Some (set_producers (<[t := PAppend r]> (producers s)) s)
      | _, _ => None
      end
  | EvAppend t =>
      match producers s !! t with
      | Some (PAppend r) =>
          if mutex_free s then
            let '(s, inserted) := append r s in
            Some (set_producers
                    (if inserted : bool then <[t := PNotify]> (producers s)
                     else delete t (producers s)) s)
          else None
      | _ => None
      end
  | EvNotify t =>
      match producers s !! t with
      | Some PNotify => Some (set_producers (delete t (producers s)) (notify_one s))
      | _ => None
      end
  | EvWorker failed => worker_step failed s
  | EvSpurious => match worker_ s with WWaiting => Some (set_worker WLock s) | _ => None end
  | EvDestroy failed => destructor_step failed s
  end.

(** What the machine guarantees of the arguments of [log]: a [uint32_t], a
    [uint64_t], and a span of an object that exists in memory. *)
Definition record_ok (r : record) : Prop :=
  0 <= record_id r < 2 ^ 32 /\ 0 <= timestamp_ns r < 2 ^ 64 /\ size_of (payload r) < 2 ^ 63.

Definition event_ok (e : event) : Prop :=
  match e with EvLog _ r => record_ok r | _ => True end.

Inductive reachable (cap : Z) (before : list byte) (opened : bool) : logger -> Prop :=
| reach_init : reachable cap before opened (logger_init cap before opened)
| reach_step s e s' :
    reachable cap before opened s -> event_ok e -> exec e s = Some s' -> reachable cap before opened s'
| reach_others s bs :
    reachable cap before opened s -> reachable cap before opened (others_append bs s).

Fixpoint run (es : list event) (s : logger) : option logger :=
  match es with
  | [] => Some s
  | e :: es => match exec e s with Some s' => run es s' | None => None end
  end.

(** ** The invariant *)

Definition encodings (rs : list record) : list byte := concat (encode <$> rs).

(** What this logger ([own]), or the others, have appended. *)
Definition pieces {B} (own : bool) (cs : list (bool * B)) : list B :=
  omap (fun c => if Bool.eqb c.1 own then Some c.2 else None) cs.

#[local] Arguments pieces : simpl never.

Definition written (s : logger) : list byte := concat (pieces true (chunks s)).

(** The active buffer holds the records [ra], until the destructor has written them. *)
Definition buffered (d : dtor) (active : list byte) (ra : list record) : Prop :=
  match d with DDone => ra = [] | _ => active = encodings ra end.

Definition someone_notifies (s : logger) : Prop := exists t, producers s !! t = Some PNotify.

Definition record_logged (r : record) : Prop := record_ok r /\ payload r <> [].

Record logger_inv (cap : Z) (before : list byte) (opened : bool) (s : logger) : Prop := {
  inv_cap : max_capacity_ s = cap;
  inv_opened : file_open s = opened;
  inv_active : size_of (active_buffer_ s) <= cap;
  inv_flush : worker_ s <> WFlush -> flush_buffer_ s = [];
  inv_bytes : file_ s = before ++ concat (chunks s).*2;
  inv_file : file_good s = true -> exists gs rf ra,
    pieces true (chunks s) = encodings <$> gs /\ flush_buffer_ s = encodings rf /\
    buffered (destructor s) (active_buffer_ s) ra /\
    accepted s = concat gs ++ rf ++ ra;
  inv_prefix : (written s) `prefix_of` (encodings (accepted s));
  inv_accepted : Forall (fun r => record_logged r /\ size_of (payload r) <= cap) (accepted s);
  inv_producers t r : producers s !! t = Some (PAppend r) -> record_logged r;
  inv_enter : worker_ s = WEnterWait -> active_buffer_ s = [];
  inv_waiting : worker_ s = WWaiting -> active_buffer_ s = [] \/ someone_notifies s;
  inv_disabled : opened = false ->
    running_ s = false /\ worker_ s = WNone /\ producers s = ∅ /\ accepted s = [] /\
    active_buffer_ s = [];
  inv_running : destructor s = DNotCalled -> running_ s = opened;
  inv_stopping : destructor s <> DNotCalled -> producers s = ∅ /\ running_ s = false;
  inv_done : worker_ s = WDone -> running_ s = false;
  inv_joined : worker_ s = WNone -> opened = false \/ destructor s = DFinal \/ destructor s = DDone;
  inv_final : destructor s = DFinal \/ destructor s = DDone -> worker_ s = WNone;
}.

Lemma length_forge_header r : length (forge_header r) = 16%nat.
Proof using. unfold forge_header, RimHeader. solve_length. Qed.

Lemma encodings_snoc rs r : encodings (rs ++ [r]) = encodings rs ++ encode r.
Proof using. unfold encodings. rewrite fmap_app, concat_app. simpl. by rewrite app_nil_r. Qed.

Lemma encodings_app rs rs' : encodings (rs ++ rs') = encodings rs ++ encodings rs'.
Proof using. unfold encodings. by rewrite fmap_app, concat_app. Qed.

Lemma encodings_concat gs : encodings (concat gs) = concat (encodings <$> gs).
Proof using. induction gs as [|g gs IH]; [done|]. rewrite fmap_cons. cbn [concat]. by rewrite encodings_app, IH. Qed.

Lemma encodings_length rs : (length rs <= length (encodings rs))%nat.
Proof using.
  induction rs as [|r rs IH]; [done|]. change (encodings (r :: rs)) with (encode r ++ encodings rs).
  unfold encode. rewrite !length_app, length_forge_header. simpl. lia.
Qed.

Lemma encodings_nil rs : encodings rs = [] -> rs = [].
Proof using. intros E. pose proof (encodings_length rs) as Hl. rewrite E in Hl. destruct rs; [done|cbn in Hl; lia]. Qed.

Lemma pieces_snoc {B} own own' (cs : list (bool * B)) c :
  pieces own (cs ++ [(own', c)]) = if Bool.eqb own' own then pieces own cs ++ [c] else pieces own cs.
Proof using. unfold pieces. rewrite omap_app. cbn. destruct (Bool.eqb own' own); [done|apply app_nil_r]. Qed.

Lemma buffered_running d active ra : d <> DDone -> buffered d active ra <-> active = encodings ra.
Proof using. by destruct d. Qed.

Lemma logger_init_inv cap before opened : 0 <= cap -> logger_inv cap before opened (logger_init cap before opened).
Proof using.
  intros Hcap. split; simpl; try done; try (by destruct opened).
  1: by rewrite app_nil_r.
  1: intros _; by exists [], [], [].
  all: destruct opened; naive_solver.
Qed.

(** An insertion does not overflow [size_t] and stays within the capacity. *)
Lemma append_room cap s r :
  0 <= cap < 2 ^ 62 -> size_of (active_buffer_ s) <= cap -> max_capacity_ s = cap -> record_ok r ->
  (max_capacity_ s <? size_of (active_buffer_ s) +! size_of (forge_header r) +! size_of (payload r))
    = false ->
  size_of ((active_buffer_ s ++ forge_header r) ++ payload r) <= cap.
Proof using.
  intros Hcap Ha <- (_ & _ & Hp) Hfit. apply Z.ltb_ge in Hfit.
  assert (size_of (forge_header r) = 16) as Hh.
  { unfold size_of. by rewrite length_forge_header. }
  rewrite !size_of_app. pose proof (size_of_nonneg (active_buffer_ s)).
  pose proof (size_of_nonneg (payload r)).
  rewrite Hh in *. rewrite (size_add_small _ 16) in Hfit by (unfold is_size; lia).
  rewrite size_add_small in Hfit by (unfold is_size; lia). lia.
Qed.

(** Each event preserves the invariant. *)

Lemma notify_one_inv cap before opened s ps :
  logger_inv cap before opened s -> ps ⊆ producers s ->
  logger_inv cap before opened (set_producers ps (notify_one s)).
Proof using.
  intros [] Hps.
  assert (producers s = ∅ -> ps = ∅) as Hempty.
  { intros E. rewrite E in Hps. apply map_empty. intros i. by eapply lookup_weaken_None; [apply lookup_empty|]. }
  assert (forall t p, ps !! t = Some p -> producers s !! t = Some p) as Hlk.
  { intros t p Hp. by eapply lookup_weaken. }
  unfold notify_one. destruct (worker_ s) eqn:Hw; split; simpl; try congruence; try (by eauto);
    try (intros E; destruct (inv_disabled0 E) as (? & ? & ? & ? & ?); by split_and!; auto);
    try (intros E; destruct (inv_stopping0 E); by auto).
  all: naive_solver.
Qed.

Lemma append_inv cap before opened s t r :
  0 <= cap < 2 ^ 62 -> logger_inv cap before opened s -> producers s !! t = Some (PAppend r) ->
  mutex_free s = true ->
  let '(s', inserted) := append r s in
  logger_inv cap before opened
    (set_producers (if inserted : bool then <[t := PNotify]> (producers s)
                    else delete t (producers s)) s').
Proof using.
  intros Hcap Hinv Ht Hmx. pose proof (inv_producers _ _ _ _ Hinv _ _ Ht) as Hr.
  unfold append. destruct (_ <? _) eqn:Hfull.
  - destruct Hinv. split; simpl; try done.
    + intros t' r'. rewrite lookup_delete_Some. naive_solver.
    + intros [|(t' & Ht')]%inv_waiting0; [auto|]. right. exists t'.
      cbn. rewrite lookup_delete_ne; congruence.
    + intros Ho. specialize (inv_disabled0 Ho). destruct inv_disabled0 as (? & ? & E & ?).
      rewrite E in Ht. by rewrite lookup_empty in Ht.
    + intros Hd. destruct (inv_stopping0 Hd) as [E _]. rewrite E in Ht.
      by rewrite lookup_empty in Ht.
  - pose proof (append_room cap s r Hcap (inv_active _ _ _ _ Hinv) (inv_cap _ _ _ _ Hinv)
                  (proj1 Hr) Hfull) as Hroom.
    destruct Hinv.
    assert (destructor s = DNotCalled) as Hd.
    { destruct (decide (destructor s = DNotCalled)) as [|Hd]; [done|].
      destruct (inv_stopping0 Hd) as [E _]. rewrite E in Ht. by rewrite lookup_empty in Ht. }
    split; simpl; try done.
    + intros Hg. destruct (inv_file0 Hg) as (gs & rf & ra & Hgs & Hrf & Hra & Hacc). rewrite Hd in *.
      exists gs, rf, (ra ++ [r]). cbn in Hra |- *. split_and!; [done|done| |].
      * rewrite encodings_snoc, <- Hra. unfold encode. by rewrite <- !app_assoc.
      * by rewrite Hacc, <- !app_assoc.
    + unfold written. cbn. rewrite encodings_snoc. by apply prefix_app_r.
    + rewrite Forall_app, Forall_singleton. split_and!; try done.
      rewrite !size_of_app in Hroom. pose proof (size_of_nonneg (active_buffer_ s)).
      pose proof (size_of_nonneg (forge_header r)). lia.
    + intros t' r'. rewrite lookup_insert_Some. naive_solver.
    + intros Hw. unfold mutex_free in Hmx. by rewrite Hw in Hmx.
    + intros _. right. exists t. cbn. by rewrite lookup_insert_eq.
    + intros Ho. specialize (inv_disabled0 Ho). destruct inv_disabled0 as (? & ? & E & ?).
      rewrite E in Ht. by rewrite lookup_empty in Ht.
Qed.

(** A write of whole records, after which the records [ra] are left. *)
Lemma file_write_spec (R : list record -> Prop) failed data s :
  (file_good s = true -> exists gs rd ra,
     pieces true (chunks s) = encodings <$> gs /\ data = encodings rd /\ R ra /\ accepted s = concat gs ++ rd ++ ra) ->
  (file_write failed data s = s /\ file_good s = false) \/
  exists good bs, file_write failed data s = append_file true good bs s /\
    (good = true -> exists gs ra,
       pieces true (chunks s ++ [(true, bs)]) = encodings <$> gs /\ R ra /\ accepted s = concat gs ++ ra) /\
    (concat (pieces true (chunks s ++ [(true, bs)]))) `prefix_of` (encodings (accepted s)).
Proof using.
  intros Hs. unfold file_write. destruct (file_good s); [right|by left].
  destruct (Hs eq_refl) as (gs & rd & ra & Hgs & -> & Hra & ->). rewrite !encodings_app, encodings_concat, <- Hgs.
  destruct failed as [k|]; do 2 eexists; (split; [reflexivity|]); rewrite pieces_snoc; cbn [Bool.eqb];
    rewrite concat_app; cbn [concat]; rewrite app_nil_r.
  - split; [done|]. apply prefix_app. etrans; [apply prefix_take|]. by apply prefix_app_r.
  - split; [intros _|by apply prefix_app, prefix_app_r].
    exists (gs ++ [rd]), ra. rewrite Hgs, fmap_app, concat_app. cbn. by rewrite app_nil_r, <- app_assoc.
Qed.

Lemma chunk_bytes before s own bs :
  file_ s = before ++ concat (chunks s).*2 -> file_ s ++ bs = before ++ concat (chunks s ++ [(own, bs)]).*2.
Proof using. intros ->. rewrite fmap_app, concat_app. cbn. by rewrite app_nil_r, <- app_assoc. Qed.

(** A step of the worker that only moves its program counter. *)
Lemma set_worker_inv cap before opened s w :
  logger_inv cap before opened s -> worker_ s <> WNone -> w <> WNone ->
  (w <> WFlush -> flush_buffer_ s = []) ->
  (w = WEnterWait -> active_buffer_ s = []) ->
  (w = WWaiting -> active_buffer_ s = [] \/ someone_notifies s) ->
  (w = WDone -> running_ s = false) ->
  logger_inv cap before opened (set_worker w s).
Proof using.
  intros [] Hs Hw ? ? ? ?. split; simpl; try done.
  - intros Ho. specialize (inv_disabled0 Ho). naive_solver.
  - intros Hd. by apply inv_final0 in Hd.
Qed.

Lemma worker_alive cap before opened s :
  logger_inv cap before opened s -> worker_ s <> WNone ->
  opened = true /\ destructor s <> DDone /\ destructor s <> DFinal.
Proof using.
  intros [] Hw. split_and!; [|naive_solver..].
  destruct opened; [done|]. naive_solver.
Qed.

Lemma swap_inv cap before opened s :
  0 <= cap -> logger_inv cap before opened s -> worker_ s = WSwap ->
  logger_inv cap before opened
    (set_worker WFlush (set_buffers (flush_buffer_ s) (active_buffer_ s) s)).
Proof using.
  intros Hcap Hinv Hw.
  destruct (worker_alive _ _ _ _ Hinv) as (-> & Hd & _); [congruence|].
  destruct Hinv. assert (flush_buffer_ s = []) as Hfl by (apply inv_flush0; congruence).
  rewrite Hfl. split; simpl; try done.
  - intros Hg. destruct (inv_file0 Hg) as (gs & rf & ra & Hgs & Hrf & Hra & Hacc).
    rewrite Hfl in Hrf. rewrite (encodings_nil rf) in Hacc by done. apply buffered_running in Hra; [|done].
    exists gs, ra, []. rewrite buffered_running, app_nil_r by done. by split_and!.
  - intros Hd'. apply inv_final0 in Hd'. congruence.
Qed.

Lemma flush_step_inv cap before opened failed s :
  logger_inv cap before opened s -> worker_ s = WFlush ->
  logger_inv cap before opened (set_worker WTest (flush_step failed s)).
Proof using.
  intros Hinv Hw.
  destruct (worker_alive _ _ _ _ Hinv) as (-> & Hd & _); [congruence|].
  unfold flush_step. destruct (flush_buffer_ s) as [|b bs] eqn:Hfl.
  - apply set_worker_inv; auto; congruence.
  - destruct Hinv. rewrite inv_opened0.
    destruct (file_write_spec (fun ra => active_buffer_ s = encodings ra) failed (b :: bs) s)
      as [[-> Hbad]|(good & c & -> & Hgood & Hpre)].
    { intros Hg. destruct (inv_file0 Hg) as (gs & rf & ra & Hgs & Hrf & Hra & Hacc).
      apply buffered_running in Hra; [|done]. exists gs, rf, ra. split_and!; congruence. }
    all: split; simpl; try done; try (intros Hd'; apply inv_final0 in Hd'; congruence).
    + congruence.
    + by apply chunk_bytes.
    + intros Hg. destruct (Hgood Hg) as (gs & ra & Hgs & Hra & Hacc). exists gs, [], ra. by rewrite buffered_running.
Qed.

Lemma worker_step_inv cap before opened failed s s' :
  0 <= cap -> logger_inv cap before opened s -> worker_step failed s = Some s' ->
  logger_inv cap before opened s'.
Proof using.
  intros Hcap Hinv. pose proof (inv_flush _ _ _ _ Hinv) as Hfl.
  unfold worker_step. destruct (worker_ s) eqn:Hw; intros [= <-].
  - apply set_worker_inv; auto; destruct (running_ s); congruence.
  - apply set_worker_inv; auto; congruence.
  - apply set_worker_inv; auto; try congruence;
      destruct (active_buffer_ s), (running_ s); auto; congruence.
  - apply set_worker_inv; auto; try congruence. left. by apply (inv_enter _ _ _ _ Hinv).
  - by apply swap_inv.
  - by apply flush_step_inv.
Qed.

(** The fields of the invariant that a step does not touch. *)
Ltac inv_fields :=
  split; simpl; try done; try solve [auto];
  try match goal with
      | H : _ = false -> _ |- _ = false -> _ => solve [intros Ho; destruct (H Ho) as (? & ? & ? & ?); auto]
      end;
  try congruence.

(** A step of the destructor that only moves its program counter. *)
Lemma set_destructor_inv cap before opened s d :
  logger_inv cap before opened s -> producers s = ∅ -> d <> DNotCalled ->
  destructor s <> DDone -> d <> DDone ->
  (worker_ s = WNone -> opened = false \/ d = DFinal) ->
  (d = DFinal -> worker_ s = WNone) ->
  logger_inv cap before opened (set_destructor false d s).
Proof using.
  intros [] Hps Hd Hs Hd' Hn Hf. split; simpl; try done.
  - intros Hg. destruct (inv_file0 Hg) as (gs & rf & ra & H1 & H2 & H3 & H4). apply buffered_running in H3; [|done].
    exists gs, rf, ra. by rewrite buffered_running.
  - intros Ho. destruct (inv_disabled0 Ho) as (? & ? & ? & ?). auto.
  - intros Hw. destruct (Hn Hw); auto.
  - intros [|]; [auto|done].
Qed.

Lemma final_flush_inv cap before opened failed s :
  logger_inv cap before opened s -> destructor s = DFinal ->
  logger_inv cap before opened (set_destructor false DDone (final_flush failed s)).
Proof using.
  intros Hinv Hd. assert (worker_ s = WNone) as Hw by (apply (inv_final _ _ _ _ Hinv); auto).
  pose proof (inv_flush _ _ _ _ Hinv ltac:(congruence)) as Hfl.
  pose proof (inv_stopping _ _ _ _ Hinv ltac:(congruence)) as [Hps Hrun].
  unfold final_flush. destruct (active_buffer_ s) as [|b bs] eqn:Ha.
  - destruct Hinv. inv_fields.
    intros Hg. destruct (inv_file0 Hg) as (gs & rf & ra & H1 & H2 & H3 & H4). rewrite Hd, Ha in H3.
    rewrite (encodings_nil ra) in H4 by done. by exists gs, rf, [].
  - pose proof (inv_opened _ _ _ _ Hinv) as Ho. destruct opened.
    2:{ destruct (inv_disabled _ _ _ _ Hinv eq_refl) as (_ & _ & _ & _ & ?). congruence. }
    destruct Hinv. rewrite Ho.
    destruct (file_write_spec (fun ra => ra = []) failed (b :: bs) s) as [[-> Hbad]|(good & c & -> & Hgood & Hpre)].
    { intros Hg. destruct (inv_file0 Hg) as (gs & rf & ra & H1 & H2 & H3 & H4). rewrite Hd, Ha in H3. rewrite Hfl in H2.
      rewrite (encodings_nil rf) in H4 by done. exists gs, ra, []. by rewrite app_nil_r. }
    all: inv_fields.
    + by apply chunk_bytes.
    + intros Hg. destruct (Hgood Hg) as (gs & ra & H1 & -> & H3). by exists gs, [], [].
Qed.

Lemma destructor_step_inv cap before opened failed s s' :
  logger_inv cap before opened s -> destructor_step failed s = Some s' -> logger_inv cap before opened s'.
Proof using.
  intros Hinv. unfold destructor_step. destruct (destructor s) eqn:Hd.
  - case_decide; [|done]. intros [= <-].
    pose proof (inv_running _ _ _ _ Hinv Hd) as Hr. rewrite Hr.
    apply set_destructor_inv; try done; try (by destruct opened); try congruence.
    + intros Hw. destruct (inv_joined _ _ _ _ Hinv Hw) as [|[|]]; [auto|congruence..].
    + destruct opened; [done|]. intros _. by apply (inv_disabled _ _ _ _ Hinv).
  - intros [= <-]. destruct (inv_stopping _ _ _ _ Hinv) as [Hps Hrun]; [congruence|].
    assert (logger_inv cap before opened (set_producers (producers s) (notify_one s))) as H2
      by by apply notify_one_inv.
    replace (set_producers (producers s) (notify_one s)) with (notify_one s) in H2
      by (unfold notify_one; by destruct s, (worker_ _)).
    assert (destructor (notify_one s) = DNotify /\ producers (notify_one s) = ∅ /\
            (worker_ (notify_one s) = WNone -> worker_ s = WNone)) as (Hd2 & Hp2 & Hw2).
    { unfold notify_one. destruct (worker_ s) eqn:Hw; simpl; by rewrite ?Hw. }
    apply set_destructor_inv; try done; try congruence.
    intros Hw. destruct (inv_joined _ _ _ _ Hinv (Hw2 Hw)) as [|[|]]; [auto|congruence..].
  - destruct (inv_stopping _ _ _ _ Hinv) as [Hps Hrun]; [congruence|].
    pose proof (inv_flush _ _ _ _ Hinv) as Hfl.
    destruct (worker_ s) eqn:Hw; intros [= <-].
    + destruct Hinv. inv_fields.
      intros Hg. destruct (inv_file0 Hg) as (gs & rf & ra & H1 & H2 & H3 & H4).
      rewrite Hd in H3. by exists gs, rf, ra.
    + destruct Hinv. inv_fields.
      intros Hg. destruct (inv_file0 Hg) as (gs & rf & ra & H1 & H2 & H3 & H4).
      rewrite Hd in H3. by exists gs, rf, ra.
  - destruct (mutex_free s); intros [= <-]. by apply final_flush_inv.
  - done.
Qed.

Lemma log_exec_inv cap before opened e s s' :
  0 <= cap < 2 ^ 62 -> logger_inv cap before opened s -> event_ok e -> exec e s = Some s' ->
  logger_inv cap before opened s'.
Proof using.
  intros Hcap Hinv Hok. destruct e as [t r|t|t|failed| |failed]; simpl.
  - destruct (destructor s) eqn:Hd; try done. destruct (producers s !! t) eqn:Ht; [done|].
    destruct (running_ s) eqn:Hr, (Z.eqb_spec (size_of (payload r)) 0); simpl; intros [= <-];
      try done.
    pose proof (inv_running _ _ _ _ Hinv Hd) as Ho. rewrite Hr in Ho. subst opened.
    destruct Hinv. inv_fields.
    + intros t' r'. rewrite lookup_insert_Some. intros [[_ [= <-]]|[_ ?]]; [|eauto].
      split; [done|]. intros E. by rewrite E in n.
    + intros [|(t' & Ht')]%inv_waiting0; [auto|]. right. exists t'. cbn.
      rewrite lookup_insert_ne; congruence.
  - destruct (producers s !! t) as [[r|]|] eqn:Ht; try done.
    destruct (mutex_free s) eqn:Hm; [|done].
    pose proof (append_inv cap before opened s t r Hcap Hinv Ht Hm) as H.
    destruct (append r s) as [s1 ins] eqn:Ha. intros [= <-].
    replace (producers s1) with (producers s); [done|].
    unfold append in Ha. by destruct (_ <? _); injection Ha as <- _.
  - destruct (producers s !! t) as [[r|]|] eqn:Ht; try done. intros [= <-].
    apply notify_one_inv; [done|]. apply delete_subseteq.
  - apply worker_step_inv; [lia|done].
  - destruct (worker_ s) eqn:Hw; try done. intros [= <-].
    apply set_worker_inv; try congruence; try done.
    intros _. apply (inv_flush _ _ _ _ Hinv). congruence.
  - by apply destructor_step_inv.
Qed.

Lemma log_reachable_inv cap before opened s :
  0 <= cap < 2 ^ 62 -> reachable cap before opened s -> logger_inv cap before opened s.
Proof using.
  intros Hcap. induction 1 as [|s e s' _ IH He Hex|s bs _ IH]; [apply logger_init_inv; lia|by eapply log_exec_inv|].
  destruct IH. unfold others_append. split; simpl; try done.
  - by apply chunk_bytes.
  - intros Hg. rewrite pieces_snoc. auto.
  - unfold written. cbn. by rewrite pieces_snoc.
Qed.

Lemma run_reachable cap before opened es s s' :
  reachable cap before opened s -> Forall event_ok es -> run es s = Some s' -> reachable cap before opened s'.
Proof using.
  intros Hr Hes. revert s Hr. induction Hes as [|e es He _ IH]; intros s Hr; simpl; [by intros [= <-]|].
  destruct (exec e s) as [s1|] eqn:Hex; [|done]. apply IH. by eapply reach_step.
Qed.

(** ** Reading a log file back *)

(** A reader of the file format: a 16-byte big-endian header, then as many
    bytes as it says. *)
Fixpoint parse_log (fuel : nat) (bs : list byte) : option (list record) :=
  match bs, fuel with
  | [], _ => Some []
  | _, O => None
  | _, S fuel =>
      let len := be_value (subspan bs 4 4) in
      if size_of bs <? 16 + len then None
      else
        rs ← parse_log fuel (drop (Z.to_nat (16 + len)) bs);
        Some (Rec (be_value (subspan bs 0 4)) (be_value (subspan bs 8 8)) (subspan bs 16 len) :: rs)
  end.

Lemma encode_bytes r :
  record_ok r -> size_of (payload r) < 2 ^ 32 ->
  encode r = be_bytes 4 (record_id r) ++ be_bytes 4 (size_of (payload r)) ++
             be_bytes 8 (timestamp_ns r) ++ payload r.
Proof using.
  intros (Hid & Hts & _) Hp. pose proof (size_of_nonneg (payload r)).
  unfold encode, forge_header, RimHeader. rewrite wrap_small by lia.
  rewrite !store_htobe by (simpl; lia). by rewrite <- !app_assoc.
Qed.

Lemma subspan_skip (a b : list byte) off n :
  Z.of_nat (length a) <= off -> subspan (a ++ b) off n = subspan b (off - Z.of_nat (length a)) n.
Proof using.
  intros H. unfold subspan. rewrite drop_app_ge by lia. do 2 f_equal. lia.
Qed.

Lemma subspan_front (a b : list byte) n :
  Z.of_nat (length a) = n -> subspan (a ++ b) 0 n = a.
Proof using. intros <-. unfold subspan. rewrite Nat2Z.id. apply take_app_length. Qed.

(** The fields of an encoded record, whatever follows it. *)
Lemma encode_fields r rest :
  record_ok r -> size_of (payload r) < 2 ^ 32 ->
  let bs := encode r ++ rest in
  be_value (subspan bs 0 4) = record_id r /\
  be_value (subspan bs 4 4) = size_of (payload r) /\
  be_value (subspan bs 8 8) = timestamp_ns r /\
  subspan bs 16 (size_of (payload r)) = payload r /\
  drop (Z.to_nat (16 + size_of (payload r))) bs = rest.
Proof using.
  intros Hok Hp bs. unfold bs. pose proof (size_of_nonneg (payload r)) as Hn.
  assert (length (encode r) = Z.to_nat (16 + size_of (payload r))) as Hlen.
  { unfold encode. rewrite length_app, length_forge_header. unfold size_of. lia. }
  split_and!; [..|rewrite <- Hlen; apply drop_app_length].
  all: rewrite encode_bytes by done; rewrite <- !app_assoc;
    destruct Hok as (Hid & Hts & _).
  - rewrite subspan_front by by rewrite length_be_bytes.
    apply be_value_be_bytes. simpl. lia.
  - rewrite subspan_skip by (rewrite length_be_bytes; lia). rewrite length_be_bytes.
    rewrite subspan_front by by rewrite length_be_bytes.
    apply be_value_be_bytes. simpl. lia.
  - do 2 (rewrite subspan_skip by (rewrite ?length_be_bytes; lia)). rewrite !length_be_bytes.
    rewrite subspan_front by by rewrite length_be_bytes.
    apply be_value_be_bytes. simpl. lia.
  - do 3 (rewrite subspan_skip by (rewrite ?length_be_bytes; lia)). rewrite !length_be_bytes.
    by rewrite subspan_front.
Qed.

Lemma parse_log_encodings rs fuel :
  Forall (fun r => record_ok r /\ size_of (payload r) < 2 ^ 32) rs ->
  (length rs <= fuel)%nat -> parse_log fuel (encodings rs) = Some rs.
Proof using.
  intros Hrs. revert fuel. induction Hrs as [|r rs [Hok Hp] _ IH]; intros fuel Hf.
  { by destruct fuel. }
  destruct fuel as [|fuel]; simpl in Hf; [lia|].
  change (encodings (r :: rs)) with (encode r ++ encodings rs).
  destruct (encode_fields r (encodings rs) Hok Hp) as (H1 & H2 & H3 & H4 & H5).
  pose proof (size_of_nonneg (payload r)).
  assert (16 <= size_of (encode r ++ encodings rs)) as Hsz.
  { unfold size_of, encode. rewrite !length_app, length_forge_header. lia. }
  destruct (encode r ++ encodings rs) as [|b bs] eqn:Hbs; [by vm_compute in Hsz|].
  cbn [parse_log]. rewrite H1, H2, H3, H4, H5.
  destruct (Z.ltb_spec (size_of (b :: bs)) (16 + size_of (payload r))) as [Hlt|].
  { apply (f_equal length) in H5. rewrite <- Hbs in Hlt. unfold size_of, encode in Hlt.
    rewrite !length_app, length_forge_header in Hlt. unfold size_of in *. lia. }
  rewrite IH by lia. simpl. by destruct r.
Qed.

(** What is not too long for the header's field. *)
Definition storable (r : record) : Prop := record_ok r /\ size_of (payload r) < 2 ^ 32.

Definition whole_records (bs : list byte) : Prop := exists rs, Forall storable rs /\ bs = encodings rs.

Lemma others_records cs :
  Forall whole_records cs -> exists hs, Forall (Forall storable) hs /\ cs = encodings <$> hs.
Proof using.
  induction 1 as [|c cs (rs & Hrs & ->) _ (hs & Hhs & ->)]; [by exists []|]. exists (rs :: hs). by split; [constructor|].
Qed.

(** Chunks of whole records, put together again. *)
Lemma chunks_records (cs : list (bool * list byte)) gs hs :
  pieces true cs = encodings <$> gs -> pieces false cs = encodings <$> hs ->
  exists rs, cs = (fun x => (x.1, encodings x.2)) <$> rs /\ pieces true rs = gs /\ pieces false rs = hs.
Proof using.
  revert gs hs. induction cs as [|[own c] cs IH]; intros gs hs.
  - intros Hg Hh. exists []. by destruct gs, hs.
  - destruct own; unfold pieces; cbn; intros Hg Hh.
    + destruct gs as [|g gs]; [done|]. injection Hg as -> Hg. destruct (IH gs hs Hg Hh) as (rs & -> & H1 & H2).
      exists ((true, g) :: rs). split; [done|]. split; [|exact H2]. change (g :: pieces true rs = g :: gs). by rewrite H1.
    + destruct hs as [|h hs]; [done|]. injection Hh as -> Hh. destruct (IH gs hs Hg Hh) as (rs & -> & H1 & H2).
      exists ((false, h) :: rs). split; [done|]. split; [exact H1|]. change (h :: pieces false rs = h :: hs). by rewrite H2.
Qed.

Lemma forall_pieces {B} (P : B -> Prop) (rs : list (bool * B)) :
  Forall P (pieces true rs) -> Forall P (pieces false rs) -> Forall P rs.*2.
Proof using.
  induction rs as [|[[] x] rs IH]; [done|..]; unfold pieces; cbn; intros H1 H2; constructor.
  - by apply Forall_cons in H1 as [? _].
  - apply IH; [by apply Forall_cons in H1 as [_ ?]|done].
  - by apply Forall_cons in H2 as [? _].
  - apply IH; [done|by apply Forall_cons in H2 as [_ ?]].
Qed.

Lemma only_own {B} (rs : list (bool * B)) : pieces false rs = [] -> rs.*2 = pieces true rs.
Proof using.
  induction rs as [|[[] x] rs IH]; [done|..]; unfold pieces; cbn; [|done].
  intros H. f_equal. by apply IH.
Qed.

Lemma chunks_bytes rs : concat ((fun x : bool * list record => (x.1, encodings x.2)) <$> rs).*2 = encodings (concat rs.*2).
Proof using. rewrite encodings_concat. f_equal. rewrite <- !list_fmap_compose. by apply list_fmap_ext. Qed.

(** ** The worker gets to the data *)

(** An event of the worker, its writes succeeding, or a pending notification. *)
Definition progress_event (e : event) : Prop :=
  match e with EvWorker None | EvNotify _ => True | _ => False end.

Lemma worker_drains n s s' :
  run (replicate n (EvWorker None)) s = Some s' ->
  exists es, Forall progress_event es /\ run es s = Some s'.
Proof using. intros H. eexists. split; [|done]. by apply Forall_replicate. Qed.

Lemma concat_written {B} (cs : list (bool * list B)) bs :
  concat (pieces true (cs ++ [(true, bs)])) = concat (pieces true cs) ++ bs.
Proof using. rewrite pieces_snoc. cbn [Bool.eqb]. rewrite concat_app. cbn [concat]. by rewrite app_nil_r. Qed.

(** Written or in the buffers: all that has been accepted. *)
Lemma buffers_written cap before opened s :
  logger_inv cap before opened s -> file_good s = true -> destructor s <> DDone ->
  written s ++ flush_buffer_ s ++ active_buffer_ s = encodings (accepted s).
Proof using.
  intros Hinv Hg Hd. destruct (inv_file _ _ _ _ Hinv Hg) as (gs & rf & ra & H1 & -> & H3 & ->).
  apply buffered_running in H3 as ->; [|done]. unfold written. by rewrite H1, !encodings_app, encodings_concat.
Qed.

Lemma drain_from_lock s :
  worker_ s = WLock -> active_buffer_ s <> [] -> flush_buffer_ s = [] ->
  file_open s = true -> file_good s = true ->
  exists s', run (replicate 4 (EvWorker None)) s = Some s' /\
    written s' = written s ++ active_buffer_ s.
Proof using.
  destruct s as [mc dl fo fg f [|b ab] fb rn w ps d acc cs]; simpl; [done|].
  intros -> _ -> -> ->. eexists. split; [reflexivity|apply concat_written].
Qed.

Lemma drain_from_test s :
  worker_ s = WTest -> running_ s = true -> active_buffer_ s <> [] -> flush_buffer_ s = [] ->
  file_open s = true -> file_good s = true ->
  exists s', run (replicate 5 (EvWorker None)) s = Some s' /\
    written s' = written s ++ active_buffer_ s.
Proof using.
  intros Hw Hr Ha Hf Ho Hg.
  destruct (drain_from_lock (set_worker WLock s)) as (s' & Hrun & Hs'); try done.
  exists s'. split; [|done]. cbn. unfold worker_step. by rewrite Hw, Hr.
Qed.

Lemma drain_prefix es1 s s1 target :
  Forall progress_event es1 -> run es1 s = Some s1 ->
  (exists es s', Forall progress_event es /\ run es s1 = Some s' /\ written s' = target) ->
  exists es s', Forall progress_event es /\ run es s = Some s' /\ written s' = target.
Proof using.
  intros He1 Hr1 (es & s' & He & Hr & Ht). exists (es1 ++ es), s'.
  split; [by apply Forall_app|]. split; [|done].
  clear -Hr1 Hr. revert s Hr1. induction es1 as [|e es1 IH]; intros s; simpl.
  - by intros [= ->].
  - destruct (exec e s); [apply IH|done].
Qed.

Lemma drain_workers n s target :
  (exists s', run (replicate n (EvWorker None)) s = Some s' /\ written s' = target) ->
  exists es s', Forall progress_event es /\ run es s = Some s' /\ written s' = target.
Proof using.
  intros (s' & Hr & Ht). do 2 eexists. split; [|done]. by apply Forall_replicate.
Qed.

Lemma logger_drains cap before s :
  logger_inv cap before true s -> destructor s = DNotCalled -> file_good s = true ->
  exists es s', Forall progress_event es /\ run es s = Some s' /\
    written s' = encodings (accepted s).
Proof using.
  intros Hinv Hd Hg.
  pose proof (buffers_written _ _ _ _ Hinv Hg ltac:(congruence)) as Hfile.
  pose proof (inv_running _ _ _ _ Hinv Hd) as Hr. pose proof (inv_opened _ _ _ _ Hinv) as Ho.
  pose proof (inv_flush _ _ _ _ Hinv) as Hfl. pose proof (inv_enter _ _ _ _ Hinv) as Hen.
  pose proof (inv_waiting _ _ _ _ Hinv) as Hwait.
  destruct (decide (flush_buffer_ s = [])) as [Hf|Hf].
  - rewrite Hf in Hfile. simpl in Hfile. destruct (decide (active_buffer_ s = [])) as [Ha|Ha].
    { exists [], s. split; [done|]. split; [done|]. by rewrite <- Hfile, Ha, app_nil_r. }
    rewrite <- Hfile. destruct (worker_ s) eqn:Hw.
    + by apply (drain_workers 5), drain_from_test.
    + by apply (drain_workers 4), drain_from_lock.
    + apply (drain_workers 3). clear -Hw Ha Hf Ho Hg.
      destruct s as [mc dl fo fg f [|b ab] fb rn w ps d acc cs]; simpl in *; [done|]. subst.
      eexists. split; [reflexivity|apply concat_written].
    + naive_solver.
    + destruct (Hwait eq_refl) as [|[t Ht]]; [done|].
      apply (drain_prefix [EvNotify t] s
               (set_producers (delete t (producers s)) (set_worker WLock s)));
        [by constructor| |].
      { cbn [run exec]. rewrite Ht. unfold notify_one. by rewrite Hw. }
      by apply (drain_workers 4),
        (drain_from_lock (set_producers (delete t (producers s)) (set_worker WLock s))).
    + apply (drain_workers 2). clear -Hw Ha Hf Ho Hg.
      destruct s as [mc dl fo fg f [|b ab] fb rn w ps d acc cs]; simpl in *; [done|]. subst.
      eexists. split; [reflexivity|apply concat_written].
    + apply (drain_prefix [EvWorker None] s (set_worker WTest s)); [by repeat constructor| |].
      { simpl. unfold worker_step, flush_step. by rewrite Hw, Hf. }
      by apply (drain_workers 5), (drain_from_test (set_worker WTest s)).
    + pose proof (inv_done _ _ _ _ Hinv Hw). congruence.
    + destruct (inv_joined _ _ _ _ Hinv Hw) as [|[|]]; congruence.
  - assert (worker_ s = WFlush) as Hw by (destruct (worker_ s); auto; destruct Hf; auto).
    set (s1 := append_file true true (flush_buffer_ s)
                 (set_worker WTest (set_buffers (active_buffer_ s) [] s))).
    apply (drain_prefix [EvWorker None] s s1); [by repeat constructor| |].
    { simpl. unfold worker_step, flush_step, file_write. rewrite Hw, Ho.
      destruct (flush_buffer_ s) eqn:Hfb; [done|]. by rewrite Hg. }
    assert (written s1 = written s ++ flush_buffer_ s) as Hw1 by apply concat_written.
    rewrite <- Hfile, app_assoc, <- Hw1. destruct (decide (active_buffer_ s = [])) as [Ha|Ha].
    { exists [], s1. split; [done|]. split; [done|]. by rewrite Ha, app_nil_r. }
    by apply (drain_workers 5), (drain_from_test s1).
Qed.

(** ** Properties *)

(** C18: durability.  When the destructor has returned and no write failed, and what the
    file held before and what others appended to it were logs too, reading it back (a
    16-byte big-endian header per record, on either endianness of the host) gives each
    record's id, timestamp and payload: first the records that were there, then, in pieces
    of whole records, those of this logger and of the others.  Those of this logger are
    exactly the records that [log] accepted, in the order they were accepted; without
    others the file ends in exactly these.  The capacity keeps every length within its
    32-bit field. *)
Theorem log_file_roundtrip cap rs0 opened s :
  0 <= cap < 2 ^ 32 -> Forall storable rs0 -> reachable cap (encodings rs0) opened s ->
  destructor s = DDone -> file_good s = true -> Forall whole_records (pieces false (chunks s)) ->
  exists rs : list (bool * list record),
    parse_log (length (file_ s)) (file_ s) = Some (rs0 ++ concat rs.*2) /\
    concat (pieces true rs) = accepted s /\ encodings <$> pieces false rs = pieces false (chunks s) /\
    (pieces false (chunks s) = [] -> concat rs.*2 = accepted s).
Proof using.
  intros Hcap Hrs0 Hr Hd Hg (hs & Hhs & Hh)%others_records. apply log_reachable_inv in Hr as Hinv; [|lia].
  destruct (inv_file _ _ _ _ Hinv Hg) as (gs & rf & ra & Hgs & Hrf & Hra & Hacc). rewrite Hd in Hra. cbn in Hra.
  rewrite (inv_flush _ _ _ _ Hinv) in Hrf by (rewrite (inv_final _ _ _ _ Hinv); [done|auto]).
  rewrite Hra, (encodings_nil rf), !app_nil_r in Hacc by done.
  destruct (chunks_records (chunks s) gs hs Hgs Hh) as (rs & Hcs & H1 & H2). exists rs.
  rewrite (inv_bytes _ _ _ _ Hinv), Hcs, chunks_bytes, <- encodings_app. split_and!; [|by rewrite H1| |].
  - apply parse_log_encodings; [|apply encodings_length]. apply Forall_app. split; [exact Hrs0|].
    apply Forall_concat, forall_pieces; [|by rewrite H2]. rewrite H1. apply Forall_concat. rewrite <- Hacc.
    eapply Forall_impl; [apply (inv_accepted _ _ _ _ Hinv)|]. cbn. intros r [[? _] ?]. split; [done|lia].
  - by rewrite <- Hcs, H2, Hh.
  - rewrite <- Hcs, Hh, Hacc, <- H1, <- H2. intros E%fmap_nil_inv. by rewrite only_own.
Qed.

(** C19: at every moment, whatever the producers, the worker, the disk, the destructor
    and others with the same file do: the file holds what it held before and then what
    has been appended; what this logger has appended, put together, is a prefix of the
    accepted records' encodings (no record of its own is reordered or duplicated), and, no
    write having failed, consists of pieces of whole records, which others cannot cut, and
    the file and the two buffers together hold all of them; the active buffer stays within
    [max_capacity_], and a logger whose file could not be opened accepts nothing. *)
Theorem logger_safe cap before opened s :
  0 <= cap < 2 ^ 62 -> reachable cap before opened s ->
  file_ s = before ++ concat (chunks s).*2 /\
  (written s) `prefix_of` (encodings (accepted s)) /\
  (file_good s = true -> exists gs, pieces true (chunks s) = encodings <$> gs) /\
  (file_good s = true -> destructor s <> DDone ->
   written s ++ flush_buffer_ s ++ active_buffer_ s = encodings (accepted s)) /\
  size_of (active_buffer_ s) <= cap /\
  (opened = false -> accepted s = []).
Proof using.
  intros Hcap Hr. apply log_reachable_inv in Hr as Hinv; [|lia].
  split; [apply Hinv|]. split; [apply Hinv|]. split_and!.
  - intros Hg. destruct (inv_file _ _ _ _ Hinv Hg) as (gs & _ & _ & Hgs & _). by exists gs.
  - intros Hg Hd. by apply (buffers_written _ _ _ _ Hinv).
  - apply Hinv.
  - intros Ho. by destruct (inv_disabled _ _ _ _ Hinv Ho) as (_ & _ & _ & ? & _).
Qed.

(** No wake-up of the worker is lost while producers run.  From every
    reachable state before destruction, in which no write has failed, steps of
    the worker and of notifications already due write everything accepted to
    the file: no further [log] call and no spurious wake-up is needed. *)
Theorem log_wakeup_not_lost cap before s :
  0 <= cap < 2 ^ 62 -> reachable cap before true s -> destructor s = DNotCalled -> file_good s = true ->
  exists es s', Forall progress_event es /\ run es s = Some s' /\
    written s' = encodings (accepted s).
Proof using.
  intros Hcap Hr ? ?. apply log_reachable_inv in Hr as Hinv; [|lia]. by eapply logger_drains.
Qed.

(** C20: the destructor can hang.  It clears [running_] and notifies without
    holding the mutex, so both can fall between the worker's evaluation of the
    wait predicate and its blocking: the worker then waits, the destructor waits
    in [join()], and of the events of the logger nothing but a spurious wake-up is possible
    any more. *)
Theorem destructor_can_hang cap before :
  exists s, reachable cap before true s /\ worker_ s = WWaiting /\ destructor s = DJoin /\
    forall e s', exec e s = Some s' -> e = EvSpurious.
Proof using.
  set (es := [EvWorker None; EvWorker None; EvWorker None;
              EvDestroy None; EvDestroy None; EvWorker None]).
  eexists. split; [|split_and!].
  - eapply (run_reachable cap before true es (logger_init cap before true));
      [constructor|by repeat constructor|reflexivity].
  - done.
  - done.
  - intros [] s'; done.
Qed.

(** ** Witnesses

    The file has a record of an earlier run, and another logger of the same second adds one
    before the worker writes. *)

Definition demo_record : record := Rec 7 1000 [x61; x62].

Definition earlier_record : record := Rec 7 10 [x31].

Definition other_record : record := Rec 8 1000 [x32; x33; x34].

Definition demo_schedule : list event :=
  [EvWorker None; EvLog 1 demo_record; EvWorker None; EvWorker None; EvWorker None;
   EvAppend 1].

Definition demo_start : logger := logger_init 100 (encodings [earlier_record]) true.

Definition demo_state : logger := others_append (encodings [other_record]) (default demo_start (run demo_schedule demo_start)).

Definition shutdown_schedule : list event :=
  [EvNotify 1; EvWorker None; EvWorker None; EvWorker None; EvWorker None;
   EvDestroy None; EvDestroy None; EvWorker None; EvDestroy None; EvDestroy None].

Definition demo_final : logger := default demo_start (run shutdown_schedule demo_state).

End Host.

Lemma demo_state_reachable host : reachable host 100 (encodings host [earlier_record]) true (demo_state host).
Proof.
  apply reach_others. eapply (run_reachable host 100 _ true demo_schedule (demo_start host)); [apply reach_init| |by destruct host; vm_compute].
  repeat constructor; by vm_compute.
Qed.

Lemma demo_final_reachable host : reachable host 100 (encodings host [earlier_record]) true (demo_final host).
Proof.
  eapply (run_reachable host 100 _ true shutdown_schedule); [apply demo_state_reachable|by repeat constructor|].
  by destruct host; vm_compute.
Qed.

Lemma log_file_roundtrip_witness :
  exists rs, parse_log 54 (file_ (demo_final LittleEndian)) = Some (earlier_record :: concat rs.*2) /\
    concat (pieces true rs) = [demo_record] /\
    encodings LittleEndian <$> pieces false rs = [encodings LittleEndian [other_record]].
Proof.
  destruct (log_file_roundtrip LittleEndian 100 [earlier_record] true (demo_final LittleEndian))
    as (rs & H1 & H2 & H3 & _).
  - done.
  - repeat constructor; by vm_compute.
  - apply demo_final_reachable.
  - reflexivity.
  - reflexivity.
  - constructor; [|constructor]. exists [other_record]. split; [repeat constructor; by vm_compute|reflexivity].
  - exists rs. split; [exact H1|]. split; [exact H2|exact H3].
Defined.

Lemma logger_safe_witness :
  file_ (demo_final BigEndian) =
    encodings BigEndian [earlier_record] ++ concat [encodings BigEndian [other_record]; encode BigEndian demo_record] /\
  (exists gs, [encode BigEndian demo_record] = encodings BigEndian <$> gs) /\ size_of (active_buffer_ (demo_final BigEndian)) <= 100.
Proof.
  destruct (logger_safe BigEndian 100 (encodings BigEndian [earlier_record]) true (demo_final BigEndian))
    as (H1 & _ & H3 & _ & H5 & _); [done|apply demo_final_reachable|].
  split; [exact H1|]. split; [exact (H3 eq_refl)|exact H5].
Defined.

(** The worker sleeps, a record is in the buffer, its producer is about to notify. *)
Lemma log_wakeup_not_lost_witness :
  exists es s', Forall progress_event es /\
    run LittleEndian es (demo_state LittleEndian) = Some s' /\
    written s' = encodings LittleEndian [demo_record].
Proof.
  apply (log_wakeup_not_lost LittleEndian 100 (encodings LittleEndian [earlier_record]) (demo_state LittleEndian));
    [done|apply demo_state_reachable|done|done].
Defined.
