(* ===== verification/TcpSession.v ===== *)
(** * A TCP session: what [TcpConnection] and [TcpClient] share

    Both classes put the receive path of Framing.v and the send path of
    SendPipeline.v over one socket, with a read timer, [close] and a receive
    callback that runs inside the strand and may call [send] and [close].  The code
    repeats these functions in tcp_server.hpp and tcp_client.hpp; here they are
    modelled once, over what differs: [TcpConnection] calls its disconnect callback
    when it closes, [TcpClient] keeps a flag [is_connected_] that [close] clears and
    [send] consults.  Threads that call [send] and [close] from outside, the strand,
    the kernel and the timer interleave. *)

From S2P Require Import Prelude Framing Expected SendPipeline Callbacks.
From Stdlib Require Import ZArith Lia.

Open Scope nat_scope.

(** What an endpoint class adds to the session: a state of its own, what [close]
    does to it (given whether the socket was open), whether it lets [send] through,
    and an invariant that relates it to the socket. *)
Class Owner (X : Type) := {
  own_close : bool -> X -> X;
  own_sends : X -> bool;
  own_inv : bool -> X -> Prop;
  own_inv_close open x : own_inv open x -> own_inv false (own_close open x);
}.

(** Everything of a session but its receive state.  [timer_armed]: a wait on
    [read_timer_] is pending; [timers_fired]: expired waits whose handlers the
    strand has not run yet (they can no longer be cancelled).  [app] is the
    application's state. *)
Record endpoint (X A : Type) := Endpoint {
  tx : pipe;
  timer_armed : bool;
  timers_fired : nat;
  own : X;
  app : A;
}.
Arguments Endpoint {X A}.
Arguments tx {X A}.
Arguments timer_armed {X A}.
Arguments timers_fired {X A}.
Arguments own {X A}.
Arguments app {X A}.

Section Endpoint.

Context {X A : Type} `{!Owner X} (read_timeout_ : Z).

Definition set_tx (p : pipe) (s : endpoint X A) : endpoint X A :=
  Endpoint p (timer_armed s) (timers_fired s) (own s) (app s).

Definition set_app (a : A) (s : endpoint X A) : endpoint X A :=
  Endpoint (tx s) (timer_armed s) (timers_fired s) (own s) a.

Definition set_timer (armed : bool) (fired : nat) (s : endpoint X A) : endpoint X A :=
  Endpoint (tx s) armed fired (own s) (app s).

Definition set_own (x : X) (s : endpoint X A) : endpoint X A :=
  Endpoint (tx s) (timer_armed s) (timers_fired s) x (app s).

(** The function [close] dispatches to the strand. *)
Definition close (s : endpoint X A) : endpoint X A :=
  let s' := if is_open (tx s) then set_timer false (timers_fired s) (set_tx (close_socket (tx s)) s)
            else s in
  set_own (own_close (is_open (tx s)) (own s)) s'.

(** [expires_after] cancels the pending wait, whose handler then does nothing. *)
Definition reset_read_timeout (s : endpoint X A) : endpoint X A :=
  if (0 <? read_timeout_)%Z then set_timer true (timers_fired s) s else s.

(** The completion handler of the timer's wait. *)
Definition timer_handler (ec : bool) (s : endpoint X A) : endpoint X A :=
  if negb ec then close s else s.

Lemma close_closes s : is_open (tx (close s)) = false.
Proof. unfold close. by destruct (is_open (tx s)) eqn:E. Qed.

Lemma reset_read_timeout_tx s : tx (reset_read_timeout s) = tx s.
Proof. unfold reset_read_timeout. by destruct (0 <? _)%Z. Qed.

Lemma reset_read_timeout_own s : own (reset_read_timeout s) = own s.
Proof. unfold reset_read_timeout. by destruct (0 <? _)%Z. Qed.

Lemma reset_read_timeout_is_open s : is_open (tx (reset_read_timeout s)) = is_open (tx s).
Proof. by rewrite reset_read_timeout_tx. Qed.

#[export] Instance session_endpoint : StreamEndpoint (endpoint X A) := {|
  ep_is_open s := is_open (tx s);
  ep_close := close;
  ep_reset_read_timeout := reset_read_timeout;
  ep_close_closes := close_closes;
  ep_reset_is_open := reset_read_timeout_is_open;
|}.

#[export] Instance session_sender `{!CircularBuffer} : Sender (endpoint X A) := {|
  ep_send data s :=
    if own_sends (own s) then '(res, p) ← send_in_strand data (tx s); Ret (res, set_tx p s)
    else Ret (error_of not_connected, s);
|}.

End Endpoint.

(** A receive callback that comes back from every well-framed message. *)
Definition callback_defined {A} (cfg : framing_config) (f : list byte -> Z)
    (on_recv_ : option (app_callback A)) : Prop :=
  forall cb, on_recv_ = Some cb -> forall a m,
  well_framed (header_size_ cfg) (max_message_size_ cfg) f m -> never_fails (app_on_recv cb a m).

Lemma no_callback_defined {A} cfg f : callback_defined (A := A) cfg f None.
Proof. done. Qed.

Section Session.

Context `{!CircularBuffer} {X A : Type} `{!Owner X}.
Context (cfg : framing_config) (read_timeout_ : Z) (on_recv_ : option (app_callback A)).

#[local] Instance this_endpoint : StreamEndpoint (endpoint X A) :=
  session_endpoint read_timeout_.

#[local] Instance this_sender : Sender (endpoint X A) := session_sender read_timeout_.

Definition recv_callback : option (receive_callback (endpoint X A)) :=
  match on_recv_ with
  | None => None
  | Some cb =>
      Some (lift_callback app set_app cb)
  end.

Record session := Session {
  rx : rx_state;
  ep : endpoint X A;
  started : bool;
}.

(** The constructor, with the send state [p]. *)
Definition session_init (p : pipe) (x : X) (a : A) : session :=
  Session rx_init (Endpoint p false 0 x a) false.

(** The timer is armed and the first read started. *)
Definition start (c : session) : session :=
  Session (start_receive (rx c)) (reset_read_timeout read_timeout_ (ep c)) true.

Inductive sess_event :=
| SSendPath (e : event)                (* senders outside the strand, posted lambdas, the kernel *)
| SWriteDone (ec : bool) (push_ok : nat -> bool)
| SRead (ec : bool) (data : list byte) (* the outstanding read completes *)
| STimerExpire                         (* the pending wait expires *)
| STimerHandler                        (* the strand runs the handler of an expired wait *)
| SClose.                              (* the strand runs a dispatched [close] *)

(** A step of the send path; entering [send] is subject to the class's own test. *)
Definition send_exec (e : event) (s : endpoint X A) : option (outcome (endpoint X A)) :=
  let pass :=
    match exec e (tx s) with
    | Some o => Some (p ← o; Ret (set_tx p s))
    | None => None
    end in
  match e with
  | EvSend t _ =>
      if own_sends (own s) then pass
      else match threads (tx s) !! t with Some _ => None | None => Some (Ret s) end
  | _ => pass
  end.

(** [None]: the event is not possible in this state. *)
Definition sess_exec (e : sess_event) (c : session) : option (outcome session) :=
  match e with
  | SSendPath e =>
      if send_path_only e then
        match send_exec e (ep c) with
        | Some o => Some (s ← o; Ret (Session (rx c) s (started c)))
        | None => None
        end
      else None
  | SWriteDone ec push_ok =>
      match write_op (tx (ep c)) with
      | Some k =>
          if ec || (k =? sum_list (snd <$> write_buffers_ (tx (ep c)))) then
            Some ('(p, must_close) ← write_handler ec push_ok (tx (ep c));
                  let s := set_tx p (ep c) in
                  Ret (Session (rx c) (if must_close : bool then close s else s) (started c)))
          else None
      | None => None
      end
  | SRead ec data =>
      match read_op (rx c) with
      | Some (_, room) =>
          if ec || ((0 <? size_of data)%Z && (size_of data <=? room)%Z) then
            Some ('(r, s) ← read_handler cfg recv_callback
                              (rx c) ec (if ec then [] else data) (ep c);
                  Ret (Session r s (started c)))
          else None
      | None => None
      end
  | STimerExpire =>
      if timer_armed (ep c) then
        Some (Ret (Session (rx c) (set_timer false (S (timers_fired (ep c))) (ep c)) (started c)))
      else None
  | STimerHandler =>
      match timers_fired (ep c) with
      | O => None
      | S k =>
          Some (Ret (Session (rx c)
                 (timer_handler false (set_timer (timer_armed (ep c)) k (ep c))) (started c)))
      end
  | SClose => Some (Ret (Session (rx c) (close (ep c)) (started c)))
  end.

(** ** The endpoint's invariant *)

Lemma sess_exec_started e c c' : sess_exec e c = Some (Ret c') -> started c' = started c.
Proof using.
  destruct e as [e|ec ok|ec data| | |]; simpl.
  - destruct (send_path_only e); [|done].
    destruct (send_exec e (ep c)) as [[s| | | |]|]; try done. by intros [= <-].
  - destruct (write_op _); [|done]. destruct (_ || _); [|done].
    destruct (write_handler _ _ _) as [[p mc]| | | |]; try done. by intros [= <-].
  - destruct (read_op (rx c)) as [[off room]|]; [|done]. destruct (ec || _); [|done].
    destruct (read_handler _ _ _ _ _ _) as [[r s]| | | |]; try done. by intros [= <-].
  - destruct (timer_armed _); [|done]. by intros [= <-].
  - destruct (timers_fired _); [done|]. by intros [= <-].
  - by intros [= <-].
Qed.

(** Results that leave something to be said: a return, or a spin for ever. *)
Definition ret_or_hang {B} (P : B -> Prop) (o : outcome B) : Prop :=
  match o with Ret b => P b | Hang => True | _ => False end.

Lemma ret_or_hang_bind {B C} (P : B -> Prop) (Q : C -> Prop) o (k : B -> outcome C) :
  ret_or_hang P o -> (forall b, P b -> ret_or_hang Q (k b)) -> ret_or_hang Q (mbind k o).
Proof using. destruct o; simpl; auto. Qed.

Lemma ret_or_hang_rel {B C} (R : B -> C -> Prop) (P : B -> Prop) (Q : C -> Prop) o o' :
  outcome_rel R o o' -> ret_or_hang P o -> (forall b c, P b -> R b c -> Q c) ->
  ret_or_hang Q o'.
Proof using. destruct 1; simpl; eauto. Qed.

(** [st]: [start()] has been called. *)
Record ep_inv (n : nat) (st : bool) (s : endpoint X A) : Prop := {
  inv_tx : reachable n (tx s);
  inv_own : own_inv (is_open (tx s)) (own s);
  inv_no_timeout : (read_timeout_ <= 0)%Z -> timer_armed s = false /\ timers_fired s = 0;
  inv_timeout : st = true -> (0 < read_timeout_)%Z -> is_open (tx s) = true ->
    timer_armed s = true \/ 0 < timers_fired s;
}.

Context (n : nat).

Lemma close_tx (s : endpoint X A) : tx (close s) = close_socket (tx s).
Proof using.
  unfold close, close_socket. destruct (is_open (tx s)) eqn:Ho; [done|]. simpl.
  rewrite <- Ho. by destruct (tx s).
Qed.

Lemma close_timer (s : endpoint X A) :
  timers_fired (close s) = timers_fired s /\ (timer_armed s = false -> timer_armed (close s) = false).
Proof using. unfold close. by destruct (is_open (tx s)). Qed.

(** Closing, once the send path's invariant is known for the closed pipe. *)
Lemma close_inv_from st s :
  own_inv (is_open (tx s)) (own s) -> reachable n (close_socket (tx s)) ->
  ((read_timeout_ <= 0)%Z -> timer_armed s = false /\ timers_fired s = 0) -> ep_inv n st (close s).
Proof using.
  intros Hown Hr Hnt. destruct (close_timer s) as [Hf Ha]. split.
  - by rewrite close_tx.
  - rewrite close_closes. unfold close. by apply own_inv_close.
  - intros Hz. destruct (Hnt Hz). rewrite Hf. auto.
  - intros _ _. by rewrite close_closes.
Qed.

Lemma close_inv st s : ep_inv n st s -> ep_inv n st (close s).
Proof using.
  intros []. apply close_inv_from; [done| |done]. by apply (reach_step n (tx s) EvClose).
Qed.

Lemma set_tx_inv st s p :
  ep_inv n st s -> reachable n p -> is_open p = is_open (tx s) -> ep_inv n st (set_tx p s).
Proof using. intros [] Hp Ho. split; simpl; rewrite ?Ho; done. Qed.

Lemma set_app_inv st s a : ep_inv n st s -> ep_inv n st (set_app a s).
Proof using. by intros []. Qed.

Lemma reset_read_timeout_inv st st' s :
  ep_inv n st s -> ep_inv n st' (reset_read_timeout read_timeout_ s).
Proof using.
  intros []. unfold reset_read_timeout.
  destruct (Z.ltb_spec 0 read_timeout_).
  - split; simpl; try done; [lia|auto].
  - split; try done. lia.
Qed.

Context (Hn : n <= queue_capacity).

Lemma send_in_strand_inv st s data :
  ep_inv n st s -> ret_or_hang (fun '(_, s') => ep_inv n st s') (ep_send data s).
Proof using Hn.
  intros Hs. unfold this_sender, session_sender. cbn [ep_send].
  destruct (own_sends (own s)); [|done]. pose proof (inv_tx _ _ _ Hs) as Hr.
  pose proof (send_in_strand_safe n data _ (reachable_inv n _ Hn Hr)) as Hub.
  destruct (send_in_strand data (tx s)) as [[res p]| | | |] eqn:Hsend; simpl; try done.
  - destruct (send_in_strand_run _ _ _ _ Hsend) as (es & _ & Hes).
    apply set_tx_inv; [done|by eapply reachable_run|].
    unfold send_in_strand in Hsend. destruct (is_open (tx s)) eqn:Ho.
    + destruct (buffer_pool_ (tx s)) as [|b pool]; [done|].
      destruct (heap (tx s) !! b); [|done]. by injection Hsend as _ <-.
    + by injection Hsend as _ <-.
  - unfold send_in_strand in Hsend. destruct (is_open (tx s)); [|done].
    destruct (buffer_pool_ (tx s)) as [|b pool]; [done|]. by destruct (heap (tx s) !! b).
  - unfold send_in_strand in Hsend. destruct (is_open (tx s)); [|done].
    destruct (buffer_pool_ (tx s)) as [|b pool]; [done|]. by destruct (heap (tx s) !! b).
Qed.

Lemma interp_inv {R} st (prog : app_prog R) s :
  never_fails prog -> ep_inv n st s -> ret_or_hang (fun '(_, s') => ep_inv n st s') (interp prog s).
Proof using Hn.
  intros Hp. revert s. induction prog as [r|data k IH|k IH|f]; intros s Hs; simpl in *; [done| | |done].
  - eapply ret_or_hang_bind; [by apply send_in_strand_inv|]. intros [res s'] Hs'. by apply IH.
  - by apply IH, close_inv.
Qed.

(** ** The session's invariant *)

Record sess_inv (c : session) : Prop := {
  inv_ep : ep_inv n (started c) (ep c);
  inv_fresh : started c = false -> rx c = rx_init;
  inv_rx : started c = true ->
    rx_armed cfg (rx c) \/ (read_op (rx c) = None /\ is_open (tx (ep c)) = false);
}.

Context (f : list byte -> Z) (Hf : get_total_size_ cfg = Some f) (Hlim : small_limits cfg).

(** The application's callback comes back from every message that the framing
    lets through. *)
Context (Hdef : callback_defined cfg f on_recv_).

Lemma deliver_all_inv st ms s :
  Forall (well_framed (header_size_ cfg) (max_message_size_ cfg) f) ms ->
  ep_inv n st s -> ret_or_hang (ep_inv n st) (deliver_all recv_callback s ms).
Proof using Hn Hdef.
  intros Hms. revert s. induction Hms as [|m ms Hm _ IH]; intros s Hs; cbn [deliver_all]; [done|].
  unfold recv_callback in *. destruct on_recv_ as [cb|] eqn:Hcb; [|by apply IH].
  apply (ret_or_hang_bind (fun '(s', _) => ep_inv n st s')); [|intros [s' m'] Hs'; by apply IH].
  cbn [lift_callback rc_call]. eapply ret_or_hang_bind; [by apply (interp_inv st); [by apply Hdef|]|].
  intros [[a m'] s'] Hs'. simpl. by apply set_app_inv.
Qed.

Lemma start_inv c : sess_inv c -> started c = false -> sess_inv (start c).
Proof using Hlim.
  intros [He Hr _] Hs. specialize (Hr Hs). rewrite Hs in He.
  destruct (rx_init_armed cfg Hlim) as (Harm & _).
  unfold start. rewrite Hr. generalize dependent (start_receive rx_init). intros r Harm.
  split; cbn [ep started rx].
  - by eapply reset_read_timeout_inv.
  - congruence.
  - auto.
Qed.

(** An outstanding read belongs to a session that reads. *)
Lemma read_pending c off room :
  sess_inv c -> read_op (rx c) = Some (off, room) ->
  rx_armed cfg (rx c) /\ room = (size_of (recv_buffer_ (rx c)) - active_bytes_ (rx c))%Z.
Proof using.
  clear Hdef. intros [_ Hfresh Hrx] Hop.
  assert (started c = true) as Hs.
  { destruct (started c); [done|]. rewrite Hfresh in Hop; done. }
  destruct (Hrx Hs) as [Harm|[Hnone _]]; [|congruence]. split; [done|].
  destruct Harm as (_ & Hop' & _). congruence.
Qed.

(** What the strand does with the bytes of one read: the callback runs on the
    messages they complete, then the session reads on or has been closed. *)
Lemma session_read c data off room ms e :
  sess_inv c -> read_op (rx c) = Some (off, room) -> (0 < size_of data <= room)%Z ->
  frames (header_size_ cfg) (max_message_size_ cfg) f (pending (rx c) 0 ++ data) ms e ->
  outcome_rel (process_post recv_callback (idle (rx c)) ms e)
    (deliver_all recv_callback (ep c) ms) (read_handler cfg recv_callback (rx c) false data (ep c)).
Proof using Hf Hlim.
  clear Hdef. intros Hinv Hop Hdata Hfr. destruct (read_pending c off room Hinv Hop) as [Harm ->].
  by apply (read_handler_spec cfg recv_callback f Hf (small_limits_wf _ Hlim)).
Qed.

Lemma read_handler_inv c ec data room off :
  sess_inv c -> read_op (rx c) = Some (off, room) ->
  ec = true \/ (0 < size_of data <= room)%Z ->
  ret_or_hang (fun '(r, s) => sess_inv (Session r s (started c)))
    (read_handler cfg recv_callback
       (rx c) ec (if ec then [] else data) (ep c)).
Proof using Hn Hf Hlim Hdef.
  intros Hinv Hop Hdata. pose proof Hinv as [He Hfresh Hrx].
  assert (started c = true) as Hs.
  { destruct (started c); [done|]. rewrite Hfresh in Hop; done. }
  destruct ec.
  - unfold read_handler. rewrite Hop. simpl. split; simpl; [by apply close_inv|congruence|].
    intros _. right. split; [done|apply close_closes].
  - destruct Hdata as [|Hdata]; [done|]. destruct (read_pending c off room Hinv Hop) as [Harm _].
    destruct (frames_total (header_size_ cfg) (max_message_size_ cfg) f
                ltac:(apply Hlim) (pending (rx c) 0 ++ data)) as (ms & e & Hfr).
    pose proof (session_read c data off room ms e Hinv Hop Hdata Hfr) as Hspec.
    eapply ret_or_hang_rel; [exact Hspec|apply deliver_all_inv; [by eapply frames_well_framed|done]|].
    intros s1 [r' s'] Hs1 Hpost. destruct e as [rest|rest].
    + edestruct process_post_armed as (Harm' & _);
        [exact Hlim|exact Harm|exact Hfr|exact Hpost|].
      destruct Hpost as (_ & _ & _ & -> & _). split; simpl; [|congruence|auto].
      by eapply reset_read_timeout_inv.
    + destruct Hpost as (_ & _ & -> & Hop' & _). split; simpl; [by apply close_inv|congruence|].
      intros _. right. split; [done|apply close_closes].
Qed.

Lemma session_init_inv p x a :
  reachable n p -> own_inv (is_open p) x -> sess_inv (session_init p x a).
Proof using.
  intros Hr Hx. unfold session_init. split; cbn [ep started rx].
  - by split.
  - intros _. reflexivity.
  - congruence.
Qed.

(** What the strand's own functions leave alone. *)
Definition same_front (p p' : pipe) : Prop :=
  is_open p' = is_open p /\ accepted p' = accepted p /\ threads p' = threads p.

Lemma do_write_front p p' : do_write p = Ret p' -> same_front p p'.
Proof using.
  unfold do_write. destruct (collect _ _ _ _) as [[wb k]| | | |]; simpl; try done.
  destruct (write_op p); [done|]. by intros [= <-].
Qed.

Lemma recycle_front ok k p p' : recycle ok k p = Ret p' -> same_front p p'.
Proof using.
  revert p. induction k as [|k IH]; intros p; simpl; [by intros [= <-]|].
  destruct (send_queue_ p); [done|]. intros Hr%IH. unfold same_front in *. by destruct (ok _).
Qed.

Lemma write_handler_front ec ok p p' b : write_handler ec ok p = Ret (p', b) -> same_front p p'.
Proof using.
  unfold write_handler. destruct (recycle _ _ _) as [p1| | | |] eqn:Hr; simpl; try done.
  apply recycle_front in Hr as (H1 & H2 & H3). simpl in *.
  destruct (negb ec && _).
  - destruct (do_write p1) as [p2| | | |] eqn:Hd; simpl; try done.
    apply do_write_front in Hd as (? & ? & ?). intros [= <- _]. unfold same_front. by split_and!; etrans.
  - by intros [= <- _].
Qed.

Lemma post_handler_front b l p p' :
  post_handler b (set_posted l (accepted p) p) = Ret p' -> same_front p p'.
Proof using.
  unfold post_handler. destruct (match _ with [] => true | _ => false end).
  - intros (? & ? & ?)%do_write_front. done.
  - by intros [= <-].
Qed.

(** A step of the send path that closes nothing. *)
Lemma exec_is_open e p p' :
  send_path_only e = true -> exec e p = Some (Ret p') -> is_open p' = is_open p.
Proof using.
  destruct e as [t d|t|t|t| | |ec ok|]; simpl; try done; intros _.
  - destruct (threads p !! t); [done|]. destruct (is_open p) eqn:Ho; intros [= <-]; done.
  - destruct (threads p !! t) as [[]|]; try done. destruct (buffer_pool_ p); by intros [= <-].
  - destruct (threads p !! t) as [[]|]; try done. destruct (heap p !! buf_ptr); [|done].
    by intros [= <-].
  - destruct (threads p !! t) as [[]|]; try done. by intros [= <-].
  - destruct (posted p) as [|b l]; [done|]. intros [= Hp]. by apply post_handler_front in Hp as [? _].
  - destruct (write_op p); [|done]. destruct (is_open p) eqn:Ho; [|done].
    destruct (gather _ _) as [data|]; [|done]. destruct (data !! n0); [|done]. by intros [= <-].
Qed.

(** The send path's part of a step: what every event of the pipe and [send] from
    the strand keep, every step of a session keeps. *)
Lemma send_exec_tx e s s' :
  send_exec e s = Some (Ret s') ->
  tx s' = tx s \/ exec e (tx s) = Some (Ret (tx s')).
Proof using.
  unfold send_exec. destruct e;
    try (destruct (exec _ (tx s)) as [[p| | | |]|]; try done; injection 1 as <-; by right).
  destruct (own_sends (own s)).
  - destruct (exec _ (tx s)) as [[p| | | |]|]; try done. injection 1 as <-. by right.
  - destruct (threads _ !! t); [done|]. injection 1 as <-. by left.
Qed.

Lemma callback_tx (P : pipe -> Prop) rcb s m s' m' :
  (forall data p res p', P p -> send_in_strand data p = Ret (res, p') -> P p') ->
  (forall p, P p -> P (close_socket p)) ->
  recv_callback = Some rcb -> P (tx s) -> rc_call rcb s m = Ret (s', m') -> P (tx s').
Proof using.
  clear Hdef. intros Hsend Hclose. unfold recv_callback. destruct on_recv_ as [cb|]; [|done].
  intros [= <-] Hs. cbn [lift_callback rc_call].
  destruct (interp _ s) as [[[a m1] s1]| | | |] eqn:Hi; simpl; try done. intros [= <- _]. simpl.
  revert Hi. apply (interp_preserves (fun s => P (tx s))); [| |done].
  - intros data st res st' Hst. unfold this_sender, session_sender. cbn [ep_send].
    destruct (own_sends (own st)); [|by intros [= _ <-]].
    destruct (send_in_strand data (tx st)) as [[r p]| | | |] eqn:Hs1; simpl; try done.
    intros [= _ <-]. simpl. by eapply Hsend.
  - intros st Hst. change (P (tx (close st))). rewrite close_tx. auto.
Qed.

(** The events of the pipe that a session's event can bring about. *)
Definition causes (e : sess_event) (ev : event) : Prop :=
  match ev with
  | EvClose => True
  | EvWriteDone ec push_ok => e = SWriteDone ec push_ok
  | _ => e = SSendPath ev
  end.

Lemma sess_exec_pipe (P : pipe -> Prop) e c c' :
  (forall ev p p', causes e ev -> P p -> exec ev p = Some (Ret p') -> P p') ->
  (on_recv_ <> None -> forall data p res p', P p -> send_in_strand data p = Ret (res, p') -> P p') ->
  P (tx (ep c)) -> sess_exec e c = Some (Ret c') -> P (tx (ep c')).
Proof using.
  intros Hexec Hsend Hc.
  assert (forall p, P p -> P (close_socket p)) as Hclose by (intros p Hp; by apply (Hexec EvClose p)).
  destruct e as [e|ec ok|ec data| | |]; simpl.
  - destruct (send_path_only e) eqn:Hse; [|done].
    destruct (send_exec e (ep c)) as [[s| | | |]|] eqn:Hex; try done. intros [= <-]. cbn [ep].
    apply send_exec_tx in Hex as [->|Hex]; [done|]. apply (Hexec e (tx (ep c))); [by destruct e|done|done].
  - destruct (write_op (tx (ep c))) as [k|] eqn:Hop; [|done]. destruct (_ || _) eqn:Hec; [|done].
    destruct (write_handler ec ok (tx (ep c))) as [[p mc]| | | |] eqn:Hw; try done.
    intros [= <-]. cbn [ep].
    replace (tx (if mc then close (set_tx p (ep c)) else set_tx p (ep c)))
      with (if mc then close_socket p else p) by (destruct mc; [by rewrite close_tx|done]).
    apply (Hexec (EvWriteDone ec ok) (tx (ep c))); [done|done|].
    cbn [exec]. by rewrite Hop, Hec, Hw.
  - destruct (read_op (rx c)) as [[off room]|]; [|done]. destruct (ec || _); [|done].
    destruct (read_handler _ _ _ _ _ _) as [[r s]| | | |] eqn:Hr; try done.
    intros [= <-]. cbn [ep]. revert Hr. apply (read_handler_preserves _ _ (fun s => P (tx s))); [| | |done].
    + intros st Hst. change (P (tx (close st))). rewrite close_tx. auto.
    + intros st. cbn. by rewrite reset_read_timeout_tx.
    + intros rcb st m st' m' Hcb. apply (callback_tx P rcb); [|done|done].
      apply Hsend. intros Hnone. unfold recv_callback in Hcb. by rewrite Hnone in Hcb.
  - destruct (timer_armed (ep c)); [|done]. by intros [= <-].
  - destruct (timers_fired (ep c)); [done|]. intros [= <-]. cbn [ep].
    unfold timer_handler. cbn [negb]. rewrite close_tx. by apply Hclose.
  - intros [= <-]. cbn [ep]. rewrite close_tx. auto.
Qed.

Lemma sess_exec_tx (P : pipe -> Prop) e c c' :
  (forall ev p p', (send_path_only ev = true -> e = SSendPath ev) ->
     P p -> exec ev p = Some (Ret p') -> P p') ->
  (on_recv_ <> None -> forall data p res p', P p -> send_in_strand data p = Ret (res, p') -> P p') ->
  P (tx (ep c)) -> sess_exec e c = Some (Ret c') -> P (tx (ep c')).
Proof using.
  intros Hexec. apply sess_exec_pipe. intros ev p p' Hev. apply Hexec. by destruct ev.
Qed.

Lemma close_after_write_inv st s p :
  ep_inv n st s -> is_open p = is_open (tx s) -> reachable n (close_socket p) ->
  ep_inv n st (close (set_tx p s)).
Proof using.
  intros [_ Hown Hnt _] Ho Hr. apply close_inv_from; [|done|done]. simpl. by rewrite Ho.
Qed.

Lemma write_done_inv c ec ok k :
  sess_inv c -> write_op (tx (ep c)) = Some k ->
  ec || (k =? sum_list (snd <$> write_buffers_ (tx (ep c)))) = true ->
  ret_or_hang sess_inv
    ('(p, must_close) ← write_handler ec ok (tx (ep c));
     let s := set_tx p (ep c) in
     Ret (Session (rx c) (if must_close : bool then close s else s) (started c))).
Proof using Hn.
  intros [He Hfresh Hrx] Hop Hec. pose proof (inv_tx _ _ _ He) as Hr.
  assert (exec (EvWriteDone ec ok) (tx (ep c)) =
    Some ('(p, must_close) ← write_handler ec ok (tx (ep c));
          Ret (if must_close : bool then close_socket p else p))) as Hex.
  { cbn [exec]. by rewrite Hop, Hec. }
  destruct (exec_inv n _ _ _ Hn (reachable_inv n _ Hn Hr) Hex) as (p' & Hp' & _).
  destruct (write_handler ec ok (tx (ep c))) as [[p mc]| | | |] eqn:Hw; try done.
  cbn [mbind outcome_bind] in *. injection Hp' as <-.
  apply write_handler_front in Hw as (Ho & _).
  pose proof (reach_step n _ _ _ Hr Hex) as Hr'.
  destruct mc; (split; [| |]); cbn [started ep rx]; try done.
  - by apply close_after_write_inv.
  - intros Hs. destruct (Hrx Hs) as [|[? ?]]; [auto|]. right. split; [done|apply close_closes].
  - by apply set_tx_inv.
  - intros Hs. destruct (Hrx Hs) as [|[? ?]]; [auto|]. right. split; [done|]. cbn [tx set_tx].
    congruence.
Qed.

Lemma send_exec_inv st s e o :
  ep_inv n st s -> send_path_only e = true -> send_exec e s = Some o ->
  exists s', o = Ret s' /\ ep_inv n st s' /\ is_open (tx s') = is_open (tx s).
Proof using Hn.
  intros Hs Hse. pose proof (inv_tx _ _ _ Hs) as Hr.
  assert (forall o, match exec e (tx s) with
                    | Some o => Some (p ← o; Ret (set_tx p s)) | None => None end = Some o ->
            exists s', o = Ret s' /\ ep_inv n st s' /\ is_open (tx s') = is_open (tx s)) as Hpass.
  { intros o'. destruct (exec e (tx s)) as [o1|] eqn:Hex; [|done].
    destruct (exec_inv n _ _ _ Hn (reachable_inv n _ Hn Hr) Hex) as (p & -> & _).
    pose proof (exec_is_open _ _ _ Hse Hex) as Ho. intros [= <-]. eexists. split; [done|].
    split; [|done]. apply set_tx_inv; [done|by eapply reach_step|done]. }
  unfold send_exec. destruct e; auto.
  destruct (own_sends (own s)); [auto|]. destruct (threads (tx s) !! t); [done|].
  intros [= <-]. eauto.
Qed.

Lemma send_path_inv c e o :
  sess_inv c -> send_path_only e = true -> send_exec e (ep c) = Some o ->
  ret_or_hang sess_inv (s ← o; Ret (Session (rx c) s (started c))).
Proof using Hn.
  intros [He Hfresh Hrx] Hse Hex.
  destruct (send_exec_inv _ _ _ _ He Hse Hex) as (s & -> & Hs & Ho).
  split; cbn [started ep rx]; [done|done|].
  intros Hst. destruct (Hrx Hst) as [|[? ?]]; [auto|]. right. split; [done|congruence].
Qed.

(** A step that only changes the endpoint, and opens nothing. *)
Lemma ep_step_inv c s :
  sess_inv c -> ep_inv n (started c) s ->
  (is_open (tx (ep c)) = false -> is_open (tx s) = false) ->
  sess_inv (Session (rx c) s (started c)).
Proof using.
  intros [_ Hfresh Hrx] Hs Ho. split; cbn [started ep rx]; [done|done|].
  intros Hst. destruct (Hrx Hst) as [|[? ?]]; auto.
Qed.

Lemma sess_exec_inv e c o :
  sess_inv c -> sess_exec e c = Some o -> ret_or_hang sess_inv o.
Proof using Hn Hf Hlim Hdef.
  intros Hinv. pose proof (inv_ep _ Hinv) as He. destruct e as [e|ec ok|ec data| | |]; simpl.
  - destruct (send_path_only e) eqn:Hse; [|done].
    destruct (send_exec e (ep c)) as [o'|] eqn:Hex; [|done]. intros [= <-].
    by apply (send_path_inv c e).
  - destruct (write_op (tx (ep c))) as [k|] eqn:Hop; [|done].
    destruct (_ || _) eqn:Hec; [|done]. intros [= <-]. by apply (write_done_inv c ec ok k).
  - destruct (read_op (rx c)) as [[off room]|] eqn:Hop; [|done].
    destruct (ec || _) eqn:Hec; [|done]. intros [= <-].
    eapply ret_or_hang_bind.
    + apply (read_handler_inv c ec data room off); [done|done|].
      destruct ec; [auto|]. right. simpl in Hec. apply andb_prop in Hec as [?%Z.ltb_lt ?%Z.leb_le].
      done.
    + intros [r s] Hc. done.
  - destruct (timer_armed (ep c)) eqn:Ht; [|done]. intros [= <-].
    apply ep_step_inv; [done| |done]. destruct He. split; simpl; try done.
    + intros Hz. destruct (inv_no_timeout0 Hz). congruence.
    + intros _ _ _. right. lia.
  - destruct (timers_fired (ep c)) as [|k] eqn:Ht; [done|]. intros [= <-].
    apply ep_step_inv; [done| |intros _; apply close_closes].
    destruct He as [H1 H2 H3 H4]. unfold timer_handler. cbn [negb].
    apply close_inv_from; [done| |].
    + by apply (reach_step n (tx (ep c)) EvClose).
    + intros Hz. destruct (H3 Hz). congruence.
  - intros [= <-]. apply ep_step_inv; [done|by apply close_inv|intros _; apply close_closes].
Qed.

(** Only the callback can keep the strand busy for ever. *)
Lemma sess_exec_hang e c :
  sess_inv c -> sess_exec e c = Some Hang -> exists data, e = SRead false data.
Proof using Hn.
  intros Hinv. pose proof (inv_tx _ _ _ (inv_ep _ Hinv)) as Hr.
  pose proof (reachable_inv n _ Hn Hr) as Hp.
  destruct e as [e|ec ok|ec data| | |]; simpl.
  - destruct (send_path_only e) eqn:Hse; [|done].
    destruct (send_exec e (ep c)) as [o'|] eqn:Hex; [|done].
    by destruct (send_exec_inv _ _ _ _ (inv_ep _ Hinv) Hse Hex) as (s & -> & _).
  - destruct (write_op (tx (ep c))) as [k|] eqn:Hop; [|done].
    destruct (_ || _) eqn:Hec; [|done].
    edestruct (exec_inv n (EvWriteDone ec ok)) as (p & Hp' & _); [exact Hn|exact Hp| |].
    { cbn [exec]. by rewrite Hop, Hec. }
    by destruct (write_handler ec ok (tx (ep c))) as [[? ?]| | | |].
  - destruct (read_op (rx c)) as [[off room]|] eqn:Hop; [|done].
    destruct ec; [|eauto]. unfold read_handler. by rewrite Hop.
  - by destruct (timer_armed (ep c)).
  - by destruct (timers_fired (ep c)).
  - done.
Qed.

End Session.

(** ** A server that answers

    The callback sends [reply m] back for every message [m]. *)

Definition responder (reply : list byte -> list byte) : app_callback unit.
Proof.
  refine (AppCallback (fun a m => CallSend (reply m) (fun _ => Return (a, m))) _). by intros.
Defined.

Lemma responder_defined cfg f reply : callback_defined cfg f (Some (responder reply)).
Proof. by intros cb [= <-] a m _ res. Qed.

Section Echo.

Context `{!CircularBuffer} {X : Type} `{!Owner X}.
Context (cfg : framing_config) (read_timeout_ : Z).
Context (reply : list byte -> list byte).

#[local] Instance echo_endpoint : StreamEndpoint (endpoint X unit) :=
  session_endpoint read_timeout_.

#[local] Instance echo_sender : Sender (endpoint X unit) := session_sender read_timeout_.

Abbreviation echo_callback := (recv_callback read_timeout_ (Some (responder reply))).

(** One message answered. *)
Lemma echo_step m ms (s : endpoint X unit) :
  deliver_all echo_callback s (m :: ms) =
  ('(_, s') ← ep_send (reply m) s; deliver_all echo_callback s' ms).
Proof.
  cbn [deliver_all recv_callback lift_callback rc_call app_on_recv responder interp].
  unfold this_sender, echo_sender, session_sender. cbn [ep_send].
  destruct (own_sends (own s)).
  - by destruct (send_in_strand (reply m) (tx s)) as [[res p]| | | |].
  - cbn. by destruct s as [? ? ? ? []].
Qed.

(** With more messages at hand than idle buffers, the loop of [send] spins in
    the strand. *)
Lemma deliver_echo_hangs n ms (s : endpoint X unit) :
  n <= queue_capacity -> reachable n (tx s) -> is_open (tx s) = true -> own_sends (own s) = true ->
  length (buffer_pool_ (tx s)) < length ms -> deliver_all echo_callback s ms = Hang.
Proof.
  intros Hn. revert s. induction ms as [|m ms IH]; intros s Hr Ho Hown Hlt; simpl in Hlt; [lia|].
  rewrite echo_step. unfold echo_sender, session_sender. cbn [ep_send]. rewrite Hown.
  pose proof (send_in_strand_safe n (reply m) _ (reachable_inv n _ Hn Hr)) as Hub.
  destruct (send_in_strand (reply m) (tx s)) as [[res p]| | | |] eqn:Hsend; try done.
  - cbn [mbind outcome_bind]. destruct (send_in_strand_run _ _ _ _ Hsend) as (es & _ & Hes).
    unfold send_in_strand in Hsend. rewrite Ho in Hsend.
    destruct (buffer_pool_ (tx s)) as [|b pool] eqn:Hp; [done|].
    destruct (heap (tx s) !! b) as [d|] eqn:Hb; [|done]. injection Hsend as <- <-.
    apply IH; cbn [tx set_tx own]; [by eapply reachable_run|done|done|]. simpl in *. lia.
  - unfold send_in_strand in Hsend. rewrite Ho in Hsend.
    destruct (buffer_pool_ (tx s)); [done|]. by destruct (heap _ !! _).
  - unfold send_in_strand in Hsend. rewrite Ho in Hsend.
    destruct (buffer_pool_ (tx s)); [done|]. by destruct (heap _ !! _).
Qed.

(** What is echoed is posted in the order it was received. *)
Definition echoed (s : endpoint X unit) (seen : list (list byte)) : Prop :=
  threads (tx s) = ∅ /\ accepted (tx s) `prefix_of` (reply <$> seen) /\
  (is_open (tx s) = true -> own_sends (own s) = true /\ accepted (tx s) = reply <$> seen).

Lemma send_in_strand_front data p res p' :
  send_in_strand data p = Ret (res, p') ->
  is_open p' = is_open p /\ threads p' = threads p /\
  accepted p' = if is_open p then accepted p ++ [data] else accepted p.
Proof.
  unfold send_in_strand. destruct (is_open p) eqn:Ho; [|by intros [= _ <-]].
  destruct (buffer_pool_ p) as [|b pool]; [done|]. destruct (heap p !! b); [|done].
  by intros [= _ <-].
Qed.

Lemma deliver_echoed ms (s s' : endpoint X unit) seen :
  echoed s seen -> deliver_all echo_callback s ms = Ret s' -> echoed s' (seen ++ ms).
Proof.
  revert s seen. induction ms as [|m ms IH]; intros s seen Hs.
  { rewrite app_nil_r. by intros [= <-]. }
  rewrite echo_step. change (m :: ms) with ([m] ++ ms). rewrite app_assoc.
  unfold echo_sender, session_sender. cbn [ep_send]. destruct Hs as (Hth & Hpre & Hop).
  destruct (own_sends (own s)) eqn:Hown.
  - destruct (send_in_strand (reply m) (tx s)) as [[res p]| | | |] eqn:Hsend; try done.
    cbn [mbind outcome_bind]. apply IH.
    apply send_in_strand_front in Hsend as (Ho & Ht & Ha).
    unfold echoed. cbn [tx set_tx own]. rewrite Ho, Ht, Ha, Hown, fmap_app.
    destruct (is_open (tx s)); split_and!; try done.
    + by destruct Hop as [_ ->].
    + intros _. by destruct Hop as [_ ->].
    + by apply prefix_app_r.
  - cbn [mbind outcome_bind]. apply IH. unfold echoed. rewrite fmap_app, Hown.
    split_and!; [done|by apply prefix_app_r|]. intros Ho. by destruct (Hop Ho).
Qed.

Lemma echoed_close s seen : echoed s seen -> echoed (close s) seen.
Proof.
  intros (Ht & Hp & Ho). unfold echoed. rewrite close_tx. split_and!; done.
Qed.

Lemma echoed_front s s' seen :
  same_front (tx s) (tx s') -> own s' = own s -> echoed s seen -> echoed s' seen.
Proof. intros (H1 & H2 & H3) H4 (Ht & Hp & Ho). unfold echoed. by rewrite H1, H2, H3, H4. Qed.

(** Events of a session on which only the callback sends. *)
Definition no_other_sender (e : sess_event) : Prop :=
  match e with SSendPath (EvSend _ _) => False | _ => True end.

Lemma exec_no_sender e p p' :
  (match e with EvSend _ _ => False | _ => True end) -> send_path_only e = true ->
  threads p = ∅ -> exec e p = Some (Ret p') -> same_front p p'.
Proof.
  destruct e as [t d|t|t|t| | |ec ok|]; simpl; try done; intros _ _ Ht.
  - by rewrite Ht, lookup_empty.
  - by rewrite Ht, lookup_empty.
  - by rewrite Ht, lookup_empty.
  - destruct (posted p) as [|b l]; [done|]. intros [= Hp]. by eapply post_handler_front.
  - destruct (write_op p); [|done]. destruct (is_open p) eqn:Ho; [|done].
    destruct (gather _ _) as [data|]; [|done]. destruct (data !! n); [|done]. by intros [= <-].
Qed.

Context (n : nat) (Hn : n <= queue_capacity).
Context (f : list byte -> Z) (Hf : get_total_size_ cfg = Some f) (Hlim : small_limits cfg).

Abbreviation inv := (sess_inv cfg read_timeout_ n).
Abbreviation exec_echo := (sess_exec cfg read_timeout_ (Some (responder reply))).

Lemma read_echoed c data off room r s :
  inv c -> read_op (rx c) = Some (off, room) -> (0 < size_of data <= room)%Z ->
  echoed (ep c) (delivered (rx c)) ->
  read_handler cfg echo_callback (rx c) false data (ep c) = Ret (r, s) ->
  echoed s (delivered r).
Proof using Hf Hlim Hn.
  intros Hinv Hop Hdata Hech Hret.
  destruct (frames_total (header_size_ cfg) (max_message_size_ cfg) f
              ltac:(apply Hlim) (pending (rx c) 0 ++ data)) as (ms & e & Hfr).
  pose proof (session_read cfg read_timeout_ (Some (responder reply)) n f Hf Hlim c data off room ms e
                Hinv Hop Hdata Hfr) as Hspec.
  change (outcome_rel (process_post echo_callback (idle (rx c)) ms e)
            (deliver_all echo_callback (ep c) ms) (read_handler cfg echo_callback (rx c) false data (ep c)))
    in Hspec.
  rewrite Hret in Hspec. inversion Hspec as [s1 ? Hpost Hdel| | | |]; subst.
  symmetry in Hdel. apply (deliver_echoed _ _ _ _ Hech) in Hdel.
  destruct Hpost as (_ & Hd & Hend). rewrite Hd. cbn [idle delivered seen recv_callback].
  destruct e as [rest|rest].
  - destruct Hend as (_ & -> & _). eapply echoed_front; [| |exact Hdel].
    + unfold same_front. cbn [ep_reset_read_timeout echo_endpoint session_endpoint].
      by rewrite reset_read_timeout_tx.
    + apply reset_read_timeout_own.
  - destruct Hend as (-> & _). by apply echoed_close.
Qed.

Lemma exec_echoed e c c' :
  inv c -> no_other_sender e -> echoed (ep c) (delivered (rx c)) ->
  exec_echo e c = Some (Ret c') -> echoed (ep c') (delivered (rx c')).
Proof using Hf Hlim Hn.
  intros Hinv Hno Hech. destruct e as [e|ec ok|ec data| | |]; simpl.
  - destruct (send_path_only e) eqn:Hse; [|done].
    destruct (send_exec e (ep c)) as [[s| | | |]|] eqn:Hex; try done. intros [= <-].
    assert (exists p, exec e (tx (ep c)) = Some (Ret p) /\ s = set_tx p (ep c)) as (p & Hp & ->).
    { unfold send_exec in Hex. destruct e; try done;
        (destruct (exec _ (tx (ep c))) as [[p| | | |]|]; try done; injection Hex as <-; eauto). }
    apply (echoed_front (ep c)); [|done|exact Hech].
    eapply exec_no_sender; [|exact Hse|apply Hech|exact Hp]. by destruct e.
  - destruct (write_op (tx (ep c))) as [k|]; [|done]. destruct (_ || _); [|done].
    destruct (write_handler ec ok (tx (ep c))) as [[p mc]| | | |] eqn:Hw; try done.
    cbn [mbind outcome_bind]. intros [= <-]. cbn [ep rx]. apply write_handler_front in Hw.
    assert (echoed (set_tx p (ep c)) (delivered (rx c))) by by apply (echoed_front (ep c)).
    destruct mc; [by apply echoed_close|done].
  - destruct (read_op (rx c)) as [[off room]|] eqn:Hop; [|done].
    destruct ec; simpl.
    + unfold read_handler. rewrite Hop. cbn. intros [= <-]. cbn [ep rx delivered].
      by apply echoed_close.
    + destruct (_ && _) eqn:Hsz; [|done].
      destruct (read_handler _ _ _ _ _ _) as [[r s]| | | |] eqn:Hret; try done.
      cbn [mbind outcome_bind]. intros [= <-]. cbn [ep rx].
      eapply read_echoed; [done..| |done|exact Hret].
      apply andb_prop in Hsz as [?%Z.ltb_lt ?%Z.leb_le]. done.
  - destruct (timer_armed (ep c)); [|done]. intros [= <-]. done.
  - destruct (timers_fired (ep c)); [done|]. intros [= <-]. cbn [ep rx].
    unfold timer_handler. apply echoed_close. done.
  - intros [= <-]. cbn [ep rx]. by apply echoed_close.
Qed.

Lemma read_echo_hangs c data off room ms e :
  inv c -> is_open (tx (ep c)) = true -> own_sends (own (ep c)) = true -> read_op (rx c) = Some (off, room) ->
  (0 < size_of data <= room)%Z ->
  frames (header_size_ cfg) (max_message_size_ cfg) f (pending (rx c) 0 ++ data) ms e ->
  length (buffer_pool_ (tx (ep c))) < length ms ->
  exec_echo (SRead false data) c = Some Hang.
Proof using Hf Hlim Hn.
  intros Hinv Ho Hown Hop Hdata Hfr Hlt. pose proof (inv_ep _ _ _ _ Hinv) as He.
  pose proof (session_read cfg read_timeout_ (Some (responder reply)) n f Hf Hlim c data off room ms e
                Hinv Hop Hdata Hfr) as Hspec.
  change (outcome_rel (process_post echo_callback (idle (rx c)) ms e)
            (deliver_all echo_callback (ep c) ms) (read_handler cfg echo_callback (rx c) false data (ep c)))
    in Hspec.
  rewrite (deliver_echo_hangs n) in Hspec by (apply He || done).
  cbn [sess_exec]. rewrite Hop. cbn [orb].
  replace ((0 <? size_of data)%Z && (size_of data <=? room)%Z) with true by lia.
  cbv iota. revert Hspec. destruct (read_handler _ _ _ _ _ _); inversion 1; done.
Qed.

End Echo.

(** ** A session whose callback is modelled beside it

    ServerHandlers.v and CallbackSteps.v run the application's callback statement by
    statement.  What is left of the read for the session itself is a callback that does
    nothing. *)

Definition no_handler : app_callback unit.
Proof. refine (AppCallback (fun a m => Return (a, m)) _). done. Defined.

Lemma no_handler_defined cfg f : callback_defined cfg f (Some no_handler).
Proof. by intros cb [= <-]. Qed.

Section NoHandler.

Context `{!CircularBuffer} {X : Type} `{!Owner X} (cfg : framing_config) (read_timeout_ : Z).

#[local] Instance no_handler_endpoint : StreamEndpoint (endpoint X unit) := session_endpoint read_timeout_.

Abbreviation quiet_callback := (recv_callback read_timeout_ (Some no_handler)).

Lemma deliver_no_handler (s : endpoint X unit) ms : deliver_all quiet_callback s ms = Ret s.
Proof.
  induction ms as [|m ms IH]; cbn [deliver_all recv_callback]; [done|].
  assert (set_app (app s) s = s) as Heq by by destruct s. cbn. by rewrite Heq.
Qed.

(** A read completes the messages [ms] and nothing else happens. *)
Lemma quiet_read n f (c : session) data off room ms e :
  get_total_size_ cfg = Some f -> small_limits cfg -> sess_inv (A := unit) cfg read_timeout_ n c ->
  read_op (rx c) = Some (off, room) -> (0 < size_of data <= room)%Z ->
  frames (header_size_ cfg) (max_message_size_ cfg) f (pending (rx c) 0 ++ data) ms e ->
  exists r' s', sess_exec cfg read_timeout_ (Some no_handler) (SRead false data) c =
      Some (Ret (Session r' s' (started c))) /\
    process_post quiet_callback (idle (rx c)) ms e (ep c) (r', s').
Proof.
  intros Hf Hlim Hi Hop Hdata Hfr.
  pose proof (session_read cfg read_timeout_ (Some no_handler) n f Hf Hlim c data off room ms e Hi Hop Hdata Hfr) as Hs.
  rewrite deliver_no_handler in Hs. inversion Hs as [? [r' s'] Hpost Heq1 Heq2| | | |].
  exists r', s'. split; [|exact Hpost]. cbn [sess_exec]. rewrite Hop.
  replace (_ && _) with true by lia. cbn [orb recv_callback]. by rewrite <- Heq2.
Qed.

End NoHandler.
