(* ===== verification/TcpConnection.v ===== *)
(** * tcp_server.hpp: [TcpConnection]

    The session of TcpSession.v, whose [close] runs the disconnect callback the
    first time, with the constructor and [start]. *)

From S2P Require Import Prelude Framing Expected SendPipeline Callbacks TcpSession.
From Stdlib Require Import ZArith Lia.

Open Scope nat_scope.

(** [on_disc_] has been called this many times.  [close] calls it when it finds the
    socket open; [send] asks nothing beyond the socket. *)
#[export] Program Instance connection_owner : Owner nat := {|
  own_close was_open on_disc_calls := if was_open : bool then S on_disc_calls else on_disc_calls;
  own_sends _ := true;
  own_inv open on_disc_calls := on_disc_calls = if open : bool then 0 else 1;
|}.
Next Obligation. by intros [] x ->. Qed.

(** A [TcpConnection]. *)
Abbreviation connection A := (@session nat A).

Section Connection.

Context `{!CircularBuffer} {A : Type}.
Context (cfg : framing_config) (read_timeout_ : Z) (on_recv_ : option (app_callback A)).

(** The constructor, with [n] pooled buffers, on an accepted socket. *)
Definition connection_init (n : nat) (a : A) : connection A := session_init (pipe_init n) 0 a.

Inductive conn_event :=
| CStart                 (* [start()] *)
| CSession (e : sess_event).

(** [None]: the event is not possible in this state. *)
Definition conn_exec (e : conn_event) (c : connection A) : option (outcome (connection A)) :=
  match e with
  | CStart => if started c then None else Some (Ret (start read_timeout_ c))
  | CSession e => sess_exec cfg read_timeout_ on_recv_ e c
  end.

Inductive conn_reachable (n : nat) (a : A) : connection A -> Prop :=
| conn_reach_init : conn_reachable n a (connection_init n a)
| conn_reach_step c e c' :
    conn_reachable n a c -> conn_exec e c = Some (Ret c') -> conn_reachable n a c'.

Fixpoint conn_run (es : list conn_event) (c : connection A) : option (connection A) :=
  match es with
  | [] => Some c
  | e :: es => match conn_exec e c with Some (Ret c') => conn_run es c' | _ => None end
  end.

Lemma conn_reachable_run n a es c c' :
  conn_reachable n a c -> conn_run es c = Some c' -> conn_reachable n a c'.
Proof.
  revert c. induction es as [|e es IH]; intros c Hr; simpl; [by intros [= <-]|].
  destruct (conn_exec e c) as [[c1| | | |]|] eqn:He; try done.
  apply IH. by eapply conn_reach_step.
Qed.

Context (n : nat) (Hn : n <= queue_capacity).
Context (f : list byte -> Z) (Hf : get_total_size_ cfg = Some f) (Hlim : small_limits cfg).
Context (Hdef : callback_defined cfg f on_recv_).

Lemma connection_init_inv a : sess_inv cfg read_timeout_ n (connection_init n a).
Proof. apply session_init_inv; [constructor|done]. Qed.

Lemma conn_exec_inv e c o :
  sess_inv cfg read_timeout_ n c -> conn_exec e c = Some o ->
  ret_or_hang (sess_inv cfg read_timeout_ n) o.
Proof using Hn Hf Hlim Hdef.
  intros Hinv. destruct e as [|e]; simpl.
  - destruct (started c) eqn:Hs; [done|]. intros [= <-]. by apply start_inv.
  - by apply (sess_exec_inv cfg read_timeout_ on_recv_ n Hn f Hf Hlim Hdef).
Qed.

Lemma conn_reachable_inv a c : conn_reachable n a c -> sess_inv cfg read_timeout_ n c.
Proof using Hn Hf Hlim Hdef.
  induction 1 as [|c e c' _ IH He]; [apply connection_init_inv|].
  by apply conn_exec_inv in He.
Qed.

Lemma conn_exec_hang e c :
  sess_inv cfg read_timeout_ n c -> conn_exec e c = Some Hang ->
  exists data, e = CSession (SRead false data).
Proof using Hn.
  intros Hinv. destruct e as [|e]; simpl; [by destruct (started c)|]. intros He.
  apply (sess_exec_hang cfg read_timeout_ on_recv_ n Hn) in He as [data ->]; eauto.
Qed.

End Connection.

Section Replies.

Context `{!CircularBuffer} (cfg : framing_config) (read_timeout_ : Z).
Context (reply : list byte -> list byte) (n : nat) (Hn : n <= queue_capacity).
Context (f : list byte -> Z) (Hf : get_total_size_ cfg = Some f) (Hlim : small_limits cfg).

(** Events of a connection on which only the callback sends. *)
Definition only_replies (e : conn_event) : Prop :=
  match e with CStart => True | CSession e => no_other_sender e end.

Lemma run_replies es c c' :
  sess_inv cfg read_timeout_ n c -> Forall only_replies es ->
  echoed reply (ep c) (delivered (rx c)) ->
  conn_run cfg read_timeout_ (Some (responder reply)) es c = Some c' ->
  sess_inv cfg read_timeout_ n c' /\ echoed reply (ep c') (delivered (rx c')).
Proof using Hf Hlim Hn.
  intros Hinv Hes. revert c Hinv. induction Hes as [|e es He _ IH]; intros c Hinv Hech; simpl.
  { by intros [= <-]. }
  destruct (conn_exec cfg read_timeout_ (Some (responder reply)) e c) as [[c1| | | |]|] eqn:Hex;
    try done.
  apply IH.
  - by apply (conn_exec_inv cfg read_timeout_ (Some (responder reply)) n Hn f Hf Hlim
           (responder_defined _ _ _) e c (Ret c1)).
  - destruct e as [|e]; simpl in Hex.
    + destruct (started c); [done|]. injection Hex as <-. unfold start. cbn [ep rx].
      eapply echoed_front; [|apply reset_read_timeout_own|exact Hech].
      unfold same_front. by rewrite reset_read_timeout_tx.
    + by apply (exec_echoed cfg read_timeout_ reply n Hn f Hf Hlim e c c1).
Qed.

End Replies.

(** ** Properties *)

Section Properties.

Context `{!CircularBuffer} {A : Type}.
Context (cfg : framing_config) (read_timeout_ : Z) (on_recv_ : option (app_callback A)).
Context (n : nat) (a : A) (c : connection A) (f : list byte -> Z).

(** No step of a connection is undefined, throws or loops without bound, whatever
    the application's callback does with [send] and [close], as long as it comes
    back from the messages that the framing lets through; and only a callback that
    sends can keep the strand busy for ever. *)
Theorem connection_safe e o :
  n <= pool_capacity -> get_total_size_ cfg = Some f -> small_limits cfg ->
  callback_defined cfg f on_recv_ ->
  conn_reachable cfg read_timeout_ on_recv_ n a c ->
  conn_exec cfg read_timeout_ on_recv_ e c = Some o ->
  (exists c', o = Ret c') \/ (o = Hang /\ exists data, e = CSession (SRead false data)).
Proof.
  intros Hn%pool_fits Hf Hlim Hdef Hr Hex.
  pose proof (conn_reachable_inv cfg read_timeout_ on_recv_ n Hn f Hf Hlim Hdef a c Hr) as Hinv.
  pose proof (conn_exec_inv cfg read_timeout_ on_recv_ n Hn f Hf Hlim Hdef e c o Hinv Hex) as Ho.
  destruct o; simpl in Ho; try done; eauto. right. split; [done|].
  by apply (conn_exec_hang cfg read_timeout_ on_recv_ n Hn e c).
Qed.

(** C15: the life of a connection.  The disconnect callback has run exactly once
    if the socket is closed and never while it is open, however many reads,
    writes, timeouts and [close()] calls end it; the send state is one of the
    send path's states, so that what is proved of it holds here; a started, open
    connection always has a read outstanding, into at least 64 KiB of free buffer
    behind the bytes not yet consumed, and, with a timeout, a watchdog; without a
    timeout the timer is never used. *)
Theorem connection_lifecycle :
  n <= pool_capacity -> get_total_size_ cfg = Some f -> small_limits cfg ->
  callback_defined cfg f on_recv_ ->
  conn_reachable cfg read_timeout_ on_recv_ n a c ->
  own (ep c) = (if is_open (tx (ep c)) then 0 else 1) /\
  reachable n (tx (ep c)) /\
  (started c = true -> is_open (tx (ep c)) = true ->
   (exists room, read_op (rx c) = Some (active_bytes_ (rx c), room) /\ (65536 <= room)%Z /\
      (active_bytes_ (rx c) + room = size_of (recv_buffer_ (rx c)))%Z) /\
   ((0 < read_timeout_)%Z -> timer_armed (ep c) = true \/ 0 < timers_fired (ep c))) /\
  ((read_timeout_ <= 0)%Z -> timer_armed (ep c) = false /\ timers_fired (ep c) = 0).
Proof.
  intros Hn%pool_fits Hf Hlim Hdef Hr.
  destruct (conn_reachable_inv cfg read_timeout_ on_recv_ n Hn f Hf Hlim Hdef a c Hr)
    as [[Htx Hd Hnt Ht] _ Hrx].
  split_and!; [done|done| |done].
  intros Hs Ho. split; [|auto]. destruct (Hrx Hs) as [(_ & Hop & Hroom & _)|[_ ?]]; [|congruence].
  eexists. split; [exact Hop|]. split; [done|lia].
Qed.

End Properties.

Section EchoProperties.

Context `{!CircularBuffer} (cfg : framing_config) (read_timeout_ : Z).
Context (reply : list byte -> list byte) (n : nat) (f : list byte -> Z).

(** A server answers.  With a callback that sends [reply m] for every message
    [m] and no other sender, whatever is read, written, timed out or closed in
    whatever order: the messages accepted for sending are, in order and byte for
    byte, the replies to the messages received (to all of them while the
    connection is open), and the bytes on the wire are a prefix of these replies
    laid end to end. *)
Theorem replies_in_order es c :
  n <= pool_capacity -> get_total_size_ cfg = Some f -> small_limits cfg ->
  Forall only_replies es ->
  conn_run cfg read_timeout_ (Some (responder reply)) es (connection_init n tt) = Some c ->
  (accepted (tx (ep c))) `prefix_of` (reply <$> delivered (rx c)) /\
  (is_open (tx (ep c)) = true -> accepted (tx (ep c)) = reply <$> delivered (rx c)) /\
  (wire (tx (ep c))) `prefix_of` (concat (reply <$> delivered (rx c))).
Proof.
  intros Hn%pool_fits Hf Hlim Hes Hrun.
  destruct (run_replies cfg read_timeout_ reply n Hn f Hf Hlim es (connection_init n tt) c)
    as [Hinv (_ & Hpre & Hopen)]; [apply connection_init_inv|done|done|done|].
  split_and!; [done|intros Ho; by destruct (Hopen Ho)|].
  pose proof (inv_wire n _ (reachable_inv n _ Hn (inv_tx _ _ _ _ (inv_ep _ _ _ _ Hinv)))) as Hw.
  etrans; [exact Hw|]. destruct Hpre as [k ->]. rewrite concat_app. by apply prefix_app_r.
Qed.

(** A callback that answers can deadlock the connection.  When a read
    completes more messages than there are idle buffers, the callback's
    [send] waits, inside the strand, for a buffer that only the strand can give
    back: the completion handler never returns. *)
Theorem reply_deadlock c off room data ms e :
  n <= pool_capacity -> get_total_size_ cfg = Some f -> small_limits cfg ->
  conn_reachable cfg read_timeout_ (Some (responder reply)) n tt c ->
  is_open (tx (ep c)) = true -> read_op (rx c) = Some (off, room) ->
  (0 < size_of data <= room)%Z ->
  frames (header_size_ cfg) (max_message_size_ cfg) f (pending (rx c) 0 ++ data) ms e ->
  length (buffer_pool_ (tx (ep c))) < length ms ->
  conn_exec cfg read_timeout_ (Some (responder reply)) (CSession (SRead false data)) c = Some Hang.
Proof.
  intros Hn%pool_fits Hf Hlim Hr. intros.
  pose proof (conn_reachable_inv cfg read_timeout_ (Some (responder reply)) n Hn f Hf Hlim
                (responder_defined _ _ _) tt c Hr) as Hinv.
  by eapply (read_echo_hangs cfg read_timeout_ reply n Hn f Hf Hlim).
Qed.

End EchoProperties.

(** ** Witnesses

    An echo server, with the framing of tests/test_networking.cpp. *)

#[local] Existing Instance overwriting_buffer.

Definition started_conn (n : nat) : connection unit := start 0 (connection_init n tt).

Definition serve_one : list conn_event :=
  [CStart; CSession (SRead false demo_message); CSession (SSendPath EvRunPosted);
   CSession (SSendPath EvTransmit)].

Definition served_conn : connection unit :=
  default (started_conn 2) (conn_run test_config 0 (Some (responder id)) serve_one (connection_init 2 tt)).

Lemma served_run :
  conn_run test_config 0 (Some (responder id)) serve_one (connection_init 2 tt) = Some served_conn.
Proof.
  unfold served_conn.
  assert ((if conn_run test_config 0 (Some (responder id)) serve_one (connection_init 2 tt) is Some _
           then true else false) = true) as H by (vm_compute; reflexivity).
  by destruct (conn_run _ _ _ _ _).
Qed.

Lemma served_reachable : conn_reachable test_config 0 (Some (responder id)) 2 tt served_conn.
Proof. eapply conn_reachable_run; [constructor|apply served_run]. Qed.

Lemma started_reachable n : conn_reachable test_config 0 (Some (responder id)) n tt (started_conn n).
Proof. by apply (conn_reach_step _ _ _ n tt (connection_init n tt) CStart); [constructor|]. Qed.

Lemma served_state :
  is_open (tx (ep served_conn)) = true /\ accepted (tx (ep served_conn)) = [demo_message] /\
  delivered (rx served_conn) = [demo_message] /\ started served_conn = true.
Proof. split_and!; vm_compute; reflexivity. Qed.

Lemma connection_safe_witness :
  exists c', conn_exec test_config 0 (Some (responder id)) (CSession SClose) served_conn = Some (Ret c').
Proof.
  destruct (connection_safe test_config 0 (Some (responder id)) 2 tt served_conn test_get_total_size (CSession SClose)
              (Ret (Session (rx served_conn) (close (ep served_conn)) (started served_conn)))
              small_pool eq_refl test_config_small (responder_defined _ _ _) served_reachable eq_refl)
    as [[c' Hc]|[[=] _]].
  exists c'. rewrite <- Hc. reflexivity.
Defined.

Lemma connection_lifecycle_witness :
  own (ep served_conn) = 0 /\ reachable 2 (tx (ep served_conn)).
Proof.
  destruct (connection_lifecycle test_config 0 (Some (responder id)) 2 tt served_conn test_get_total_size
              small_pool eq_refl test_config_small (responder_defined _ _ _) served_reachable) as (H1 & H2 & _).
  rewrite (proj1 served_state) in H1. split; [exact H1|exact H2].
Defined.

Lemma replies_in_order_witness :
  accepted (tx (ep served_conn)) = [demo_message] /\
  (wire (tx (ep served_conn))) `prefix_of` (concat [demo_message]).
Proof.
  destruct (replies_in_order test_config 0 id 2 test_get_total_size serve_one served_conn)
    as (_ & H1 & H2).
  - exact small_pool.
  - reflexivity.
  - exact test_config_small.
  - repeat constructor.
  - exact served_run.
  - destruct served_state as (Ho & _ & Hd & _). rewrite Hd in H1, H2.
    split; [exact (H1 Ho)|exact H2].
Defined.

(** With the pool of 8192 buffers: 8193 seven-byte messages fit in one read. *)
Definition burst : list (list byte) := replicate (Z.to_nat 8193) demo_message.

Lemma burst_size : size_of (concat burst) = 57351%Z.
Proof. vm_compute. reflexivity. Qed.

Lemma reply_deadlock_witness :
  conn_exec test_config 0 (Some (responder id)) (CSession (SRead false (concat burst))) (started_conn pool_capacity)
  = Some Hang.
Proof.
  apply (reply_deadlock test_config 0 id pool_capacity test_get_total_size
           (started_conn pool_capacity) 0 65536 (concat burst) burst (Partial [])).
  - done.
  - reflexivity.
  - exact test_config_small.
  - apply started_reachable.
  - reflexivity.
  - vm_compute. reflexivity.
  - rewrite burst_size. lia.
  - assert (pending (rx (started_conn pool_capacity)) 0 = []) as -> by (vm_compute; reflexivity).
    apply frames_messages; [done|]. apply Forall_replicate, demo_well_framed.
  - vm_compute. lia.
Defined.
