(* ===== verification/TcpClient.v ===== *)
(** * tcp_client.hpp: [TcpClient]

    The session of TcpSession.v with the flag [is_connected_], [connect] with its
    completion handler, and the destructor.  A client can be connected again after
    it was closed; what the code then does not reset is part of the model. *)

From S2P Require Import Prelude Framing Expected SendPipeline Callbacks TcpSession.
From Stdlib Require Import ZArith Lia.

Open Scope nat_scope.

(** The own state is [is_connected_]: [close] clears it in any case, [send] tests
    it before it looks at the socket. *)
#[export] Instance client_owner : Owner bool := {|
  own_close _ _ := false;
  own_sends is_connected_ := is_connected_;
  own_inv _ _ := True;
  own_inv_close _ _ _ := I;
|}.

Section Client.

Context `{!CircularBuffer} {A : Type}.
Context (cfg : framing_config) (read_timeout_ : Z) (receive_callback_ : option (app_callback A)).

(** The callback given to [connect]. *)
Context (cb : option (send_result -> A -> app_prog A)).

#[local] Instance client_endpoint : StreamEndpoint (endpoint bool A) :=
  session_endpoint read_timeout_.

#[local] Instance client_sender : Sender (endpoint bool A) := session_sender read_timeout_.

(** [connecting] counts the [async_connect] operations under way.  [reopened] is a
    history variable: [connect] was called after a connection had been established. *)
Record client := Client {
  session_ : session (X := bool) (A := A);
  connecting : nat;
  reopened : bool;
}.

Definition open_socket (open : bool) (p : pipe) : pipe :=
  Pipe open (heap p) (buffer_pool_ p) (send_queue_ p) (write_buffers_ p)
       (active_writes_ p) (write_op p) (posted p) (threads p) (accepted p) (wire p).

(** The constructor, with [n] pooled buffers: the socket is not open. *)
Definition client_init (n : nat) (a : A) : client :=
  Client (session_init (open_socket false (pipe_init n)) false a) 0 false.

Definition set_socket (open : bool) (c : client) : client :=
  let s := session_ c in
  Client (Session (rx s) (set_tx (open_socket open (tx (ep s))) (ep s)) (started s))
    (connecting c) (reopened c || started s).

(** [connect]: [resolve_ec] is the resolver's error (0 for success), [opens] what
    the start of [async_connect] does to the socket. *)
Definition connect (resolve_ec : Z) (opens : bool) (c : client) : send_result * client :=
  if negb (resolve_ec =? 0)%Z then (error_of resolve_ec, c)
  else
    let c := set_socket opens c in
    (ok, Client (session_ c) (S (connecting c)) (reopened c)).

Definition run_connect_callback (res : send_result) (s : endpoint bool A) :
    outcome (endpoint bool A) :=
  match cb with
  | None => Ret s
  | Some cb => '(a, s) ← interp (cb res (app s)) s; Ret (set_app a s)
  end.

(** The completion handler of [async_connect]. *)
Definition connect_handler (ec : Z) (s : session) : outcome session :=
  if (ec =? 0)%Z then
    e ← run_connect_callback ok (set_own true (ep s));
    Ret (start read_timeout_ (Session (rx s) e (started s)))
  else
    e ← run_connect_callback (error_of ec) (ep s);
    Ret (Session (rx s) e (started s)).

(** The destructor: close the socket, then free the pool and the queue. *)
Definition destroy_client (c : client) : outcome (gmap nat (list byte)) :=
  let p := tx (ep (session_ c)) in
  destroy (if is_open p then close_socket p else p).

Inductive client_event :=
| KConnect (resolve_ec : Z) (opens : bool)
| KSocket (open : bool)              (* [async_connect] closes and opens the socket as it goes *)
| KConnectDone (ec : Z)
| KSession (e : sess_event).

(** [None]: the event is not possible in this state.  Calling [connect] while a
    read is outstanding is left out: Asio would abort that read. *)
Definition client_exec (e : client_event) (c : client) : option (outcome client) :=
  match e with
  | KConnect resolve_ec opens =>
      match read_op (rx (session_ c)) with
      | Some _ => None
      | None => Some (Ret (snd (connect resolve_ec opens c)))
      end
  | KSocket open => if connecting c =? 0 then None else Some (Ret (set_socket open c))
  | KConnectDone ec =>
      match connecting c, read_op (rx (session_ c)) with
      | S k, None =>
          Some (s ← connect_handler ec (session_ c); Ret (Client s k (reopened c || started (session_ c))))
      | _, _ => None
      end
  | KSession e =>
      match sess_exec cfg read_timeout_ receive_callback_ e (session_ c) with
      | Some o => Some (s ← o; Ret (Client s (connecting c) (reopened c)))
      | None => None
      end
  end.

Inductive client_reachable (n : nat) (a : A) : client -> Prop :=
| client_reach_init : client_reachable n a (client_init n a)
| client_reach_step c e c' :
    client_reachable n a c -> client_exec e c = Some (Ret c') -> client_reachable n a c'.

Fixpoint client_run (es : list client_event) (c : client) : option client :=
  match es with
  | [] => Some c
  | e :: es => match client_exec e c with Some (Ret c') => client_run es c' | _ => None end
  end.

Lemma client_reachable_run n a es c c' :
  client_reachable n a c -> client_run es c = Some c' -> client_reachable n a c'.
Proof.
  revert c. induction es as [|e es IH]; intros c Hr; simpl; [by intros [= <-]|].
  destruct (client_exec e c) as [[c1| | | |]|] eqn:He; try done.
  apply IH. by eapply client_reach_step.
Qed.

(** ** The first connection *)

(** The callback given to [connect] comes back. *)
Definition connect_callback_defined : Prop :=
  forall k, cb = Some k -> forall res a, never_fails (k res a).


Section Inv.


Context (n : nat).

(** Before the first connection is established: nothing has been sent, read or
    timed. *)
Definition unconnected (s : session (X := bool) (A := A)) : Prop :=
  (exists open, tx (ep s) = open_socket open (pipe_init n)) /\
  own (ep s) = false /\ timer_armed (ep s) = false /\ timers_fired (ep s) = 0.

Record client_inv (c : client) : Prop := {
  inv_session : reopened c = false -> sess_inv cfg read_timeout_ n (session_ c);
  inv_unconnected : started (session_ c) = false -> unconnected (session_ c);
  inv_unread : started (session_ c) = false -> rx (session_ c) = rx_init;
}.

Lemma open_socket_reachable open : reachable n (open_socket open (pipe_init n)).
Proof.
  destruct open; [apply reach_init|].
  by apply (reach_step n (pipe_init n) EvClose); [apply reach_init|].
Qed.

Lemma client_init_inv a : client_inv (client_init n a).
Proof.
  split; cbn [session_ client_init started session_init reopened].
  - intros _. apply session_init_inv; [apply open_socket_reachable|done].
  - intros _. split; [by exists false|done].
  - intros _. reflexivity.
Qed.

Lemma open_socket_twice o1 o2 p : open_socket o1 (open_socket o2 p) = open_socket o1 p.
Proof. done. Qed.

Lemma unconnected_ep_inv s :
  unconnected s -> started s = false -> ep_inv read_timeout_ n (started s) (ep s).
Proof.
  intros ([o Ho] & Hown & Ht & Hf) Hs. split.
  - rewrite Ho. apply open_socket_reachable.
  - done.
  - done.
  - congruence.
Qed.

Lemma unconnected_sess_inv s :
  unconnected s -> started s = false -> rx s = rx_init -> sess_inv cfg read_timeout_ n s.
Proof.
  intros Hu Hs Hr. split; [by apply unconnected_ep_inv|done|congruence].
Qed.

Lemma set_socket_unconnected o s :
  unconnected s -> unconnected (Session (rx s) (set_tx (open_socket o (tx (ep s))) (ep s)) (started s)).
Proof.
  intros ([o' Ho] & Hown & Ht & Hf). split; [|done]. exists o. cbn [ep tx set_tx]. by rewrite Ho.
Qed.

Lemma set_socket_inv o c : client_inv c -> client_inv (set_socket o c).
Proof.
  intros [H1 H2 H3].
  split; cbn [session_ set_socket started reopened rx]; [|intros Hs|intros Hs].
  - intros [Hr Hs]%orb_false_iff.
    apply unconnected_sess_inv; [apply set_socket_unconnected; auto|done|auto].
  - apply set_socket_unconnected; auto.
  - auto.
Qed.

(** In this state only closing does anything. *)
Lemma unconnected_step e s o :
  unconnected s -> rx s = rx_init -> started s = false ->
  sess_exec cfg read_timeout_ receive_callback_ e s = Some o ->
  exists s', o = Ret s' /\ unconnected s' /\ rx s' = rx_init /\ started s' = false.
Proof.
  intros Hu Hrx Hs. pose proof Hu as ([op Htx] & Hown & Ht & Hf). destruct e as [e|ec ok|ec data| | |]; simpl.
  - destruct (send_path_only e) eqn:Hse; [|done]. unfold send_exec. rewrite Hown, Htx.
    destruct e as [t d|t|t|t| | |ec ok|]; simpl; try done. intros [= <-].
    exists s. split_and!; try done. by destruct s.
  - by rewrite Htx.
  - by rewrite Hrx.
  - by rewrite Ht.
  - by rewrite Hf.
  - intros [= <-]. eexists. split; [done|]. split; [|done].
    assert (forall s' : session (X := bool) (A := A), ep s' = close (ep s) -> unconnected s') as Hc; [|by apply Hc].
    intros s' E. unfold unconnected. rewrite E. split_and!.
    + exists false. by rewrite close_tx, Htx.
    + done.
    + apply (close_timer (ep s)). done.
    + by rewrite (proj1 (close_timer (ep s))).
Qed.

Context (Hn : n <= queue_capacity).
Context (f : list byte -> Z) (Hf : get_total_size_ cfg = Some f) (Hlim : small_limits cfg).
Context (Hdef : callback_defined cfg f receive_callback_) (Hcb : connect_callback_defined).

Lemma run_callback_inv st res s :
  ep_inv read_timeout_ n st s ->
  ret_or_hang (ep_inv read_timeout_ n st) (run_connect_callback res s).
Proof using Hn Hcb.
  intros Hs. unfold run_connect_callback. destruct cb as [k|] eqn:Hk; [|done].
  eapply ret_or_hang_bind; [by apply (interp_inv read_timeout_ n Hn st); [by apply Hcb|]|].
  intros [a s'] Hs'. simpl. by apply set_app_inv.
Qed.

(** Before the connection, [send] is refused: a callback can only close. *)
Lemma interp_unconnected {R} (p : app_prog R) (s : session (X := bool) (A := A)) r e :
  unconnected s -> interp p (ep s) = Ret (r, e) ->
  unconnected (Session (rx s) e (started s)).
Proof.
  intros Hu Hi.
  assert (unconnected (Session (rx s) e (started s)) /\ True) as [? _]; [|done].
  split; [|done].
  apply (interp_preserves (fun e => unconnected (Session (rx s) e (started s)))) in Hi; [done|..|by destruct s].
  - intros data e0 res e1 (Ho & Hown & Ht). cbn [ep own] in Hown.
    unfold client_sender, session_sender. cbn [ep_send]. rewrite Hown. by intros [= _ <-].
  - intros e0 ([o Ho] & Hown & Ht & Hfd). cbn [ep] in *. split_and!; cbn [ep]; try done.
    + exists false. change (tx (close e0) = open_socket false (pipe_init n)). by rewrite close_tx, Ho.
    + by apply (close_timer e0).
    + change (timers_fired (close e0) = 0). by rewrite (proj1 (close_timer e0)).
Qed.

Lemma set_own_inv st x (s : endpoint bool A) :
  ep_inv read_timeout_ n st s -> ep_inv read_timeout_ n st (set_own x s).
Proof. by intros []. Qed.

Lemma connect_handler_inv ec s :
  unconnected s -> rx s = rx_init -> started s = false ->
  ret_or_hang (fun s' => sess_inv cfg read_timeout_ n s' /\
      (started s' = false -> unconnected s' /\ rx s' = rx_init))
    (connect_handler ec s).
Proof using Hn Hlim Hcb.
  intros Hu Hr Hs. unfold connect_handler.
  pose proof (unconnected_ep_inv s Hu Hs) as He. rewrite Hs in *.
  destruct (ec =? 0)%Z.
  - eapply ret_or_hang_bind; [by apply (run_callback_inv false), set_own_inv|].
    intros e He'. cbn [ret_or_hang]. split; [|done].
    apply start_inv; [done| |done]. split; [done| |done]. intros _. exact Hr.
  - unfold run_connect_callback. destruct cb as [k|] eqn:Hk.
    + pose proof (interp_inv read_timeout_ n Hn false (k (error_of ec) (app (ep s))) (ep s)
                    (Hcb k Hk _ _) He) as Hi.
      destruct (interp (k (error_of ec) (app (ep s))) (ep s)) as [[a e]| | | |] eqn:Hint; try done.
      cbn [mbind outcome_bind ret_or_hang].
      apply (interp_unconnected _ s) in Hint; [|done]. rewrite Hs in Hint.
      assert (unconnected (Session (rx s) (set_app a e) false)) as Hu' by done.
      split; [|done]. by apply unconnected_sess_inv.
    + cbn [mbind outcome_bind ret_or_hang]. assert (Session (rx s) (ep s) false = s) as ->.
      { destruct s. simpl in *. by subst. }
      split; [by apply unconnected_sess_inv|done].
Qed.

Lemma reconnect_handler_safe ec s :
  sess_inv cfg read_timeout_ n s -> started s = true ->
  ret_or_hang (fun s' => started s' = true) (connect_handler ec s).
Proof using Hn Hcb.
  intros [He _ _] Hs. unfold connect_handler. destruct (ec =? 0)%Z.
  - eapply ret_or_hang_bind; [by eapply run_callback_inv, set_own_inv|]. done.
  - eapply ret_or_hang_bind; [by eapply run_callback_inv|]. done.
Qed.

Lemma client_exec_inv e c o :
  client_inv c -> reopened c = false -> client_exec e c = Some o -> ret_or_hang client_inv o.
Proof using Hn Hf Hlim Hdef Hcb.
  intros Hinv Hre. pose proof Hinv as [H1 H2 H3]. specialize (H1 Hre).
  destruct e as [rec opens|open|ec|e]; simpl.
  - destruct (read_op (rx (session_ c))); [done|]. intros [= <-]. unfold connect.
    destruct (negb _); [done|]. apply set_socket_inv with (o := opens) in Hinv as []. by split.
  - destruct (connecting c =? 0); [done|]. intros [= <-]. by apply set_socket_inv.
  - destruct (connecting c) as [|k]; [done|].
    destruct (read_op (rx (session_ c))) eqn:Hop; [done|]. intros [= <-].
    destruct (started (session_ c)) eqn:Hs.
    + eapply ret_or_hang_bind; [by apply reconnect_handler_safe|]. intros s' Hs'.
      rewrite Hre. split; simpl; congruence.
    + eapply ret_or_hang_bind; [apply connect_handler_inv; auto|]. intros s' [Hi Hu'].
      split; simpl; [done|intros Hs'; by apply Hu'|intros Hs'; by apply Hu'].
  - destruct (sess_exec _ _ _ e (session_ c)) as [o'|] eqn:Hex; [|done]. intros [= <-].
    destruct (started (session_ c)) eqn:Hs.
    + pose proof (sess_exec_inv cfg read_timeout_ receive_callback_ n Hn f Hf Hlim Hdef e _ o' H1 Hex) as Ho.
      destruct o' as [s'| | | |]; try done. apply sess_exec_started in Hex.
      split; simpl; [done|congruence..].
    + destruct (unconnected_step e (session_ c) o') as (s' & -> & Hu & Hr & Hs'); auto.
      split; simpl; auto. intros _. by apply unconnected_sess_inv.
Qed.

Lemma client_reopened e c c' :
  client_exec e c = Some (Ret c') -> reopened c' = false -> reopened c = false.
Proof.
  destruct e as [rec opens|open|ec|e]; simpl.
  - destruct (read_op (rx (session_ c))); [done|]. intros [= <-]. unfold connect. destruct (negb _); [done|].
    simpl. by intros [? _]%orb_false_iff.
  - destruct (connecting c =? 0); [done|]. intros [= <-]. simpl. by intros [? _]%orb_false_iff.
  - destruct (connecting c), (read_op (rx (session_ c))); try done.
    destruct (connect_handler ec _); simpl; try done. intros [= <-]. simpl.
    by intros [? _]%orb_false_iff.
  - destruct (sess_exec _ _ _ e _) as [[s'| | | |]|]; try done. by intros [= <-].
Qed.

Lemma client_reachable_inv a c : client_reachable n a c -> reopened c = false -> client_inv c.
Proof using Hn Hf Hlim Hdef Hcb.
  induction 1 as [|c e c' _ IH He]; intros Hre; [apply client_init_inv|].
  pose proof (client_reopened _ _ _ He Hre) as Hre0.
  by apply client_exec_inv in He; [|apply IH|].
Qed.

Lemma client_exec_hang e c :
  client_inv c -> reopened c = false -> client_exec e c = Some Hang ->
  (exists data, e = KSession (SRead false data)) \/ (exists ec, e = KConnectDone ec).
Proof using Hn.
  intros [H1 _ _] Hre. specialize (H1 Hre). destruct e as [rec opens|open|ec|e]; simpl; [..|eauto|].
  - by destruct (read_op (rx (session_ c))).
  - by destruct (connecting c =? 0).
  - destruct (sess_exec _ _ _ e (session_ c)) as [o'|] eqn:Hex; [|done]. intros [= Ho].
    destruct o' as [s'| | | |]; try done.
    apply (sess_exec_hang cfg read_timeout_ receive_callback_ n Hn) in Hex as [data ->]; eauto.
Qed.

End Inv.

(** ** Later connections *)

Lemma send_in_strand_jammed data p res p' :
  jammed p -> send_in_strand data p = Ret (res, p') -> jammed p' /\ wire p' = wire p.
Proof.
  intros Hj. unfold send_in_strand. destruct (is_open p); [|by intros [= _ <-]].
  destruct (buffer_pool_ p); [done|]. destruct (heap p !! n); [|done]. by intros [= _ <-].
Qed.

(** The wire shows [w], and nothing can be added to it. *)
Definition jammed_at (w : list byte) (s : endpoint bool A) : Prop :=
  jammed (tx s) /\ wire (tx s) = w.

Lemma close_jammed w s : jammed_at w s -> jammed_at w (close s).
Proof. unfold jammed_at. by rewrite close_tx. Qed.

Lemma send_jammed w data s res s' :
  jammed_at w s -> ep_send data s = Ret (res, s') -> jammed_at w s'.
Proof.
  intros [Hj Hw]. unfold client_sender, session_sender. cbn [ep_send].
  destruct (own_sends (own s)); [|by intros [= _ <-]].
  destruct (send_in_strand data (tx s)) as [[r p]| | | |] eqn:Hs; simpl; try done.
  intros [= _ <-]. apply send_in_strand_jammed in Hs as [? Hw']; [|done].
  split; simpl; congruence.
Qed.

Lemma interp_jammed {R} w (p : app_prog R) s r s' :
  jammed_at w s -> interp p s = Ret (r, s') -> jammed_at w s'.
Proof. intros Hj. apply interp_preserves; eauto using send_jammed. apply close_jammed. Qed.

Lemma sess_exec_jammed w e (s s' : session (X := bool) (A := A)) :
  jammed_at w (ep s) -> sess_exec cfg read_timeout_ receive_callback_ e s = Some (Ret s') ->
  jammed_at w (ep s').
Proof.
  apply (sess_exec_tx cfg read_timeout_ receive_callback_ (fun p => jammed p /\ wire p = w)).
  - intros ev p p' _ [Hj Hw] Hex. apply exec_jammed in Hex as [? Hw']; [|done]. split; congruence.
  - intros _ data p res p' [Hj Hw] Hs. apply send_in_strand_jammed in Hs as [? Hw']; [|done].
    split; congruence.
Qed.

Lemma client_exec_jammed w e c c' :
  jammed_at w (ep (session_ c)) -> client_exec e c = Some (Ret c') ->
  jammed_at w (ep (session_ c')).
Proof.
  intros Hj. destruct e as [rec opens|open|ec|e]; simpl.
  - destruct (read_op (rx (session_ c))); [done|]. intros [= <-]. unfold connect. by destruct (negb _).
  - destruct (connecting c =? 0); [done|]. by intros [= <-].
  - destruct (connecting c), (read_op (rx (session_ c))); try done.
    destruct (connect_handler ec _) as [s'| | | |] eqn:Hh; simpl; try done. intros [= <-]. simpl.
    unfold connect_handler, run_connect_callback in Hh. destruct (ec =? 0)%Z.
    + destruct cb as [k|].
      * destruct (interp _ _) as [[a e]| | | |] eqn:Hi; simpl in Hh; try done. injection Hh as <-.
        apply (interp_jammed w) in Hi; [|done]. unfold jammed_at. cbn. by rewrite reset_read_timeout_tx.
      * injection Hh as <-. unfold jammed_at. cbn. by rewrite reset_read_timeout_tx.
    + destruct cb as [k|].
      * destruct (interp _ _) as [[a e]| | | |] eqn:Hi; simpl in Hh; try done. injection Hh as <-.
        by apply (interp_jammed w) in Hi.
      * by injection Hh as <-.
  - destruct (sess_exec _ _ _ e (session_ c)) as [[s'| | | |]|] eqn:Hex; try done.
    intros [= <-]. by eapply sess_exec_jammed.
Qed.

Lemma client_run_jammed w es c c' :
  jammed_at w (ep (session_ c)) -> client_run es c = Some c' -> jammed_at w (ep (session_ c')).
Proof.
  revert c. induction es as [|e es IH]; intros c Hj; simpl; [by intros [= <-]|].
  destruct (client_exec e c) as [[c1| | | |]|] eqn:He; try done.
  apply IH. by eapply client_exec_jammed.
Qed.

Lemma destroy_client_frees n (c : client) :
  pipe_inv n (tx (ep (session_ c))) -> exists h, destroy_client c = Ret h.
Proof.
  intros Hp. unfold destroy_client. destruct (is_open (tx (ep (session_ c)))).
  - destruct (destroy_frees n _ (inv_close n _ Hp)) as (h & -> & _). by exists h.
  - destruct (destroy_frees n _ Hp) as (h & -> & _). by exists h.
Qed.

(** ** Properties *)

Context (n : nat) (a : A) (c : client) (f : list byte -> Z).

(** No step of a client up to and including its first connection is undefined,
    throws or loops without bound; only the application's callbacks, by sending, can
    keep the strand busy for ever. *)
Theorem client_safe e o :
  n <= pool_capacity -> get_total_size_ cfg = Some f -> small_limits cfg ->
  callback_defined cfg f receive_callback_ -> connect_callback_defined ->
  client_reachable n a c -> reopened c = false -> client_exec e c = Some o ->
  (exists c', o = Ret c') \/
  (o = Hang /\ ((exists data, e = KSession (SRead false data)) \/ (exists ec, e = KConnectDone ec))).
Proof.
  intros Hn%pool_fits Hf Hlim Hdef Hcb Hr Hre Hex.
  pose proof (client_reachable_inv n Hn f Hf Hlim Hdef Hcb a c Hr Hre) as Hinv.
  pose proof (client_exec_inv n Hn f Hf Hlim Hdef Hcb e c o Hinv Hre Hex) as Ho.
  destruct o; simpl in Ho; try done; eauto. right. split; [done|].
  by apply (client_exec_hang n Hn e c).
Qed.

(** C23: the first connection of a client.  Its send state is one of the send
    path's states, so that what is proved of it holds here; before the connection
    is established [send] is refused and nothing has been accepted, sent or read;
    from then on, while the socket is open, a read is always outstanding, behind the
    bytes not yet consumed and into at least 64 KiB, and with a timeout there is a
    watchdog. *)
Theorem client_first_connection :
  n <= pool_capacity -> get_total_size_ cfg = Some f -> small_limits cfg ->
  callback_defined cfg f receive_callback_ -> connect_callback_defined ->
  client_reachable n a c -> reopened c = false ->
  let s := session_ c in
  reachable n (tx (ep s)) /\
  (started s = false ->
   own (ep s) = false /\ accepted (tx (ep s)) = [] /\ wire (tx (ep s)) = [] /\
   threads (tx (ep s)) = ∅ /\ read_op (rx s) = None /\ delivered (rx s) = []) /\
  (started s = true -> is_open (tx (ep s)) = true ->
   (exists room, read_op (rx s) = Some (active_bytes_ (rx s), room) /\ (65536 <= room)%Z /\
      (active_bytes_ (rx s) + room = size_of (recv_buffer_ (rx s)))%Z) /\
   ((0 < read_timeout_)%Z -> timer_armed (ep s) = true \/ 0 < timers_fired (ep s))).
Proof.
  intros Hn%pool_fits Hf Hlim Hdef Hcb Hr Hre s. subst s.
  destruct (client_reachable_inv n Hn f Hf Hlim Hdef Hcb a c Hr Hre) as [Hs Hu Hx].
  specialize (Hs Hre) as [[Htx _ _ Ht] _ Hrx]. split; [done|]. split.
  - intros Hst. destruct (Hu Hst) as ([o Ho] & Hown & _). rewrite (Hx Hst), Ho. done.
  - intros Hst Ho. split; [|auto]. destruct (Hrx Hst) as [(_ & Hop & Hroom & _)|[_ ?]]; [|congruence].
    eexists. split; [exact Hop|]. split; [done|lia].
Qed.

(** A client that is connected again starts with the bytes of the old
    connection.  Neither [close] nor [connect] resets [active_bytes_], so the first
    read of the new connection goes behind the unfinished message of the old one
    and is framed together with it. *)
Theorem client_reconnect_keeps_stale_bytes :
  cb = None -> started (session_ c) = true -> connecting c = 0 ->
  read_op (rx (session_ c)) = None -> rx_wf (rx (session_ c)) ->
  (active_bytes_ (rx (session_ c)) + 65536 < 2 ^ 63)%Z ->
  exists c', client_run [KConnect 0 true; KConnectDone 0] c = Some c' /\
    own (ep (session_ c')) = true /\ is_open (tx (ep (session_ c'))) = true /\
    pending (rx (session_ c')) 0 = pending (rx (session_ c)) 0 /\
    exists room, read_op (rx (session_ c')) = Some (active_bytes_ (rx (session_ c)), room).
Proof.
  intros Hcb Hs Hk Hop Hwf Hroom.
  destruct (start_receive_spec (rx (session_ c)) Hwf Hroom) as (_ & Hp & _ & _ & Ho & _).
  cbn [client_run client_exec]. rewrite Hop. cbn. rewrite Hop. unfold connect_handler, run_connect_callback.
  rewrite Hcb. cbn. eexists. split; [done|]. cbn.
  rewrite reset_read_timeout_own, reset_read_timeout_tx. split_and!; [done|done|exact Hp|].
  eexists. exact Ho.
Qed.

(** A client whose queue was left non-empty by a failed write never sends
    again.  Whatever happens from then on, reconnections included, after which
    [send] accepts messages as before, not a byte more goes out. *)
Theorem client_reconnect_cannot_send es c' :
  jammed (tx (ep (session_ c))) -> client_run es c = Some c' ->
  wire (tx (ep (session_ c'))) = wire (tx (ep (session_ c))).
Proof.
  intros Hj Hrun.
  by destruct (client_run_jammed (wire (tx (ep (session_ c)))) es c c') as [_ ->].
Qed.

End Client.

(** ** Witnesses *)

#[local] Existing Instance overwriting_buffer.

Abbreviation client_cfg := test_config.
Abbreviation test_run := (client_run client_cfg 0 (None : option (app_callback unit)) None).

Definition fresh_client : client (A := unit) := client_init 3 tt.

Definition connect_schedule : list client_event := [KConnect 0 true; KConnectDone 0].

Definition session_events (l : list sess_event) : list client_event := KSession <$> l.

(** Connected; the first two bytes of a message have come in. *)
Definition half_read : client (A := unit) :=
  default fresh_client
    (test_run (connect_schedule ++ session_events [SRead false [x03; x00]]) fresh_client).

Lemma some_default {B} (o : option B) d :
  (if o is Some _ then true else false) = true -> o = Some (default d o).
Proof. by destruct o. Qed.

Lemma half_read_reachable :
  client_reachable client_cfg 0 (None : option (app_callback unit)) None 3 tt half_read.
Proof.
  eapply client_reachable_run; [constructor|]. apply some_default.
  vm_compute. reflexivity.
Qed.

Lemma no_connect_callback_defined : connect_callback_defined (None : option (_ -> unit -> app_prog unit)).
Proof. done. Qed.

Lemma three_fit : 3 <= pool_capacity.
Proof. apply Nat2Z.inj_le. vm_compute. discriminate. Qed.

Lemma client_safe_witness :
  exists c', client_exec client_cfg 0 (None : option (app_callback unit)) None
               (KSession SClose) half_read = Some (Ret c').
Proof.
  destruct (client_exec client_cfg 0 (None : option (app_callback unit)) None (KSession SClose) half_read)
    as [o|] eqn:E; [|discriminate E].
  destruct (client_safe client_cfg 0 None None 3 tt half_read test_get_total_size (KSession SClose) o
              three_fit eq_refl test_config_small (no_callback_defined _ _)
              no_connect_callback_defined half_read_reachable) as [[c' ->]|[-> _]].
  - vm_compute. reflexivity.
  - exact E.
  - by exists c'.
  - discriminate E.
Defined.

Lemma client_first_connection_witness :
  exists room, read_op (rx (session_ half_read)) = Some (active_bytes_ (rx (session_ half_read)), room) /\
    (65536 <= room)%Z.
Proof.
  destruct (client_first_connection client_cfg 0 None None 3 tt half_read test_get_total_size
              three_fit eq_refl test_config_small (no_callback_defined _ _)
              no_connect_callback_defined half_read_reachable) as (_ & _ & H).
  - vm_compute. reflexivity.
  - destruct H as [(room & H1 & H2 & _) _]; [vm_compute; reflexivity..|]. exists room. by split.
Defined.

(** Closed, its last read aborted. *)
Definition closed_half_read : client (A := unit) :=
  default fresh_client (test_run (session_events [SClose; SRead true []]) half_read).

Lemma client_reconnect_keeps_stale_bytes_witness :
  exists c', test_run connect_schedule closed_half_read = Some c' /\
    pending (rx (session_ c')) 0 = [x03; x00].
Proof.
  destruct (client_reconnect_keeps_stale_bytes client_cfg 0 None None closed_half_read)
    as (c' & H1 & _ & _ & H2 & _).
  - reflexivity.
  - vm_compute. reflexivity.
  - vm_compute. reflexivity.
  - vm_compute. reflexivity.
  - split; [split|]; vm_compute; congruence.
  - vm_compute. reflexivity.
  - exists c'. split; [exact H1|]. rewrite H2. vm_compute. reflexivity.
Defined.

(** Two messages accepted, the write of the first fails, the second stays. *)
Definition client_send (t : nat) (data : list byte) : list sess_event :=
  SSendPath <$> [EvSend t data; EvPop t; EvCopy t; EvPost t].

Definition jam_schedule : list client_event :=
  connect_schedule ++
  session_events (client_send 1 [x61] ++ [SSendPath EvRunPosted] ++ client_send 2 [x62] ++
    [SSendPath EvRunPosted; SWriteDone true (fun _ => true); SRead true []]).

Definition jammed_client : client (A := unit) := default fresh_client (test_run jam_schedule fresh_client).

Definition retry_schedule : list client_event :=
  connect_schedule ++ session_events (client_send 3 [x63] ++ [SSendPath EvRunPosted]).

Definition retried_client : client (A := unit) := default fresh_client (test_run retry_schedule jammed_client).

Lemma client_reconnect_cannot_send_witness :
  own (ep (session_ retried_client)) = true /\
  accepted (tx (ep (session_ retried_client))) = [[x61]; [x62]; [x63]] /\
  wire (tx (ep (session_ retried_client))) = [].
Proof.
  split; [vm_compute; reflexivity|]. split; [vm_compute; reflexivity|].
  rewrite (client_reconnect_cannot_send client_cfg 0 None None jammed_client retry_schedule retried_client).
  - vm_compute. reflexivity.
  - split; [vm_compute; congruence|vm_compute; reflexivity].
  - apply some_default. vm_compute. reflexivity.
Defined.
