(* ===== verification/ConnectSend.v ===== *)
(** * A client that sends from its connect callback

    The examples' clients call [connect] once and send their messages from its
    callback, without a receive callback and without other senders.  What such a
    client accepts for sending is what the callback's program sends. *)

From S2P Require Import Prelude Framing Expected SendPipeline Callbacks TcpSession TcpClient.
From Stdlib Require Import ZArith Lia.

Open Scope nat_scope.

(** ** Programs that send a fixed sequence, whatever [send] answers *)

Fixpoint sends {R} (p : app_prog R) (ms : list (list byte)) : Prop :=
  match p, ms with
  | Return _, [] => True
  | CallSend data k, m :: ms => data = m /\ forall res, sends (k res) ms
  | _, _ => False
  end.

Lemma sends_never_fails {R} (p : app_prog R) ms : sends p ms -> never_fails p.
Proof.
  revert ms. induction p as [r|data k IH|k IH|f]; intros [|m ms]; simpl; try done.
  intros [_ Hk] res. by eapply IH.
Qed.

Lemma sends_bind {R S} (p : app_prog R) (f : R -> app_prog S) ms ms' :
  sends p ms -> (forall r, sends (f r) ms') -> sends (mbind f p) (ms ++ ms').
Proof.
  intros Hp Hf. revert ms Hp. induction p as [r|data k IH|k IH|e]; intros [|m ms]; simpl; try done.
  intros [-> Hk]. split; [done|]. intros res. by apply IH.
Qed.

Section Sends.

Context `{!CircularBuffer} {X A : Type} `{!Owner X} (read_timeout_ : Z).

#[local] Instance sends_endpoint : StreamEndpoint (endpoint X A) := session_endpoint read_timeout_.
#[local] Instance sends_sender : Sender (endpoint X A) := session_sender read_timeout_.

(** What [interp] leaves of the endpoint: everything is accepted, or nothing. *)
Lemma interp_sends {R} (p : app_prog R) ms (s s' : endpoint X A) r :
  sends p ms -> interp p s = Ret (r, s') ->
  own s' = own s /\ is_open (tx s') = is_open (tx s) /\ threads (tx s') = threads (tx s) /\
  accepted (tx s') =
    if own_sends (own s) && is_open (tx s) then accepted (tx s) ++ ms else accepted (tx s).
Proof.
  revert s ms. induction p as [r0|data k IH|k IH|f]; intros s [|m ms]; simpl; try done.
  { intros _ [= _ <-]. split_and!; [done..|]. by destruct (_ && _); rewrite ?app_nil_r. }
  intros [-> Hk]. unfold sends_sender, session_sender. cbn [ep_send].
  destruct (own_sends (own s)) eqn:Hown; cbn [andb].
  - destruct (send_in_strand m (tx s)) as [[res q]| | | |] eqn:Hs; simpl; try done.
    intros Hi. destruct (IH _ _ _ (Hk res) Hi) as (H1 & H2 & H3 & H4). cbn [own tx set_tx] in *.
    apply send_in_strand_front in Hs as (Ho & Ht & Ha). rewrite H1, H2, H3, H4, Ho, Ht, Ha, Hown.
    split_and!; [done..|]. cbn [andb]. destruct (is_open (tx s)); [by rewrite <- app_assoc|done].
  - intros Hi. destruct (IH _ _ _ (Hk _) Hi) as (H1 & H2 & H3 & H4). by rewrite H1, H2, H3, H4, Hown.
Qed.

End Sends.

(** ** The client *)

Section Client.

Context `{!CircularBuffer} {A : Type} (cfg : framing_config) (read_timeout_ : Z).

(** Before the first connection is established there is one [async_connect] at
    most; afterwards there is none. *)
Definition connects_once (c : client (A := A)) : Prop :=
  reopened c = false /\ connecting c + (if started (session_ c) then 1 else 0) <= 1.

Lemma connects_once_step e (c c' : client (A := A)) rcb cb :
  (match e with KConnect _ _ => False | _ => True end) ->
  connects_once c -> client_exec cfg read_timeout_ rcb cb e c = Some (Ret c') -> connects_once c'.
Proof.
  intros He [Hre Hk]. unfold connects_once. destruct e as [|open|ec|e]; [done|..]; cbn [client_exec].
  - destruct (connecting c) as [|k] eqn:Hc; simpl; [done|]. intros [= <-]. cbn [reopened connecting session_ started set_socket].
    destruct (started (session_ c)); [lia|]. by rewrite Hre, Hc.
  - destruct (connecting c) as [|k] eqn:Hc; [done|]. destruct (read_op _); [done|].
    destruct (connect_handler _ _ _ _) as [s'| | | |]; simpl; try done. intros [= <-].
    cbn [reopened connecting session_]. destruct (started (session_ c)); [lia|]. rewrite Hre.
    destruct (started s'); split; try done; lia.
  - destruct (sess_exec cfg read_timeout_ rcb e (session_ c)) as [[s'| | | |]|] eqn:Hs; try done.
    intros [= <-]. cbn [reopened connecting session_]. by rewrite (sess_exec_started _ _ _ _ _ _ Hs).
Qed.

Context (cb : send_result -> A -> app_prog A) (msgs : list (list byte)).

(** The callback sends [msgs] on success, and nothing on failure. *)
Definition greets : Prop :=
  (forall a, sends (cb ok a) msgs) /\ (forall ec a, sends (cb (error_of ec) a) []).

(** Only the connect callback calls [send], and [connect] is not called again. *)
Definition only_callback_sends (e : client_event) : Prop :=
  match e with
  | KConnect _ _ => False
  | KSession e => no_other_sender e
  | _ => True
  end.

Abbreviation exec_client := (client_exec cfg read_timeout_ None (Some cb)).
Abbreviation run_client := (client_run cfg read_timeout_ None (Some cb)).

Lemma exec_quiet e p p' :
  (match e with EvSend _ _ => False | _ => True end) ->
  threads p = ∅ -> exec e p = Some (Ret p') ->
  threads p' = ∅ /\ accepted p' = accepted p /\ (is_open p = false -> is_open p' = false).
Proof.
  intros He Ht Hex. destruct (send_path_only e) eqn:Hse.
  - destruct (exec_no_sender e p p' He Hse Ht Hex) as (Ho & Ha & Hth). rewrite Ho, Ha, Hth. done.
  - destruct e as [| | | | | |ec ok|]; try done; simpl in Hex.
    + destruct (write_op p); [|done]. destruct (_ || _); [|done].
      destruct (write_handler ec ok p) as [[p1 mc]| | | |] eqn:Hw; try done.
      apply write_handler_front in Hw as (Ho & Ha & Hth). injection Hex as <-.
      destruct mc; cbn; rewrite ?Ha, ?Hth, ?Ho; done.
    + by injection Hex as <-.
Qed.

(** What the callback has had accepted. *)
Record greeting_inv (c : client (A := A)) : Prop := {
  gi_once : connects_once c;
  gi_threads : threads (tx (ep (session_ c))) = ∅;
  gi_before : started (session_ c) = false -> accepted (tx (ep (session_ c))) = [];
  gi_after : accepted (tx (ep (session_ c))) = [] \/ accepted (tx (ep (session_ c))) = msgs;
  gi_open : started (session_ c) = true -> is_open (tx (ep (session_ c))) = true ->
    accepted (tx (ep (session_ c))) = msgs;
}.

Lemma session_quiet e (s s' : session (X := bool) (A := A)) :
  no_other_sender e -> threads (tx (ep s)) = ∅ -> sess_exec cfg read_timeout_ None e s = Some (Ret s') ->
  threads (tx (ep s')) = ∅ /\ accepted (tx (ep s')) = accepted (tx (ep s)) /\
  (is_open (tx (ep s)) = false -> is_open (tx (ep s')) = false).
Proof.
  intros He Ht Hex.
  apply (sess_exec_tx cfg read_timeout_ None
           (fun p => threads p = ∅ /\ accepted p = accepted (tx (ep s)) /\
                     (is_open (tx (ep s)) = false -> is_open p = false)) e s); [|done|done|done].
  intros ev p p' Hev (Hth & Ha & Ho) Hp.
  destruct (exec_quiet ev p p') as (H1 & H2 & H3); [|done|done|].
  { destruct ev; try done. by rewrite (Hev eq_refl) in He. }
  rewrite H1, H2. split_and!; auto.
Qed.

Lemma connect_handler_greets ec (s s' : session (X := bool) (A := A)) :
  greets -> connect_handler read_timeout_ (Some cb) ec s = Ret s' ->
  threads (tx (ep s')) = threads (tx (ep s)) /\
  is_open (tx (ep s')) = is_open (tx (ep s)) /\
  if (ec =? 0)%Z
  then started s' = true /\ accepted (tx (ep s')) =
         if is_open (tx (ep s)) then accepted (tx (ep s)) ++ msgs else accepted (tx (ep s))
  else started s' = started s /\ accepted (tx (ep s')) = accepted (tx (ep s)).
Proof.
  intros [Hok Herr]. unfold connect_handler, run_connect_callback. destruct (ec =? 0)%Z.
  - destruct (interp _ _) as [[a e]| | | |] eqn:Hi; simpl; try done. intros [= <-].
    apply (interp_sends read_timeout_ _ msgs) in Hi as (_ & H1 & H2 & H3); [|apply Hok].
    cbn in *. by rewrite reset_read_timeout_tx.
  - destruct (interp _ _) as [[a e]| | | |] eqn:Hi; simpl; try done. intros [= <-].
    apply (interp_sends read_timeout_ _ []) in Hi as (_ & H1 & H2 & H3); [|apply Herr].
    cbn in *. split_and!; [done..|]. rewrite H3, app_nil_r. by destruct (_ && _).
Qed.

Lemma greeting_step e c c' :
  greets -> only_callback_sends e -> greeting_inv c -> exec_client e c = Some (Ret c') -> greeting_inv c'.
Proof.
  intros Hg He [Honce Ht Hb Ha Ho] Hex.
  assert (connects_once c') as Honce'.
  { eapply connects_once_step; [|exact Honce|exact Hex]. by destruct e. }
  destruct e as [|open|ec|e]; [done|..]; cbn [client_exec] in Hex.
  - destruct (connecting c) as [|k] eqn:Hc; simpl in Hex; [done|]. injection Hex as <-.
    split; [done|exact Ht|exact Hb|exact Ha|].
    intros Hs. destruct Honce as [_ Honce]. cbn in Hs. rewrite Hs, Hc in Honce. lia.
  - destruct (connecting c) as [|k] eqn:Hc; [done|]. destruct (read_op _); [done|].
    destruct (connect_handler _ _ _ _) as [s'| | | |] eqn:Hh; simpl in Hex; try done. injection Hex as <-.
    apply connect_handler_greets in Hh as (H1 & H2 & H3); [|done].
    assert (started (session_ c) = false) as Hs.
    { destruct Honce as [_ Honce]. rewrite Hc in Honce. destruct (started (session_ c)); [lia|done]. }
    rewrite (Hb Hs) in H3. split; cbn [session_]; [done|congruence|..]; destruct (ec =? 0)%Z;
      destruct H3 as [H3 H4]; rewrite H4; try congruence.
    + destruct (is_open _); auto.
    + auto.
    + intros _. rewrite H2. by intros ->.
  - destruct (sess_exec cfg read_timeout_ None e (session_ c)) as [[s'| | | |]|] eqn:Hs; try done.
    injection Hex as <-. pose proof (sess_exec_started _ _ _ _ _ _ Hs) as Hst.
    apply session_quiet in Hs as (H1 & H2 & H3); [|done|done].
    split; cbn [session_]; rewrite ?H2, ?Hst; try done.
    intros Hs' Ho'. apply Ho; [done|]. destruct (is_open (tx (ep (session_ c)))); [done|].
    by rewrite H3 in Ho'.
Qed.

Lemma greeting_run es c c' :
  greets -> Forall only_callback_sends es -> greeting_inv c -> run_client es c = Some c' -> greeting_inv c'.
Proof.
  intros Hg Hes. revert c. induction Hes as [|e es He _ IH]; intros c Hc; simpl; [by intros [= <-]|].
  destruct (exec_client e c) as [[c1| | | |]|] eqn:Hex; try done. apply IH. by eapply greeting_step.
Qed.

Lemma greeting_init n a resolve_ec opens :
  greeting_inv (connect resolve_ec opens (client_init n a)).2.
Proof.
  unfold connect. destruct (negb _); (split; [split; [done|cbn; lia]|done|done|by left|done]).
Qed.

Lemma greets_defined : greets -> connect_callback_defined (Some cb).
Proof.
  intros [Hok Herr] k [= <-] [[]|[ec]] a;
    [exact (sends_never_fails _ _ (Hok a))|exact (sends_never_fails _ _ (Herr ec a))].
Qed.

End Client.

(** ** Property *)

Section Properties.

Context `{!CircularBuffer} {A : Type} (cfg : framing_config) (read_timeout_ : Z) (f : list byte -> Z).
Context (cb : send_result -> A -> app_prog A) (msgs : list (list byte)) (n : nat) (a : A).

(** A client that sends from its connect callback.  Whatever the resolver, the
    kernel, the timer and [close] do after its one call of [connect]: nothing is
    accepted for sending but the callback's messages, all of them in the program's
    order or, if the socket had been closed before the callback ran, none; a connected
    client whose socket is open has had them all accepted; and the wire carries a
    prefix of them. *)
Theorem connect_sends resolve_ec opens es c :
  n <= pool_capacity -> get_total_size_ cfg = Some f -> small_limits cfg -> greets cb msgs ->
  Forall only_callback_sends es ->
  client_run cfg read_timeout_ None (Some cb) es (connect resolve_ec opens (client_init n a)).2 = Some c ->
  (accepted (tx (ep (session_ c))) = [] \/ accepted (tx (ep (session_ c))) = msgs) /\
  (started (session_ c) = true -> is_open (tx (ep (session_ c))) = true ->
   accepted (tx (ep (session_ c))) = msgs) /\
  wire (tx (ep (session_ c))) `prefix_of` concat msgs.
Proof.
  intros Hn%pool_fits Hf Hlim Hg Hes Hrun.
  assert (client_reachable cfg read_timeout_ None (Some cb) n a c) as Hr.
  { eapply client_reachable_run; [|exact Hrun].
    apply (client_reach_step _ _ _ _ _ _ (client_init n a) (KConnect resolve_ec opens)); [constructor|done]. }
  destruct (greeting_run cfg read_timeout_ cb msgs es _ c Hg Hes (greeting_init msgs n a resolve_ec opens) Hrun)
    as [[Hre _] _ _ Ha Ho].
  split; [exact Ha|]. split; [exact Ho|].
  pose proof (client_reachable_inv cfg read_timeout_ None (Some cb) n Hn f Hf Hlim (no_callback_defined cfg f)
                (greets_defined cb msgs Hg) a c Hr Hre) as Hi.
  pose proof (inv_session _ _ _ _ Hi Hre) as Hs.
  etrans; [apply (inv_wire n); apply reachable_inv; [exact Hn|apply (inv_tx _ _ _ _ (inv_ep _ _ _ _ Hs))]|].
  destruct Ha as [-> | ->]; [apply prefix_nil|done].
Qed.

End Properties.

(** ** Witness: a client that says two words. *)

#[local] Existing Instance overwriting_buffer.

Definition two_words (res : send_result) (a : unit) : app_prog unit :=
  if operator_bool res then CallSend [x61] (fun _ => CallSend [x62] (fun _ => Return a)) else Return a.

Lemma two_words_greets : greets two_words [[x61]; [x62]].
Proof. split; intros; [by repeat (split; [done|intros ?])|done]. Qed.

Definition words_start : client (A := unit) := (connect 0 true fresh_client).2.

Definition words_schedule : list client_event :=
  KConnectDone 0 :: session_events [SSendPath EvRunPosted; SSendPath EvTransmit; SClose].

Definition words_end : client :=
  default words_start (client_run test_config 0 None (Some two_words) words_schedule words_start).

Lemma connect_sends_witness :
  accepted (tx (ep (session_ words_end))) = [[x61]; [x62]] /\
  wire (tx (ep (session_ words_end))) `prefix_of` [x61; x62].
Proof.
  destruct (connect_sends test_config 0 test_get_total_size two_words [[x61]; [x62]] 3 tt 0 true
              words_schedule words_end) as ([Ha|Ha] & _ & Hw).
  - exact three_fit.
  - reflexivity.
  - exact test_config_small.
  - exact two_words_greets.
  - repeat constructor.
  - apply some_default. vm_compute. reflexivity.
  - exfalso. vm_compute in Ha. clear Hw. discriminate Ha.
  - split; [exact Ha|exact Hw].
Defined.
