(* ===== verification/TcpServer.v ===== *)
(** * tcp_server.hpp: [TcpServer]

    The accept loop, the set of live connections and [broadcast].  Connections are
    named by their address; each is the machine of TcpConnection.v, whose
    disconnect callback is the server's lambda that removes it from the set.  The
    accept handler, the connections' strands, the threads that broadcast and the
    threads that call [send] on a connection interleave. *)

From S2P Require Import Prelude Framing Expected SendPipeline Callbacks TcpSession TcpConnection.
From Stdlib Require Import ZArith Lia.

Open Scope nat_scope.

Section Server.

Context `{!CircularBuffer} {A : Type}.
Context (cfg : framing_config) (read_timeout_ : Z).

(** [on_receive_], copied into each connection when it is accepted, and
    [on_connect_], run on the new connection before it is started. *)
Context (on_receive_ : option (app_callback A)) (on_connect_ : option (nat -> app_prog unit)).

(** The accept loop: ended (or not begun), waiting in [async_accept], or inside the
    handler, run by [thread], with what is left of [on_connect_]. *)
Inductive acceptor_pc :=
| AIdle
| AWaiting
| ASetup (thread conn : nat) (prog : app_prog unit).

(** A thread's call of [broadcast]: the snapshot of the set, and how much of it
    has been served.  The entry stays when the call has returned. *)
Record broadcast_call := Broadcast {
  b_data : list byte;
  b_done : list nat;
  b_todo : list nat;
}.

Record server := Server {
  acceptor_open : bool;
  acceptor : acceptor_pc;
  connections_ : gset nat;
  conns : gmap nat (connection A);
  broadcasts : gmap nat broadcast_call;
}.

(** The constructor: [acceptor_open] is what the acceptor's constructor left. *)
Definition server_init (acceptor_open : bool) : server := Server acceptor_open AIdle ∅ ∅ ∅.

Definition set_acceptor (pc : acceptor_pc) (v : server) : server :=
  Server (acceptor_open v) pc (connections_ v) (conns v) (broadcasts v).

Definition set_broadcasts (bs : gmap nat broadcast_call) (v : server) : server :=
  Server (acceptor_open v) (acceptor v) (connections_ v) (conns v) bs.

(** [do_accept] at the end of the handler, and [start]. *)
Definition do_accept (v : server) : server := set_acceptor AWaiting v.

Definition loop_accept (v : server) : server :=
  if acceptor_open v then do_accept v else set_acceptor AIdle v.

Definition start (v : server) : send_result * server :=
  if acceptor_open v then (ok, do_accept v) else (error_of bad_descriptor, v).

(** A connection's new state; when its disconnect callback has run, the server's
    lambda has erased it from the set. *)
Definition update (c : nat) (k k' : connection A) (v : server) : server :=
  Server (acceptor_open v) (acceptor v)
    (if own (ep k') =? own (ep k) then connections_ v else connections_ v ∖ {[c]})
    (<[c := k']> (conns v)) (broadcasts v).

(** The completion handler of [async_accept], run by thread [t], up to
    [on_connect_]. *)
Definition accept_handler (pool t : nat) (ec : bool) (c : nat) (a : A) (v : server) : server :=
  if ec then loop_accept v
  else
    Server (acceptor_open v)
      (ASetup t c (match on_connect_ with Some cb => cb c | None => Return tt end))
      ({[c]} ∪ connections_ v) (<[c := connection_init pool a]> (conns v)) (broadcasts v).

Inductive server_event :=
| VStart
| VAccept (t : nat) (ec : bool) (c : nat) (a : A)
| VSetup                                  (* the accept handler's next statement *)
| VConn (c : nat) (e : conn_event)        (* a step of connection [c] *)
| VBroadcast (t : nat) (data : list byte) (order : list nat)
| VBroadcastStep (t : nat).               (* the next statement of thread [t]'s broadcast *)

Definition broadcasting (v : server) (t : nat) : bool :=
  match broadcasts v !! t with Some (Broadcast _ _ (_ :: _)) => true | _ => false end.

Definition setting_up (v : server) (t : nat) : bool :=
  match acceptor v with ASetup t' _ _ => t' =? t | _ => false end.

(** Thread [t] is inside [broadcast] or the accept handler. *)
Definition busy (v : server) (t : nat) : bool := broadcasting v t || setting_up v t.

(** Thread [t] is free to start something. *)
Definition free_thread (v : server) (t : nat) : bool :=
  negb (busy v t) && bool_decide (map_Forall (fun _ k => threads (tx (ep k)) !! t = None) (conns v)).

(** The thread of a send event. *)
Definition event_thread (e : event) : option nat :=
  match e with
  | EvSend t _ | EvPop t | EvCopy t | EvPost t => Some t
  | _ => None
  end.

Definition conn_thread (e : conn_event) : option nat :=
  match e with CSession (SSendPath e) => event_thread e | _ => None end.

Definition conn_step (e : conn_event) (k : connection A) :
    option (outcome (connection A)) :=
  conn_exec cfg read_timeout_ on_receive_ e k.

(** The statement of [send(data)] that thread [t] executes next on a connection,
    and the result of the call when that statement ends it. *)
Definition next_send (t : nat) (data : list byte) (k : connection A) : event :=
  match threads (tx (ep k)) !! t with
  | None => EvSend t data
  | Some (Popping _) => EvPop t
  | Some (Copying _ _) => EvCopy t
  | Some (Posting _ _) => EvPost t
  end.

Definition send_step (t : nat) (data : list byte) (k : connection A) :
    outcome (connection A * option send_result) :=
  match conn_step (CSession (SSendPath (next_send t data k))) k with
  | None => UB
  | Some o =>
      k' ← o;
      Ret (k', match threads (tx (ep k)) !! t, threads (tx (ep k')) !! t with
               | _, Some _ => None
               | None, None => Some (error_of not_connected)
               | Some _, None => Some ok
               end)
  end.

(** The next statement of the accept handler, in [on_connect_] on connection [k].
    [close], called outside the connection's strand, only posts: the close itself
    is a [VConn c (CSession SClose)] step. *)
Definition setup_step (t c : nat) (prog : app_prog unit) (k : connection A) (v : server) :
    outcome server :=
  match prog with
  | Return _ =>
      match conn_step CStart k with
      | Some o => k' ← o; Ret (loop_accept (update c k k' v))
      | None => UB
      end
  | CallClose prog => Ret (set_acceptor (ASetup t c prog) v)
  | Fails f => fail_as f
  | CallSend data cont =>
      '(k', res) ← send_step t data k;
      Ret (set_acceptor (ASetup t c (match res with Some r => cont r | None => prog end))
             (update c k k' v))
  end.

(** [None]: the event is not possible in this state. *)
Definition server_exec (pool : nat) (e : server_event) (v : server) : option (outcome server) :=
  match e with
  | VStart => match acceptor v with AIdle => Some (Ret (snd (start v))) | _ => None end
  | VAccept t ec c a =>
      match acceptor v, conns v !! c with
      | AWaiting, None =>
          if free_thread v t then Some (Ret (accept_handler pool t ec c a v)) else None
      | _, _ => None
      end
  | VSetup =>
      match acceptor v with
      | ASetup t c prog =>
          Some (match conns v !! c with None => UB | Some k => setup_step t c prog k v end)
      | _ => None
      end
  | VConn c e =>
      match conns v !! c with
      | Some k =>
          if (match e with CStart => true | _ => false end) ||
             (match conn_thread e with Some t => busy v t | None => false end)
          then None
          else match conn_step e k with
               | Some o => Some (k' ← o; Ret (update c k k' v))
               | None => None
               end
      | None => None
      end
  | VBroadcast t data order =>
      if bool_decide (order ≡ₚ elements (connections_ v)) && free_thread v t then
        Some (Ret (set_broadcasts (<[t := Broadcast data [] order]> (broadcasts v)) v))
      else None
  | VBroadcastStep t =>
      match broadcasts v !! t with
      | Some (Broadcast data served (c :: todo)) =>
          Some (match conns v !! c with
                | None => UB
                | Some k =>
                    '(k', res) ← send_step t data k;
                    let b := match res with
                             | Some _ => Broadcast data (served ++ [c]) todo
                             | None => Broadcast data served (c :: todo)
                             end in
                    Ret (set_broadcasts (<[t := b]> (broadcasts v)) (update c k k' v))
                end)
      | _ => None
      end
  end.

Inductive server_reachable (pool : nat) : server -> Prop :=
| server_reach_init open : server_reachable pool (server_init open)
| server_reach_step v e v' :
    server_reachable pool v -> server_exec pool e v = Some (Ret v') -> server_reachable pool v'.

Fixpoint server_run (pool : nat) (es : list server_event) (v : server) : option server :=
  match es with
  | [] => Some v
  | e :: es => match server_exec pool e v with Some (Ret v') => server_run pool es v' | _ => None end
  end.

(** ** What a step of a connection leaves alone *)

(** A closed socket stays closed, what was accepted stays accepted, and no thread
    but [q] moves. *)
Definition later (q : option nat) (p p' : pipe) : Prop :=
  (is_open p = false -> is_open p' = false) /\ accepted p `prefix_of` accepted p' /\
  forall t, q <> Some t -> threads p' !! t = threads p !! t.

Lemma later_refl q p : later q p p.
Proof. done. Qed.

Lemma later_trans q p1 p2 p3 : later q p1 p2 -> later q p2 p3 -> later q p1 p3.
Proof.
  intros (O1 & A1 & T1) (O2 & A2 & T2). split_and!; [auto|by etrans|].
  intros t Ht. rewrite T2, T1; done.
Qed.

Lemma later_weaken q p p' : later None p p' -> later q p p'.
Proof. intros (O & Ha & T). split_and!; auto. Qed.

Lemma later_front q p p' : same_front p p' -> later q p p'.
Proof. intros (O & Ha & T). unfold later. by rewrite O, Ha, T. Qed.

Lemma later_close q p : later q p (close_socket p).
Proof. done. Qed.

Lemma exec_later e p p' : exec e p = Some (Ret p') -> later (event_thread e) p p'.
Proof.
  destruct e as [t d|t|t|t| | |ec ok|]; simpl.
  - destruct (threads p !! t); [done|]. destruct (is_open p); intros [= <-]; [|done].
    split_and!; try done. intros t' Hne. simpl. rewrite lookup_insert_ne; congruence.
  - destruct (threads p !! t) as [[]|]; try done. destruct (buffer_pool_ p); intros [= <-]; [done|].
    split_and!; try done. intros t' Hne. simpl. rewrite lookup_insert_ne; congruence.
  - destruct (threads p !! t) as [[]|]; try done. destruct (heap p !! _); [|done]. intros [= <-].
    split_and!; try done. intros t' Hne. simpl. rewrite lookup_insert_ne; congruence.
  - destruct (threads p !! t) as [[]|]; try done. intros [= <-].
    split_and!; simpl; [done|by apply prefix_app_r|].
    intros t' Hne. rewrite lookup_delete_ne; congruence.
  - destruct (posted p) as [|b l]; [done|]. intros [= Hp]. apply later_front.
    by eapply post_handler_front.
  - destruct (write_op p); [|done]. destruct (is_open p) eqn:Ho; [|done].
    destruct (gather _ _) as [data|]; [|done]. destruct (data !! n); [|done]. by intros [= <-].
  - destruct (write_op p); [|done]. destruct (_ || _); [|done].
    destruct (write_handler ec ok p) as [[p1 mc]| | | |] eqn:Hw; try done.
    apply write_handler_front in Hw. intros [= <-].
    destruct mc; [eapply later_trans; [by apply later_front|apply later_close]|by apply later_front].
  - by intros [= <-].
Qed.

Lemma send_in_strand_later q data p res p' :
  send_in_strand data p = Ret (res, p') -> later q p p'.
Proof.
  unfold send_in_strand. destruct (is_open p) eqn:Ho; [|by intros [= _ <-]].
  destruct (buffer_pool_ p); [done|]. destruct (heap p !! n); [|done]. intros [= _ <-].
  split_and!; simpl; [done|by apply prefix_app_r|done].
Qed.

Lemma conn_step_later e k k' :
  conn_step e k = Some (Ret k') -> later (conn_thread e) (tx (ep k)) (tx (ep k')).
Proof.
  unfold conn_step. destruct e as [|e]; simpl.
  { destruct (started k); [done|]. intros [= <-]. simpl. by rewrite reset_read_timeout_tx. }
  apply (sess_exec_tx cfg read_timeout_ on_receive_ (later _ (tx (ep k)))); [| |done].
  - intros ev p p' Hev Hp Hex. eapply later_trans; [exact Hp|]. apply exec_later in Hex.
    destruct (send_path_only ev) eqn:Hse; [by rewrite Hev|].
    destruct ev; try done; by apply later_weaken.
  - intros _ data p res p' Hp Hs. eapply later_trans; [exact Hp|]. by eapply send_in_strand_later.
Qed.

(** ** Threads in the middle of a [send] *)

Definition sender_data (s : sender) : list byte :=
  match s with Popping d => d | Copying d _ => d | Posting d _ => d end.

Abbreviation conn_map := (gmap nat (connection A)).

(** Wherever thread [t] is inside [send], it is in the call [call]. *)
Definition only_sends (m : conn_map) (t : nat) (call : option (nat * list byte)) : Prop :=
  forall c k s, m !! c = Some k -> threads (tx (ep k)) !! t = Some s -> call = Some (c, sender_data s).

Lemma only_sends_step (m : conn_map) t call c k k' q :
  m !! c = Some k -> later q (tx (ep k)) (tx (ep k')) -> q <> Some t ->
  only_sends m t call -> only_sends (<[c := k']> m) t call.
Proof.
  intros Hk (_ & _ & Ht) Hq Hm c0 k0 s. destruct (decide (c0 = c)) as [->|Hne].
  - rewrite lookup_insert_eq. intros [= <-]. rewrite Ht by done. by apply Hm.
  - rewrite lookup_insert_ne by done. apply Hm.
Qed.

(** The call's own thread moves. *)
Lemma only_sends_own m t c data k' :
  only_sends m t (Some (c, data)) ->
  (forall s, threads (tx (ep k')) !! t = Some s -> sender_data s = data) ->
  only_sends (<[c := k']> m) t (Some (c, data)).
Proof.
  intros Hm Hd c0 k0 s. destruct (decide (c0 = c)) as [->|Hne].
  - rewrite lookup_insert_eq. intros [= <-] Hs. by rewrite (Hd s).
  - rewrite lookup_insert_ne by done. apply Hm.
Qed.

(** The call returns. *)
Lemma only_sends_return m t c data k' call :
  only_sends m t (Some (c, data)) -> threads (tx (ep k')) !! t = None ->
  only_sends (<[c := k']> m) t call.
Proof.
  intros Hm Hd c0 k0 s. destruct (decide (c0 = c)) as [->|Hne].
  - rewrite lookup_insert_eq. intros [= <-]. by rewrite Hd.
  - rewrite lookup_insert_ne by done. intros Hk Hs. pose proof (Hm c0 k0 s Hk Hs). congruence.
Qed.

Lemma only_sends_free v t call : free_thread v t = true -> only_sends (conns v) t call.
Proof.
  intros [_ Hf%bool_decide_eq_true]%andb_prop c k s Hk Hs.
  rewrite (map_Forall_lookup_1 _ _ _ _ Hf Hk) in Hs. done.
Qed.

Lemma only_sends_new m t call c k :
  threads (tx (ep k)) = ∅ -> only_sends m t call -> only_sends (<[c := k]> m) t call.
Proof.
  intros Hk Hm c0 k0 s. destruct (decide (c0 = c)) as [->|Hne].
  - rewrite lookup_insert_eq. intros [= <-]. by rewrite Hk.
  - rewrite lookup_insert_ne by done. apply Hm.
Qed.

(** What a broadcast has done, and what is left of it. *)
Record serving_ok (m : conn_map) (t : nat) (b : broadcast_call) : Prop := {
  served_ok c : c ∈ b_done b ->
    exists k, m !! c = Some k /\ (is_open (tx (ep k)) = true -> b_data b ∈ accepted (tx (ep k)));
  todo_ok c : c ∈ b_todo b -> is_Some (m !! c);
  call_ok c l : b_todo b = c :: l -> only_sends m t (Some (c, b_data b));
}.

Lemma serving_step (m : conn_map) t b c k k' q :
  m !! c = Some k -> later q (tx (ep k)) (tx (ep k')) -> (q = Some t -> b_todo b = []) ->
  serving_ok m t b -> serving_ok (<[c := k']> m) t b.
Proof.
  intros Hk Hl Hq [Hd Ht Hc]. split.
  - intros c0 Hc0. destruct (Hd c0 Hc0) as (k0 & Hk0 & Ha). destruct (decide (c0 = c)) as [->|Hne].
    + exists k'. rewrite lookup_insert_eq. split; [done|]. destruct Hl as (Ho & [l Hl] & _).
      replace k0 with k in * by congruence. intros Ho'. rewrite Hl. apply elem_of_app. left.
      apply Ha. destruct (is_open (tx (ep k))); [done|]. by rewrite Ho in Ho'.
    + exists k0. by rewrite lookup_insert_ne.
  - intros c0 Hc0. rewrite lookup_insert_is_Some'. auto.
  - intros c0 l Hc0. eapply only_sends_step; [done|done| |by eapply Hc].
    intros Heq. rewrite Hq in Hc0; done.
Qed.

Lemma serving_new (m : conn_map) t b c k :
  m !! c = None -> threads (tx (ep k)) = ∅ -> serving_ok m t b -> serving_ok (<[c := k]> m) t b.
Proof.
  intros Hc Hk [Hd Ht Hs]. split.
  - intros c0 Hc0. destruct (Hd c0 Hc0) as (k0 & Hk0 & Ha). exists k0.
    rewrite lookup_insert_ne; [done|]. intros <-. by rewrite Hc in Hk0.
  - intros c0 Hc0. rewrite lookup_insert_is_Some'. auto.
  - intros c0 l Hc0. apply only_sends_new; eauto.
Qed.

(** What the accept handler has done, and what is left of it. *)
Definition setup_ok (m : conn_map) (pc : acceptor_pc) : Prop :=
  match pc with
  | ASetup t c prog =>
      (exists k, m !! c = Some k /\ started k = false) /\ never_fails prog /\
      only_sends m t (match prog with CallSend data _ => Some (c, data) | _ => None end)
  | _ => True
  end.

Context (pool : nat).

(** [on_connect_] comes back. *)
Definition connect_hook_defined : Prop := forall cb, on_connect_ = Some cb -> forall c, never_fails (cb c).

(** The connections are connections, and the set holds the open ones. *)
Definition tracked (v : server) : Prop :=
  (forall c k, conns v !! c = Some k ->
     exists a, conn_reachable cfg read_timeout_ on_receive_ pool a k) /\
  (forall c, c ∈ connections_ v <-> exists k, conns v !! c = Some k /\ is_open (tx (ep k)) = true).

(** Every connection has been started, but the one the accept handler is at. *)
Definition all_started (v : server) : Prop :=
  forall c k, conns v !! c = Some k ->
    started k = true \/ exists t prog, acceptor v = ASetup t c prog.

Record server_inv (v : server) : Prop := {
  inv_tracked : tracked v;
  inv_started : all_started v;
  inv_serving t b : broadcasts v !! t = Some b -> serving_ok (conns v) t b;
  inv_setup : setup_ok (conns v) (acceptor v);
  inv_exclusive t : broadcasting v t = true -> setting_up v t = false;
}.

Lemma server_init_inv open : server_inv (server_init open).
Proof.
  split; [|done|done|done|done]. split; [done|]. intros c. simpl. split; [set_solver|].
  intros (k & Hk & _). done.
Qed.

Context (Hpool : pool <= queue_capacity).
Context (f : list byte -> Z) (Hf : get_total_size_ cfg = Some f) (Hlim : small_limits cfg).
Context (Hdef : callback_defined cfg f on_receive_) (Hcon : connect_hook_defined).

Lemma tracked_inv v c k :
  tracked v -> conns v !! c = Some k -> sess_inv cfg read_timeout_ pool k.
Proof using Hpool Hf Hlim Hdef Hcon.
  intros [Hr _] Hk. destruct (Hr c k Hk) as [a Ha]. by eapply conn_reachable_inv.
Qed.

Lemma own_of (k : connection A) : sess_inv cfg read_timeout_ pool k ->
  own (ep k) = if is_open (tx (ep k)) then 0 else 1.
Proof. intros [[_ Ho _ _] _ _]. exact Ho. Qed.

(** The lambda of [do_accept] erases exactly the connections that close. *)
Lemma tracked_update v c k e k' :
  tracked v -> conns v !! c = Some k -> conn_step e k = Some (Ret k') -> tracked (update c k k' v).
Proof using Hpool Hf Hlim Hdef Hcon.
  intros Hv Hk He. pose proof (conn_step_later _ _ _ He) as (Hclosed & _).
  pose proof (tracked_inv _ _ _ Hv Hk) as Hi.
  assert (exists a, conn_reachable cfg read_timeout_ on_receive_ pool a k') as Hk'.
  { destruct Hv as [Hr _]. destruct (Hr c k Hk) as [a Ha]. exists a. by eapply conn_reach_step. }
  assert (sess_inv cfg read_timeout_ pool k') as Hi'.
  { destruct Hk' as [a Ha]. by eapply conn_reachable_inv. }
  destruct Hv as [Hr Hl]. split; cbn [update conns connections_].
  { intros c0 k0. destruct (decide (c0 = c)) as [->|Hne].
    - rewrite lookup_insert_eq. by intros [= <-].
    - rewrite lookup_insert_ne by done. apply Hr. }
  rewrite (own_of k), (own_of k') by done. intros c0. destruct (decide (c0 = c)) as [->|Hne].
  - rewrite lookup_insert_eq. specialize (Hl c).
    destruct (is_open (tx (ep k))) eqn:Ho, (is_open (tx (ep k'))) eqn:Ho'; simpl.
    + rewrite Hl. split; intros _; eauto.
    + split; [set_solver|]. intros (k0 & [= <-] & ?). congruence.
    + by discriminate Hclosed.
    + rewrite Hl, Hk. split; intros (k0 & [= <-] & ?); congruence.
  - rewrite lookup_insert_ne by done. rewrite <- Hl. destruct (_ =? _); set_solver.
Qed.

Lemma setting_up_update c k k' v t : setting_up (update c k k' v) t = setting_up v t.
Proof. done. Qed.

Lemma started_step e k k' :
  e <> CStart -> conn_step e k = Some (Ret k') -> started k' = started k.
Proof. destruct e as [|e]; [done|]. intros _. apply sess_exec_started. Qed.

(** A step of a connection by a thread that is not [t]. *)
Lemma setup_step_ok (m : conn_map) pc c k k' q e :
  m !! c = Some k -> conn_step e k = Some (Ret k') -> e <> CStart -> conn_thread e = q ->
  (forall t c prog, pc = ASetup t c prog -> q <> Some t) ->
  setup_ok m pc -> setup_ok (<[c := k']> m) pc.
Proof.
  intros Hk He Hst <- Hpc. destruct pc as [| |t c0 prog]; [done..|].
  intros ((k0 & Hk0 & Hs0) & Hnf & Ho). split_and!; [|done|].
  - destruct (decide (c0 = c)) as [->|Hne].
    + exists k'. rewrite lookup_insert_eq. split; [done|].
      rewrite (started_step _ _ _ Hst He). congruence.
    + exists k0. by rewrite lookup_insert_ne.
  - eapply only_sends_step; [done|by eapply conn_step_later|by eapply Hpc|done].
Qed.

(** A statement of the send path of a connection. *)
Lemma conn_step_send ev k :
  send_path_only ev = true ->
  conn_step (CSession (SSendPath ev)) k =
  match exec ev (tx (ep k)) with
  | Some o => Some (p ← o; Ret (Session (rx k) (set_tx p (ep k)) (started k)))
  | None => None
  end.
Proof.
  intros Hev. cbn [conn_step conn_exec sess_exec]. rewrite Hev.
  unfold send_exec. destruct ev; simpl own_sends; destruct (exec _ _) as [[]|]; done.
Qed.

Definition send_returned (data : list byte) (p : pipe) : Prop :=
  is_open p = true -> data ∈ accepted p.

(** One statement of [send] returns, and in the end has done what [send] does. *)
Lemma send_step_spec t data k :
  sess_inv cfg read_timeout_ pool k ->
  (forall s, threads (tx (ep k)) !! t = Some s -> sender_data s = data) ->
  exists k' res, send_step t data k = Ret (k', res) /\
    conn_step (CSession (SSendPath (next_send t data k))) k = Some (Ret k') /\
    match res with
    | None => forall s, threads (tx (ep k')) !! t = Some s -> sender_data s = data
    | Some _ => threads (tx (ep k')) !! t = None /\ send_returned data (tx (ep k'))
    end.
Proof using Hpool Hf Hlim Hdef Hcon.
  intros Hi Hd.
  pose proof (reachable_inv pool _ Hpool (inv_tx _ _ _ _ (inv_ep _ _ _ _ Hi))) as Hp.
  unfold send_step.
  rewrite conn_step_send by (unfold next_send; by destruct (threads _ !! t) as [[]|]).
  destruct (exec (next_send t data k) (tx (ep k))) as [o|] eqn:Hex.
  - destruct (exec_inv pool _ _ _ Hpool Hp Hex) as (p & -> & _). do 2 eexists.
    split; [reflexivity|]. split; [reflexivity|]. cbn [ep tx set_tx]. revert Hex.
    unfold next_send, send_returned. destruct (threads (tx (ep k)) !! t) as [s|] eqn:Ht.
    + specialize (Hd s eq_refl). destruct s as [d|d b|d b]; simpl in Hd; subst d; simpl; rewrite Ht.
      * destruct (buffer_pool_ (tx (ep k))); intros [= <-]; simpl; [rewrite Ht|rewrite lookup_insert_eq];
          by intros s [= <-].
      * destruct (heap _ !! b); [|done]. intros [= <-]. simpl. rewrite lookup_insert_eq. by intros s [= <-].
      * intros [= <-]. simpl. rewrite lookup_delete_eq. split; [done|].
        intros _. apply elem_of_app. right. set_solver.
    + simpl. rewrite Ht. destruct (is_open (tx (ep k))) eqn:Ho; intros [= <-]; simpl.
      * rewrite lookup_insert_eq. by intros s [= <-].
      * rewrite Ht, Ho. done.
  - exfalso. revert Hex. unfold next_send. destruct (threads (tx (ep k)) !! t) as [[]|] eqn:Ht;
      simpl; rewrite Ht; try done; [by destruct (buffer_pool_ _)|by destruct (is_open _)].
Qed.

Lemma next_send_thread t data k : conn_thread (CSession (SSendPath (next_send t data k))) = Some t.
Proof. unfold next_send. by destruct (threads _ !! t) as [[]|]. Qed.

Lemma tracked_set_acceptor pc v : tracked (set_acceptor pc v) <-> tracked v.
Proof using. done. Qed.

Lemma setting_up_of v t c prog : acceptor v = ASetup t c prog -> setting_up v t = true.
Proof using. unfold setting_up. intros ->. apply Nat.eqb_refl. Qed.

Lemma broadcasting_of v t b c l :
  broadcasts v !! t = Some b -> b_todo b = c :: l -> broadcasting v t = true.
Proof using. unfold broadcasting. intros ->. by destruct b as [? ? [|]]. Qed.

Lemma all_started_update v c k k' :
  all_started v -> conns v !! c = Some k -> started k' = started k ->
  all_started (update c k k' v).
Proof using.
  intros Hv Hk Hs c0 k0. cbn [update conns acceptor]. destruct (decide (c0 = c)) as [->|Hne].
  - rewrite lookup_insert_eq. intros [= <-]. rewrite Hs. by apply Hv.
  - rewrite lookup_insert_ne by done. apply Hv.
Qed.

(** What a step of a connection by a thread that is not inside [broadcast] or the
    accept handler keeps. *)
Lemma update_inv v c k e k' :
  server_inv v -> conns v !! c = Some k -> conn_step e k = Some (Ret k') -> e <> CStart ->
  (forall t, conn_thread e = Some t -> busy v t = false) ->
  server_inv (update c k k' v).
Proof using Hpool Hf Hlim Hdef Hcon.
  intros [Ht Ha Hb Hs Hx] Hk He Hst Hq. split.
  - by eapply tracked_update.
  - apply all_started_update; [done..|]. by apply (started_step e).
  - intros t b Htb. eapply serving_step; [done|by eapply conn_step_later| |by apply Hb].
    intros Hc. destruct (b_todo b) as [|c0 l] eqn:Htodo; [done|].
    apply Hq in Hc. apply orb_false_elim in Hc as [Hc _].
    by rewrite (broadcasting_of v t b c0 l Htb Htodo) in Hc.
  - eapply setup_step_ok; [done|done|done|done| |done].
    intros t c0 prog Hpc Hc. apply Hq in Hc. apply orb_false_elim in Hc as [_ Hc].
    by rewrite (setting_up_of v t c0 prog Hpc) in Hc.
  - done.
Qed.

(** The accept loop goes on. *)
Lemma loop_accept_inv v :
  tracked v -> (forall c k, conns v !! c = Some k -> started k = true) ->
  (forall t b, broadcasts v !! t = Some b -> serving_ok (conns v) t b) ->
  server_inv (loop_accept v).
Proof using.
  intros Ht Ha Hb. unfold loop_accept, do_accept.
  destruct (acceptor_open v); split; try done; intros c k Hk; left; by eapply Ha.
Qed.

(** Between two accepts. *)
Lemma all_started_waiting v c k :
  server_inv v -> (acceptor v = AIdle \/ acceptor v = AWaiting) -> conns v !! c = Some k ->
  started k = true.
Proof using.
  intros Hv Hpc Hk. destruct (inv_started v Hv c k Hk) as [|(t & prog & Heq)]; [done|].
  rewrite Heq in Hpc. by destruct Hpc.
Qed.

Lemma accept_handler_inv t ec c a v :
  server_inv v -> acceptor v = AWaiting -> conns v !! c = None -> free_thread v t = true ->
  server_inv (accept_handler pool t ec c a v).
Proof using Hpool Hf Hlim Hdef Hcon.
  intros Hv Hpc Hc Hfree.
  assert (forall c k, conns v !! c = Some k -> started k = true) as Ha.
  { intros c0 k0. apply all_started_waiting; auto. }
  destruct Hv as [[Hr Hl] _ Hb Hs Hx].
  unfold accept_handler. destruct ec; [by apply loop_accept_inv|].
  split; cbn [conns connections_ broadcasts acceptor].
  - split; cbn [conns connections_].
    + intros c0 k0. destruct (decide (c0 = c)) as [->|Hne].
      * rewrite lookup_insert_eq. intros [= <-]. exists a. constructor.
      * rewrite lookup_insert_ne by done. apply Hr.
    + intros c0. destruct (decide (c0 = c)) as [->|Hne].
      * rewrite lookup_insert_eq. split; [|set_solver]. intros _. by eexists.
      * rewrite lookup_insert_ne by done. rewrite <- Hl. set_solver.
  - intros c0 k0. cbn [conns acceptor]. destruct (decide (c0 = c)) as [->|Hne]; [eauto|].
    rewrite lookup_insert_ne by done. intros Hk0. left. by eapply Ha.
  - intros t0 b Htb. apply serving_new; [done|done|by apply Hb].
  - split_and!.
    + eexists. rewrite lookup_insert_eq. done.
    + destruct on_connect_ as [cb|] eqn:Hcb; [by apply Hcon|done].
    + apply only_sends_new; [done|by apply only_sends_free].
  - intros t0 Hbt. unfold setting_up. cbn [acceptor]. apply Nat.eqb_neq. intros ->.
    apply andb_prop in Hfree as [Hfree _]. unfold busy in Hfree. unfold broadcasting in *.
    simpl in Hbt. by rewrite Hbt in Hfree.
Qed.

Lemma broadcast_inv t data order v :
  server_inv v -> order ≡ₚ elements (connections_ v) -> free_thread v t = true ->
  server_inv (set_broadcasts (<[t := Broadcast data [] order]> (broadcasts v)) v).
Proof using Hpool Hf Hlim Hdef Hcon.
  intros [[Hr Hl] Ha Hb Hs Hx] Hord Hfree. split; cbn [conns connections_ broadcasts acceptor set_broadcasts].
  - done.
  - done.
  - intros t0 b. destruct (decide (t0 = t)) as [->|Hne].
    + rewrite lookup_insert_eq. intros [= <-]. split; cbn [b_done b_data b_todo].
      * set_solver.
      * intros c. rewrite Hord, elem_of_elements, Hl. intros (k & -> & _). done.
      * intros c l _. by apply only_sends_free.
    + rewrite lookup_insert_ne by done. apply Hb.
  - done.
  - intros t0. unfold broadcasting, setting_up. cbn [broadcasts acceptor set_broadcasts].
    destruct (decide (t0 = t)) as [->|Hne].
    + intros _. apply andb_prop in Hfree as [Hfree _]. apply negb_true_iff, orb_false_elim in Hfree.
      apply Hfree.
    + rewrite lookup_insert_ne by done. apply Hx.
Qed.

(** Only the call in progress asks something of the thread's own position. *)
Lemma serving_own (m : conn_map) t data served todo c k k' q :
  m !! c = Some k -> later q (tx (ep k)) (tx (ep k')) ->
  serving_ok m t (Broadcast data served (c :: todo)) ->
  (forall s, threads (tx (ep k')) !! t = Some s -> sender_data s = data) ->
  serving_ok (<[c := k']> m) t (Broadcast data served (c :: todo)).
Proof using.
  intros Hk Hl [Hd Ht Hc] Hs.
  destruct (serving_step m t (Broadcast data served []) c k k' q) as [Hd' _ _]; [done..| |].
  { split; [done|by intros c0 ?%elem_of_nil|done]. }
  split; [done|intros c0 Hc0; rewrite lookup_insert_is_Some'; auto|].
  intros c0 l [= <- <-]. apply only_sends_own; [by eapply (Hc c todo)|done].
Qed.

Lemma serving_next (m : conn_map) t data served todo c k k' q :
  m !! c = Some k -> later q (tx (ep k)) (tx (ep k')) ->
  serving_ok m t (Broadcast data served (c :: todo)) ->
  threads (tx (ep k')) !! t = None -> send_returned data (tx (ep k')) ->
  serving_ok (<[c := k']> m) t (Broadcast data (served ++ [c]) todo).
Proof using.
  intros Hk Hl [Hd Ht Hc] Hs Ha.
  destruct (serving_step m t (Broadcast data served []) c k k' q) as [Hd' _ _]; [done..| |].
  { split; [done|by intros c0 ?%elem_of_nil|done]. }
  split; cbn [b_done b_todo b_data] in *.
  - intros c0 [Hc0|Hc0%list_elem_of_singleton]%elem_of_app; [by apply Hd'|subst c0].
    exists k'. by rewrite lookup_insert_eq.
  - intros c0 Hc0. rewrite lookup_insert_is_Some'. right. apply Ht. by right.
  - intros c0 l _. by eapply only_sends_return; [eapply (Hc c todo)|].
Qed.

Lemma broadcast_step_inv t data served c todo v :
  server_inv v -> broadcasts v !! t = Some (Broadcast data served (c :: todo)) ->
  exists v', server_exec pool (VBroadcastStep t) v = Some (Ret v') /\ server_inv v'.
Proof using Hpool Hf Hlim Hdef Hcon.
  intros [Ht Ha Hb Hs Hx] Hbt. pose proof (Hb t _ Hbt) as Hserv.
  destruct (todo_ok _ _ _ Hserv c ltac:(by left)) as [k Hk].
  pose proof (call_ok _ _ _ Hserv c todo eq_refl) as Hcall. cbn [b_data] in Hcall.
  destruct (send_step_spec t data k) as (k' & res & Hsend & Hstep & Hres).
  { by eapply tracked_inv. }
  { intros s Hts. specialize (Hcall c k s Hk Hts). by injection Hcall. }
  cbn [server_exec]. rewrite Hbt, Hk, Hsend. eexists. split; [reflexivity|].
  pose proof (conn_step_later _ _ _ Hstep) as Hl. rewrite next_send_thread in Hl.
  assert (setting_up v t = false) as Hns by (apply Hx; by eapply broadcasting_of).
  split; cbn [set_broadcasts conns connections_ acceptor broadcasts update].
  - by eapply (tracked_update v c k _ k').
  - apply (all_started_update v c k k'); [done..|].
    by apply (started_step (CSession (SSendPath (next_send t data k)))).
  - intros t0 b0. destruct (decide (t0 = t)) as [->|Hne].
    + rewrite lookup_insert_eq. intros [= <-].
      destruct res as [r|]; [destruct Hres; by eapply serving_next|by eapply serving_own].
    + rewrite lookup_insert_ne by done. intros Hb0.
      eapply serving_step; [done|done|congruence|by apply Hb].
  - eapply setup_step_ok; [done|done|done|apply next_send_thread| |done].
    intros t0 c0 prog Hpc [= <-]. by rewrite (setting_up_of v t c0 prog Hpc) in Hns.
  - intros t0 Hb0. change (setting_up v t0 = false).
    destruct (decide (t0 = t)) as [->|Hne]; [done|]. apply Hx.
    unfold broadcasting in *. cbn [broadcasts set_broadcasts] in Hb0.
    by rewrite lookup_insert_ne in Hb0.
Qed.

Lemma broadcasting_setup t0 v t c prog :
  server_inv v -> acceptor v = ASetup t c prog -> broadcasting v t0 = true -> t0 <> t.
Proof using.
  intros Hv Hpc Hb ->. apply (inv_exclusive v Hv) in Hb. by rewrite (setting_up_of v t c prog Hpc) in Hb.
Qed.

Lemma server_setup_inv t c prog v :
  server_inv v -> acceptor v = ASetup t c prog ->
  exists v', server_exec pool VSetup v = Some (Ret v') /\ server_inv v'.
Proof using Hpool Hf Hlim Hdef Hcon.
  intros Hv Hpc. pose proof Hv as [Ht Ha Hb Hs Hx]. unfold setup_ok in Hs. rewrite Hpc in Hs.
  destruct Hs as ((k & Hk & Hnot) & Hnf & Hcall).
  pose proof (tracked_inv _ _ _ Ht Hk) as Hi.
  cbn [server_exec]. rewrite Hpc, Hk. destruct prog as [r|data cont|prog|e]; cbn [setup_step]; [| | |done].
  - unfold conn_step at 1. cbn [conn_exec]. rewrite Hnot. cbn [mbind outcome_bind].
    eexists. split; [reflexivity|].
    assert (conn_step CStart k = Some (Ret (TcpSession.start read_timeout_ k))) as Hstep.
    { unfold conn_step. cbn [conn_exec]. by rewrite Hnot. }
    apply loop_accept_inv; [by eapply tracked_update| |]; cbn [update conns broadcasts].
    { intros c0 k0. destruct (decide (c0 = c)) as [->|Hne].
      - rewrite lookup_insert_eq. by intros [= <-].
      - rewrite lookup_insert_ne by done. intros Hk0. destruct (Ha c0 k0 Hk0) as [|(? & ? & ?)]; [done|].
        congruence. }
    intros t0 b Hb0. eapply serving_step; [done|by eapply conn_step_later|done|by apply Hb].
  - destruct (send_step_spec t data k Hi) as (k' & res & Hsend & Hstep & Hres).
    { intros s Hts. specialize (Hcall c k s Hk Hts). by injection Hcall. }
    rewrite Hsend. cbn [mbind outcome_bind]. eexists. split; [reflexivity|].
    pose proof (conn_step_later _ _ _ Hstep) as Hl. rewrite next_send_thread in Hl.
    assert (started k' = started k) as Hsk.
    { by apply (started_step (CSession (SSendPath (next_send t data k)))). }
    split; cbn [set_acceptor conns connections_ acceptor broadcasts update].
    + by eapply (tracked_update v c k _ k').
    + intros c0 k0 Hk0. destruct (all_started_update v c k k' Ha Hk Hsk c0 k0 Hk0) as [|(? & ? & Heq)];
        [auto|]. right. cbn [update acceptor] in Heq. rewrite Hpc in Heq. injection Heq as -> -> ->.
      cbn [set_acceptor acceptor]. eauto.
    + intros t0 b0 Hb0. eapply serving_step; [done|done| |by apply Hb].
      intros [= Heq]. destruct (b_todo b0) as [|c0 l] eqn:Htodo; [done|]. exfalso.
      by apply (broadcasting_setup t0 v t c _ Hv Hpc (broadcasting_of v t0 b0 c0 l Hb0 Htodo)).
    + split_and!.
      * exists k'. rewrite lookup_insert_eq. split; [done|].
        congruence.
      * destruct res as [r|]; [apply Hnf|done].
      * destruct res as [r|]; [destruct Hres; by eapply only_sends_return|by apply only_sends_own].
    + intros t0 Hb0. unfold setting_up. cbn [set_acceptor acceptor]. apply Nat.eqb_neq.
      by eapply not_eq_sym, broadcasting_setup.
  - eexists. split; [reflexivity|]. split; cbn [set_acceptor conns connections_ acceptor broadcasts].
    + done.
    + intros c0 k0 Hk0. destruct (Ha c0 k0 Hk0) as [|(? & ? & Heq)]; [auto|].
      rewrite Hpc in Heq. injection Heq as <- <- <-. right. cbn [set_acceptor acceptor]. eauto.
    + done.
    + split_and!; [eauto|done|]. intros c1 k1 s1 H1 H2. by specialize (Hcall c1 k1 s1 H1 H2).
    + intros t0 Hb0. unfold setting_up. cbn [set_acceptor acceptor]. apply Nat.eqb_neq.
      by eapply not_eq_sym, broadcasting_setup.
Qed.

Definition server_hang (e : server_event) : Prop :=
  exists c data, e = VConn c (CSession (SRead false data)).

Lemma server_exec_inv e v o :
  server_inv v -> server_exec pool e v = Some o ->
  (exists v', o = Ret v' /\ server_inv v') \/ (o = Hang /\ server_hang e).
Proof using Hpool Hf Hlim Hdef Hcon.
  intros Hv. destruct e as [|t ec c a| |c e|t data order|t].
  - simpl. destruct (acceptor v) eqn:Hpc; try done. intros [= <-]. left. eexists. split; [done|].
    unfold start. destruct (acceptor_open v); [|done]. pose proof Hv as []. split; try done.
    intros c k Hk. left. eapply all_started_waiting; eauto.
  - simpl. destruct (acceptor v) eqn:Hpc; try done. destruct (conns v !! c) eqn:Hc; try done.
    destruct (free_thread v t) eqn:Hfree; [|done]. intros [= <-]. left. eexists. split; [done|].
    by apply accept_handler_inv.
  - destruct (acceptor v) as [| |t c prog] eqn:Hpc; [by simpl; rewrite Hpc..|].
    destruct (server_setup_inv t c prog v Hv Hpc) as (v' & -> & Hv'). intros [= <-]. eauto.
  - simpl. destruct (conns v !! c) as [k|] eqn:Hk; [|done].
    destruct (_ || _) eqn:Hg; [done|]. apply orb_false_elim in Hg as [Hst Hbusy].
    destruct (conn_step e k) as [o'|] eqn:He; [|done]. intros [= <-].
    pose proof (tracked_inv _ _ _ (inv_tracked v Hv) Hk) as Hi.
    pose proof (conn_exec_inv cfg read_timeout_ on_receive_ pool Hpool f Hf Hlim Hdef e k o' Hi He) as Ho.
    destruct o' as [k'| | | |]; simpl in Ho; try done.
    + left. eexists. split; [reflexivity|]. eapply update_inv; [done|done|done|by intros ->|].
      intros t Ht. by rewrite Ht in Hbusy.
    + right. split; [done|]. eapply conn_exec_hang in He as [data ->]; [by do 2 eexists|done|done].
  - simpl. destruct (_ && _) eqn:Hg; [|done]. apply andb_prop in Hg as [Hord Hfree].
    apply bool_decide_eq_true in Hord. intros [= <-]. left. eexists. split; [done|].
    by apply broadcast_inv.
  - destruct (broadcasts v !! t) as [[data served [|c todo]]|] eqn:Hbt; try (by simpl; rewrite Hbt).
    destruct (broadcast_step_inv t data served c todo v Hv Hbt) as (v' & -> & Hv').
    intros [= <-]. eauto.
Qed.

Lemma server_reachable_inv v : server_reachable pool v -> server_inv v.
Proof using Hpool Hf Hlim Hdef Hcon.
  induction 1 as [open|v e v' _ IH He]; [apply server_init_inv|].
  apply server_exec_inv in He as [(v1 & [= <-] & Hv)|[[=] _]]; done.
Qed.

(** ** The course of one broadcast *)

Definition snapshot (v : server) (t : nat) (data : list byte) (order : list nat) : Prop :=
  exists served todo, broadcasts v !! t = Some (Broadcast data served todo) /\ served ++ todo = order.

Definition no_new_broadcast (t : nat) (e : server_event) : Prop :=
  match e with VBroadcast t' _ _ => t' <> t | _ => True end.

Lemma loop_accept_broadcasts v : broadcasts (loop_accept v) = broadcasts v.
Proof using. unfold loop_accept. by destruct (acceptor_open v). Qed.

(** Only [broadcast] itself moves a broadcast. *)
Lemma server_exec_broadcasts e v v' :
  server_exec pool e v = Some (Ret v') ->
  match e with VBroadcast _ _ _ | VBroadcastStep _ => True | _ => broadcasts v' = broadcasts v end.
Proof using.
  destruct e as [|t ec c a| |c e|t data order|t]; cbn [server_exec]; try done.
  - destruct (acceptor v); try done. intros [= <-]. unfold start. by destruct (acceptor_open v).
  - destruct (acceptor v), (conns v !! c), (free_thread v t); try done. intros [= <-].
    unfold accept_handler. destruct ec; [apply loop_accept_broadcasts|done].
  - destruct (acceptor v) as [| |t c prog]; try done. destruct (conns v !! c) as [k|]; [|done].
    destruct prog as [r|data cont|prog|[]]; cbn [setup_step fail_as]; [| | |done..].
    + destruct (conn_step CStart k) as [[k'| | | |]|]; try done. intros [= <-].
      by rewrite loop_accept_broadcasts.
    + destruct (send_step t data k) as [[k' res]| | | |]; try done. by intros [= <-].
    + by intros [= <-].
  - destruct (conns v !! c) as [k|]; [|done]. destruct (_ || _); [done|].
    destruct (conn_step e k) as [[k'| | | |]|]; try done. by intros [= <-].
Qed.

Lemma snapshot_step t data order e v v' :
  snapshot v t data order -> no_new_broadcast t e -> server_exec pool e v = Some (Ret v') ->
  snapshot v' t data order.
Proof using.
  intros (served & todo & Hb & Hs) Hno Hex. pose proof (server_exec_broadcasts e v v' Hex) as He.
  destruct e as [| | | |t' data' order'|t']; try (exists served, todo; by rewrite He).
  - cbn [server_exec] in Hex. destruct (_ && _); [|done]. injection Hex as <-.
    exists served, todo. cbn [set_broadcasts broadcasts]. by rewrite lookup_insert_ne.
  - cbn [server_exec] in Hex. destruct (broadcasts v !! t') as [[d s0 [|c l]]|] eqn:Hb'; try done.
    destruct (conns v !! c) as [k|]; [|done].
    destruct (send_step t' d k) as [[k' res]| | | |]; try done. injection Hex as <-.
    unfold snapshot. cbn [set_broadcasts broadcasts]. destruct (decide (t' = t)) as [->|Hne].
    + rewrite Hb in Hb'. injection Hb' as -> -> ->. rewrite lookup_insert_eq.
      destruct res; do 2 eexists; (split; [reflexivity|]); [by rewrite <- app_assoc|done].
    + rewrite lookup_insert_ne by done. eauto.
Qed.

Lemma snapshot_run t data order es v v' :
  snapshot v t data order -> Forall (no_new_broadcast t) es -> server_run pool es v = Some v' ->
  snapshot v' t data order.
Proof using.
  intros Hv Hes. revert v Hv. induction Hes as [|e es He _ IH]; intros v Hv; simpl; [by intros [= <-]|].
  destruct (server_exec pool e v) as [[v1| | | |]|] eqn:Hex; try done.
  apply IH. by eapply snapshot_step.
Qed.

Lemma server_reachable_run es v v' :
  server_reachable pool v -> server_run pool es v = Some v' -> server_reachable pool v'.
Proof using.
  revert v. induction es as [|e es IH]; intros v Hv; simpl; [by intros [= <-]|].
  destruct (server_exec pool e v) as [[v1| | | |]|] eqn:Hex; try done.
  apply IH. by eapply server_reach_step.
Qed.

(** ** A broadcast that waits *)

(** Thread [t] waits, inside [send], for a buffer that will never come. *)
Definition stuck (t : nat) (data : list byte) (p : pipe) : Prop :=
  stalled p /\ buffer_pool_ p = [] /\ threads p !! t = Some (Popping data).

Lemma conn_step_stuck t data e k k' :
  stuck t data (tx (ep k)) -> conn_step e k = Some (Ret k') -> stuck t data (tx (ep k')).
Proof using.
  intros Hk. destruct e as [|e]; cbn [conn_step conn_exec].
  { destruct (started k); [done|]. intros [= <-]. simpl. by rewrite reset_read_timeout_tx. }
  apply sess_exec_tx; [| |done].
  - intros ev p p' _ (Hst & Hp & Ht) Hex. pose proof (exec_popping ev p p' t data Hp Ht Hst Hex).
    destruct (exec_stalled ev p p' Hst Hex) as (Hst' & _ & Hpool').
    rewrite Hp in Hpool'. by apply suffix_nil_inv in Hpool'.
  - intros _ d p res p' (Hst & Hp & Ht). unfold send_in_strand. rewrite (proj1 Hst). by intros [= _ <-].
Qed.

Lemma send_step_stuck t data d k k' res :
  stuck t data (tx (ep k)) -> send_step t d k = Ret (k', res) -> k' = k /\ res = None.
Proof using.
  intros (Hst & Hp & Ht). unfold send_step, next_send. rewrite Ht.
  rewrite conn_step_send by done. cbn [exec]. rewrite Ht, Hp. cbn [mbind outcome_bind].
  cbn [ep tx set_tx]. rewrite Ht. intros [= <- <-]. split; [|done]. by destruct k as [? [] ?].
Qed.

Definition waits (v : server) (t c : nat) (b : broadcast_call) : Prop :=
  broadcasts v !! t = Some b /\ head (b_todo b) = Some c /\
  exists k, conns v !! c = Some k /\ stuck t (b_data b) (tx (ep k)).

Lemma waits_update v t c b c0 k k' e :
  waits v t c b -> conns v !! c0 = Some k -> conn_step e k = Some (Ret k') ->
  waits (update c0 k k' v) t c b.
Proof using.
  intros (Hb & Hh & k1 & Hk1 & Hst) Hk He. split_and!; [done..|].
  cbn [update conns]. destruct (decide (c0 = c)) as [->|Hne].
  - exists k'. rewrite lookup_insert_eq. split; [done|]. eapply conn_step_stuck; [|done]. congruence.
  - exists k1. by rewrite lookup_insert_ne.
Qed.

Lemma waits_ext v v' t c b :
  broadcasts v' = broadcasts v -> conns v' = conns v -> waits v t c b -> waits v' t c b.
Proof using. intros H1 H2. unfold waits. by rewrite H1, H2. Qed.

Lemma loop_accept_conns v : conns (loop_accept v) = conns v.
Proof using. unfold loop_accept. by destruct (acceptor_open v). Qed.

Lemma send_step_is_step t data k k' res :
  send_step t data k = Ret (k', res) ->
  conn_step (CSession (SSendPath (next_send t data k))) k = Some (Ret k').
Proof using.
  unfold send_step. destruct (conn_step _ k) as [[]|]; try done. by intros [= <- _].
Qed.

(** Which statement of which connection an event runs. *)
Definition step_of (e : server_event) (v : server) (c : nat) (ev : conn_event) : Prop :=
  match e with
  | VConn c' ev' =>
      c' = c /\ ev = ev' /\ ev <> CStart /\
      forall t, conn_thread ev = Some t -> busy v t = false
  | VSetup => exists t prog, acceptor v = ASetup t c prog /\
      (ev = CStart \/ exists data k, conns v !! c = Some k /\ ev = CSession (SSendPath (next_send t data k)))
  | VBroadcastStep t => exists data served todo k,
      broadcasts v !! t = Some (Broadcast data served (c :: todo)) /\ conns v !! c = Some k /\
      ev = CSession (SSendPath (next_send t data k))
  | _ => False
  end.

(** An event runs one statement of one connection, accepts one, or touches none. *)
Lemma server_exec_conns e v v' :
  server_exec pool e v = Some (Ret v') ->
  (exists c k k' ev, conns v !! c = Some k /\ conn_step ev k = Some (Ret k') /\
     conns v' = <[c := k']> (conns v) /\ step_of e v c ev) \/
  (exists t c a, e = VAccept t false c a /\ conns v !! c = None /\
     conns v' = <[c := connection_init pool a]> (conns v)) \/
  (conns v' = conns v /\ match e with VConn _ _ | VAccept _ false _ _ => False | _ => True end).
Proof using.
  destruct e as [|t ec c a| |c e|t data order|t]; cbn [server_exec].
  - destruct (acceptor v); try done. intros [= <-]. right. right. unfold start. by destruct (acceptor_open v).
  - destruct (acceptor v), (conns v !! c) eqn:Hc, (free_thread v t); try done. intros [= <-].
    unfold accept_handler. destruct ec.
    + right. right. by rewrite loop_accept_conns.
    + right. left. by exists t, c, a.
  - destruct (acceptor v) as [| |t c prog] eqn:Hpc; try done. destruct (conns v !! c) as [k|] eqn:Hk; [|done].
    destruct prog as [r|data cont|prog|[]]; cbn [setup_step fail_as]; [| | |done..].
    + destruct (conn_step CStart k) as [[k'| | | |]|] eqn:He; try done. intros [= <-]. left.
      exists c, k, k', CStart. rewrite loop_accept_conns. split_and!; [done..|].
      exists t, (Return r). auto.
    + destruct (send_step t data k) as [[k' res]| | | |] eqn:Hs; try done. intros [= <-]. left.
      apply send_step_is_step in Hs. do 4 eexists. split_and!; [exact Hk|exact Hs|done|].
      exists t, (CallSend data cont). split; [done|]. right. by exists data, k.
    + intros [= <-]. by right; right.
  - destruct (conns v !! c) as [k|] eqn:Hk; [|done]. destruct (_ || _) eqn:Hg; [done|].
    apply orb_false_elim in Hg as [Hst Hb].
    destruct (conn_step e k) as [[k'| | | |]|] eqn:He; try done. intros [= <-]. left.
    exists c, k, k', e. split; [done|]. split; [done|]. split; [done|]. split; [done|]. split; [done|].
    split; [by intros ->|]. intros t Ht. by rewrite Ht in Hb.
  - destruct (_ && _); [|done]. intros [= <-]. by right; right.
  - destruct (broadcasts v !! t) as [[d served [|c l]]|] eqn:Hb; try done.
    destruct (conns v !! c) as [k|] eqn:Hk; [|done].
    destruct (send_step t d k) as [[k' res]| | | |] eqn:Hs; try done. intros [= <-]. left.
    apply send_step_is_step in Hs. do 4 eexists. split_and!; [exact Hk|exact Hs|done|].
    by exists d, served, l, k.
Qed.

Lemma waits_step t c b e v v' :
  waits v t c b -> server_exec pool e v = Some (Ret v') -> waits v' t c b.
Proof using.
  intros Hw. pose proof Hw as (Hb & Hh & k1 & Hk1 & Hst).
  destruct e as [|t0 ec c0 a| |c0 e|t0 data0 order|t0]; cbn [server_exec].
  - destruct (acceptor v); try done. intros [= <-]. unfold start. by destruct (acceptor_open v).
  - destruct (acceptor v); try done. destruct (conns v !! c0) eqn:Hc0; [done|].
    destruct (free_thread v t0); [|done]. intros [= <-]. unfold accept_handler. destruct ec.
    + eapply waits_ext; [apply loop_accept_broadcasts|apply loop_accept_conns|done].
    + split_and!; [done..|]. exists k1. cbn [conns]. rewrite lookup_insert_ne; [done|congruence].
  - destruct (acceptor v) as [| |t0 c0 prog]; try done. destruct (conns v !! c0) as [k|] eqn:Hk; [|done].
    destruct prog as [r|data cont|prog|[]]; cbn [setup_step fail_as]; [| | |done..].
    + destruct (conn_step CStart k) as [[k'| | | |]|] eqn:He; try done. intros [= <-].
      eapply waits_ext; [apply loop_accept_broadcasts|apply loop_accept_conns|].
      by eapply waits_update.
    + destruct (send_step t0 data k) as [[k' res]| | | |] eqn:Hs; try done. intros [= <-].
      apply send_step_is_step in Hs. by eapply (waits_update v t c b c0 k k').
    + by intros [= <-].
  - destruct (conns v !! c0) as [k|] eqn:Hk; [|done]. destruct (_ || _); [done|].
    destruct (conn_step e k) as [[k'| | | |]|] eqn:He; try done. intros [= <-].
    by eapply waits_update.
  - destruct (_ && _) eqn:Hg; [|done]. apply andb_prop in Hg as [_ [Hg _]%andb_prop]. intros [= <-].
    split_and!; [|done|by exists k1]. cbn [set_broadcasts broadcasts].
    rewrite lookup_insert_ne; [done|]. intros ->. apply negb_true_iff, orb_false_elim in Hg as [Hg _].
    destruct b as [d s0 [|c1 l]]; [done|]. by rewrite (broadcasting_of v t _ c1 l Hb) in Hg.
  - destruct (broadcasts v !! t0) as [[d s0 [|c0 l]]|] eqn:Hb0; try done.
    destruct (conns v !! c0) as [k|] eqn:Hk; [|done].
    destruct (send_step t0 d k) as [[k' res]| | | |] eqn:Hs; try done. intros [= <-].
    pose proof (waits_update v t c b c0 k k' _ Hw Hk (send_step_is_step _ _ _ _ _ Hs)) as (_ & _ & Hk').
    split_and!; [|done|done]. cbn [set_broadcasts broadcasts].
    destruct (decide (t0 = t)) as [->|Hne]; [|by rewrite lookup_insert_ne].
    rewrite lookup_insert_eq. rewrite Hb in Hb0. injection Hb0 as ->. cbn [b_todo b_data head] in *.
    injection Hh as ->. replace k1 with k in * by congruence.
    by destruct (send_step_stuck t d d k k' res Hst Hs) as [_ ->].
Qed.

Lemma waits_run t c b es v v' :
  waits v t c b -> server_run pool es v = Some v' -> waits v' t c b.
Proof using.
  revert v. induction es as [|e es IH]; intros v Hv; simpl; [by intros [= <-]|].
  destruct (server_exec pool e v) as [[v1| | | |]|] eqn:Hex; try done.
  apply IH. by eapply waits_step.
Qed.

End Server.

(** ** Properties *)

Section Properties.

Context `{!CircularBuffer} {A : Type}.
Context (cfg : framing_config) (read_timeout_ : Z).
Context (on_receive_ : option (app_callback A)) (on_connect_ : option (nat -> app_prog unit)).
Context (n : nat) (f : list byte -> Z).

Abbreviation exec_server := (server_exec cfg read_timeout_ on_receive_ on_connect_ n).
Abbreviation run_server := (server_run cfg read_timeout_ on_receive_ on_connect_ n).
Abbreviation reachable_server := (server_reachable cfg read_timeout_ on_receive_ on_connect_ n).

(** C24: the server's set.  Whatever accepts, sends, broadcasts, reads, failures,
    timeouts and closes have happened on however many connections, [connections_]
    holds exactly the accepted connections whose socket is open: none is lost, and
    none stays after it has closed.  Every accepted connection has been started
    (but the one the accept handler is still at), and is a connection in the sense
    of TcpConnection.v, so that what is proved there holds of it. *)
Theorem server_tracks_connections v :
  n <= pool_capacity -> get_total_size_ cfg = Some f -> small_limits cfg ->
  callback_defined cfg f on_receive_ -> connect_hook_defined on_connect_ -> reachable_server v ->
  (forall c, c ∈ connections_ v <-> exists k, conns v !! c = Some k /\ is_open (tx (ep k)) = true) /\
  (forall c k, conns v !! c = Some k ->
     (started k = true \/ exists t prog, acceptor v = ASetup t c prog) /\
     exists a, conn_reachable cfg read_timeout_ on_receive_ n a k).
Proof.
  intros Hn%pool_fits Hf Hlim Hdef Hcon Hr.
  destruct (server_reachable_inv _ _ _ _ n Hn f Hf Hlim Hdef Hcon v Hr) as [[Hreach Hlive] Ha _ _ _].
  split; [done|]. intros c k Hk. split; [by eapply Ha|by eapply Hreach].
Qed.

(** No step of the server or of one of its connections is undefined, throws or
    loops without bound; only a receive callback that sends can keep a strand
    busy for ever. *)
Theorem server_safe v e o :
  n <= pool_capacity -> get_total_size_ cfg = Some f -> small_limits cfg ->
  callback_defined cfg f on_receive_ -> connect_hook_defined on_connect_ -> reachable_server v ->
  exec_server e v = Some o ->
  (exists v', o = Ret v' /\ reachable_server v') \/
  (o = Hang /\ exists c data, e = VConn c (CSession (SRead false data))).
Proof.
  intros Hn%pool_fits Hf Hlim Hdef Hcon Hr Hex.
  destruct (server_exec_inv _ _ _ _ n Hn f Hf Hlim Hdef Hcon e v o
              (server_reachable_inv _ _ _ _ n Hn f Hf Hlim Hdef Hcon v Hr) Hex) as [(v' & -> & _)|]; [|auto].
  left. eexists. split; [done|]. by eapply server_reach_step.
Qed.

(** C25: [broadcast].  When a call that began with the connections of [v] in its
    snapshot has returned, each of these connections has accepted the data for
    sending or is closed, whatever connections were accepted, served and closed
    meanwhile, and whatever other threads sent. *)
Theorem broadcast_complete v t data order v1 es v2 :
  n <= pool_capacity -> get_total_size_ cfg = Some f -> small_limits cfg ->
  callback_defined cfg f on_receive_ -> connect_hook_defined on_connect_ -> reachable_server v ->
  exec_server (VBroadcast t data order) v = Some (Ret v1) ->
  Forall (no_new_broadcast t) es -> run_server es v1 = Some v2 -> broadcasting v2 t = false ->
  forall c, c ∈ connections_ v ->
  exists k, conns v2 !! c = Some k /\
    (is_open (tx (ep k)) = true -> data ∈ accepted (tx (ep k))).
Proof.
  intros Hn%pool_fits Hf Hlim Hdef Hcon Hr Hbegin Hes Hrun Hend c Hc.
  assert (reachable_server v1) as Hr1 by by eapply server_reach_step.
  assert (reachable_server v2) as Hr2 by by eapply server_reachable_run.
  assert (snapshot v1 t data order /\ order ≡ₚ elements (connections_ v)) as [Hsnap Hord].
  { cbn [server_exec] in Hbegin. destruct (_ && _) eqn:Hg; [|done]. injection Hbegin as <-.
    apply andb_prop in Hg as [Hord%bool_decide_eq_true _]. split; [|done].
    exists [], order. cbn [set_broadcasts broadcasts]. by rewrite lookup_insert_eq. }
  destruct (snapshot_run cfg read_timeout_ on_receive_ on_connect_ n t data order es v1 v2 Hsnap Hes Hrun) as (served & todo & Hb & Heq).
  unfold broadcasting in Hend. rewrite Hb in Hend. destruct todo; [|done].
  rewrite app_nil_r in Heq. subst served.
  apply (served_ok _ _ _ (inv_serving _ _ _ _ _ (server_reachable_inv _ _ _ _ n Hn f Hf Hlim Hdef Hcon v2 Hr2) t _ Hb)).
  cbn [b_done]. rewrite Hord. by apply elem_of_elements.
Qed.

(** One connection can hold up a broadcast to all the others.  When the
    broadcasting thread waits for a buffer of a connection whose write has failed
    with messages left, it waits for ever: the connections that come after it in
    the snapshot never get the data, whatever happens. *)
Theorem broadcast_held_up v t data served c todo k es v' :
  broadcasts v !! t = Some (Broadcast data served (c :: todo)) -> conns v !! c = Some k ->
  stalled (tx (ep k)) -> buffer_pool_ (tx (ep k)) = [] ->
  threads (tx (ep k)) !! t = Some (Popping data) ->
  run_server es v = Some v' ->
  broadcasts v' !! t = Some (Broadcast data served (c :: todo)).
Proof.
  intros Hb Hk Hst Hp Ht Hrun.
  by apply (waits_run cfg read_timeout_ on_receive_ on_connect_ n t c (Broadcast data served (c :: todo)) es v v');
    [split_and!; [done..|by exists k]|].
Qed.

End Properties.

(** ** Witnesses

    Two clients connect to an echo server, which greets the first. *)

#[local] Existing Instance overwriting_buffer.

Definition greeting (c : nat) : app_prog unit :=
  if c =? 0 then CallSend [x68] (fun _ => Return tt) else Return tt.

Lemma greeting_defined : connect_hook_defined (Some greeting).
Proof. intros cb [= <-] c. unfold greeting. by destruct (c =? 0). Qed.

Abbreviation demo_run := (server_run test_config 0 (Some (responder id)) (Some greeting) 2).
Abbreviation demo_exec := (server_exec test_config 0 (Some (responder id)) (Some greeting) 2).
Abbreviation demo_reachable := (server_reachable test_config 0 (Some (responder id)) (Some greeting) 2).

(** The greeting takes four statements of [send]; then the connection starts. *)
Definition accept_two : list (server_event (A := unit)) :=
  [VStart; VAccept 9 false 0 tt; VSetup; VSetup; VSetup; VSetup; VSetup; VAccept 9 false 1 tt; VSetup].

Definition idle_server : server (A := unit) := server_init true.

Definition two_clients : server (A := unit) := default idle_server (demo_run accept_two idle_server).

Lemma demo_reaches es v :
  demo_reachable v -> (if demo_run es v is Some _ then true else false) = true ->
  demo_reachable (default idle_server (demo_run es v)) /\
  demo_run es v = Some (default idle_server (demo_run es v)).
Proof.
  intros Hv. destruct (demo_run es v) as [v'|] eqn:Hrun; [|done]. intros _.
  split; [by eapply server_reachable_run|done].
Qed.

Lemma two_clients_reachable : demo_reachable two_clients.
Proof. apply (demo_reaches accept_two); [constructor|vm_compute; reflexivity]. Qed.

Lemma server_tracks_connections_witness :
  0 ∈ connections_ two_clients /\
  exists k, conns two_clients !! 0 = Some k /\ is_open (tx (ep k)) = true.
Proof.
  destruct (server_tracks_connections test_config 0 (Some (responder id)) (Some greeting) 2
              test_get_total_size two_clients small_pool eq_refl test_config_small
              (responder_defined _ _ _) greeting_defined
              two_clients_reachable) as [Hlive _].
  assert (0 ∈ connections_ two_clients) as Hin by by vm_compute.
  split; [exact Hin|]. by apply Hlive.
Defined.

Lemma server_safe_witness : exists v', demo_exec (VBroadcast 7 [x6d] [0; 1]) two_clients = Some (Ret v').
Proof.
  destruct (demo_exec (VBroadcast 7 [x6d] [0; 1]) two_clients) as [o|] eqn:Hex.
  - destruct (server_safe test_config 0 (Some (responder id)) (Some greeting) 2 test_get_total_size
                two_clients (VBroadcast 7 [x6d] [0; 1]) o small_pool eq_refl test_config_small
              (responder_defined _ _ _) greeting_defined
                two_clients_reachable Hex) as [(v' & -> & _)|(_ & c & data & [=])].
    by exists v'.
  - exfalso.
    assert ((if demo_exec (VBroadcast 7 [x6d] [0; 1]) two_clients is Some _ then true else false) = true)
      as H by (vm_compute; reflexivity).
    by rewrite Hex in H.
Defined.

(** The second client closes while the broadcast is under way. *)
Definition broadcast_schedule : list (server_event (A := unit)) :=
  [VBroadcastStep 7; VBroadcastStep 7; VConn 1 (CSession SClose); VBroadcastStep 7; VBroadcastStep 7;
   VBroadcastStep 7].

Definition broadcast_begun : server (A := unit) :=
  default idle_server (demo_run [VBroadcast 7 [x6d] [0; 1]] two_clients).

Definition broadcast_done : server (A := unit) :=
  default idle_server (demo_run broadcast_schedule broadcast_begun).

Lemma broadcast_begins : demo_exec (VBroadcast 7 [x6d] [0; 1]) two_clients = Some (Ret broadcast_begun).
Proof.
  destruct (demo_reaches [VBroadcast 7 [x6d] [0; 1]] two_clients) as [_ H];
    [apply two_clients_reachable|vm_compute; reflexivity|].
  fold broadcast_begun in H. revert H. cbn [server_run].
  destruct (demo_exec _ two_clients) as [[v| | | |]|]; congruence.
Qed.

Lemma broadcast_begun_reachable : demo_reachable broadcast_begun.
Proof. eapply server_reach_step; [apply two_clients_reachable|apply broadcast_begins]. Qed.

Lemma broadcast_complete_witness :
  exists k, conns broadcast_done !! 0 = Some k /\
    (is_open (tx (ep k)) = true -> [x6d] ∈ accepted (tx (ep k))).
Proof.
  apply (broadcast_complete test_config 0 (Some (responder id)) (Some greeting) 2 test_get_total_size
           two_clients 7 [x6d] [0; 1] broadcast_begun broadcast_schedule broadcast_done
           small_pool eq_refl test_config_small
           (responder_defined _ _ _) greeting_defined two_clients_reachable broadcast_begins).
  - by repeat constructor.
  - apply demo_reaches; [apply broadcast_begun_reachable|vm_compute; reflexivity].
  - vm_compute. reflexivity.
  - by vm_compute.
Defined.

(** The greeting is being written and a second message queued, no buffer is idle;
    threads 3 and 7 are inside [send]; the write fails, thread 3 takes the buffer
    that comes back. *)
Definition send_from (t : nat) (data : list byte) : list (server_event (A := unit)) :=
  (fun e => VConn 0 (CSession (SSendPath e))) <$> [EvSend t data; EvPop t; EvCopy t; EvPost t].

Definition hold_up_schedule : list (server_event (A := unit)) :=
  VConn 0 (CSession (SSendPath EvRunPosted)) :: send_from 2 [x61] ++
  [VConn 0 (CSession (SSendPath EvRunPosted)); VBroadcast 7 [x6d] [0; 1]; VBroadcastStep 7;
   VConn 0 (CSession (SSendPath (EvSend 3 [x62]))); VConn 0 (CSession (SWriteDone true (fun _ => true)));
   VConn 0 (CSession (SSendPath (EvPop 3)))].

Definition held_up : server (A := unit) := default idle_server (demo_run hold_up_schedule two_clients).

Definition held_up_conn : connection unit := default (connection_init 2 tt) (conns held_up !! 0).

Definition later_events : list (server_event (A := unit)) :=
  [VBroadcastStep 7; VConn 1 (CSession SClose); VConn 0 (CSession (SSendPath (EvCopy 3))); VBroadcastStep 7].

Lemma broadcast_held_up_witness :
  broadcasts (default idle_server (demo_run later_events held_up)) !! 7 = Some (Broadcast [x6d] [] [0; 1]).
Proof.
  apply (broadcast_held_up test_config 0 (Some (responder id)) (Some greeting) 2 held_up 7 [x6d] [] 0 [1]
           held_up_conn later_events).
  - vm_compute. reflexivity.
  - unfold held_up_conn.
    assert ((if conns held_up !! 0 is Some _ then true else false) = true) as H by (vm_compute; reflexivity).
    by destruct (conns held_up !! 0).
  - split_and!; [vm_compute; reflexivity| |vm_compute; reflexivity].
    assert (length (send_queue_ (tx (ep held_up_conn))) = 1) as H by (vm_compute; reflexivity).
    intros Hq. rewrite Hq in H. clear Hq. discriminate H.
  - vm_compute. reflexivity.
  - vm_compute. reflexivity.
  - apply demo_reaches; [|vm_compute; reflexivity].
    apply (demo_reaches hold_up_schedule); [apply two_clients_reachable|vm_compute; reflexivity].
Defined.
