(* ===== verification/CallbackSteps.v ===== *)
(** * A receive callback, statement by statement

    In TcpSession.v a receive callback runs in one step, with the calls of [send] and
    [close] that it makes on its own endpoint.  In the program other threads go on
    meanwhile: they take buffers and post messages between the callback's own.  Here the
    callback runs statement by statement.  The strand is busy until the read is done; all
    that can happen besides are the statements of [send] in other threads, the kernel and
    the clock.

    The session underneath is that of TcpSession.v, and the callback's calls are events of
    it.  The read that the callback handles takes its effect there when the last callback
    has returned: nothing outside the strand looks at the receive state. *)

From S2P Require Import Prelude Framing Expected SendPipeline Callbacks TcpSession TcpConnection TcpServer.
From Stdlib Require Import ZArith Lia.

Open Scope nat_scope.

#[local] Abbreviation length := Datatypes.length.

(** ** Calls and what they answer *)

(** A call of [send] that has returned. *)
Abbreviation call := (list byte * send_result)%type.

(** The messages that [send] has taken. *)
Definition taken (calls : list call) : list (list byte) :=
  (List.filter (fun c => operator_bool c.2) calls).*1.

Lemma taken_app calls calls' : taken (calls ++ calls') = taken calls ++ taken calls'.
Proof. unfold taken. by rewrite List.filter_app, fmap_app. Qed.

(** [p] has come to [p'] by the calls [tr]. *)
Inductive comes_to {R} (p : app_prog R) : list call -> app_prog R -> Prop :=
| comes_refl : comes_to p [] p
| comes_send tr d k res : comes_to p tr (CallSend d k) -> comes_to p (tr ++ [(d, res)]) (k res)
| comes_close tr k : comes_to p tr (CallClose k) -> comes_to p tr k.

Lemma comes_to_never_fails {R} (p p' : app_prog R) tr :
  comes_to p tr p' -> never_fails p -> never_fails p'.
Proof. induction 1 as [|? ? ? ? _ IH|? ? _ IH]; intros Hp; [done|by apply IH|by apply IH]. Qed.

Section Steps.

Context `{!CircularBuffer} {X A : Type} `{!Owner X}.
Context (cfg : framing_config) (read_timeout_ : Z) (on_recv_ : option (app_callback A)).

Abbreviation quiet_session := (session (X := X) (A := unit)).
Abbreviation quiet_exec := (sess_exec (X := X) cfg read_timeout_ (Some no_handler)).

(** The program that is run on a message. *)
Definition begin_callback (a : A) (m : list byte) : app_prog (A * list byte) :=
  match on_recv_ with Some cb => app_on_recv cb a m | None => Return (a, m) end.

(** The strand is inside [process_buffer], on thread [run_thread]: the bytes that were
    read, what is left of the current callback, and the messages after. *)
Record running := Running {
  run_thread : nat;
  run_data : list byte;
  run_prog : app_prog (A * list byte);
  run_todo : list (list byte);
}.

(** [ss_calls]: the calls of the callbacks so far (history). *)
Record stepping := Stepping {
  ss_session : quiet_session;
  ss_app : A;
  ss_running : option running;
  ss_calls : list call;
}.

(** A session that has been started, with [n] buffers. *)
Definition stepping_init (n : nat) (x : X) (a : A) : stepping :=
  Stepping (TcpSession.start read_timeout_ (session_init (pipe_init n) x tt)) a None [].

Inductive stepping_event :=
| XSession (e : sess_event)
| XRead (t : nat) (data : list byte)     (* a read completes; thread [t] runs its handler *)
| XStatement.                            (* the next statement of the callback *)

(** What happens outside the strand, and in which thread. *)
Definition outside (e : sess_event) : bool :=
  match e with
  | SSendPath (EvSend _ _ | EvPop _ | EvCopy _ | EvPost _ | EvTransmit) | STimerExpire => true
  | _ => false
  end.

Definition sess_thread (e : sess_event) : option nat :=
  match e with SSendPath e => event_thread e | _ => None end.

Definition possible (e : sess_event) (s : stepping) : bool :=
  match ss_running s with
  | None => match e with SRead false _ => false | _ => true end
  | Some r => outside e && bool_decide (sess_thread e <> Some (run_thread r))
  end.

(** The statement of [send(data)] that thread [t] executes next, and the result of the
    call when that statement ends it. *)
Definition next_statement (t : nat) (data : list byte) (p : pipe) : event :=
  match threads p !! t with
  | None => EvSend t data
  | Some (Popping _) => EvPop t
  | Some (Copying _ _) => EvCopy t
  | Some (Posting _ _) => EvPost t
  end.

Definition send_statement (t : nat) (data : list byte) (c : quiet_session) :
    outcome (quiet_session * option send_result) :=
  match quiet_exec (SSendPath (next_statement t data (tx (ep c)))) c with
  | None => UB
  | Some o =>
      c' ← o;
      Ret (c', match threads (tx (ep c)) !! t, threads (tx (ep c')) !! t with
               | _, Some _ => None
               | None, None => Some (error_of not_connected)
               | Some _, None => Some ok
               end)
  end.

(** The read is done. *)
Definition finish_callbacks (data : list byte) (a : A) (s : stepping) : option (outcome stepping) :=
  match quiet_exec (SRead false data) (ss_session s) with
  | Some o => Some (c ← o; Ret (Stepping c a None (ss_calls s)))
  | None => None
  end.

Definition statement (r : running) (s : stepping) : option (outcome stepping) :=
  let '(Running t data p todo) := r in
  match p with
  | Return (a, _) =>
      match todo with
      | [] => finish_callbacks data a s
      | m :: todo =>
          Some (Ret (Stepping (ss_session s) a (Some (Running t data (begin_callback a m) todo)) (ss_calls s)))
      end
  | CallSend d k =>
      Some ('(c, res) ← send_statement t d (ss_session s);
            Ret (match res with
                 | None => Stepping c (ss_app s) (Some r) (ss_calls s)
                 | Some res => Stepping c (ss_app s) (Some (Running t data (k res) todo)) (ss_calls s ++ [(d, res)])
                 end))
  | CallClose k =>
      match quiet_exec SClose (ss_session s) with
      | Some o => Some (c ← o; Ret (Stepping c (ss_app s) (Some (Running t data k todo)) (ss_calls s)))
      | None => None
      end
  | Fails f => Some (fail_as f)
  end.

Definition stepping_exec (e : stepping_event) (s : stepping) : option (outcome stepping) :=
  match e with
  | XSession e =>
      if possible e s then
        match quiet_exec e (ss_session s) with
        | Some o => Some (c ← o; Ret (Stepping c (ss_app s) (ss_running s) (ss_calls s)))
        | None => None
        end
      else None
  | XRead t data =>
      match ss_running s, threads (tx (ep (ss_session s))) !! t with
      | None, None =>
          match quiet_exec (SRead false data) (ss_session s) with
          | Some o => Some (c ← o;
              match drop (length (delivered (rx (ss_session s)))) (delivered (rx c)) with
              | [] => Ret (Stepping c (ss_app s) None (ss_calls s))
              | m :: todo =>
                  Ret (Stepping (ss_session s) (ss_app s)
                         (Some (Running t data (begin_callback (ss_app s) m) todo)) (ss_calls s))
              end)
          | None => None
          end
      | _, _ => None
      end
  | XStatement => match ss_running s with Some r => statement r s | None => None end
  end.

Fixpoint stepping_run (es : list stepping_event) (s : stepping) : option stepping :=
  match es with
  | [] => Some s
  | e :: es => match stepping_exec e s with Some (Ret s') => stepping_run es s' | _ => None end
  end.

(** The specification: callbacks run on messages one after another. *)
Inductive served (a0 : A) : list (list byte) -> list call -> A -> Prop :=
| served_nil : served a0 [] [] a0
| served_snoc ms tr a m tr' a' m' :
    served a0 ms tr a -> comes_to (begin_callback a m) tr' (Return (a', m')) ->
    served a0 (ms ++ [m]) (tr ++ tr') a'.

(** ** What a step of the session leaves alone *)

Lemma quiet_later e c c' :
  quiet_exec e c = Some (Ret c') -> later (sess_thread e) (tx (ep c)) (tx (ep c')).
Proof using.
  apply (sess_exec_tx cfg read_timeout_ (Some no_handler) (later _ (tx (ep c)))); [| |done].
  - intros ev p p' Hev Hp Hex. eapply later_trans; [exact Hp|]. apply exec_later in Hex.
    destruct (send_path_only ev) eqn:Hse; [by rewrite Hev|].
    destruct ev; try done; by apply later_weaken.
  - intros _ data p res p' Hp Hs. eapply later_trans; [exact Hp|]. by eapply send_in_strand_later.
Qed.

Lemma exec_no_thread e p p' :
  event_thread e = None -> exec e p = Some (Ret p') -> accepted p' = accepted p /\ threads p' = threads p.
Proof using.
  destruct e as [| | | | | |ec ok|]; cbn [event_thread exec]; try done; intros _.
  - destruct (posted p) as [|b l]; [done|]. intros [= (_ & ? & ?)%post_handler_front]. done.
  - destruct (write_op p); [|done]. destruct (is_open p); [|done].
    destruct (gather _ _) as [data|]; [|done]. destruct (data !! n); [|done]. by intros [= <-].
  - destruct (write_op p); [|done]. destruct (_ || _); [|done].
    destruct (write_handler ec ok p) as [[p1 mc]| | | |] eqn:Hw; try done.
    apply write_handler_front in Hw as (_ & ? & ?). intros [= <-]. by destruct mc.
  - by intros [= <-].
Qed.

(** A read that completes is the only event in which the callback could play a part. *)
Definition completes_read (e : sess_event) : bool :=
  match e with SRead false _ => true | _ => false end.

Lemma quiet_without_callback e (c : quiet_session) :
  completes_read e = false -> quiet_exec e c = sess_exec cfg read_timeout_ None e c.
Proof using.
  by destruct e as [| |[] data| | |].
Qed.

Lemma quiet_no_thread e c c' :
  completes_read e = false -> sess_thread e = None -> quiet_exec e c = Some (Ret c') ->
  accepted (tx (ep c')) = accepted (tx (ep c)) /\ threads (tx (ep c')) = threads (tx (ep c)).
Proof using.
  intros Hr He. rewrite quiet_without_callback by done.
  apply (sess_exec_tx cfg read_timeout_ None
           (fun p => accepted p = accepted (tx (ep c)) /\ threads p = threads (tx (ep c)))); [|done|done].
  intros ev p p' Hev [Ha Ht] Hex.
  destruct (exec_no_thread ev p p') as [-> ->]; [|done|done].
  destruct (send_path_only ev) eqn:Hse; [rewrite Hev in He by done; exact He|by destruct ev].
Qed.

Lemma send_exec_own e (s s' : endpoint X unit) : send_exec e s = Some (Ret s') -> own s' = own s.
Proof using.
  unfold send_exec. destruct e;
    try (destruct (exec _ (tx s)) as [[p| | | |]|]; try done; by intros [= <-]).
  destruct (own_sends (own s)).
  - destruct (exec _ (tx s)) as [[p| | | |]|]; try done. by intros [= <-].
  - destruct (threads _ !! t); [done|]. by intros [= <-].
Qed.

(** A session that is open has always been, and nothing has changed its owner's state. *)
Lemma quiet_open e c c' :
  completes_read e = false -> quiet_exec e c = Some (Ret c') -> is_open (tx (ep c')) = true ->
  is_open (tx (ep c)) = true /\ own (ep c') = own (ep c).
Proof using.
  intros Hr Hex Ho. split.
  { destruct (quiet_later e c c' Hex) as [Hc _]. destruct (is_open (tx (ep c))); [done|].
    rewrite Hc in Ho; done. }
  destruct e as [e|ec ok|[] data| | |]; cbn [completes_read sess_exec] in *; try done.
  - destruct (send_path_only e); [|done].
    destruct (send_exec e (ep c)) as [[s| | | |]|] eqn:He; try done. injection Hex as <-. by eapply send_exec_own.
  - destruct (write_op (tx (ep c))); [|done]. destruct (_ || _); [|done].
    destruct (write_handler _ _ _) as [[p mc]| | | |]; try done. injection Hex as <-.
    destruct mc; [|done]. cbn [ep] in Ho. by rewrite close_closes in Ho.
  - destruct (read_op (rx c)) as [[off room]|] eqn:Hop; [|done]. cbn [orb] in Hex.
    unfold read_handler in Hex. rewrite Hop in Hex. injection Hex as <-. cbn [ep] in Ho.
    change (is_open (tx (close (ep c))) = true) in Ho. by rewrite close_closes in Ho.
  - destruct (timer_armed (ep c)); [|done]. by injection Hex as <-.
  - destruct (timers_fired (ep c)); [done|]. injection Hex as <-. cbn [ep timer_handler negb] in Ho.
    by rewrite close_closes in Ho.
  - injection Hex as <-. cbn [ep] in Ho. by rewrite close_closes in Ho.
Qed.

Lemma quiet_delivered e c c' :
  completes_read e = false -> quiet_exec e c = Some (Ret c') -> delivered (rx c') = delivered (rx c).
Proof using.
  destruct e as [e|ec ok|[] data| | |]; cbn [completes_read sess_exec]; try done; intros _.
  - destruct (send_path_only e); [|done].
    destruct (send_exec e (ep c)) as [[s| | | |]|]; try done. by intros [= <-].
  - destruct (write_op (tx (ep c))); [|done]. destruct (_ || _); [|done].
    destruct (write_handler _ _ _) as [[p mc]| | | |]; try done. by intros [= <-].
  - destruct (read_op (rx c)) as [[off room]|] eqn:Hop; [|done]. cbn [orb].
    unfold read_handler. rewrite Hop. by intros [= <-].
  - destruct (timer_armed (ep c)); [|done]. by intros [= <-].
  - destruct (timers_fired (ep c)); [done|]. by intros [= <-].
  - by intros [= <-].
Qed.

Lemma quiet_rx e c c' :
  outside e = true \/ e = SClose -> quiet_exec e c = Some (Ret c') -> rx c' = rx c.
Proof using.
  intros He. destruct e as [e|ec ok|ec data| | |]; cbn [sess_exec]; try (by destruct He).
  - destruct (send_path_only e); [|done].
    destruct (send_exec e (ep c)) as [[s| | | |]|]; try done. by intros [= <-].
  - destruct (timer_armed (ep c)); [|done]. by intros [= <-].
  - by intros [= <-].
Qed.

(** ** The invariant *)

Context (n : nat) (Hn : n <= queue_capacity).
Context (f : list byte -> Z) (Hf : get_total_size_ cfg = Some f) (Hlim : small_limits cfg).

Abbreviation framed := (frames (header_size_ cfg) (max_message_size_ cfg) f).
Abbreviation quiet_inv := (sess_inv (X := X) (A := unit) cfg read_timeout_ n).

(** No step of the session underneath goes wrong. *)
Lemma quiet_ok e c o :
  quiet_inv c -> quiet_exec e c = Some o -> exists c', o = Ret c' /\ quiet_inv c'.
Proof using Hn Hf Hlim.
  intros Hc Hex.
  pose proof (sess_exec_inv cfg read_timeout_ (Some no_handler) n Hn f Hf Hlim (no_handler_defined cfg f) e c o Hc Hex) as Ho.
  destruct o as [c'| | | |]; simpl in Ho; try done; [by exists c'|].
  destruct (sess_exec_hang cfg read_timeout_ (Some no_handler) n Hn e c Hc Hex) as [data ->]. exfalso.
  revert Hex. cbn [sess_exec]. destruct (read_op (rx c)) as [[off room]|] eqn:Hop; [|done].
  destruct (_ || _) eqn:Hd; [|done]. intros Hex. cbn [orb] in Hd.
  destruct (frames_total (header_size_ cfg) (max_message_size_ cfg) f ltac:(apply Hlim) (pending (rx c) 0 ++ data))
    as (ms & e & Hfr).
  destruct (quiet_read cfg read_timeout_ n f c data off room ms e Hf Hlim Hc Hop ltac:(lia) Hfr) as (r' & s' & Hs & _).
  revert Hs. cbn [sess_exec]. rewrite Hop. cbn [orb]. rewrite Hd. congruence.
Qed.

(** One statement of [send]. *)
Definition statement_post (t : nat) (data : list byte) (c c' : quiet_session) (res : option send_result) : Prop :=
  match res with
  | None =>
      (exists snd, threads (tx (ep c')) !! t = Some snd /\ sender_data snd = data) /\
      accepted (tx (ep c')) = accepted (tx (ep c))
  | Some res =>
      threads (tx (ep c')) !! t = None /\
      if operator_bool res then res = ok /\ accepted (tx (ep c')) = accepted (tx (ep c)) ++ [data]
      else res = error_of not_connected /\ accepted (tx (ep c')) = accepted (tx (ep c)) /\
           own_sends (own (ep c)) && is_open (tx (ep c)) = false
  end.

Definition inside_call (t : nat) (data : list byte) (c : quiet_session) : Prop :=
  forall snd, threads (tx (ep c)) !! t = Some snd -> sender_data snd = data.

Lemma next_statement_path t data p :
  send_path_only (next_statement t data p) = true /\ event_thread (next_statement t data p) = Some t.
Proof using. unfold next_statement. by destruct (threads p !! t) as [[]|]. Qed.

Lemma send_statement_event t data (c : quiet_session) :
  quiet_exec (SSendPath (next_statement t data (tx (ep c)))) c =
  match send_exec (next_statement t data (tx (ep c))) (ep c) with
  | Some o => Some (s ← o; Ret (Session (rx c) s (started c)))
  | None => None
  end.
Proof using. cbn [sess_exec]. by rewrite (proj1 (next_statement_path t data (tx (ep c)))). Qed.

Lemma next_statement_possible t data (c : quiet_session) :
  quiet_exec (SSendPath (next_statement t data (tx (ep c)))) c <> None.
Proof using.
  rewrite send_statement_event. unfold next_statement.
  destruct (threads (tx (ep c)) !! t) as [[d|d b|d b]|] eqn:Ht; cbn [send_exec exec]; rewrite Ht.
  - by destruct (buffer_pool_ _).
  - done.
  - done.
  - by destruct (own_sends (own (ep c))), (is_open (tx (ep c))).
Qed.

Lemma send_statement_spec t data (c : quiet_session) :
  quiet_inv c -> inside_call t data c ->
  exists c' res, send_statement t data c = Ret (c', res) /\
    quiet_exec (SSendPath (next_statement t data (tx (ep c)))) c = Some (Ret c') /\
    quiet_inv c' /\ statement_post t data c c' res.
Proof using Hn Hf Hlim.
  intros Hc Hd. unfold send_statement.
  destruct (quiet_exec _ c) as [o|] eqn:Hex; [|by destruct (next_statement_possible t data c)].
  destruct (quiet_ok _ _ _ Hc Hex) as (c' & -> & Hc'). do 2 eexists. split; [reflexivity|].
  split; [done|]. split; [done|]. revert Hex. rewrite send_statement_event. unfold next_statement.
  unfold inside_call in Hd.
  destruct (threads (tx (ep c)) !! t) as [snd|] eqn:Ht.
  - specialize (Hd snd eq_refl). destruct snd as [d|d b|d b]; simpl in Hd; subst d; cbn [send_exec exec]; rewrite Ht.
    + destruct (buffer_pool_ (tx (ep c))); intros [= <-]; unfold statement_post; cbn;
        rewrite ?lookup_insert_eq, ?Ht; (split; [by eexists|done]).
    + destruct (heap _ !! b); [|done]. intros [= <-]. unfold statement_post. cbn.
      rewrite lookup_insert_eq. split; [by eexists|done].
    + intros [= <-]. unfold statement_post. cbn. by rewrite lookup_delete_eq.
  - cbn [send_exec exec]. rewrite Ht. destruct (own_sends (own (ep c))) eqn:Hown.
    + destruct (is_open (tx (ep c))) eqn:Ho; intros [= <-]; unfold statement_post; cbn.
      * rewrite lookup_insert_eq. split; [by eexists|done].
      * by rewrite Ht, Ho, andb_false_r.
    + intros [= <-]. unfold statement_post. cbn. by rewrite Ht, Hown.
Qed.

(** What the end of a read leaves of the send path. *)
Lemma read_done c data off room ms e :
  quiet_inv c -> read_op (rx c) = Some (off, room) -> (0 < size_of data <= room)%Z ->
  framed (pending (rx c) 0 ++ data) ms e ->
  exists c', quiet_exec (SRead false data) c = Some (Ret c') /\ quiet_inv c' /\
    delivered (rx c') = delivered (rx c) ++ ms /\
    accepted (tx (ep c')) = accepted (tx (ep c)) /\ threads (tx (ep c')) = threads (tx (ep c)) /\
    (is_open (tx (ep c')) = true -> is_open (tx (ep c)) = true /\ own (ep c') = own (ep c)).
Proof using Hn Hf Hlim.
  intros Hc Hop Hdata Hfr.
  destruct (quiet_read cfg read_timeout_ n f c data off room ms e Hf Hlim Hc Hop Hdata Hfr) as (r' & s' & Hex & Hpost).
  eexists. split; [exact Hex|]. destruct (quiet_ok _ _ _ Hc Hex) as (c' & [= <-] & Hc'). split; [exact Hc'|].
  destruct Hpost as (_ & Hd & Hend). split; [exact Hd|]. cbn [ep].
  destruct e; [destruct Hend as (_ & -> & _)|destruct Hend as (-> & _)].
  - change (ep_reset_read_timeout (ep c)) with (reset_read_timeout read_timeout_ (ep c)).
    by rewrite reset_read_timeout_tx, reset_read_timeout_own.
  - change (ep_close (ep c)) with (close (ep c)). rewrite close_tx. by split_and!.
Qed.

Lemma read_possible c data o :
  quiet_exec (SRead false data) c = Some o ->
  exists off room, read_op (rx c) = Some (off, room) /\ (0 < size_of data <= room)%Z.
Proof using.
  cbn [sess_exec]. destruct (read_op (rx c)) as [[off room]|]; [|done]. cbn [orb].
  destruct (_ && _) eqn:Hd; [|done]. intros _. exists off, room.
  apply andb_prop in Hd as [?%Z.ltb_lt ?%Z.leb_le]. done.
Qed.

Context (Hdef : callback_defined cfg f on_recv_).
Context (x0 : X) (a0 : A) (Hown : own_inv true x0) (Hsends : own_sends x0 = true).

Lemma begin_never_fails a ms m k e s :
  framed s (ms ++ m :: k) e -> never_fails (begin_callback a m).
Proof using Hdef.
  intros Hfr%frames_well_framed. apply Forall_app in Hfr as [_ Hfr]. inversion Hfr; subst.
  unfold begin_callback. destruct on_recv_ as [cb|] eqn:Hcb; [by eapply Hdef|done].
Qed.

(** The callback that is running: [don] has been served, [m] is being served, the rest of
    what the read completes is to come. *)
Definition running_ok (s : stepping) (r : running) : Prop :=
  exists don m e off room tr tr',
    read_op (rx (ss_session s)) = Some (off, room) /\ (0 < size_of (run_data r) <= room)%Z /\
    framed (pending (rx (ss_session s)) 0 ++ run_data r) (don ++ m :: run_todo r) e /\
    ss_calls s = tr ++ tr' /\ served a0 (delivered (rx (ss_session s)) ++ don) tr (ss_app s) /\
    comes_to (begin_callback (ss_app s) m) tr' (run_prog r) /\ never_fails (run_prog r) /\
    forall snd, threads (tx (ep (ss_session s))) !! run_thread r = Some snd ->
      exists k, run_prog r = CallSend (sender_data snd) k.

(** What the calls have come to.  With [alone], no other thread sends. *)
Record calls_inv (alone : bool) (p : pipe) (x : X) (calls : list call) (on : option nat) : Prop := {
  ci_answers : Forall (fun c => c.2 = ok \/ c.2 = error_of not_connected) calls;
  ci_taken : taken calls `sublist_of` accepted p;
  ci_open : is_open p = true -> x = x0 /\ Forall (fun c => c.2 = ok) calls;
  ci_alone : alone = true -> accepted p = taken calls /\ forall t, is_Some (threads p !! t) -> on = Some t;
}.

Abbreviation calls_ok alone s :=
  (calls_inv alone (tx (ep (ss_session s))) (own (ep (ss_session s))) (ss_calls s) (run_thread <$> ss_running s)).

Record stepping_inv (alone : bool) (s : stepping) : Prop := {
  si_session : quiet_inv (ss_session s);
  si_calls : calls_ok alone s;
  si_running :
    match ss_running s with
    | Some r => running_ok s r
    | None => served a0 (delivered (rx (ss_session s))) (ss_calls s) (ss_app s)
    end;
}.

Lemma calls_keep alone p p' x x' calls on on' :
  calls_inv alone p x calls on ->
  (is_open p' = true -> is_open p = true /\ x' = x) -> accepted p `prefix_of` accepted p' ->
  (alone = true -> accepted p' = accepted p /\ forall t, is_Some (threads p' !! t) -> on' = Some t) ->
  calls_inv alone p' x' calls on'.
Proof using.
  intros [H1 H2 H3 H4] Ho Ha Hs. split; [done| | |].
  - destruct Ha as [l ->]. by apply sublist_inserts_r.
  - intros [Hp ->]%Ho. by apply H3.
  - intros Hal. destruct (Hs Hal) as [-> Ht]. destruct (H4 Hal) as [-> _]. done.
Qed.

Lemma stepping_init_inv alone : stepping_inv alone (stepping_init n x0 a0).
Proof using Hlim Hown.
  split.
  - apply start_inv; [exact Hlim| |done]. by apply session_init_inv; [constructor|].
  - cbn [stepping_init ss_session ss_calls ss_running TcpSession.start ep session_init].
    rewrite reset_read_timeout_tx, reset_read_timeout_own. split; [done|apply sublist_nil_l|done|].
    intros _. split; [done|]. cbn. intros t. by rewrite lookup_empty; intros [].
  - constructor.
Qed.

(** The events of other threads, where none is inside [send]. *)
Lemma idle_thread_event e c c' t :
  sess_thread e = Some t -> threads (tx (ep c)) !! t = None -> quiet_exec e c = Some (Ret c') ->
  exists d, e = SSendPath (EvSend t d).
Proof using.
  destruct e as [e|ec ok|ec data| | |]; cbn [sess_thread]; try done. intros Ht Hn0. cbn [sess_exec].
  destruct e; try done; injection Ht as ->; cbn [send_path_only send_exec exec]; rewrite ?Hn0; try done; eauto.
Qed.

Definition alone_event (e : stepping_event) : Prop :=
  match e with XSession (SSendPath (EvSend _ _)) => False | _ => True end.

Lemma possible_no_read e s : possible e s = true -> completes_read e = false.
Proof using. unfold possible. by destruct (ss_running s), e as [|?|[]| | |]. Qed.

Lemma session_step_inv alone e s c' :
  (alone = true -> alone_event (XSession e)) -> stepping_inv alone s -> possible e s = true ->
  quiet_exec e (ss_session s) = Some (Ret c') ->
  stepping_inv alone (Stepping c' (ss_app s) (ss_running s) (ss_calls s)).
Proof using Hn Hf Hlim.
  clear Hdef Hown Hsends. intros He [Hc Hcalls Hrun] Hp Hex. pose proof (possible_no_read e s Hp) as Hnr.
  pose proof (quiet_later e _ c' Hex) as (_ & Ha & Hth).
  destruct (quiet_ok _ _ _ Hc Hex) as (c1 & [= <-] & Hc'). split; cbn [ss_session ss_calls ss_running]; [done| |].
  - eapply calls_keep; [exact Hcalls|by eapply quiet_open|exact Ha|]. intros Hal.
    destruct (ci_alone _ _ _ _ _ Hcalls Hal) as [_ Hon].
    destruct (sess_thread e) as [t|] eqn:Ht; [|by destruct (quiet_no_thread e _ c' Hnr Ht Hex) as [-> ->]]. exfalso.
    destruct (threads (tx (ep (ss_session s))) !! t) eqn:Hnone.
    + unfold possible in Hp. specialize (Hon t ltac:(by rewrite Hnone)).
      destruct (ss_running s) as [r|]; [|done]. injection Hon as Hon.
      apply andb_prop in Hp as [_ Hp%bool_decide_eq_true]. by rewrite Ht, Hon in Hp.
    + destruct (idle_thread_event e _ c' t Ht Hnone Hex) as [d ->]. by apply He.
  - destruct (ss_running s) as [r|] eqn:Hr.
    + unfold possible in Hp. rewrite Hr in Hp. apply andb_prop in Hp as [Ho Hp%bool_decide_eq_true].
      destruct Hrun as (don & m & e' & off & room & tr & tr' & H1 & H2 & H3 & H4 & H5 & H6 & H7 & H8).
      exists don, m, e', off, room, tr, tr'. cbn [ss_session ss_calls ss_app].
      rewrite (quiet_rx e _ c' (or_introl Ho) Hex), (Hth _ Hp). done.
    + by rewrite (quiet_delivered e _ c' Hnr Hex).
Qed.

(** A read completes: its messages are taken off, and the callback begins. *)
Lemma read_step_inv alone t data s o :
  stepping_inv alone s -> stepping_exec (XRead t data) s = Some o ->
  exists s', o = Ret s' /\ stepping_inv alone s'.
Proof using Hn Hf Hlim Hdef.
  clear Hown Hsends. intros [Hc Hcalls Hrun]. cbn [stepping_exec].
  destruct (ss_running s) as [r|] eqn:Hr; [done|].
  destruct (threads _ !! t) eqn:Ht; [done|]. destruct (quiet_exec _ _) as [o'|] eqn:Hex; [|done]. intros [= <-].
  destruct (read_possible _ _ _ Hex) as (off & room & Hop & Hdata).
  destruct (frames_total (header_size_ cfg) (max_message_size_ cfg) f ltac:(apply Hlim)
              (pending (rx (ss_session s)) 0 ++ data)) as (ms & e & Hfr).
  destruct (read_done _ data off room ms e Hc Hop Hdata Hfr) as (c' & Hex' & Hc' & Hd & Ha & Hth & Ho).
  rewrite Hex' in Hex. injection Hex as <-. cbn [mbind outcome_bind]. rewrite Hd, drop_app_length.
  destruct ms as [|m ms]; (eexists; split; [reflexivity|]); split; cbn [ss_session ss_calls ss_running ss_app]; try done.
  - eapply calls_keep; [exact Hcalls|exact Ho|by rewrite Ha|]. intros Hal. rewrite Ha, Hth. split; [done|].
    apply (ci_alone _ _ _ _ _ Hcalls Hal).
  - by rewrite Hd, app_nil_r.
  - eapply calls_keep; [exact Hcalls|done|done|]. intros Hal. split; [done|]. intros t' Ht'.
    by apply (ci_alone _ _ _ _ _ Hcalls Hal) in Ht'.
  - exists [], m, e, off, room, (ss_calls s), []. cbn [ss_session ss_calls ss_app run_thread run_data run_prog run_todo].
    rewrite !app_nil_r, Ht. split; [done|]. split; [done|]. split; [exact Hfr|]. split; [done|]. split; [done|].
    split; [constructor|]. split; [|done]. by eapply (begin_never_fails _ [] m).
Qed.

Lemma calls_answered alone p p' x x' calls d res (t : nat) :
  calls_inv alone p x calls (Some t) -> (is_open p' = true -> is_open p = true /\ x' = x) ->
  threads p' !! t = None -> (forall t', t' <> t -> threads p' !! t' = threads p !! t') ->
  (if operator_bool res then res = ok /\ accepted p' = accepted p ++ [d]
   else res = error_of not_connected /\ accepted p' = accepted p /\ own_sends x && is_open p = false) ->
  calls_inv alone p' x' (calls ++ [(d, res)]) (Some t).
Proof using Hsends.
  intros [H1 H2 H3 H4] Ho Ht Hth Hres.
  assert (taken (calls ++ [(d, res)]) = taken calls ++ if operator_bool res then [d] else []) as Htk.
  { rewrite taken_app. f_equal. unfold taken. cbn. by destruct (operator_bool res). }
  assert (accepted p' = accepted p ++ if operator_bool res then [d] else []) as Hacc.
  { destruct (operator_bool res); [apply Hres|]. rewrite app_nil_r. apply Hres. }
  split.
  - apply Forall_app. split; [done|]. constructor; [|done]. cbn.
    destruct (operator_bool res); [left|right]; apply Hres.
  - rewrite Htk, Hacc. by apply sublist_app.
  - intros Hp'. destruct (Ho Hp') as [Hp ->]. destruct (H3 Hp) as [-> Hall]. split; [done|].
    apply Forall_app. split; [done|]. constructor; [|done]. cbn.
    destruct (operator_bool res); [apply Hres|]. rewrite Hsends, Hp in Hres. by destruct Hres as (_ & _ & ?).
  - intros Hal. destruct (H4 Hal) as [Heq Hon]. rewrite Htk, Hacc, Heq. split; [done|].
    intros t' Ht'. destruct (decide (t' = t)) as [->|Hne]; [done|]. rewrite Hth in Ht' by done. by apply Hon.
Qed.

(** A statement of [send] in a callback. *)
Lemma send_step_inv alone s t data d k todo o :
  stepping_inv alone s -> ss_running s = Some (Running t data (CallSend d k) todo) ->
  statement (Running t data (CallSend d k) todo) s = Some o ->
  exists s', o = Ret s' /\ stepping_inv alone s'.
Proof using Hn Hf Hlim Hsends.
  clear Hdef Hown. intros [Hc Hcalls Hrun] Hr. rewrite Hr in Hrun, Hcalls. cbn [statement]. intros [= <-].
  destruct Hrun as (don & m & e & off & room & tr & tr' & H1 & H2 & H3 & H4 & H5 & H6 & H7 & H8).
  cbn [run_thread run_data run_prog run_todo] in *.
  destruct (send_statement_spec t d (ss_session s) Hc) as (c' & res & -> & Hex & Hc' & Hpost).
  { intros snd Hs. destruct (H8 snd Hs) as [k' Hk]. by injection Hk. }
  cbn [mbind outcome_bind]. eexists. split; [reflexivity|].
  destruct (next_statement_path t d (tx (ep (ss_session s)))) as [Hpath Hev].
  pose proof (quiet_later _ _ _ Hex) as (_ & Hacc & Hth). cbn [sess_thread] in Hth. rewrite Hev in Hth.
  assert (rx c' = rx (ss_session s)) as Hrx.
  { eapply quiet_rx; [|exact Hex]. left. unfold next_statement. by destruct (threads _ !! t) as [[]|]. }
  pose proof (quiet_open _ _ _ (ltac:(done) : completes_read (SSendPath (next_statement t d _)) = false) Hex) as Ho.
  destruct res as [res|]; cbn [statement_post] in Hpost.
  - destruct Hpost as [Ht Hres]. split; cbn [ss_session ss_calls ss_running ss_app fmap option_fmap option_map run_thread]; [done| |].
    + eapply calls_answered; [exact Hcalls|done|done| |exact Hres]. intros t' Hne. apply Hth. congruence.
    + exists don, m, e, off, room, tr, (tr' ++ [(d, res)]).
      cbn [ss_session ss_calls ss_app run_thread run_data run_prog run_todo]. rewrite Hrx, H4, app_assoc, Ht.
      split; [done|]. split; [done|]. split; [done|]. split; [done|]. split; [done|].
      split; [by constructor|]. split; [apply H7|done].
  - destruct Hpost as [(snd & Ht & Hd) Ha].
    split; cbn [ss_session ss_calls ss_running ss_app fmap option_fmap option_map run_thread]; [done| |].
    + eapply calls_keep; [exact Hcalls|done|by rewrite Ha|]. intros Hal. split; [done|]. intros t' Ht'.
      destruct (decide (t' = t)) as [->|Hne]; [done|]. rewrite Hth in Ht' by congruence.
      by apply (ci_alone _ _ _ _ _ Hcalls Hal) in Ht'.
    + exists don, m, e, off, room, tr, tr'. cbn [ss_session ss_calls ss_app run_thread run_data run_prog run_todo].
      rewrite Hrx, Ht. split; [done|]. split; [done|]. split; [done|]. split; [done|]. split; [done|].
      split; [done|]. split; [done|]. intros snd' [= <-]. rewrite Hd. eauto.
Qed.

(** The other statements. *)
Lemma statement_inv alone s r o :
  stepping_inv alone s -> ss_running s = Some r -> statement r s = Some o ->
  exists s', o = Ret s' /\ stepping_inv alone s'.
Proof using Hn Hf Hlim Hdef Hsends.
  intros Hs Hr. destruct r as [t data [[a m']|d k|k|fl] todo].
  2: { intros Hst. by eapply (send_step_inv alone s t data d k todo). }
  all: destruct Hs as [Hc Hcalls Hrun]; rewrite Hr in Hrun, Hcalls; cbn [statement];
    destruct Hrun as (don & m & e & off & room & tr & tr' & H1 & H2 & H3 & H4 & H5 & H6 & H7 & H8);
    cbn [run_thread run_data run_prog run_todo] in *.
  3: done.
  - assert (threads (tx (ep (ss_session s))) !! t = None) as Ht.
    { destruct (threads _ !! t) as [snd|]; [|done]. by destruct (H8 snd eq_refl). }
    assert (served a0 (delivered (rx (ss_session s)) ++ don ++ [m]) (ss_calls s) a) as Hserved.
    { rewrite app_assoc, H4. by econstructor. }
    destruct todo as [|m1 todo].
    + unfold finish_callbacks. destruct (read_done _ data off room _ e Hc H1 H2 H3) as (c' & -> & Hc' & Hd & Ha & Hth & Ho).
      intros [= <-]. eexists. split; [reflexivity|]. split; cbn [ss_session ss_calls ss_running ss_app]; [done| |].
      * eapply calls_keep; [exact Hcalls|exact Ho|by rewrite Ha|]. intros Hal. rewrite Ha, Hth. split; [done|].
        intros t' Ht'. pose proof (proj2 (ci_alone _ _ _ _ _ Hcalls Hal) t' Ht') as [= ->]. by rewrite Ht in Ht'; destruct Ht'.
      * by rewrite Hd.
    + intros [= <-]. eexists. split; [reflexivity|]. split; cbn [ss_session ss_calls ss_running ss_app]; [done|done|].
      exists (don ++ [m]), m1, e, off, room, (ss_calls s), [].
      cbn [ss_session ss_calls ss_app run_thread run_data run_prog run_todo]. rewrite app_nil_r, Ht, <- app_assoc.
      split; [done|]. split; [done|]. split; [exact H3|]. split; [done|]. split; [done|].
      split; [constructor|]. split; [|done]. eapply (begin_never_fails _ (don ++ [m])).
      rewrite <- app_assoc. exact H3.
  - destruct (quiet_exec SClose (ss_session s)) as [o'|] eqn:Hex; [|done]. intros [= <-].
    destruct (quiet_ok _ _ _ Hc Hex) as (c' & -> & Hc'). cbn [mbind outcome_bind]. eexists. split; [reflexivity|].
    pose proof (quiet_open SClose _ _ eq_refl Hex) as Ho.
    destruct (quiet_no_thread SClose _ _ eq_refl eq_refl Hex) as [Ha Hth].
    split; cbn [ss_session ss_calls ss_running ss_app fmap option_fmap option_map run_thread]; [done| |].
    + eapply calls_keep; [exact Hcalls|exact Ho|by rewrite Ha|]. intros Hal. rewrite Hth. split; [done|].
      apply (ci_alone _ _ _ _ _ Hcalls Hal).
    + exists don, m, e, off, room, tr, tr'. cbn [ss_session ss_calls ss_app run_thread run_data run_prog run_todo].
      rewrite (quiet_rx SClose _ _ (or_intror eq_refl) Hex), Hth.
      split; [done|]. split; [done|]. split; [done|]. split; [done|]. split; [done|].
      split; [by constructor|]. split; [done|]. intros snd Hsnd. by destruct (H8 snd Hsnd).
Qed.

Lemma stepping_exec_inv alone e s o :
  (alone = true -> alone_event e) -> stepping_inv alone s -> stepping_exec e s = Some o ->
  exists s', o = Ret s' /\ stepping_inv alone s'.
Proof using Hn Hf Hlim Hdef Hsends.
  intros He Hs. destruct e as [e|t data|]; cbn [stepping_exec].
  - destruct (possible e s) eqn:Hp; [|done]. destruct (quiet_exec e (ss_session s)) as [o'|] eqn:Hex; [|done].
    intros [= <-]. destruct (quiet_ok _ _ _ (si_session _ _ Hs) Hex) as (c' & -> & _).
    eexists. split; [reflexivity|]. by eapply session_step_inv.
  - by apply read_step_inv.
  - destruct (ss_running s) as [r|] eqn:Hr; [|done]. by apply statement_inv.
Qed.

Lemma stepping_run_inv alone es s s' :
  (alone = true -> Forall alone_event es) -> stepping_inv alone s -> stepping_run es s = Some s' ->
  stepping_inv alone s'.
Proof using Hn Hf Hlim Hdef Hsends.
  revert s. induction es as [|e es IH]; intros s Hes Hs; cbn [stepping_run]; [by intros [= <-]|].
  destruct (stepping_exec e s) as [[s1| | | |]|] eqn:Hex; try done. apply IH.
  - intros Hal. by destruct (Forall_cons_1 _ _ _ (Hes Hal)).
  - destruct (stepping_exec_inv alone e s _ ltac:(intros Hal; by destruct (Forall_cons_1 _ _ _ (Hes Hal))) Hs Hex)
      as (s2 & [= <-] & ?). done.
Qed.

Lemma stepping_run_app es es' s s' :
  stepping_run es s = Some s' -> stepping_run (es ++ es') s = stepping_run es' s'.
Proof using.
  revert s. induction es as [|e es IH]; intros s; cbn [stepping_run Datatypes.app]; [by intros [= <-]|].
  destruct (stepping_exec e s) as [[s1| | | |]|]; try done. apply IH.
Qed.

(** ** A callback that waits for a buffer *)

Definition starved (s : stepping) : Prop :=
  exists r d k, ss_running s = Some r /\ run_prog r = CallSend d k /\
    threads (tx (ep (ss_session s))) !! run_thread r = Some (Popping d) /\
    buffer_pool_ (tx (ep (ss_session s))) = [].

Definition starvedb (s : stepping) : bool :=
  match ss_running s with
  | Some r =>
      match run_prog r, threads (tx (ep (ss_session s))) !! run_thread r with
      | CallSend d _, Some (Popping d') => bool_decide (d = d') && bool_decide (buffer_pool_ (tx (ep (ss_session s))) = [])
      | _, _ => false
      end
  | None => false
  end.

Lemma starvedb_starved s : starvedb s = true -> starved s.
Proof using.
  unfold starvedb. destruct (ss_running s) as [r|] eqn:Hr; [|done].
  destruct (run_prog r) as [|d k| |] eqn:Hp; try done.
  destruct (threads _ !! _) as [[d'| |]|] eqn:Ht; try done.
  intros [->%bool_decide_eq_true He%bool_decide_eq_true]%andb_prop. by exists r, d', k.
Qed.

Lemma outside_pool_empty e c c' t d :
  outside e = true -> sess_thread e <> Some t -> quiet_exec e c = Some (Ret c') ->
  buffer_pool_ (tx (ep c)) = [] -> threads (tx (ep c)) !! t = Some (Popping d) ->
  buffer_pool_ (tx (ep c')) = [] /\ threads (tx (ep c')) !! t = Some (Popping d).
Proof using.
  intros Ho Hne Hex Hp Ht. split; [|by rewrite (proj2 (proj2 (quiet_later e c c' Hex)) t Hne)].
  clear Hne Ht. destruct e as [e|ec ok|ec data| | |]; cbn [outside sess_exec] in *; try done.
  - replace (send_path_only e) with true in Hex by by destruct e.
    destruct (send_exec e (ep c)) as [[s| | | |]|] eqn:Hs; try done. injection Hex as <-. cbn [ep].
    apply send_exec_tx in Hs as [->|Hs]; [done|]. revert Hs. destruct e as [t' d'|t'|t'|t'| | | |]; try done; cbn [exec].
    + destruct (threads _ !! t'); [done|]. by destruct (is_open _); intros [= <-].
    + destruct (threads _ !! t') as [[]|]; try done. rewrite Hp. by intros [= <-].
    + destruct (threads _ !! t') as [[]|]; try done. destruct (heap _ !! _); [|done]. by intros [= <-].
    + destruct (threads _ !! t') as [[]|]; try done. by intros [= <-].
    + destruct (write_op _); [|done]. destruct (is_open _); [|done].
      destruct (gather _ _) as [dt|]; [|done]. destruct (dt !! _); [|done]. by intros [= <-].
  - destruct (timer_armed (ep c)); [|done]. by injection Hex as <-.
Qed.

(** Nothing but the strand gives buffers back. *)
Lemma starved_step e s s' :
  starved s -> stepping_exec e s = Some (Ret s') ->
  starved s' /\ ss_running s' = ss_running s /\ ss_app s' = ss_app s /\ ss_calls s' = ss_calls s /\
  rx (ss_session s') = rx (ss_session s).
Proof using.
  intros (r & d & k & Hr & Hp & Ht & He). destruct e as [e|t data|]; cbn [stepping_exec].
  - unfold possible. rewrite Hr. destruct (outside e) eqn:Ho; [|done]. cbn [andb].
    destruct (decide (sess_thread e <> Some (run_thread r))) as [Hne|]; [|by rewrite bool_decide_false].
    rewrite bool_decide_true by done.
    destruct (quiet_exec e (ss_session s)) as [[c'| | | |]|] eqn:Hex; try done. intros [= <-].
    destruct (outside_pool_empty e _ c' _ d Ho Hne Hex He Ht) as [He' Ht'].
    split; [by exists r, d, k|]. split; [done|]. split; [done|]. split; [done|].
    apply (quiet_rx e); [by left|done].
  - by rewrite Hr.
  - rewrite Hr. destruct r as [t data p todo]. cbn [run_thread run_prog] in *. subst p. cbn [statement].
    unfold send_statement. rewrite send_statement_event. unfold next_statement. rewrite Ht.
    cbn [send_exec exec]. rewrite Ht, He. cbn [mbind outcome_bind ep set_tx tx]. rewrite Ht. intros [= <-].
    cbn [ss_session ss_running ss_app ss_calls rx]. split; [|done].
    eexists _, d, k. by cbn [ss_session ss_running run_prog run_thread ep tx set_tx].
Qed.

Lemma starved_run es s s' :
  starved s -> stepping_run es s = Some s' ->
  starved s' /\ ss_running s' = ss_running s /\ ss_app s' = ss_app s /\ ss_calls s' = ss_calls s /\
  rx (ss_session s') = rx (ss_session s).
Proof using.
  revert s. induction es as [|e es IH]; intros s Hs; cbn [stepping_run]; [by intros [= <-]|].
  destruct (stepping_exec e s) as [[s1| | | |]|] eqn:Hex; try done.
  destruct (starved_step e s s1 Hs Hex) as (Hs1 & <- & <- & <- & <-). by apply IH.
Qed.

(** ** The strand on its own *)

Definition goes_on (s s' : stepping) : Prop :=
  exists es, Forall (fun e => e = XStatement) es /\ stepping_run es s = Some s'.

Lemma goes_on_refl s : goes_on s s.
Proof using. by exists []. Qed.

Lemma goes_on_trans s1 s2 s3 : goes_on s1 s2 -> goes_on s2 s3 -> goes_on s1 s3.
Proof using.
  intros (es & He & Hes) (es' & He' & Hes'). exists (es ++ es'). split; [by apply Forall_app|].
  by rewrite (stepping_run_app es es' s1 s2 Hes).
Qed.

Lemma goes_on_step s1 s2 s3 : stepping_exec XStatement s1 = Some (Ret s2) -> goes_on s2 s3 -> goes_on s1 s3.
Proof using.
  intros H1. apply goes_on_trans. exists [XStatement]. split; [by constructor|]. cbn [stepping_run]. by rewrite H1.
Qed.

Lemma goes_on_inv alone s s' : stepping_inv alone s -> goes_on s s' -> stepping_inv alone s'.
Proof using Hn Hf Hlim Hdef Hsends.
  intros Hs (es & He & Hes). eapply stepping_run_inv; [|exact Hs|exact Hes]. intros _.
  eapply Forall_impl; [exact He|]. by intros e ->.
Qed.

(** A statement of [send], by its effect on the endpoint. *)
Lemma send_statement_step s t data d k todo (s1 : endpoint X unit) :
  ss_running s = Some (Running t data (CallSend d k) todo) ->
  send_exec (next_statement t d (tx (ep (ss_session s)))) (ep (ss_session s)) = Some (Ret s1) ->
  stepping_exec XStatement s = Some (Ret
    (let c := Session (rx (ss_session s)) s1 (started (ss_session s)) in
     match threads (tx (ep (ss_session s))) !! t, threads (tx s1) !! t with
     | _, Some _ => Stepping c (ss_app s) (Some (Running t data (CallSend d k) todo)) (ss_calls s)
     | None, None =>
         Stepping c (ss_app s) (Some (Running t data (k (error_of not_connected)) todo))
           (ss_calls s ++ [(d, error_of not_connected)])
     | Some _, None => Stepping c (ss_app s) (Some (Running t data (k ok) todo)) (ss_calls s ++ [(d, ok)])
     end)).
Proof using.
  intros Hr Hex. cbn [stepping_exec]. rewrite Hr. cbn [statement]. unfold send_statement.
  rewrite send_statement_event, Hex. cbn [mbind outcome_bind ep].
  by destruct (threads (tx (ep (ss_session s))) !! t), (threads (tx s1) !! t).
Qed.

(** How far a thread still has to go in [send]. *)
Definition statements_left (o : option sender) : nat :=
  match o with None => 4 | Some (Popping _) => 3 | Some (Copying _ _) => 2 | Some (Posting _ _) => 1 end.

Lemma send_advances alone s t data d k todo :
  stepping_inv alone s -> ss_running s = Some (Running t data (CallSend d k) todo) ->
  starved s \/ exists s', stepping_exec XStatement s = Some (Ret s') /\
    ((exists res, ss_running s' = Some (Running t data (k res) todo)) \/
     (ss_running s' = ss_running s /\
      statements_left (threads (tx (ep (ss_session s'))) !! t) <
      statements_left (threads (tx (ep (ss_session s))) !! t))).
Proof using Hn Hf Hlim Hdef Hsends.
  intros Hs Hr. pose proof (si_running _ _ Hs) as Hrun. rewrite Hr in Hrun.
  destruct Hrun as (_ & _ & _ & _ & _ & _ & _ & _ & _ & _ & _ & _ & _ & _ & H8). cbn [run_thread run_prog] in H8.
  destruct (starvedb s) eqn:Hns; [left; by apply starvedb_starved|].
  right. destruct (stepping_exec XStatement s) as [o|] eqn:Hex; [|cbn [stepping_exec] in Hex; by rewrite Hr in Hex].
  destruct (stepping_exec_inv alone XStatement _ _ (fun _ => I) Hs Hex) as (s' & -> & _). exists s'. split; [done|].
  cbn [stepping_exec] in Hex. rewrite Hr in Hex. cbn [statement] in Hex. unfold send_statement in Hex.
  rewrite send_statement_event in Hex. unfold next_statement in Hex.
  destruct (threads (tx (ep (ss_session s))) !! t) as [snd|] eqn:Ht.
  - destruct (H8 snd eq_refl) as [k' [= Hd _]].
    destruct snd as [d'|d' b|d' b]; cbn [sender_data] in Hd; subst d'; cbn [send_exec exec] in Hex; rewrite Ht in Hex.
    + unfold starvedb in Hns. rewrite Hr in Hns. cbn [run_prog run_thread] in Hns. rewrite Ht in Hns.
      destruct (buffer_pool_ _) as [|b pool]; [by rewrite !bool_decide_true in Hns|].
      cbn in Hex. rewrite lookup_insert_eq in Hex. injection Hex as <-. right. split; [done|].
      cbn. rewrite lookup_insert_eq. cbn. lia.
    + destruct (heap _ !! b); [|done]. cbn in Hex. rewrite lookup_insert_eq in Hex. injection Hex as <-. right.
      split; [done|]. cbn. rewrite lookup_insert_eq. cbn. lia.
    + cbn in Hex. rewrite lookup_delete_eq in Hex. injection Hex as <-. left. by exists ok.
  - cbn [send_exec exec] in Hex. rewrite Ht in Hex. destruct (own_sends (own (ep (ss_session s)))), (is_open (tx (ep (ss_session s))));
      cbn in Hex; rewrite ?lookup_insert_eq in Hex; cbn in Hex; rewrite ?Ht in Hex; injection Hex as <-;
      [|left; by eexists..].
    right. split; [done|]. cbn. rewrite lookup_insert_eq. cbn. lia.
Qed.

Lemma send_comes_back alone s t data d k todo :
  stepping_inv alone s -> ss_running s = Some (Running t data (CallSend d k) todo) ->
  exists s', goes_on s s' /\ (starved s' \/ exists res, ss_running s' = Some (Running t data (k res) todo)).
Proof using Hn Hf Hlim Hdef Hsends.
  remember (statements_left (threads (tx (ep (ss_session s))) !! t)) as fuel eqn:Hfuel.
  revert s Hfuel. induction (lt_wf fuel) as [fuel _ IH]. intros s -> Hs Hr.
  destruct (send_advances alone s t data d k todo Hs Hr) as [Hst|(s1 & Hex & [[res Hres]|[Hr1 Hlt]])].
  - exists s. split; [apply goes_on_refl|by left].
  - exists s1. split; [by eapply goes_on_step; [|apply goes_on_refl]|]. right. by exists res.
  - destruct (stepping_exec_inv alone XStatement _ _ (fun _ => I) Hs Hex) as (s2 & [= <-] & Hs1).
    destruct (IH _ Hlt s1 eq_refl Hs1) as (s' & Hgo & Hend); [by rewrite Hr1|].
    exists s'. split; [|done]. by eapply goes_on_step.
Qed.

Lemma callback_comes_back alone s t data p todo :
  stepping_inv alone s -> ss_running s = Some (Running t data p todo) ->
  exists s', goes_on s s' /\ (starved s' \/ exists r, ss_running s' = Some (Running t data (Return r) todo)).
Proof using Hn Hf Hlim Hdef Hsends.
  revert s. induction p as [r|d k IH|k IH|fl]; intros s Hs Hr.
  - exists s. split; [apply goes_on_refl|]. right. by exists r.
  - destruct (send_comes_back alone s t data d k todo Hs Hr) as (s1 & H1 & [Hst|[res Hr1]]); [by exists s1; auto|].
    destruct (IH res s1) as (s2 & H2 & Hend); [by eapply goes_on_inv|done|].
    exists s2. split; [by eapply goes_on_trans|done].
  - destruct (stepping_exec XStatement s) as [o|] eqn:Hex.
    2: { cbn [stepping_exec] in Hex. rewrite Hr in Hex. done. }
    destruct (stepping_exec_inv alone XStatement _ _ (fun _ => I) Hs Hex) as (s1 & -> & Hs1).
    destruct (IH s1 Hs1) as (s2 & H2 & Hend).
    { cbn [stepping_exec] in Hex. rewrite Hr in Hex. cbn [statement sess_exec mbind outcome_bind] in Hex.
      by injection Hex as <-. }
    exists s2. split; [by eapply goes_on_step|done].
  - pose proof (si_running _ _ Hs) as Hrun. rewrite Hr in Hrun.
    by destruct Hrun as (_ & _ & _ & _ & _ & _ & _ & _ & _ & _ & _ & _ & _ & ? & _).
Qed.

Lemma read_comes_back alone s t data p todo :
  stepping_inv alone s -> ss_running s = Some (Running t data p todo) ->
  exists s', goes_on s s' /\ (starved s' \/ ss_running s' = None).
Proof using Hn Hf Hlim Hdef Hsends.
  revert s p. induction todo as [|m todo IH]; intros s p Hs Hr;
    (destruct (callback_comes_back alone s t data p _ Hs Hr) as (s1 & H1 & [Hst|[[a m'] Hr1]]); [by exists s1; auto|]);
    pose proof (goes_on_inv alone s s1 Hs H1) as Hs1;
    (destruct (stepping_exec XStatement s1) as [o|] eqn:Hex;
     [destruct (stepping_exec_inv alone XStatement _ _ (fun _ => I) Hs1 Hex) as (s2 & -> & Hs2)|]);
    cbn [stepping_exec] in Hex; rewrite Hr1 in Hex; cbn [statement] in Hex; try done.
  - exists s2. split; [eapply goes_on_trans; [exact H1|]; eapply goes_on_step; [|apply goes_on_refl]|].
    + cbn [stepping_exec]. by rewrite Hr1.
    + right. unfold finish_callbacks in Hex. destruct (quiet_exec _ _) as [[c| | | |]|]; try done. by injection Hex as <-.
  - pose proof (si_running _ _ Hs1) as Hrun. rewrite Hr1 in Hrun.
    destruct Hrun as (don & m & e & off & room & tr & tr' & H2 & H3 & H4 & _). cbn [run_data run_todo] in *.
    unfold finish_callbacks in Hex.
    by destruct (read_done _ data off room _ e (si_session _ _ Hs1) H2 H3 H4) as (c' & Hc' & _); rewrite Hc' in Hex.
  - destruct (IH s2 (begin_callback a m)) as (s3 & H3 & Hend); [done|by injection Hex as <-|].
    exists s3. split; [|done]. eapply goes_on_trans; [exact H1|]. eapply goes_on_step; [|exact H3].
    cbn [stepping_exec]. by rewrite Hr1.
Qed.

(** ** The callback in one step

    The machine of TcpSession.v runs the callback in one step.  What it can do, this
    machine can do too, with nothing in between the callback's statements. *)

Abbreviation whole_session := (session (X := X) (A := A)).
Abbreviation whole_exec := (sess_exec (X := X) cfg read_timeout_ on_recv_).

#[local] Instance whole_endpoint : StreamEndpoint (endpoint X A) := session_endpoint read_timeout_.
#[local] Instance whole_sender : Sender (endpoint X A) := session_sender read_timeout_.

Definition forget (s : endpoint X A) : endpoint X unit :=
  Endpoint (tx s) (timer_armed s) (timers_fired s) (own s) tt.

(** Receive states that read on alike. *)
Definition same_rx (r r' : rx_state) : Prop :=
  delivered r' = delivered r /\ read_op r' = read_op r /\
  (is_Some (read_op r) -> pending r' 0 = pending r 0 /\ active_bytes_ r' = active_bytes_ r /\
     size_of (recv_buffer_ r') = size_of (recv_buffer_ r)).

Definition like (c : whole_session) (s : stepping) : Prop :=
  same_rx (rx c) (rx (ss_session s)) /\ ep (ss_session s) = forget (ep c) /\
  started (ss_session s) = started c /\ ss_running s = None /\ ss_app s = app (ep c).

Lemma close_forget s : close (forget s) = forget (close s).
Proof using. unfold close. cbn. by destruct (is_open (tx s)). Qed.

Lemma close_app (s : endpoint X A) : app (close s) = app s.
Proof using. unfold close. by destruct (is_open (tx s)). Qed.

Lemma reset_read_timeout_forget s :
  reset_read_timeout read_timeout_ (forget s) = forget (reset_read_timeout read_timeout_ s).
Proof using. unfold reset_read_timeout. by destruct (0 <? read_timeout_)%Z. Qed.

Lemma send_exec_forget e s :
  send_exec e (forget s) =
  match send_exec e s with Some o => Some (s ← o; Ret (forget s)) | None => None end.
Proof using.
  unfold send_exec. cbn [forget own tx]. destruct e;
    try (destruct (exec _ (tx s)) as [[]|]; done).
  destruct (own_sends (own s)); [|by destruct (threads (tx s) !! t)].
  by destruct (exec _ (tx s)) as [[]|].
Qed.

(** Everything but a completed read is the same event. *)
Lemma like_step e c c' s :
  like c s -> completes_read e = false -> whole_exec e c = Some (Ret c') ->
  exists s', stepping_exec (XSession e) s = Some (Ret s') /\ like c' s'.
Proof using.
  clear Hdef. intros (Hrx & Hep & Hst & Hrun & Happ) Hr Hex. cbn [stepping_exec]. unfold possible. rewrite Hrun.
  replace (match e with SRead false _ => false | _ => true end) with true by by destruct e as [| |[]| | |].
  destruct e as [e|ec ok|[] data| | |]; cbn [completes_read sess_exec] in *; try done; rewrite ?Hep; cbn [forget tx timer_armed timers_fired].
  - destruct (send_path_only e); [|done]. rewrite send_exec_forget.
    destruct (send_exec e (ep c)) as [[s1| | | |]|] eqn:Hs; try done. injection Hex as <-. cbn [mbind outcome_bind].
    eexists. split; [reflexivity|]. split; [done|]. split; [done|]. split; [done|]. split; [done|].
    cbn [ss_app ep]. rewrite Happ. revert Hs. unfold send_exec. destruct e;
      try (destruct (exec _ (tx (ep c))) as [[]|]; try done; by intros [= <-]).
    destruct (own_sends (own (ep c))).
    + destruct (exec _ (tx (ep c))) as [[]|]; try done. by intros [= <-].
    + destruct (threads _ !! t); [done|]. by intros [= <-].
  - destruct (write_op (tx (ep c))); [|done]. destruct (_ || _); [|done].
    destruct (write_handler _ _ _) as [[p mc]| | | |]; try done. injection Hex as <-. cbn [mbind outcome_bind].
    eexists. split; [reflexivity|]. cbn [ss_session ss_running ss_app].
    split; [done|]. split; [|split; [done|split; [done|]]]; cbn [ep].
    + change (set_tx p (forget (ep c))) with (forget (set_tx p (ep c))). destruct mc; [apply close_forget|done].
    + rewrite Happ. destruct mc; [by rewrite close_app|done].
  - destruct Hrx as (Hd & Hop & _). rewrite Hop. destruct (read_op (rx c)) as [[off room]|] eqn:Hop0; [|done].
    cbn [orb] in *. unfold read_handler in *. rewrite Hop. rewrite Hop0 in Hex. cbn in *. injection Hex as <-.
    eexists. split; [reflexivity|]. split; [|split; [|split; [done|split; [done|]]]].
    + split; [done|]. split; [done|]. by intros [].
    + apply close_forget.
    + cbn [ss_app ep]. change (ep_close (ep c)) with (close (ep c)). by rewrite close_app.
  - destruct (timer_armed (ep c)); [|done]. injection Hex as <-. by eexists.
  - destruct (timers_fired (ep c)) as [|j]; [done|]. injection Hex as <-. eexists. split; [reflexivity|].
    split; [done|]. split; [|split; [done|split; [done|]]]; cbn [ss_session ss_app ep timer_handler negb].
    + apply (close_forget (set_timer (timer_armed (ep c)) j (ep c))).
    + by rewrite close_app.
  - injection Hex as <-. eexists. split; [reflexivity|].
    split; [done|]. split; [|split; [done|split; [done|]]]; cbn [ss_session ss_app ep].
    + apply close_forget.
    + by rewrite close_app.
Qed.

(** The strand is at [p], on the endpoint [e]. *)
Record at_prog (t : nat) (data : list byte) (todo : list (list byte)) (r : rx_state) (st : bool)
    (p : app_prog (A * list byte)) (e : endpoint X A) (s : stepping) : Prop := {
  at_running : ss_running s = Some (Running t data p todo);
  at_ep : ep (ss_session s) = forget e;
  at_thread : threads (tx e) !! t = None;
  at_rx : rx (ss_session s) = r;
  at_started : started (ss_session s) = st;
  at_app : ss_app s = app e;
}.

(** A statement that does not end the call. *)
Lemma send_on s t data d k todo ev p p' x :
  ss_running s = Some (Running t data (CallSend d k) todo) -> tx (ep (ss_session s)) = p ->
  next_statement t d p = ev -> (match ev with EvSend _ _ => own_sends (own (ep (ss_session s))) = true | _ => True end) ->
  exec ev p = Some (Ret p') -> threads p' !! t = Some x ->
  stepping_exec XStatement s = Some (Ret
    (Stepping (Session (rx (ss_session s)) (set_tx p' (ep (ss_session s))) (started (ss_session s)))
       (ss_app s) (ss_running s) (ss_calls s))).
Proof using.
  intros Hr <- <- Hsend Hex Hx.
  rewrite (send_statement_step s t data d k todo (set_tx p' (ep (ss_session s))) Hr).
  - cbn [tx set_tx]. rewrite Hx, Hr. by destruct (threads (tx (ep (ss_session s))) !! t).
  - unfold send_exec. destruct (next_statement _ _ _); rewrite Hex; try done. by rewrite Hsend.
Qed.

Lemma call_steps t data todo r st d k e s :
  at_prog t data todo r st (CallSend d k) e s ->
  match ep_send d e with
  | Ret (res, e') => exists s', goes_on s s' /\ at_prog t data todo r st (k res) e' s'
  | Hang => exists s', goes_on s s' /\ starved s'
  | _ => True
  end.
Proof using.
  intros [Hr Hep Ht Hrx Hst Happ]. unfold whole_sender, session_sender. cbn [ep_send].
  assert (tx (ep (ss_session s)) = tx e) as Htx by by rewrite Hep.
  destruct (own_sends (own e)) eqn:Hos.
  2: { eexists. split.
    - eapply goes_on_step; [|apply goes_on_refl]. eapply (send_statement_step _ _ _ _ _ _ (forget e)); [exact Hr|].
      unfold next_statement. rewrite Hep. cbn [forget tx]. rewrite Ht. cbn [send_exec forget own tx]. by rewrite Hos, Ht.
    - rewrite Htx. cbn [forget tx]. rewrite Ht. by split. }
  unfold send_in_strand. destruct (is_open (tx e)) eqn:Ho.
  2: { eexists. split.
    - eapply goes_on_step; [|apply goes_on_refl]. eapply (send_statement_step _ _ _ _ _ _ (set_tx (tx e) (forget e))); [exact Hr|].
      unfold next_statement. rewrite Hep. cbn [forget tx]. rewrite Ht. cbn [send_exec forget own tx exec]. by rewrite Hos, Ht, Ho.
    - rewrite Htx. cbn [forget tx set_tx]. rewrite Ht. cbn [mbind outcome_bind]. by split. }
  set (p1 := set_threads (<[t := Popping d]> (threads (tx e))) (tx e)).
  assert (stepping_exec XStatement s = Some (Ret
    (Stepping (Session r (set_tx p1 (forget e)) st) (ss_app s) (ss_running s) (ss_calls s)))) as H1.
  { rewrite <- Hrx, <- Hst, <- Hep. eapply (send_on s t data d k todo (EvSend t d) (tx e)); [done|done| | | |].
    - unfold next_statement. by rewrite Ht.
    - by rewrite Hep.
    - cbn [exec]. by rewrite Ht, Ho.
    - apply lookup_insert_eq. }
  destruct (buffer_pool_ (tx e)) as [|b pool] eqn:Hp.
  { eexists. split; [eapply goes_on_step; [exact H1|apply goes_on_refl]|].
    eexists _, d, k. split; [exact Hr|]. split; [done|]. split; [apply lookup_insert_eq|done]. }
  destruct (heap (tx e) !! b) as [old|] eqn:Hb; [|done]. cbn [mbind outcome_bind].
  set (p2 := set_threads (<[t := Copying d b]> (threads p1)) (set_storage (heap p1) pool (send_queue_ p1) p1)).
  set (p3 := set_threads (<[t := Posting d b]> (threads p2))
               (set_storage (<[b := d]> (heap p2)) (buffer_pool_ p2) (send_queue_ p2) p2)).
  eexists. split.
  - eapply goes_on_step; [exact H1|]. eapply goes_on_step.
    { eapply (send_on _ t data d k todo (EvPop t) p1 p2); [exact Hr|done| |done| |apply lookup_insert_eq].
      - unfold next_statement, p1. cbn [threads set_threads]. by rewrite lookup_insert_eq.
      - cbn [exec]. unfold p1 at 1. cbn [threads set_threads]. rewrite lookup_insert_eq.
        unfold p1 at 1. cbn [buffer_pool_ set_threads]. by rewrite Hp. }
    eapply goes_on_step.
    { eapply (send_on _ t data d k todo (EvCopy t) p2 p3); [exact Hr|done| |done| |apply lookup_insert_eq].
      - unfold next_statement, p2. cbn [threads set_threads]. by rewrite lookup_insert_eq.
      - cbn [exec]. unfold p2 at 1. cbn [threads set_threads]. rewrite lookup_insert_eq.
        unfold p2 at 1, p1. cbn [heap set_threads set_storage]. by rewrite Hb. }
    eapply goes_on_step; [|apply goes_on_refl].
    eapply (send_statement_step _ t data d k todo); [exact Hr|].
    unfold next_statement. cbn [ss_session ep set_tx tx]. unfold p3 at 1. cbn [threads set_threads].
    rewrite lookup_insert_eq. cbn [send_exec exec tx set_tx]. unfold p3 at 1. cbn [threads set_threads].
    rewrite lookup_insert_eq. reflexivity.
  - cbn [ss_session ep set_tx tx rx started threads set_threads ss_app ss_calls]. unfold p3 at 1. cbn [threads set_threads].
    rewrite lookup_insert_eq, lookup_delete_eq.
    split; try done. cbn [ss_session ep forget set_tx tx own timer_armed timers_fired app]. f_equal.
    unfold p3, p2, p1. cbn. rewrite !insert_insert_eq, delete_insert_id by done. by destruct (tx e).
Qed.

Lemma callback_steps t data todo r st p e s :
  at_prog t data todo r st p e s ->
  match interp p e with
  | Ret (res, e') => exists s', goes_on s s' /\ at_prog t data todo r st (Return res) e' s'
  | Hang => never_fails p -> exists s', goes_on s s' /\ starved s'
  | _ => True
  end.
Proof using.
  revert e s. induction p as [res|d k IH|k IH|fl]; intros e s Hat; cbn [interp].
  - exists s. split; [apply goes_on_refl|done].
  - pose proof (call_steps t data todo r st d k e s Hat) as Hcall.
    destruct (ep_send d e) as [[res e1]| | | |]; cbn [mbind outcome_bind]; try done.
    destruct Hcall as (s1 & H1 & Hat1). specialize (IH res e1 s1 Hat1).
    destruct (interp (k res) e1) as [[res' e2]| | | |]; try done.
    + destruct IH as (s2 & H2 & Hat2). exists s2. split; [by eapply goes_on_trans|done].
    + intros Hnf. destruct (IH (Hnf res)) as (s2 & H2 & Hst2). exists s2. split; [by eapply goes_on_trans|done].
  - destruct Hat as [Hr Hep Ht Hrx Hst Happ].
    set (s1 := Stepping (Session r (forget (close e)) st) (ss_app s) (Some (Running t data k todo)) (ss_calls s)).
    assert (stepping_exec XStatement s = Some (Ret s1)) as H1.
    { cbn [stepping_exec]. rewrite Hr. cbn [statement sess_exec mbind outcome_bind].
      by rewrite Hep, Hrx, Hst, close_forget. }
    assert (at_prog t data todo r st k (close e) s1) as Hat1.
    { split; try done; [by rewrite close_tx|]. cbn [ss_app s1]. by rewrite close_app. }
    specialize (IH (close e) s1 Hat1). change (ep_close e) with (close e).
    destruct (interp k (close e)) as [[res e1]| | | |]; try done.
    + destruct IH as (s2 & H2 & Hat2). exists s2. split; [by eapply goes_on_step|done].
    + intros Hnf. destruct (IH Hnf) as (s2 & H2 & Hst2). exists s2. split; [by eapply goes_on_step|done].
  - destruct fl; cbn [fail_as never_fails]; try done.
Qed.

Abbreviation whole_callback := (recv_callback (X := X) read_timeout_ on_recv_).

(** The callbacks of one read. *)
Lemma messages_steps cb t data m todo r st e s :
  on_recv_ = Some cb -> Forall (well_framed (header_size_ cfg) (max_message_size_ cfg) f) (m :: todo) ->
  at_prog t data todo r st (begin_callback (app e) m) e s ->
  match deliver_all whole_callback e (m :: todo) with
  | Ret e' => exists s' a m' , goes_on s s' /\ ss_running s' = Some (Running t data (Return (a, m')) []) /\
      a = app e' /\ ep (ss_session s') = forget e' /\ rx (ss_session s') = r /\ started (ss_session s') = st
  | Hang => exists s', goes_on s s' /\ starved s'
  | _ => True
  end.
Proof using Hdef.
  intros Hcb.
  assert (forall e m ms, deliver_all whole_callback e (m :: ms) =
    ('(a, _, e') ← interp (app_on_recv cb (app e) m) e; deliver_all whole_callback (set_app a e') ms)) as Hcons.
  { intros e0 m0 ms. cbn [deliver_all]. unfold recv_callback at 1. rewrite Hcb. cbn [lift_callback rc_call].
    by destruct (interp (app_on_recv cb (app e0) m0) e0) as [[[a m'] e1]| | | |]. }
  revert m e s. induction todo as [|m1 todo IH]; intros m e s Hms Hat; rewrite Hcons;
    pose proof (callback_steps t data _ r st _ e s Hat) as Hsteps;
    unfold begin_callback in Hsteps; rewrite Hcb in Hsteps;
    (destruct (interp (app_on_recv cb (app e) m) e) as [[[a m'] e1]| | | |]; cbn [mbind outcome_bind]; try done;
     [|apply Hsteps; apply (Hdef cb Hcb); by inversion Hms]);
    destruct Hsteps as (s1 & H1 & [Hr Hep Ht Hrx Hst Happ]).
  - by exists s1, a, m'.
  - set (s2 := Stepping (ss_session s1) a (Some (Running t data (begin_callback a m1) todo)) (ss_calls s1)).
    assert (stepping_exec XStatement s1 = Some (Ret s2)) as H2.
    { cbn [stepping_exec]. rewrite Hr. reflexivity. }
    assert (at_prog t data todo r st (begin_callback (app (set_app a e1)) m1) (set_app a e1) s2) as Hat2 by by split.
    apply Forall_cons in Hms as [_ Hms']. specialize (IH m1 (set_app a e1) s2 Hms' Hat2).
    destruct (deliver_all whole_callback (set_app a e1) (m1 :: todo)) as [e2| | | |]; try done.
    + destruct IH as (s3 & a' & m'' & H3 & Hrest). exists s3, a', m''. split; [|done].
      eapply goes_on_trans; [exact H1|]. by eapply goes_on_step.
    + destruct IH as (s3 & H3 & Hst3). exists s3. split; [|done].
      eapply goes_on_trans; [exact H1|]. by eapply goes_on_step.
Qed.

(** What a read leaves depends on the callback only through the endpoint. *)
Lemma process_post_alike cb r r' ms e (s1 : endpoint X A) r1 s1' r2 s2' :
  on_recv_ = Some cb -> delivered r' = delivered r -> size_of (recv_buffer_ r') = size_of (recv_buffer_ r) ->
  process_post whole_callback (idle r) ms e s1 (r1, s1') ->
  process_post (St := endpoint X unit) (StreamEndpoint0 := session_endpoint read_timeout_)
    (recv_callback read_timeout_ (Some no_handler)) (idle r') ms e (forget s1) (r2, s2') ->
  same_rx r1 r2 /\ s2' = forget s1' /\ app s1' = app s1.
Proof using.
  clear Hn. intros Hcb Hd Hs (Hwf1 & Hd1 & H1) (Hwf2 & Hd2 & H2).
  assert (delivered r2 = delivered r1) as Hdel.
  { rewrite Hd1, Hd2. cbn [idle delivered]. unfold recv_callback, seen. by rewrite Hcb, Hd. }
  destruct e as [rest|rest].
  - destruct H1 as (Hp1 & -> & Ho1 & _ & Hs1), H2 as (Hp2 & -> & Ho2 & _ & Hs2).
    pose proof (size_pending r1 0 Hwf1 ltac:(destruct Hwf1; lia)) as Ha1.
    pose proof (size_pending r2 0 Hwf2 ltac:(destruct Hwf2; lia)) as Ha2.
    assert (active_bytes_ r2 = active_bytes_ r1) as Ha by (rewrite Hp1 in Ha1; rewrite Hp2 in Ha2; lia).
    cbn [idle recv_buffer_] in Hs1, Hs2. rewrite Hs, Ha in Hs2. split; [|split].
    + split; [done|]. split; [by rewrite Ho1, Ho2, Ha, Hs1, Hs2|]. intros _. split; [by rewrite Hp1, Hp2|].
      split; [done|]. by rewrite Hs1, Hs2.
    + apply reset_read_timeout_forget.
    + cbn. unfold reset_read_timeout. by destruct (0 <? read_timeout_)%Z.
  - destruct H1 as (-> & Ho1 & _), H2 as (-> & Ho2 & _). cbn [idle read_op] in *. split; [|split].
    + split; [done|]. split; [by rewrite Ho1, Ho2|]. rewrite Ho1. by intros [].
    + apply close_forget.
    + apply close_app.
Qed.

Abbreviation whole_inv := (sess_inv (X := X) (A := A) cfg read_timeout_ n).

(** What an outcome of the one-step machine is here. *)
Definition matched (s : stepping) (o : outcome whole_session) : Prop :=
  match o with
  | Ret c' => exists es s', stepping_run es s = Some s' /\ like c' s'
  | Hang => exists es s', stepping_run es s = Some s' /\ starved s'
  | _ => False
  end.

(** The last statement of a read. *)
Lemma read_finished cb s t data a m off room ms e (c : whole_session) (s1 : endpoint X A) r1 s1' :
  on_recv_ = Some cb -> stepping_inv false s -> ss_running s = Some (Running t data (Return (a, m)) []) ->
  ep (ss_session s) = forget s1 -> a = app s1 -> same_rx (rx c) (rx (ss_session s)) ->
  started (ss_session s) = started c ->
  read_op (rx (ss_session s)) = Some (off, room) -> (0 < size_of data <= room)%Z ->
  framed (pending (rx (ss_session s)) 0 ++ data) ms e ->
  process_post whole_callback (idle (rx c)) ms e s1 (r1, s1') ->
  exists s', stepping_exec XStatement s = Some (Ret s') /\ like (Session r1 s1' (started c)) s'.
Proof using Hf Hlim.
  clear Hdef Hsends Hown. intros Hcb Hs Hr Hep -> (Hd & Hop & Hrx) Hst Hop' Hdata Hfr Hpost.
  destruct (quiet_read cfg read_timeout_ n f _ data off room ms e Hf Hlim (si_session _ _ Hs) Hop' Hdata Hfr)
    as (r' & s' & Hex & Hpost').
  destruct Hrx as (_ & _ & Hsz); [rewrite <- Hop; eauto|]. rewrite Hep in Hpost'.
  destruct (process_post_alike cb _ _ ms e s1 r1 s1' r' s' Hcb Hd Hsz Hpost Hpost') as (Hsame & Hs' & Happ).
  eexists. split.
  - cbn [stepping_exec]. rewrite Hr. cbn [statement]. unfold finish_callbacks. rewrite Hex. reflexivity.
  - split; [exact Hsame|]. split; [exact Hs'|]. split; [exact Hst|]. split; [done|]. by cbn [ss_app ep].
Qed.

Lemma like_read cb c s data o :
  on_recv_ = Some cb -> whole_inv c -> stepping_inv false s -> like c s ->
  whole_exec (SRead false data) c = Some o -> matched s o.
Proof using Hn Hf Hlim Hdef Hsends.
  clear Hown. intros Hcb Hc Hs (Hrx & Hep & Hst & Hrun & Happ) Hex.
  pose proof (sess_exec_inv cfg read_timeout_ on_recv_ n Hn f Hf Hlim Hdef _ c o Hc Hex) as Hgood.
  assert (exists off room, read_op (rx c) = Some (off, room) /\ (0 < size_of data <= room)%Z) as (off & room & Hop & Hdata).
  { revert Hex. cbn [sess_exec]. destruct (read_op (rx c)) as [[off room]|]; [|done]. cbn [orb].
    destruct (_ && _) eqn:Hd; [|done]. intros _. exists off, room. split; [done|lia]. }
  destruct (frames_total (header_size_ cfg) (max_message_size_ cfg) f ltac:(apply Hlim) (pending (rx c) 0 ++ data))
    as (ms & e & Hfr).
  pose proof (session_read cfg read_timeout_ on_recv_ n f Hf Hlim c data off room ms e Hc Hop Hdata Hfr) as Hspec.
  change (outcome_rel (process_post whole_callback (idle (rx c)) ms e) (deliver_all whole_callback (ep c) ms)
            (read_handler cfg whole_callback (rx c) false data (ep c))) in Hspec.
  assert (o = ('(r, s) ← read_handler cfg whole_callback (rx c) false data (ep c); Ret (Session r s (started c)))) as ->.
  { revert Hex. cbn [sess_exec]. rewrite Hop. replace ((0 <? size_of data) && (size_of data <=? room))%Z with true by lia.
    by intros [= <-]. }
  destruct Hrx as (Hd & Hop' & Hrx). destruct (Hrx ltac:(rewrite Hop; eauto)) as (Hpend & Hact & Hsz).
  assert (read_op (rx (ss_session s)) = Some (off, room)) as Hop2 by congruence.
  assert (framed (pending (rx (ss_session s)) 0 ++ data) ms e) as Hfr2 by by rewrite Hpend.
  destruct (quiet_read cfg read_timeout_ n f _ data off room ms e Hf Hlim (si_session _ _ Hs) Hop2 Hdata Hfr2)
    as (r2 & s2 & Hex2 & Hpost2).
  set (t := fresh (dom (threads (tx (ep (ss_session s)))))).
  assert (threads (tx (ep (ss_session s))) !! t = None) as Ht by apply not_elem_of_dom, is_fresh.
  assert (delivered r2 = delivered (rx (ss_session s)) ++ ms) as Hd2 by apply Hpost2.
  destruct ms as [|m todo].
  - cbn [deliver_all] in Hspec. inversion Hspec as [? [r1 s1'] Hpost Heq1 Heq2| | | |]. subst.
    cbn [mbind outcome_bind matched].
    rewrite Hep in Hpost2.
    destruct (process_post_alike cb _ _ [] e (ep c) r1 s1' r2 s2 Hcb Hd Hsz Hpost Hpost2) as (Hsame & Hs' & Happ').
    exists [XRead t data]. eexists. split.
    + cbn [stepping_run stepping_exec]. rewrite Hrun, Ht, Hex2. cbn [mbind outcome_bind rx].
      by rewrite Hd2, drop_app_length.
    + split; [exact Hsame|]. split; [exact Hs'|]. split; [exact Hst|]. split; [done|]. cbn [ss_app ep]. congruence.
  - set (s1 := Stepping (ss_session s) (ss_app s) (Some (Running t data (begin_callback (ss_app s) m) todo)) (ss_calls s)).
    assert (stepping_exec (XRead t data) s = Some (Ret s1)) as H1.
    { cbn [stepping_exec]. rewrite Hrun, Ht, Hex2. cbn [mbind outcome_bind rx]. by rewrite Hd2, drop_app_length. }
    destruct (stepping_exec_inv false (XRead t data) _ _ ltac:(done) Hs H1) as (s1' & [= <-] & Hs1).
    assert (at_prog t data todo (rx (ss_session s)) (started (ss_session s)) (begin_callback (app (ep c)) m) (ep c) s1) as Hat.
    { split; try done; [by rewrite <- Happ|by rewrite Hep in Ht]. }
    pose proof (messages_steps cb t data m todo _ _ _ s1 Hcb (frames_well_framed _ _ _ _ _ _ Hfr) Hat) as Hsteps.
    destruct Hspec as [s3 [r3 s3'] Hpost|x| | |]; cbn [mbind outcome_bind matched ret_or_hang] in *; try done.
    + destruct Hsteps as (s4 & a & m' & (es & _ & Hes) & Hr4 & Ha4 & Hep4 & Hrx4 & Hst4).
      pose proof (stepping_run_inv false es s1 s4 ltac:(done) Hs1 Hes) as Hs4.
      destruct (read_finished cb s4 t data a m' off room (m :: todo) e c s3 r3 s3' Hcb Hs4 Hr4 Hep4 Ha4)
        as (s5 & H5 & Hlike); rewrite ?Hrx4; try done; [by rewrite Hst4|].
      exists ([XRead t data] ++ es ++ [XStatement]), s5. split; [|exact Hlike].
      rewrite (stepping_run_app [XRead t data] _ s s1) by (cbn [stepping_run]; by rewrite H1).
      rewrite (stepping_run_app es _ s1 s4 Hes). cbn [stepping_run]. by rewrite H5.
    + destruct Hsteps as (s4 & (es & _ & Hes) & Hst4). exists ([XRead t data] ++ es), s4. split; [|exact Hst4].
      by rewrite (stepping_run_app [XRead t data] _ s s1) by (cbn [stepping_run]; by rewrite H1).
Qed.

(** One-step runs. *)
Fixpoint whole_run (es : list sess_event) (c : whole_session) : option whole_session :=
  match es with
  | [] => Some c
  | e :: es => match whole_exec e c with Some (Ret c') => whole_run es c' | _ => None end
  end.

Lemma like_exec cb e c s o :
  on_recv_ = Some cb -> whole_inv c -> stepping_inv false s -> like c s -> whole_exec e c = Some o -> matched s o.
Proof using Hn Hf Hlim Hdef Hsends.
  clear Hown. intros Hcb Hc Hs Hlike Hex. destruct (completes_read e) eqn:Hr.
  - destruct e as [| |[] data| | |]; try done. by eapply like_read.
  - pose proof (sess_exec_inv cfg read_timeout_ on_recv_ n Hn f Hf Hlim Hdef e c o Hc Hex) as Hgood.
    destruct o as [c'| | | |]; cbn [ret_or_hang] in Hgood; try done.
    + destruct (like_step e c c' s Hlike Hr Hex) as (s' & Hs' & Hlike'). exists [XSession e], s'.
      cbn [stepping_run]. by rewrite Hs'.
    + destruct (sess_exec_hang cfg read_timeout_ on_recv_ n Hn e c Hc Hex) as [data ->]. done.
Qed.

Lemma like_run cb es c c' s :
  on_recv_ = Some cb -> whole_inv c -> stepping_inv false s -> like c s -> whole_run es c = Some c' ->
  exists es' s', stepping_run es' s = Some s' /\ like c' s' /\ stepping_inv false s' /\ whole_inv c'.
Proof using Hn Hf Hlim Hdef Hsends.
  clear Hown. intros Hcb. revert c s. induction es as [|e es IH]; intros c s Hc Hs Hlike; cbn [whole_run].
  { intros [= <-]. by exists [], s. }
  destruct (whole_exec e c) as [[c1| | | |]|] eqn:Hex; try done. intros Hrun.
  destruct (like_exec cb e c s _ Hcb Hc Hs Hlike Hex) as (es1 & s1 & H1 & Hlike1).
  pose proof (stepping_run_inv false es1 s s1 ltac:(done) Hs H1) as Hs1.
  assert (whole_inv c1) as Hc1.
  { by apply (sess_exec_inv cfg read_timeout_ on_recv_ n Hn f Hf Hlim Hdef e c (Ret c1)). }
  destruct (IH c1 s1 Hc1 Hs1 Hlike1 Hrun) as (es2 & s2 & H2 & Hrest). exists (es1 ++ es2), s2.
  split; [|done]. by rewrite (stepping_run_app es1 es2 s s1 H1).
Qed.

Lemma like_init : like (TcpSession.start read_timeout_ (session_init (pipe_init n) x0 a0)) (stepping_init n x0 a0).
Proof using.
  split; [done|]. split; [apply (reset_read_timeout_forget (ep (session_init (pipe_init n) x0 a0)))|].
  split; [done|]. split; [done|]. cbn. unfold reset_read_timeout. by destruct (0 <? read_timeout_)%Z.
Qed.

Lemma whole_init_inv : whole_inv (TcpSession.start read_timeout_ (session_init (pipe_init n) x0 a0)).
Proof using Hlim Hown. apply start_inv; [exact Hlim| |done]. by apply session_init_inv; [constructor|]. Qed.

End Steps.

(** ** Properties *)

Section Properties.

Context `{!CircularBuffer} {X A : Type} `{!Owner X}.
Context (cfg : framing_config) (read_timeout_ : Z) (on_recv_ : option (app_callback A)).
Context (n : nat) (f : list byte -> Z) (x0 : X) (a0 : A).

Abbreviation exec_steps := (stepping_exec cfg read_timeout_ on_recv_).
Abbreviation run_steps := (stepping_run cfg read_timeout_ on_recv_).
Abbreviation init := (stepping_init read_timeout_ n x0 a0).

(** C16: what callbacks do with [send].  At any time of any run, whatever other threads
    do between the statements of the callbacks: the callbacks have run on the messages
    that the reads completed, one after another; each of their calls of [send] has had the
    answer that they went on with; the messages of the calls answered with success have
    been accepted in that order, among those of other threads, and they are all that has
    been accepted when no other thread sends; a call is refused only with [not_connected],
    and none is while the socket is open.  The wire carries a prefix of what has been
    accepted. *)
Theorem callbacks_served es s :
  n <= pool_capacity -> get_total_size_ cfg = Some f -> small_limits cfg -> callback_defined cfg f on_recv_ ->
  own_inv true x0 -> own_sends x0 = true -> run_steps es init = Some s ->
  let p := tx (ep (ss_session s)) in
  (exists ms tr, served on_recv_ a0 ms tr (ss_app s) /\ delivered (rx (ss_session s)) `prefix_of` ms /\
     tr `prefix_of` ss_calls s /\
     (ss_running s = None -> ms = delivered (rx (ss_session s)) /\ tr = ss_calls s)) /\
  taken (ss_calls s) `sublist_of` accepted p /\ wire p `prefix_of` List.concat (accepted p) /\
  Forall (fun c => c.2 = ok \/ c.2 = error_of not_connected) (ss_calls s) /\
  (is_open p = true -> Forall (fun c => c.2 = ok) (ss_calls s)) /\
  (Forall alone_event es -> accepted p = taken (ss_calls s)).
Proof.
  intros Hn%pool_fits Hf Hlim Hdef Hown Hsends Hrun p.
  assert (forall alone, (alone = true -> Forall alone_event es) ->
    stepping_inv cfg read_timeout_ on_recv_ n f x0 a0 alone s) as Hinv.
  { intros alone Hal.
    apply (stepping_run_inv cfg read_timeout_ on_recv_ n Hn f Hf Hlim Hdef x0 a0 Hsends alone es init); [done| |done].
    by apply stepping_init_inv. }
  destruct (Hinv false ltac:(done)) as [Hc [H1 H2 H3 _] Hr].
  split; [|split; [done|split; [|split; [done|split; [by intros Ho; destruct (H3 Ho)|]]]]].
  - destruct (ss_running s) as [r|].
    + destruct Hr as (don & m & e & off & room & tr & tr' & _ & _ & _ & -> & Hs & _).
      exists (delivered (rx (ss_session s)) ++ don), tr. split; [done|].
      split; [by apply prefix_app_r|]. split; [by apply prefix_app_r|done].
    + by exists (delivered (rx (ss_session s))), (ss_calls s).
  - apply (inv_wire n), (reachable_inv n _ Hn), Hc.
  - intros Hal. by apply (ci_alone _ _ _ _ _ _ (si_calls _ _ _ _ _ _ _ _ _ (Hinv true ltac:(done)))).
Qed.

(** C22: how a callback ends.  No step is undefined, throws or loops.  From any state of
    any run the strand that handles a read goes on by itself until the read is done, or
    until a callback is in [send] and the pool is empty; and there, in the loop that waits
    for a buffer, it stays for ever, whatever other threads, the kernel and the clock do:
    only the strand gives buffers back. *)
Theorem callback_ends_or_starves es s :
  n <= pool_capacity -> get_total_size_ cfg = Some f -> small_limits cfg -> callback_defined cfg f on_recv_ ->
  own_inv true x0 -> own_sends x0 = true -> run_steps es init = Some s ->
  (forall e o, exec_steps e s = Some o -> exists s', o = Ret s') /\
  (exists es' s', Forall (fun e => e = XStatement) es' /\ run_steps es' s = Some s' /\
     (ss_running s' = None \/ starved s')) /\
  (starved s -> forall es' s', run_steps es' s = Some s' ->
     starved s' /\ ss_running s' = ss_running s /\ ss_app s' = ss_app s /\ ss_calls s' = ss_calls s).
Proof.
  intros Hn%pool_fits Hf Hlim Hdef Hown Hsends Hrun.
  assert (stepping_inv cfg read_timeout_ on_recv_ n f x0 a0 false s) as Hs.
  { apply (stepping_run_inv cfg read_timeout_ on_recv_ n Hn f Hf Hlim Hdef x0 a0 Hsends false es init); [done| |done].
    by apply stepping_init_inv. }
  split; [|split].
  - intros e o Hex. by destruct (stepping_exec_inv cfg read_timeout_ on_recv_ n Hn f Hf Hlim Hdef x0 a0 Hsends
      false e s o ltac:(done) Hs Hex) as (s' & -> & _); eauto.
  - destruct (ss_running s) as [[t data p todo]|] eqn:Hr; [|by exists [], s; auto].
    destruct (read_comes_back cfg read_timeout_ on_recv_ n Hn f Hf Hlim Hdef x0 a0 Hsends false s t data p todo Hs Hr)
      as (s' & (es' & He & Hes') & Hend). exists es', s'. split; [done|]. split; [done|]. destruct Hend; auto.
  - intros Hst es' s' Hrun'.
    by destruct (starved_run cfg read_timeout_ on_recv_ es' s s' Hst Hrun') as (? & ? & ? & ? & _).
Qed.

(** C21: the one-step callback is sound.  Whatever the machine of TcpSession.v, which runs
    a callback in one step, can do, this one can do too: for every run of it there is a run
    here that ends with the same messages delivered, the same endpoint and the same
    application state; and when a step of it is [Hang], there is a run here that ends in
    the loop that waits for a buffer for ever.  It never goes wrong otherwise. *)
Theorem one_step_contained cb es c :
  n <= pool_capacity -> get_total_size_ cfg = Some f -> small_limits cfg -> callback_defined cfg f on_recv_ ->
  on_recv_ = Some cb -> own_inv true x0 -> own_sends x0 = true ->
  whole_run cfg read_timeout_ on_recv_ es (TcpSession.start read_timeout_ (session_init (pipe_init n) x0 a0)) = Some c ->
  exists es' s, run_steps es' init = Some s /\
    delivered (rx (ss_session s)) = delivered (rx c) /\ ep (ss_session s) = forget (ep c) /\
    ss_app s = app (ep c) /\ ss_running s = None /\
    forall e o, sess_exec cfg read_timeout_ on_recv_ e c = Some o ->
      match o with
      | Ret _ => True
      | Hang => exists es'' s', run_steps es'' s = Some s' /\ starved s'
      | _ => False
      end.
Proof.
  intros Hn%pool_fits Hf Hlim Hdef Hcb Hown Hsends Hrun.
  destruct (like_run cfg read_timeout_ on_recv_ n Hn f Hf Hlim Hdef x0 a0 Hsends cb es
              (TcpSession.start read_timeout_ (session_init (pipe_init n) x0 a0)) c init Hcb)
    as (es' & s & Hes' & Hlike & Hs & Hc); [by apply whole_init_inv|by apply stepping_init_inv|apply like_init|done|].
  exists es', s. split; [done|]. pose proof Hlike as ((Hd & _) & Hep & _ & Hr & Ha).
  split; [done|]. split; [done|]. split; [done|]. split; [done|]. intros e o Hex.
  pose proof (like_exec cfg read_timeout_ on_recv_ n Hn f Hf Hlim Hdef x0 a0 Hsends cb e c s o Hcb Hc Hs Hlike Hex) as Hm.
  by destruct o.
Qed.

End Properties.

(** ** Witnesses

    A connection whose callback echoes, with three buffers, then with two: a read brings
    two messages, and while the callback answers, thread 1 sends a message of its own. *)

#[local] Existing Instance overwriting_buffer.

Definition both_messages : list byte := demo_message ++ demo_message.

Definition in_between : list stepping_event :=
  [XRead 7 both_messages; XStatement;
   XSession (SSendPath (EvSend 1 [x61])); XSession (SSendPath (EvPop 1)); XSession (SSendPath (EvCopy 1));
   XStatement; XStatement; XSession (SSendPath (EvPost 1)); XStatement; XStatement; XStatement].

Definition echo_steps (n : nat) (es : list stepping_event) : stepping (X := nat) (A := unit) :=
  default (stepping_init 0 n 0 tt) (stepping_run test_config 0 (Some (responder id)) es (stepping_init 0 n 0 tt)).

Definition answered_both : stepping := echo_steps 3 (in_between ++ replicate 4 XStatement).

Definition waits_for_buffer : stepping := echo_steps 2 in_between.

Definition runs_to (n : nat) (es : list stepping_event) : bool :=
  if stepping_run test_config 0 (Some (responder id)) es (stepping_init (X := nat) 0 n 0 tt) is Some _ then true else false.

Lemma echo_steps_run n es :
  runs_to n es = true ->
  stepping_run test_config 0 (Some (responder id)) es (stepping_init 0 n 0 tt) = Some (echo_steps n es).
Proof. unfold runs_to, echo_steps. by destruct (stepping_run _ _ _ _ _). Qed.

Lemma callbacks_served_witness :
  accepted (tx (ep (ss_session answered_both))) = [[x61]; demo_message; demo_message] /\
  (taken (ss_calls answered_both)) `sublist_of` (accepted (tx (ep (ss_session answered_both)))).
Proof.
  split; [vm_compute; reflexivity|].
  apply (callbacks_served test_config 0 (Some (responder id)) 3 test_get_total_size 0 tt
           (in_between ++ replicate 4 XStatement) answered_both);
    [apply Nat2Z.inj_le; vm_compute; discriminate|reflexivity|exact test_config_small|apply responder_defined|reflexivity|reflexivity|].
  apply echo_steps_run. vm_compute. reflexivity.
Defined.

Lemma callback_ends_or_starves_witness :
  starved waits_for_buffer /\
  forall es s', stepping_run test_config 0 (Some (responder id)) es waits_for_buffer = Some s' ->
    ss_running s' = ss_running waits_for_buffer.
Proof.
  assert (starved waits_for_buffer) as Hst by (apply starvedb_starved; vm_compute; reflexivity).
  split; [exact Hst|]. intros es s' Hrun.
  destruct (callback_ends_or_starves test_config 0 (Some (responder id)) 2 test_get_total_size 0 tt
              in_between waits_for_buffer) as (_ & _ & Hever);
    [exact small_pool|reflexivity|exact test_config_small|apply responder_defined|reflexivity|reflexivity| |].
  - apply echo_steps_run. vm_compute. reflexivity.
  - by destruct (Hever Hst es s' Hrun) as (_ & ? & _).
Defined.

(** With one buffer the second answer hangs. *)
Definition one_buffer : session (X := nat) (A := unit) := TcpSession.start 0 (session_init (pipe_init 1) 0 tt).

Lemma one_step_contained_witness :
  sess_exec test_config 0 (Some (responder id)) (SRead false both_messages) one_buffer = Some Hang /\
  exists es s, stepping_run test_config 0 (Some (responder id)) es (stepping_init 0 1 0 tt) = Some s /\ starved s.
Proof.
  assert (sess_exec test_config 0 (Some (responder id)) (SRead false both_messages) one_buffer = Some Hang) as Hhang
    by (vm_compute; reflexivity).
  split; [exact Hhang|].
  destruct (one_step_contained test_config 0 (Some (responder id)) 1 test_get_total_size 0 tt (responder id) [] one_buffer)
    as (es & s & Hes & _ & _ & _ & _ & Hout);
    [apply Nat2Z.inj_le; vm_compute; discriminate|reflexivity|exact test_config_small|apply responder_defined|reflexivity|reflexivity|reflexivity|reflexivity|].
  destruct (Hout _ _ Hhang) as (es' & s' & Hes' & Hst). exists (es ++ es'), s'. split; [|exact Hst].
  by rewrite (stepping_run_app _ _ _ es es' _ s Hes).
Defined.
