(* ===== verification/ServerHandlers.v ===== *)
(** * The handlers of a TCP server application

    The lambda that [RimApplication::setup_server] registers keeps the connection from
    the handlers: all they can do with the network is [RimApplication::send], which is
    [TcpServer::broadcast], called from inside the strand of the connection whose message
    they handle.  A broadcast takes many statements and may wait, for a buffer of any
    connection; meanwhile the other strands and threads go on.  So here a handler runs
    statement by statement.

    The machine is that of TcpServer.v with strands that can be busy.  While a strand is
    in a handler, the read that it handles stays outstanding in the server's state, and
    takes its effect there when the last handler has returned: nothing outside the strand
    looks at the receive state. *)

From S2P Require Import Prelude Framing Expected SendPipeline Callbacks TcpSession TcpConnection TcpServer.
From Stdlib Require Import ZArith Lia.

Open Scope nat_scope.

(** What a program comes to when [send] does not say whether it sent, as
    [RimApplication::send] does not. *)
Fixpoint answered {R} (p : app_prog R) : outcome R :=
  match p with
  | Return r => Ret r
  | CallSend _ k => answered (k ok)
  | CallClose k => answered k
  | Fails f => fail_as f
  end.

Lemma answered_bind {R S} (p : app_prog R) (g : R -> app_prog S) :
  answered (mbind g p) = (r ← answered p; answered (g r)).
Proof. induction p as [r|d k IH|p IH|[]]; simpl; auto; by destruct (answered _). Qed.

Section Handlers.

Context `{!CircularBuffer} {A : Type}.
Context (cfg : framing_config) (read_timeout_ : Z).

(** The lambda given to [on_receive], and the state in which a new connection's handlers
    start.  No [on_connect] hook is registered. *)
Context (on_receive_ : option (app_callback A)) (a0 : A) (pool : nat).

Abbreviation base_server := (server (A := unit)).
Abbreviation base_event := (server_event (A := unit)).
Abbreviation base_exec := (server_exec cfg read_timeout_ (Some no_handler) None pool).
Abbreviation base_reachable := (server_reachable cfg read_timeout_ (Some no_handler) None pool).

(** The program that is run on a message. *)
Definition handle (a : A) (m : list byte) : app_prog (A * list byte) :=
  match on_receive_ with Some cb => app_on_recv cb a m | None => Return (a, m) end.

(** A strand inside [process_buffer]: the thread that runs it, the bytes that were read,
    what is left of the current handler, whether it is inside the call it begins with,
    and the messages after. *)
Record job := Job {
  job_thread : nat;
  job_data : list byte;
  job_prog : app_prog (A * list byte);
  job_sending : bool;
  job_todo : list (list byte);
}.

(** [states_]: what the handlers keep, by connection. *)
Record handler_server := HandlerServer {
  hs_server : base_server;
  states_ : gmap nat A;
  jobs_ : gmap nat job;
}.

Definition handlers_init (acceptor_open : bool) : handler_server :=
  HandlerServer (server_init acceptor_open) ∅ ∅.

Definition set_hs_server (v : base_server) (s : handler_server) : handler_server :=
  HandlerServer v (states_ s) (jobs_ s).

Definition set_job (c : nat) (j : job) (s : handler_server) : handler_server :=
  HandlerServer (hs_server s) (states_ s) (<[c := j]> (jobs_ s)).

Inductive handler_event :=
| HServer (e : base_event)
| HRead (t c : nat) (data : list byte)    (* a read completes; thread [t] runs its handler *)
| HSend (c : nat) (order : list nat)      (* the handler of [c] calls [send] *)
| HStep (c : nat).                        (* its call returns, or it returns itself *)

(** What happens to a connection without its strand. *)
Definition outside_strand (e : conn_event) : bool :=
  match e with
  | CSession (SSendPath (EvSend _ _ | EvPop _ | EvCopy _ | EvPost _ | EvTransmit))
  | CSession STimerExpire => true
  | _ => false
  end.

Definition completed_read (e : conn_event) : bool :=
  match e with CSession (SRead false _) => true | _ => false end.

(** Thread [t] is running a handler. *)
Definition handling (s : handler_server) (t : nat) : bool :=
  negb (bool_decide (map_Forall (fun _ j => job_thread j <> t) (jobs_ s))).

(** The events that are left as they are: not those of a busy strand or of a thread that
    runs a handler, nor completed reads, which are [HRead]. *)
Definition allowed (e : base_event) (s : handler_server) : bool :=
  match e with
  | VConn c e =>
      negb (completed_read e) &&
      (match jobs_ s !! c with Some _ => outside_strand e | None => true end) &&
      (match conn_thread e with Some t => negb (handling s t) | None => true end)
  | VAccept t _ _ _ | VBroadcast t _ _ => negb (handling s t)
  | _ => true
  end.

(** A new connection gets a handler state. *)
Definition accepted_state (e : base_event) (m : gmap nat A) : gmap nat A :=
  match e with VAccept _ false c _ => <[c := a0]> m | _ => m end.

(** The messages that a read completes. *)
Definition new_messages (v v' : base_server) (c : nat) : list (list byte) :=
  match conns v !! c, conns v' !! c with
  | Some k, Some k' => drop (length (delivered (rx k))) (delivered (rx k'))
  | _, _ => []
  end.

Definition finish_read (c : nat) (data : list byte) (s : handler_server) : option (outcome handler_server) :=
  match base_exec (VConn c (CSession (SRead false data))) (hs_server s) with
  | Some o => Some (v ← o; Ret (HandlerServer v (states_ s) (delete c (jobs_ s))))
  | None => None
  end.

Definition handler_exec (e : handler_event) (s : handler_server) : option (outcome handler_server) :=
  match e with
  | HServer e =>
      if allowed e s then
        match base_exec e (hs_server s) with
        | Some o => Some (v ← o; Ret (HandlerServer v (accepted_state e (states_ s)) (jobs_ s)))
        | None => None
        end
      else None
  | HRead t c data =>
      match jobs_ s !! c, states_ s !! c with
      | None, Some a =>
          if handling s t || negb (free_thread (hs_server s) t) then None
          else match base_exec (VConn c (CSession (SRead false data))) (hs_server s) with
               | Some o => Some (v ← o;
                   match new_messages (hs_server s) v c with
                   | [] => Ret (set_hs_server v s)
                   | m :: ms => Ret (set_job c (Job t data (handle a m) false ms) s)
                   end)
               | None => None
               end
      | _, _ => None
      end
  | HSend c order =>
      match jobs_ s !! c with
      | Some (Job t data (CallSend d k) false ms) =>
          match base_exec (VBroadcast t d order) (hs_server s) with
          | Some o => Some (v ← o; Ret (set_job c (Job t data (CallSend d k) true ms) (set_hs_server v s)))
          | None => None
          end
      | _ => None
      end
  | HStep c =>
      match jobs_ s !! c with
      | Some (Job t data p sending ms) =>
          match p with
          | Return (a, _) =>
              let s := HandlerServer (hs_server s) (<[c := a]> (states_ s)) (jobs_ s) in
              match ms with
              | [] => finish_read c data s
              | m :: ms => Some (Ret (set_job c (Job t data (handle a m) false ms) s))
              end
          | CallSend _ k =>
              if sending && negb (broadcasting (hs_server s) t)
              then Some (Ret (set_job c (Job t data (k ok) false ms) s)) else None
          | CallClose p => Some (Ret (set_job c (Job t data p false ms) s)) (* handlers have nothing to close *)
          | Fails f => Some (fail_as f)
          end
      | None => None
      end
  end.

Inductive handlers_reachable : handler_server -> Prop :=
| handlers_reach_init open : handlers_reachable (handlers_init open)
| handlers_reach_step s e s' :
    handlers_reachable s -> handler_exec e s = Some (Ret s') -> handlers_reachable s'.

Fixpoint handlers_run (es : list handler_event) (s : handler_server) : option handler_server :=
  match es with
  | [] => Some s
  | e :: es => match handler_exec e s with Some (Ret s') => handlers_run es s' | _ => None end
  end.

(** The specification: the handlers of one connection run on messages one after
    another. *)
Fixpoint serve (a : A) (ms : list (list byte)) : outcome A :=
  match ms with
  | [] => Ret a
  | m :: ms => '(a, _) ← answered (handle a m); serve a ms
  end.

Lemma serve_app a ms ms' : serve a (ms ++ ms') = (a ← serve a ms; serve a ms').
Proof.
  revert a. induction ms as [|m ms IH]; intros a; [done|]. cbn [Datatypes.app serve].
  destruct (answered (handle a m)) as [[a' m']| | | |]; simpl; [apply IH|done..].
Qed.

(** ** What a step of a connection leaves of the receive state *)

Abbreviation step_conn := (conn_step cfg read_timeout_ (Some no_handler)).

Lemma conn_step_outside ev k k' :
  outside_strand ev = true -> step_conn ev k = Some (Ret k') -> rx k' = rx k.
Proof.
  unfold conn_step. destruct ev as [|[ev|ec ok|ec data| | |]]; cbn [outside_strand]; try done; cbn [conn_exec sess_exec].
  - intros Ho. replace (send_path_only ev) with true by by destruct ev.
    destruct (send_exec ev (ep k)) as [[s| | | |]|]; try done. by intros [= <-].
  - intros _. destruct (timer_armed (ep k)); [|done]. by intros [= <-].
Qed.

Lemma conn_step_delivered ev k k' :
  completed_read ev = false -> step_conn ev k = Some (Ret k') -> delivered (rx k') = delivered (rx k).
Proof.
  unfold conn_step. destruct ev as [|[ev|ec ok|[] data| | |]]; cbn [completed_read]; try done; intros _;
    cbn [conn_exec sess_exec].
  - destruct (started k); [done|]. by intros [= <-].
  - destruct (send_path_only ev); [|done].
    destruct (send_exec ev (ep k)) as [[s| | | |]|]; try done. by intros [= <-].
  - destruct (write_op (tx (ep k))); [|done]. destruct (_ || _); [|done].
    destruct (write_handler _ _ _) as [[p mc]| | | |]; try done. by intros [= <-].
  - destruct (read_op (rx k)) as [[off room]|] eqn:Hop; [|done]. cbn [orb].
    unfold read_handler. rewrite Hop. cbn. by intros [= <-].
  - destruct (timer_armed (ep k)); [|done]. by intros [= <-].
  - destruct (timers_fired (ep k)); [done|]. by intros [= <-].
  - by intros [= <-].
Qed.

Lemma next_send_outside t d (k : connection unit) :
  outside_strand (CSession (SSendPath (next_send t d k))) = true.
Proof. unfold next_send. by destruct (threads (tx (ep k)) !! t) as [[]|]. Qed.

(** ** Threads *)

Lemma free_thread_iff (v : base_server) t :
  free_thread v t = true <-> busy v t = false /\ only_sends (conns v) t None.
Proof.
  unfold free_thread. rewrite andb_true_iff, negb_true_iff, bool_decide_eq_true. split; intros [H1 H2]; (split; [done|]).
  - intros c k s Hk Hs. by rewrite (map_Forall_lookup_1 _ _ _ _ H2 Hk) in Hs.
  - intros c k Hk. destruct (threads (tx (ep k)) !! t) as [s|] eqn:Hs; [|done].
    by specialize (H2 c k s Hk Hs).
Qed.

Lemma only_sends_none (m : gmap nat (connection unit)) t call :
  only_sends m t None -> only_sends m t call.
Proof. intros Hm c k s Hk Hs. by specialize (Hm c k s Hk Hs). Qed.

(** Thread [t] does not make this step. *)
Definition not_by (t : nat) (e : base_event) : Prop :=
  match e with
  | VAccept t' _ _ _ | VBroadcast t' _ _ | VBroadcastStep t' => t' <> t
  | VConn _ e => conn_thread e <> Some t
  | _ => True
  end.

Lemma set_acceptor_setting_up pc (v : base_server) t :
  setting_up (set_acceptor pc v) t = match pc with ASetup t' _ _ => t' =? t | _ => false end.
Proof. done. Qed.

Lemma loop_accept_setting_up (v : base_server) t : setting_up (loop_accept v) t = false.
Proof. unfold loop_accept, do_accept. by destruct (acceptor_open v). Qed.

Lemma exec_setting_up e (v v' : base_server) t :
  base_exec e v = Some (Ret v') -> not_by t e -> setting_up v t = false -> setting_up v' t = false.
Proof.
  destruct e as [|t' ec c a| |c e|t' data order|t']; cbn [server_exec].
  - destruct (acceptor v); try done. intros [= <-] _. unfold TcpServer.start. by destruct (acceptor_open v).
  - destruct (acceptor v), (conns v !! c), (free_thread v t'); try done. intros [= <-] Ht _.
    unfold accept_handler. destruct ec; [apply loop_accept_setting_up|]. unfold setting_up. cbn [acceptor].
    by apply Nat.eqb_neq.
  - destruct (acceptor v) as [| |t' c prog] eqn:Hpc; try done. destruct (conns v !! c) as [k|]; [|done].
    intros Hex _. unfold setting_up. rewrite Hpc. intros Ht. revert Hex.
    destruct prog as [r|data cont|prog|[]]; cbn [setup_step fail_as]; [| | |done..].
    + destruct (step_conn CStart k) as [[k'| | | |]|]; try done. intros [= <-]. apply loop_accept_setting_up.
    + destruct (send_step _ _ _ t' data k) as [[k' res]| | | |]; try done. by intros [= <-].
    + by intros [= <-].
  - destruct (conns v !! c) as [k|]; [|done]. destruct (_ || _); [done|].
    destruct (step_conn e k) as [[k'| | | |]|]; try done. by intros [= <-].
  - destruct (_ && _); [|done]. by intros [= <-].
  - destruct (broadcasts v !! t') as [[d s0 [|c l]]|]; try done. destruct (conns v !! c) as [k|]; [|done].
    destruct (send_step _ _ _ t' d k) as [[k' res]| | | |]; try done. by intros [= <-].
Qed.

Lemma exec_broadcast_of e (v v' : base_server) t :
  base_exec e v = Some (Ret v') -> not_by t e -> broadcasts v' !! t = broadcasts v !! t.
Proof.
  intros Hex Hno. pose proof (server_exec_broadcasts _ _ _ _ pool e v v' Hex) as He.
  destruct e as [| | | |t' d order|t']; try (by rewrite He); cbn [server_exec] in Hex; cbn [not_by] in Hno.
  - destruct (_ && _); [|done]. injection Hex as <-. cbn [set_broadcasts broadcasts].
    by rewrite lookup_insert_ne.
  - destruct (broadcasts v !! t') as [[d s0 [|c l]]|]; try done. destruct (conns v !! c) as [k|]; [|done].
    destruct (send_step _ _ _ t' d k) as [[k' res]| | | |]; try done. injection Hex as <-.
    cbn [set_broadcasts broadcasts]. by rewrite lookup_insert_ne.
Qed.

Lemma exec_only_sends e (v v' : base_server) t call :
  base_exec e v = Some (Ret v') -> not_by t e -> setting_up v t = false ->
  only_sends (conns v) t call -> only_sends (conns v') t call.
Proof.
  intros Hex Hno Hset Hs.
  destruct (server_exec_conns _ _ _ _ pool e v v' Hex)
    as [(c & k & k' & ev & Hk & Hstep & -> & Hof)|[(t' & c & a & -> & Hc & ->)|[-> _]]]; [| |done].
  - eapply only_sends_step; [exact Hk|by eapply conn_step_later| |exact Hs].
    destruct e as [| | |c' ev'| |t']; try done; cbn [step_of not_by] in *.
    + destruct Hof as (t' & prog & Hpc & [->|(data & k0 & _ & ->)]); [done|].
      rewrite next_send_thread. intros [= ->]. by rewrite (setting_up_of v t c prog Hpc) in Hset.
    + by destruct Hof as (-> & -> & _).
    + destruct Hof as (d & served & todo & k0 & _ & _ & ->). rewrite next_send_thread. congruence.
  - by apply only_sends_new.
Qed.

(** The thread of a job, by where the job is. *)
Definition thread_ok (v : base_server) (j : job) : Prop :=
  setting_up v (job_thread j) = false /\
  if job_sending j then
    exists d p b, job_prog j = CallSend d p /\ broadcasts v !! job_thread j = Some b /\ b_data b = d /\
      only_sends (conns v) (job_thread j) (match b_todo b with c :: _ => Some (c, d) | [] => None end)
  else broadcasting v (job_thread j) = false /\ only_sends (conns v) (job_thread j) None.

Lemma thread_ok_step e (v v' : base_server) j :
  base_exec e v = Some (Ret v') -> not_by (job_thread j) e -> thread_ok v j -> thread_ok v' j.
Proof.
  intros Hex Hno [Hset Hj]. split; [by eapply exec_setting_up|].
  pose proof (exec_broadcast_of e v v' _ Hex Hno) as Hb.
  destruct (job_sending j).
  - destruct Hj as (d & p & b & Hp & Hbt & Hd & Ho). exists d, p, b. rewrite Hb. split_and!; [done..|].
    by eapply exec_only_sends.
  - destruct Hj as [Hnb Ho]. split; [|by eapply exec_only_sends]. unfold broadcasting in *. by rewrite Hb.
Qed.

(** ** The invariant *)

Context (Hpool : pool <= queue_capacity).
Context (f : list byte -> Z) (Hf : get_total_size_ cfg = Some f) (Hlim : small_limits cfg).
Context (Hdef : callback_defined cfg f on_receive_).

Abbreviation framed := (frames (header_size_ cfg) (max_message_size_ cfg) f).

Lemma base_inv v : base_reachable v -> server_inv cfg read_timeout_ (Some no_handler) pool v.
Proof using Hpool Hf Hlim.
  intros Hv. clear Hdef. by eapply server_reachable_inv; [..|exact Hv]; [| | |apply no_handler_defined|].
Qed.

Lemma base_sess_inv v c k :
  base_reachable v -> conns v !! c = Some k -> sess_inv cfg read_timeout_ pool k.
Proof using Hpool Hf Hlim.
  intros Hv Hk. clear Hdef.
  by eapply (tracked_inv cfg read_timeout_ (Some no_handler) None pool Hpool f Hf Hlim (no_handler_defined cfg f));
    [|apply base_inv|].
Qed.

(** What a read adds to a connection of the base machine. *)
Lemma base_read v c k off room data ms e :
  base_reachable v -> conns v !! c = Some k -> read_op (rx k) = Some (off, room) ->
  (0 < size_of data <= room)%Z -> framed (pending (rx k) 0 ++ data) ms e ->
  exists k', step_conn (CSession (SRead false data)) k = Some (Ret k') /\
    base_exec (VConn c (CSession (SRead false data))) v = Some (Ret (update c k k' v)) /\
    delivered (rx k') = delivered (rx k) ++ ms /\
    buffer_pool_ (tx (ep k')) = buffer_pool_ (tx (ep k)) /\ threads (tx (ep k')) = threads (tx (ep k)).
Proof using Hpool Hf Hlim.
  clear Hdef. intros Hv Hk Hop Hdata Hfr.
  pose proof (base_sess_inv v c k Hv Hk) as Hi.
  destruct (quiet_read cfg read_timeout_ pool f k data off room ms e Hf Hlim Hi Hop Hdata Hfr) as (r' & s' & Hstep & Hpost).
  eexists. change (sess_exec _ _ _ _ k) with (step_conn (CSession (SRead false data)) k) in Hstep.
  split; [exact Hstep|]. split.
  - cbn [server_exec]. rewrite Hk. cbn [orb conn_thread event_thread]. by rewrite Hstep.
  - destruct Hpost as (_ & Hd & Hend). split; [exact Hd|]. cbn [ep].
    destruct e; [destruct Hend as (_ & -> & _)|destruct Hend as (-> & _)].
    + cbn. by rewrite reset_read_timeout_tx.
    + change (ep_close (ep k)) with (close (ep k)). by rewrite close_tx.
Qed.

(** The handler of a connection, by where it is: [don] has been handled, [m] is being
    handled, the rest of what the read completes is to come. *)
Definition job_ok (s : handler_server) (c : nat) (j : job) : Prop :=
  exists k a don m e off room,
    conns (hs_server s) !! c = Some k /\ states_ s !! c = Some a /\
    read_op (rx k) = Some (off, room) /\ (0 < size_of (job_data j) <= room)%Z /\
    framed (pending (rx k) 0 ++ job_data j) (don ++ m :: job_todo j) e /\
    serve a0 (delivered (rx k) ++ don) = Ret a /\
    answered (job_prog j) = answered (handle a m) /\ never_fails (job_prog j) /\
    thread_ok (hs_server s) j.

Record handlers_inv (s : handler_server) : Prop := {
  hi_base : base_reachable (hs_server s);
  hi_states c : is_Some (conns (hs_server s) !! c) -> is_Some (states_ s !! c);
  hi_idle c k a : conns (hs_server s) !! c = Some k -> jobs_ s !! c = None ->
    states_ s !! c = Some a -> serve a0 (delivered (rx k)) = Ret a;
  hi_job c j : jobs_ s !! c = Some j -> job_ok s c j;
  hi_threads c c' j j' : jobs_ s !! c = Some j -> jobs_ s !! c' = Some j' ->
    job_thread j = job_thread j' -> c = c';
}.

Lemma handlers_init_inv open : handlers_inv (handlers_init open).
Proof using.
  split; [constructor|intros c [k Hk]; done|done|done|done].
Qed.

(** A handler does not see what leaves its connection's receive state alone. *)
Lemma job_ok_keep s s' c j :
  (forall k, conns (hs_server s) !! c = Some k ->
     exists k', conns (hs_server s') !! c = Some k' /\ rx k' = rx k) ->
  states_ s' !! c = states_ s !! c -> thread_ok (hs_server s') j ->
  job_ok s c j -> job_ok s' c j.
Proof using.
  intros Hconn Hst Hth (k & a & don & m & e & off & room & Hk & Ha & H1 & H2 & H3 & H4 & H5 & H6 & _).
  destruct (Hconn k Hk) as (k' & Hk' & Hrx). exists k', a, don, m, e, off, room.
  rewrite Hst, Hrx. split; [done|]. split; [done|]. split; [done|]. split; [done|].
  split; [done|]. split; [done|]. split; [done|]. by split.
Qed.

Lemma handling_false s t c j : handling s t = false -> jobs_ s !! c = Some j -> job_thread j <> t.
Proof using.
  unfold handling. intros Ht%negb_false_iff%bool_decide_eq_true Hj.
  by apply (map_Forall_lookup_1 _ _ _ _ Ht Hj).
Qed.

(** The thread of a busy strand does nothing else but its broadcast. *)
Lemma allowed_not_by e s c j :
  allowed e s = true -> jobs_ s !! c = Some j ->
  not_by (job_thread j) e \/ e = VBroadcastStep (job_thread j).
Proof using.
  intros Ha Hj. destruct e as [|t ec c0 a| |c0 e|t d order|t]; cbn [allowed not_by] in *; auto.
  - left. apply not_eq_sym. eapply handling_false; [|done]. by apply negb_true_iff.
  - left. apply andb_prop in Ha as [_ Ha]. destruct (conn_thread e) as [t|]; [|done].
    apply negb_true_iff in Ha. intros [= ->]. by apply (handling_false s _ c j Ha Hj).
  - left. apply not_eq_sym. eapply handling_false; [|done]. by apply negb_true_iff.
  - destruct (decide (t = job_thread j)) as [->|]; auto.
Qed.

(** A statement of the broadcast that the handler is inside. *)
Lemma thread_ok_own (v v' : base_server) j :
  base_reachable v -> thread_ok v j -> base_exec (VBroadcastStep (job_thread j)) v = Some (Ret v') ->
  thread_ok v' j.
Proof using Hpool Hf Hlim.
  clear Hdef. intros Hv [Hset Hj] Hex. split.
  { cbn [server_exec] in Hex. destruct (broadcasts v !! job_thread j) as [[d s0 [|c l]]|]; try done.
    destruct (conns v !! c) as [k|]; [|done].
    destruct (send_step _ _ _ (job_thread j) d k) as [[k' res]| | | |]; try done. by injection Hex as <-. }
  cbn [server_exec] in Hex. destruct (job_sending j).
  - destruct Hj as (d & p & b & Hp & Hb & Hd & Ho). rewrite Hb in Hex.
    destruct b as [d' s0 [|c l]]; [done|]. cbn [b_data b_todo] in *. subst d'.
    destruct (conns v !! c) as [k|] eqn:Hk; [|done].
    destruct (send_step_spec cfg read_timeout_ (Some no_handler) None pool Hpool f Hf Hlim (no_handler_defined cfg f)
                ltac:(by intros cb [=]) (job_thread j) d k) as (k' & res & Hs & _ & Hres).
    { by eapply base_sess_inv. }
    { intros s Hts. specialize (Ho c k s Hk Hts). by injection Ho. }
    rewrite Hs in Hex. injection Hex as <-. exists d, p. eexists. cbn [set_broadcasts broadcasts conns update].
    rewrite lookup_insert_eq. split; [done|]. split; [done|].
    destruct res as [r|]; cbn [b_data b_todo].
    + split; [done|]. destruct Hres. by eapply only_sends_return.
    + split; [done|]. by apply only_sends_own.
  - destruct Hj as [Hnb _]. destruct (broadcasts v !! job_thread j) as [[d s0 [|c l]]|] eqn:Hb; try done.
    by rewrite (broadcasting_of v _ _ c l Hb) in Hnb.
Qed.

(** What an event of the server leaves of the connections' receive states. *)
Definition conns_kept (e : base_event) (s : handler_server) (v' : base_server) : Prop :=
  forall c k', conns v' !! c = Some k' ->
  (exists k, conns (hs_server s) !! c = Some k /\ accepted_state e (states_ s) !! c = states_ s !! c /\
     delivered (rx k') = delivered (rx k) /\ (is_Some (jobs_ s !! c) -> rx k' = rx k)) \/
  (conns (hs_server s) !! c = None /\ accepted_state e (states_ s) !! c = Some a0 /\ delivered (rx k') = []).

Lemma busy_started s c : handlers_inv s -> is_Some (jobs_ s !! c) ->
  exists k, conns (hs_server s) !! c = Some k /\ started k = true.
Proof using Hpool Hf Hlim.
  clear Hdef. intros Hs [j Hj].
  destruct (hi_job s Hs c j Hj) as (k & a & don & m & e & off & room & Hk & _ & Hop & _).
  exists k. split; [done|]. pose proof (base_sess_inv _ c k (hi_base s Hs) Hk) as [_ Hfresh _].
  destruct (started k); [done|]. rewrite Hfresh in Hop; done.
Qed.

(** A busy strand is left to itself. *)
Lemma busy_outside e s c ev k k' :
  handlers_inv s -> allowed e s = true -> is_Some (jobs_ s !! c) -> step_of e (hs_server s) c ev ->
  conns (hs_server s) !! c = Some k -> step_conn ev k = Some (Ret k') -> outside_strand ev = true.
Proof using Hpool Hf Hlim.
  clear Hdef. intros Hs Ha Hj Hof Hk Hstep. destruct e as [| | |c' ev'| |t]; try done; cbn [step_of allowed] in *.
  - destruct Hof as (t & prog & _ & [->|(d & k1 & _ & ->)]); [|apply next_send_outside].
    destruct (busy_started s c Hs Hj) as (k1 & Hk1 & Hst).
    replace k1 with k in * by congruence. revert Hstep. unfold conn_step. cbn [conn_exec]. by rewrite Hst.
  - destruct Hof as (-> & -> & _). apply andb_prop in Ha as [[Ha1 Ha2]%andb_prop _].
    destruct Hj as [j Hj]. by rewrite Hj in Ha2.
  - destruct Hof as (d & s0 & l & k1 & _ & _ & ->). apply next_send_outside.
Qed.

Lemma next_send_no_read t d (k : connection unit) :
  completed_read (CSession (SSendPath (next_send t d k))) = false.
Proof using. unfold next_send. by destruct (threads _ !! t) as [[]|]. Qed.

Lemma server_event_conns e s v' :
  handlers_inv s -> allowed e s = true -> base_exec e (hs_server s) = Some (Ret v') -> conns_kept e s v'.
Proof using Hpool Hf Hlim.
  clear Hdef. intros Hs Ha Hex c0 k0 Hk0.
  destruct (server_exec_conns _ _ _ _ pool e _ v' Hex)
    as [(c & k & k' & ev & Hk & Hstep & Heq & Hof)|[(t & c & a & -> & Hc & Heq)|[Heq Hev]]]; rewrite Heq in Hk0.
  - assert (accepted_state e (states_ s) = states_ s) as -> by by destruct e.
    left. destruct (decide (c0 = c)) as [->|Hne].
    2: { exists k0. by rewrite lookup_insert_ne in Hk0. }
    rewrite lookup_insert_eq in Hk0. injection Hk0 as <-. exists k. split; [done|]. split; [done|].
    assert (completed_read ev = false) as Hr.
    { destruct e as [| | |c' ev'| |t]; try done; cbn [step_of allowed] in *.
      - destruct Hof as (t & prog & _ & [->|(d & k1 & _ & ->)]); [done|apply next_send_no_read].
      - destruct Hof as (-> & -> & _). apply andb_prop in Ha as [[Ha1 _]%andb_prop _]. by apply negb_true_iff.
      - destruct Hof as (d & s0 & l & k1 & _ & _ & ->). apply next_send_no_read. }
    split; [by eapply conn_step_delivered|]. intros Hj.
    apply (conn_step_outside ev); [by eapply busy_outside|done].
  - cbn [accepted_state]. destruct (decide (c0 = c)) as [->|Hne].
    + rewrite lookup_insert_eq in Hk0. injection Hk0 as <-. right. by rewrite lookup_insert_eq.
    + rewrite lookup_insert_ne in Hk0 by done. left. exists k0. by rewrite lookup_insert_ne.
  - left. exists k0. split; [done|]. split; [|done]. by destruct e as [|? []| | | |].
Qed.

Lemma server_event_dom e (v v' : base_server) c :
  base_exec e v = Some (Ret v') -> is_Some (conns v !! c) -> is_Some (conns v' !! c).
Proof using.
  intros Hex Hc. destruct (server_exec_conns _ _ _ _ pool e v v' Hex)
    as [(c' & k & k' & ev & _ & _ & -> & _)|[(t & c' & a & _ & _ & ->)|[-> _]]];
    [rewrite lookup_insert_is_Some'; auto..|done].
Qed.

Lemma base_step v e v' : base_reachable v -> base_exec e v = Some (Ret v') -> base_reachable v'.
Proof using. apply server_reach_step. Qed.

Lemma server_event_inv e s v' :
  handlers_inv s -> allowed e s = true -> base_exec e (hs_server s) = Some (Ret v') ->
  handlers_inv (HandlerServer v' (accepted_state e (states_ s)) (jobs_ s)).
Proof using Hpool Hf Hlim.
  clear Hdef. intros Hs Ha Hex. pose proof (server_event_conns e s v' Hs Ha Hex) as Hc.
  split; cbn [hs_server states_ jobs_].
  - by eapply base_step; [apply Hs|].
  - intros c [k' Hk']. destruct (Hc c k' Hk') as [(k & Hk & -> & _)|(_ & -> & _)]; [|done].
    apply (hi_states s Hs). by rewrite Hk.
  - intros c k' a Hk' Hj Hst. destruct (Hc c k' Hk') as [(k & Hk & Heq & -> & _)|(_ & Heq & ->)].
    + rewrite Heq in Hst. by eapply (hi_idle s Hs).
    + rewrite Heq in Hst. by injection Hst as <-.
  - intros c j Hj. pose proof (hi_job s Hs c j Hj) as Hok.
    destruct Hok as (k & a & don & m & e0 & off & room & Hk & Hst & Hrest).
    destruct (server_event_dom e _ v' c Hex ltac:(by rewrite Hk)) as [k' Hk'].
    destruct (Hc c k' Hk') as [(k1 & Hk1 & Heq & _ & Hrx)|(? & _)]; [|congruence].
    replace k1 with k in * by congruence. specialize (Hrx ltac:(by rewrite Hj)).
    apply (job_ok_keep s); cbn [hs_server states_]; [|done| |by apply (hi_job s Hs)].
    + intros k2 Hk2. exists k'. split; [done|]. congruence.
    + destruct Hrest as (_ & _ & _ & _ & _ & _ & Hth).
      destruct (allowed_not_by e s c j Ha Hj) as [Hnb|Hown]; [by eapply thread_ok_step|].
      subst e. by apply (thread_ok_own (hs_server s)); [apply Hs|..].
  - apply (hi_threads s Hs).
Qed.

(** A step of one strand. *)
Lemma strand_inv s s' c :
  handlers_inv s -> base_reachable (hs_server s') ->
  (forall c', c' <> c -> conns (hs_server s') !! c' = conns (hs_server s) !! c' /\
     states_ s' !! c' = states_ s !! c' /\ jobs_ s' !! c' = jobs_ s !! c') ->
  (forall c' j, c' <> c -> jobs_ s !! c' = Some j -> thread_ok (hs_server s') j /\
     forall j', jobs_ s' !! c = Some j' -> job_thread j <> job_thread j') ->
  is_Some (states_ s' !! c) ->
  match jobs_ s' !! c with
  | Some j => job_ok s' c j
  | None => forall k a, conns (hs_server s') !! c = Some k -> states_ s' !! c = Some a ->
      serve a0 (delivered (rx k)) = Ret a
  end ->
  handlers_inv s'.
Proof using.
  intros Hs Hr Hother Hth Hst Hc. split.
  - done.
  - intros c'. destruct (decide (c' = c)) as [->|Hne]; [done|].
    destruct (Hother c' Hne) as (-> & -> & _). apply (hi_states s Hs).
  - intros c' k a Hk Hj Ha. destruct (decide (c' = c)) as [->|Hne]; [rewrite Hj in Hc; auto|].
    destruct (Hother c' Hne) as (Hk' & Ha' & Hj'). rewrite Hk' in Hk. rewrite Ha' in Ha. rewrite Hj' in Hj.
    by eapply (hi_idle s Hs).
  - intros c' j Hj. destruct (decide (c' = c)) as [->|Hne]; [by rewrite Hj in Hc|].
    destruct (Hother c' Hne) as (Hk' & Ha' & Hj'). rewrite Hj' in Hj.
    apply (job_ok_keep s); [rewrite Hk'; eauto|done|by eapply Hth|by apply (hi_job s Hs)].
  - intros c1 c2 j1 j2 H1 H2 Heq.
    destruct (decide (c1 = c)) as [->|Hn1], (decide (c2 = c)) as [->|Hn2]; [done|..].
    + destruct (Hother c2 Hn2) as (_ & _ & Hj). rewrite Hj in H2.
      destruct (Hth c2 j2 Hn2 H2) as [_ Hd]. by destruct (Hd j1 H1).
    + destruct (Hother c1 Hn1) as (_ & _ & Hj). rewrite Hj in H1.
      destruct (Hth c1 j1 Hn1 H1) as [_ Hd]. by destruct (Hd j2 H2).
    + destruct (Hother c1 Hn1) as (_ & _ & Hj1). destruct (Hother c2 Hn2) as (_ & _ & Hj2).
      rewrite Hj1 in H1. rewrite Hj2 in H2. by eapply (hi_threads s Hs).
Qed.

Lemma thread_ok_of s c j : handlers_inv s -> jobs_ s !! c = Some j -> thread_ok (hs_server s) j.
Proof using. intros Hs Hj. by destruct (hi_job s Hs c j Hj) as (? & ? & ? & ? & ? & ? & ? & _ & _ & _ & _ & _ & _ & _ & _ & ?). Qed.

(** The other jobs, when the strand of [c] moves on the same thread. *)
Lemma others_ok s v' (jobs' : gmap nat job) c j t e :
  handlers_inv s -> jobs_ s !! c = Some j -> job_thread j = t ->
  (v' = hs_server s \/
   base_exec e (hs_server s) = Some (Ret v') /\ forall t', t' <> t -> not_by t' e) ->
  (forall j', jobs' !! c = Some j' -> job_thread j' = t) ->
  forall c' j1, c' <> c -> jobs_ s !! c' = Some j1 -> thread_ok v' j1 /\
    forall j', jobs' !! c = Some j' -> job_thread j1 <> job_thread j'.
Proof using.
  intros Hs Hj Ht Hstep Hnew c' j1 Hne Hj1.
  assert (job_thread j1 <> t) as Hdiff.
  { intros Heq. apply Hne. eapply (hi_threads s Hs); [done..|]. congruence. }
  split; [|intros j' Hj'; by rewrite (Hnew j' Hj')].
  destruct Hstep as [->|[Hex Hno]]; [by eapply thread_ok_of|].
  eapply thread_ok_step; [done|by apply Hno|by eapply thread_ok_of].
Qed.

Lemma new_messages_update (v : base_server) c k k' ms :
  conns v !! c = Some k -> delivered (rx k') = delivered (rx k) ++ ms ->
  new_messages v (update c k k' v) c = ms.
Proof using.
  intros Hk Hd. unfold new_messages. cbn [update conns]. rewrite Hk, lookup_insert_eq, Hd. apply drop_app_length.
Qed.

(** A read completes: its messages are taken off, and the handler of the first begins. *)
Lemma read_inv s t c data o :
  handlers_inv s -> handler_exec (HRead t c data) s = Some o ->
  exists s', o = Ret s' /\ handlers_inv s'.
Proof using Hpool Hf Hlim Hdef.
  intros Hs. cbn [handler_exec]. destruct (jobs_ s !! c) eqn:Hj; [done|].
  destruct (states_ s !! c) as [a|] eqn:Ha; [|done].
  destruct (handling s t) eqn:Hh; [done|]. destruct (free_thread (hs_server s) t) eqn:Hfree; [|done].
  cbn [orb negb]. destruct (base_exec _ (hs_server s)) as [o'|] eqn:Hex; [|done]. intros [= <-].
  destruct (conns (hs_server s) !! c) as [k|] eqn:Hk; [|cbn [server_exec] in Hex; by rewrite Hk in Hex].
  assert (exists off room, read_op (rx k) = Some (off, room) /\ (0 < size_of data <= room)%Z)
    as (off & room & Hop & Hdata).
  { revert Hex. cbn [server_exec]. rewrite Hk. cbn [orb conn_thread event_thread].
    unfold conn_step. cbn [conn_exec sess_exec].
    destruct (read_op (rx k)) as [[off room]|]; [|done]. destruct (_ || _) eqn:Hd; [|done].
    exists off, room. split; [done|]. cbn [orb] in Hd. lia. }
  destruct (frames_total (header_size_ cfg) (max_message_size_ cfg) f ltac:(apply Hlim) (pending (rx k) 0 ++ data))
    as (ms & e & Hfr).
  destruct (base_read _ c k off room data ms e (hi_base s Hs) Hk Hop Hdata Hfr) as (k' & _ & Hex' & Hd & _).
  rewrite Hex' in Hex. injection Hex as <-. cbn [mbind outcome_bind].
  rewrite (new_messages_update _ c k k' ms Hk Hd).
  pose proof (hi_idle s Hs c k a Hk Hj Ha) as Hserve.
  destruct ms as [|m ms]; (eexists; split; [reflexivity|]).
  - apply (strand_inv s _ c Hs); cbn [hs_server states_ jobs_ set_hs_server update conns].
    + by eapply base_step; [apply Hs|exact Hex'].
    + intros c' Hne. by rewrite lookup_insert_ne.
    + intros c' j _ Hj'. split; [|by rewrite Hj]. eapply thread_ok_step; [exact Hex'|done|by eapply thread_ok_of].
    + by rewrite Ha.
    + rewrite Hj, lookup_insert_eq. intros k1 a1 [= <-]. rewrite Hd, app_nil_r, Ha. by intros [= <-].
  - apply (strand_inv s _ c Hs); cbn [hs_server states_ jobs_ set_job].
    + apply Hs.
    + intros c' Hne. by rewrite lookup_insert_ne.
    + intros c' j _ Hj'. split; [by eapply thread_ok_of|]. rewrite lookup_insert_eq. intros j' [= <-].
      by eapply handling_false.
    + by rewrite Ha.
    + rewrite lookup_insert_eq. exists k, a, [], m, e, off, room. cbn [hs_server states_ job_data job_todo job_prog].
      split; [done|]. split; [done|]. split; [done|]. split; [done|]. split; [exact Hfr|].
      split; [by rewrite app_nil_r|]. split; [done|].
      apply free_thread_iff in Hfree as [[Hb Hset]%orb_false_elim Ho]. split; [|by split].
      unfold handle. destruct on_receive_ as [cb|] eqn:Hcb; [|done]. eapply Hdef; [done|].
      apply frames_well_framed in Hfr. by inversion Hfr.
Qed.

(** The handler calls [send]: a broadcast begins, on its thread. *)
Lemma handler_send_inv s c order o :
  handlers_inv s -> handler_exec (HSend c order) s = Some o ->
  exists s', o = Ret s' /\ handlers_inv s'.
Proof using.
  intros Hs. cbn [handler_exec]. destruct (jobs_ s !! c) as [[t data [| d k | |] [] ms]|] eqn:Hj; try done.
  destruct (base_exec (VBroadcast t d order) (hs_server s)) as [o'|] eqn:Hex; [|done]. intros [= <-].
  pose proof Hex as Hex'. cbn [server_exec] in Hex. destruct (_ && _); [|done]. injection Hex as <-.
  cbn [mbind outcome_bind]. eexists. split; [reflexivity|].
  destruct (hi_job s Hs c _ Hj) as (kc & a & don & m & e & off & room & Hk & Ha & Hop & Hd & Hfr & Hserve & Hans & Hnf & Hset & Hidle).
  cbn [job_sending job_thread job_prog job_data job_todo] in *. destruct Hidle as [_ Ho].
  apply (strand_inv s _ c Hs); cbn [hs_server states_ jobs_ set_job set_hs_server set_broadcasts conns].
  - by eapply base_step; [apply Hs|exact Hex'].
  - intros c' Hne. by rewrite lookup_insert_ne.
  - apply (others_ok s _ _ c _ t (VBroadcast t d order) Hs Hj eq_refl);
      [right; split; [exact Hex'|by intros t' Ht' ->]|].
    rewrite lookup_insert_eq. by intros j' [= <-].
  - by rewrite Ha.
  - rewrite lookup_insert_eq. exists kc, a, don, m, e, off, room.
    cbn [hs_server states_ job_data job_todo job_prog conns].
    split; [done|]. split; [done|]. split; [done|]. split; [done|]. split; [done|].
    split; [done|]. split; [done|]. split; [done|]. split; [done|]. cbn [job_sending job_thread job_prog].
    exists d, k. eexists.
    split; [done|]. split; [apply lookup_insert_eq|]. split; [done|].
    by apply only_sends_none.
Qed.

(** The next statement of a handler, or of the loop around it. *)
Lemma step_inv s c o :
  handlers_inv s -> handler_exec (HStep c) s = Some o ->
  exists s', o = Ret s' /\ handlers_inv s'.
Proof using Hpool Hf Hlim Hdef.
  intros Hs. cbn [handler_exec]. destruct (jobs_ s !! c) as [[t data p sending ms]|] eqn:Hj; [|done].
  destruct (hi_job s Hs c _ Hj) as (kc & a & don & m & e & off & room & Hk & Ha & Hop & Hd & Hfr & Hserve & Hans & Hnf & Hset & Hidle).
  cbn [job_sending job_thread job_prog job_data job_todo] in *.
  assert (forall p', answered p' = answered (handle a m) -> never_fails p' ->
            broadcasting (hs_server s) t = false -> only_sends (conns (hs_server s)) t None ->
            handlers_inv (set_job c (Job t data p' false ms) s)) as Hgo.
  { intros p' Hp' Hnf' Hnb Ho'. apply (strand_inv s _ c Hs); cbn [hs_server states_ jobs_ set_job].
    - apply Hs.
    - intros c' Hne. by rewrite lookup_insert_ne.
    - apply (others_ok s _ _ c _ t VStart Hs Hj eq_refl); [by left|].
      rewrite lookup_insert_eq. by intros j' [= <-].
    - by rewrite Ha.
    - rewrite lookup_insert_eq. exists kc, a, don, m, e, off, room. cbn [hs_server states_ job_data job_todo job_prog].
      split; [done|]. split; [done|]. split; [done|]. split; [done|]. split; [done|].
      split; [done|]. split; [done|]. by split. }
  destruct p as [[a' m']|d k|p|fl]; [| | |done].
  - assert (sending = false) as -> by (destruct sending; [by destruct Hidle as (? & ? & ? & ? & _)|done]).
    assert (serve a0 (delivered (rx kc) ++ don ++ [m]) = Ret a') as Hserve'.
    { rewrite app_assoc, serve_app, Hserve. cbn [mbind outcome_bind serve]. rewrite <- Hans. done. }
    destruct ms as [|m1 ms].
    + destruct (base_read _ c kc off room data _ e (hi_base s Hs) Hk Hop Hd Hfr) as (k' & _ & Hex' & Hdel & _).
      unfold finish_read. cbn [hs_server states_ jobs_]. rewrite Hex'. intros [= <-].
      cbn [mbind outcome_bind]. eexists. split; [reflexivity|].
      apply (strand_inv s _ c Hs); cbn [hs_server states_ jobs_ update conns].
      * by eapply base_step; [apply Hs|exact Hex'].
      * intros c' Hne. rewrite !lookup_insert_ne by done. by rewrite lookup_delete_ne.
      * apply (others_ok s _ _ c _ t (VConn c (CSession (SRead false data))) Hs Hj eq_refl); [by right|].
        by rewrite lookup_delete_eq.
      * by rewrite lookup_insert_eq.
      * rewrite lookup_delete_eq, !lookup_insert_eq. intros k1 a1 [= <-] [= <-]. by rewrite Hdel.
    + intros [= <-]. eexists. split; [reflexivity|].
      apply (strand_inv s _ c Hs); cbn [hs_server states_ jobs_ set_job].
      * apply Hs.
      * intros c' Hne. by rewrite !lookup_insert_ne.
      * apply (others_ok s _ _ c _ t VStart Hs Hj eq_refl); [by left|].
        rewrite lookup_insert_eq. by intros j' [= <-].
      * by rewrite lookup_insert_eq.
      * rewrite lookup_insert_eq. exists kc, a', (don ++ [m]), m1, e, off, room.
        cbn [hs_server states_ set_job job_data job_todo job_prog]. rewrite lookup_insert_eq.
        split; [done|]. split; [done|]. split; [done|]. split; [done|].
        split; [by rewrite <- app_assoc|]. split; [done|]. split; [done|]. split; [|by split].
        unfold handle. destruct on_receive_ as [cb|] eqn:Hcb; [|done]. eapply Hdef; [done|].
        apply frames_well_framed in Hfr. apply Forall_app in Hfr as [_ Hfr].
        inversion Hfr as [|? ? _ Hfr']. by inversion Hfr'.
  - destruct sending; [|done]. cbn [andb]. destruct (broadcasting (hs_server s) t) eqn:Hnb; [done|].
    intros [= <-]. eexists. split; [reflexivity|]. apply Hgo; [done|apply Hnf|done|].
    destruct Hidle as (d' & k1 & b & _ & Hb & _ & Ho). destruct (b_todo b) as [|c1 l] eqn:Hl; [done|].
    by rewrite (broadcasting_of _ t b c1 l Hb Hl) in Hnb.
  - assert (sending = false) as -> by (destruct sending; [by destruct Hidle as (? & ? & ? & ? & _)|done]).
    destruct Hidle as [Hnb Ho]. intros [= <-]. eexists. split; [reflexivity|]. by apply Hgo.
Qed.

Lemma handler_exec_inv e s o :
  handlers_inv s -> handler_exec e s = Some o -> exists s', o = Ret s' /\ handlers_inv s'.
Proof using Hpool Hf Hlim Hdef.
  intros Hs. destruct e as [e|t c data|c order|c]; [|by apply read_inv|by apply handler_send_inv|by apply step_inv].
  cbn [handler_exec]. destruct (allowed e s) eqn:Ha; [|done].
  destruct (base_exec e (hs_server s)) as [o'|] eqn:Hex; [|done]. intros [= <-].
  destruct (server_exec_inv _ _ _ None pool Hpool f Hf Hlim (no_handler_defined cfg f) ltac:(by intros cb [=]) e _ o'
              (base_inv _ (hi_base s Hs)) Hex) as [(v' & -> & _)|(_ & c & data & ->)].
  - cbn [mbind outcome_bind]. eexists. split; [reflexivity|]. by apply server_event_inv.
  - done.
Qed.

Lemma handlers_reachable_inv s : handlers_reachable s -> handlers_inv s.
Proof using Hpool Hf Hlim Hdef.
  induction 1 as [open|s e s' _ IH Hex]; [apply handlers_init_inv|].
  by apply handler_exec_inv in Hex as (s1 & [= <-] & Hs).
Qed.

Lemma handlers_reachable_run es s s' :
  handlers_reachable s -> handlers_run es s = Some s' -> handlers_reachable s'.
Proof using.
  revert s. induction es as [|e es IH]; intros s Hs; cbn [handlers_run]; [by intros [= <-]|].
  destruct (handler_exec e s) as [[s1| | | |]|] eqn:Hex; try done. apply IH. by eapply handlers_reach_step.
Qed.

(** ** The course of one [send] of a handler *)

(** The handler of [c] is inside [send(d)], which began with the connections in [order]. *)
Definition in_broadcast (s : handler_server) (c t : nat) (d : list byte) (order : list nat) : Prop :=
  (exists data k ms, jobs_ s !! c = Some (Job t data (CallSend d k) true ms)) /\
  snapshot (hs_server s) t d order.

Definition not_step_of (c : nat) (e : handler_event) : Prop :=
  match e with HStep c' => c' <> c | _ => True end.

(** Every step is at most one event of the base machine, and a broadcast only of a job's
    own thread. *)
Lemma handler_base e s s' :
  handler_exec e s = Some (Ret s') ->
  hs_server s' = hs_server s \/
  exists e', base_exec e' (hs_server s) = Some (Ret (hs_server s')) /\
    match e with
    | HServer e1 => e' = e1 /\ allowed e1 s = true
    | HSend c order => exists j d k, jobs_ s !! c = Some j /\ job_sending j = false /\
        job_prog j = CallSend d k /\ e' = VBroadcast (job_thread j) d order
    | HRead _ c data => e' = VConn c (CSession (SRead false data)) /\ jobs_ s !! c = None
    | HStep c => exists j, jobs_ s !! c = Some j /\ e' = VConn c (CSession (SRead false (job_data j)))
    end.
Proof using.
  destruct e as [e|t c data|c order|c]; cbn [handler_exec].
  - destruct (allowed e s) eqn:Ha; [|done].
    destruct (base_exec e (hs_server s)) as [[v| | | |]|] eqn:Hex; try done. intros [= <-]. right. eauto.
  - destruct (jobs_ s !! c) eqn:Hj, (states_ s !! c) as [a|]; try done.
    destruct (_ || _); [done|].
    destruct (base_exec _ (hs_server s)) as [[v| | | |]|] eqn:Hex; try done. cbn [mbind outcome_bind].
    destruct (new_messages _ _ _) as [|m ms]; intros [= <-]; [right; eauto|by left].
  - destruct (jobs_ s !! c) as [[t data [|d k| |] [] ms]|] eqn:Hj; try done.
    destruct (base_exec _ (hs_server s)) as [[v| | | |]|] eqn:Hex; try done. intros [= <-]. right.
    eexists. split; [exact Hex|]. by eexists _, d, k.
  - destruct (jobs_ s !! c) as [[t data [[a m]|d k|p|[]] sending ms]|] eqn:Hj; try done.
    + destruct ms as [|m1 ms]; [|intros [= <-]; by left]. unfold finish_read. cbn [hs_server].
      destruct (base_exec _ (hs_server s)) as [[v| | | |]|] eqn:Hex; try done. intros [= <-]. right.
      eexists. split; [exact Hex|]. by eexists.
    + destruct (_ && _); [|done]. intros [= <-]. by left.
    + intros [= <-]. by left.
Qed.

(** A strand moves by its own events. *)
Lemma handler_jobs_of c e s s' j :
  handler_exec e s = Some (Ret s') -> jobs_ s !! c = Some j ->
  jobs_ s' !! c = Some j \/ e = HStep c \/ exists order, e = HSend c order /\ job_sending j = false.
Proof using.
  intros Hex Hj. destruct e as [e|t c0 data|c0 order|c0]; cbn [handler_exec] in Hex.
  - destruct (allowed e s); [|done].
    destruct (base_exec e (hs_server s)) as [[v| | | |]|]; try done. injection Hex as <-. by left.
  - destruct (jobs_ s !! c0) eqn:Hj0, (states_ s !! c0) as [a|]; try done.
    destruct (_ || _); [done|].
    destruct (base_exec _ (hs_server s)) as [[v| | | |]|]; try done. cbn [mbind outcome_bind] in Hex.
    destruct (new_messages _ _ _) as [|m ms]; injection Hex as <-; left; [done|].
    cbn [set_job jobs_]. rewrite lookup_insert_ne; [done|congruence].
  - destruct (decide (c0 = c)) as [->|Hne].
    { right. right. exists order. split; [done|]. rewrite Hj in Hex. by destruct j as [? ? [] []]. }
    destruct (jobs_ s !! c0) as [[t data [|d k| |] [] ms]|]; try done.
    destruct (base_exec _ (hs_server s)) as [[v| | | |]|]; try done. injection Hex as <-. left.
    cbn [set_job jobs_ set_hs_server]. by rewrite lookup_insert_ne.
  - destruct (decide (c0 = c)) as [->|Hne]; [by right; left|]. left.
    destruct (jobs_ s !! c0) as [[t data [[a m]|d k|p|[]] sending ms]|]; try done.
    + destruct ms as [|m1 ms].
      * unfold finish_read in Hex. cbn [hs_server] in Hex.
        destruct (base_exec _ (hs_server s)) as [[v| | | |]|]; try done. injection Hex as <-.
        cbn [jobs_]. by rewrite lookup_delete_ne.
      * injection Hex as <-. cbn [set_job jobs_]. by rewrite lookup_insert_ne.
    + destruct (_ && _); [|done]. injection Hex as <-. cbn [set_job jobs_]. by rewrite lookup_insert_ne.
    + injection Hex as <-. cbn [set_job jobs_]. by rewrite lookup_insert_ne.
Qed.

Lemma in_broadcast_step e s s' c t d order :
  handlers_inv s -> in_broadcast s c t d order -> not_step_of c e -> handler_exec e s = Some (Ret s') ->
  in_broadcast s' c t d order.
Proof using.
  intros Hs [(data & k & ms & Hj) Hsnap] Hno Hex. split.
  - exists data, k, ms. destruct (handler_jobs_of c e s s' _ Hex Hj) as [?|[->|(? & _ & Hf0)]]; done.
  - destruct (handler_base e s s' Hex) as [->|(e' & Hbase & He)]; [done|].
    eapply snapshot_step; [exact Hsnap| |exact Hbase].
    destruct e as [e1|t' c' data'|c' order'|c'].
    + destruct He as [-> Ha]. destruct (allowed_not_by e1 s c _ Ha Hj) as [Hnb| ->]; [|done].
      by destruct e1.
    + by destruct He as [-> _].
    + destruct He as (j & d' & k' & Hj' & Hsend & _ & ->). cbn [no_new_broadcast]. intros Heq.
      assert (c' = c) as -> by by apply (hi_threads s Hs c' c j _ Hj' Hj). rewrite Hj in Hj'. by injection Hj' as <-.
    + by destruct He as (j & _ & ->).
Qed.

Lemma in_broadcast_run es s s' c t d order :
  handlers_inv s -> in_broadcast s c t d order -> Forall (not_step_of c) es -> handlers_run es s = Some s' ->
  in_broadcast s' c t d order /\ handlers_inv s'.
Proof using Hpool Hf Hlim Hdef.
  intros Hs Hin Hes. revert s Hs Hin. induction Hes as [|e es He _ IH]; intros s Hs Hin; cbn [handlers_run].
  { by intros [= <-]. }
  destruct (handler_exec e s) as [[s1| | | |]|] eqn:Hex; try done. apply IH.
  - by destruct (handler_exec_inv e s _ Hs Hex) as (s2 & [= <-] & ?).
  - by eapply in_broadcast_step.
Qed.

(** ** Handlers that wait for each other *)

(** The handler of [c] is inside [send], in the loop that waits for a buffer of [c'],
    whose pool is empty. *)
Definition waiting_on (s : handler_server) (c c' : nat) : Prop :=
  exists j b k, jobs_ s !! c = Some j /\ job_sending j = true /\
    broadcasts (hs_server s) !! job_thread j = Some b /\ head (b_todo b) = Some c' /\
    conns (hs_server s) !! c' = Some k /\
    threads (tx (ep k)) !! job_thread j = Some (Popping (b_data b)) /\ buffer_pool_ (tx (ep k)) = [].

Definition waitingb (s : handler_server) (c c' : nat) : bool :=
  match jobs_ s !! c, conns (hs_server s) !! c' with
  | Some j, Some k =>
      match broadcasts (hs_server s) !! job_thread j with
      | Some b =>
          job_sending j && bool_decide (head (b_todo b) = Some c') &&
          (match threads (tx (ep k)) !! job_thread j with
           | Some (Popping d) => bool_decide (d = b_data b)
           | _ => false
           end) && bool_decide (buffer_pool_ (tx (ep k)) = [])
      | None => false
      end
  | _, _ => false
  end.

Lemma waitingb_waits s c c' : waitingb s c c' = true -> waiting_on s c c'.
Proof using.
  unfold waitingb. destruct (jobs_ s !! c) as [j|] eqn:Hj; [|done].
  destruct (conns (hs_server s) !! c') as [k|] eqn:Hk; [|done].
  destruct (broadcasts (hs_server s) !! job_thread j) as [b|] eqn:Hb; [|done].
  intros [[[Hs Hh%bool_decide_eq_true]%andb_prop Hp]%andb_prop He%bool_decide_eq_true]%andb_prop.
  destruct (threads (tx (ep k)) !! job_thread j) as [[d| |]|] eqn:Hth; try done.
  apply bool_decide_eq_true in Hp as ->. exists j, b, k. by split_and!.
Qed.

Definition deadlocked (D : gset nat) (s : handler_server) : Prop :=
  forall c, c ∈ D -> exists c', c' ∈ D /\ waiting_on s c c'.

(** What gives no buffer back. *)
Definition no_recycling (ev : conn_event) : bool :=
  match ev with CStart => true | _ => outside_strand ev end.

Lemma outside_no_recycling ev : outside_strand ev = true -> no_recycling ev = true.
Proof using. by destruct ev. Qed.

(** Outside its strand, a connection's empty pool stays empty, and a thread that waits for
    a buffer goes on waiting. *)
Lemma conn_step_pool_empty ev k k' t d :
  no_recycling ev = true -> step_conn ev k = Some (Ret k') -> buffer_pool_ (tx (ep k)) = [] ->
  threads (tx (ep k)) !! t = Some (Popping d) ->
  buffer_pool_ (tx (ep k')) = [] /\ threads (tx (ep k')) !! t = Some (Popping d).
Proof using.
  unfold conn_step. destruct ev as [|[ev|ec ok|ec data| | |]]; cbn [no_recycling outside_strand]; try done;
    cbn [conn_exec sess_exec].
  - intros _. destruct (started k); [done|]. intros [= <-]. cbn [ep TcpSession.start].
    by rewrite reset_read_timeout_tx.
  - intros Ho. replace (send_path_only ev) with true by by destruct ev.
    destruct (send_exec ev (ep k)) as [[s| | | |]|] eqn:Hex; try done. intros [= <-] Hp Ht. cbn [ep].
    apply send_exec_tx in Hex as [->|Hex]; [done|]. revert Hex.
    assert (forall t' x p, threads p !! t = Some (Popping d) -> threads p !! t' = x -> x <> Some (Popping d) -> t <> t')
      as Hne by congruence.
    destruct ev as [t' d'|t'|t'|t'| | | |]; try done; cbn [exec].
    + destruct (threads _ !! t') eqn:Ht'; [done|].
      destruct (is_open _); intros [= <-]; [|done]. cbn [buffer_pool_ threads set_threads].
      split; [done|]. rewrite lookup_insert_ne; [done|congruence].
    + destruct (threads _ !! t') as [[]|]; try done. rewrite Hp. by intros [= <-].
    + destruct (threads _ !! t') as [[]|] eqn:Ht'; try done. destruct (heap _ !! _); [|done]. intros [= <-].
      cbn [buffer_pool_ threads set_threads set_storage]. split; [done|].
      rewrite lookup_insert_ne; [done|congruence].
    + destruct (threads _ !! t') as [[]|] eqn:Ht'; try done. intros [= <-].
      cbn [buffer_pool_ threads set_threads set_posted]. split; [done|].
      rewrite lookup_delete_ne; [done|congruence].
    + destruct (write_op _); [|done]. destruct (is_open _); [|done].
      destruct (gather _ _) as [dt|]; [|done]. destruct (dt !! _); [|done]. by intros [= <-].
  - intros _. destruct (timer_armed (ep k)); [|done]. by intros [= <-].
Qed.

Lemma waiting_server s e v' c c' :
  handlers_inv s -> allowed e s = true -> base_exec e (hs_server s) = Some (Ret v') ->
  (forall ev k k', step_of e (hs_server s) c' ev -> conns (hs_server s) !! c' = Some k ->
     step_conn ev k = Some (Ret k') -> no_recycling ev = true) -> waiting_on s c c' ->
  waiting_on (HandlerServer v' (accepted_state e (states_ s)) (jobs_ s)) c c'.
Proof using Hpool Hf Hlim.
  clear Hdef. intros Hs Ha Hex Hout (j & b & k & Hj & Hsend & Hb & Hh & Hk & Ht & Hp).
  destruct (thread_ok_of s c j Hs Hj) as [_ Hth]. rewrite Hsend in Hth.
  destruct Hth as (d & p & b' & _ & Hb' & Hd & Honly). replace b' with b in * by congruence. clear b' Hb'.
  destruct b as [d' s0 [|c1 l]]; [done|]. cbn [b_todo b_data head] in *. injection Hh as ->. subst d'.
  assert (exists k', conns v' !! c' = Some k' /\ threads (tx (ep k')) !! job_thread j = Some (Popping d) /\
            buffer_pool_ (tx (ep k')) = []) as (k' & Hk' & Ht' & Hp').
  { destruct (server_exec_conns _ _ _ _ pool e _ v' Hex)
      as [(c0 & k0 & k1 & ev & Hk0 & Hstep & -> & Hof)|[(t & c0 & a & _ & Hc0 & ->)|[-> _]]]; [| |eauto].
    - destruct (decide (c0 = c')) as [->|Hne]; [|exists k; by rewrite lookup_insert_ne].
      replace k0 with k in * by congruence. exists k1. rewrite lookup_insert_eq. split; [done|].
      apply and_comm. eapply conn_step_pool_empty; [by eapply Hout|exact Hstep|done..].
    - exists k. rewrite lookup_insert_ne; [done|congruence]. }
  exists j, (Broadcast d s0 (c' :: l)), k'. cbn [jobs_ hs_server]. split; [done|]. split; [done|].
  split; [|by split_and!].
  destruct (allowed_not_by e s c j Ha Hj) as [Hnb| ->]; [by rewrite (exec_broadcast_of e _ v' _ Hex Hnb)|].
  revert Hex. cbn [server_exec]. rewrite Hb, Hk.
  unfold send_step, next_send. rewrite Ht, conn_step_send by done. cbn [exec]. rewrite Ht, Hp.
  cbn [mbind outcome_bind ep tx set_tx]. rewrite Ht. intros [= <-].
  cbn [set_broadcasts broadcasts]. apply lookup_insert_eq.
Qed.

Lemma waiting_not_returning s c c' :
  handlers_inv s -> waiting_on s c c' -> handler_exec (HStep c) s = None.
Proof using.
  intros Hs (j & b & k & Hj & Hsend & Hb & Hh & _).
  destruct (thread_ok_of s c j Hs Hj) as [_ Hth]. rewrite Hsend in Hth.
  destruct Hth as (d & p & b' & Hp & Hb' & _). cbn [handler_exec]. rewrite Hj.
  destruct j as [t data prog sending ms]. cbn [job_prog job_sending job_thread] in *. subst prog sending.
  destruct b as [d' s0 [|c1 l]]; [done|]. by rewrite (broadcasting_of _ t _ c1 l Hb).
Qed.

(** The step of another strand. *)
Lemma waiting_other s s' c c' :
  waiting_on s c c' -> jobs_ s' !! c = jobs_ s !! c ->
  (forall j, jobs_ s !! c = Some j ->
     broadcasts (hs_server s') !! job_thread j = broadcasts (hs_server s) !! job_thread j) ->
  conns (hs_server s') !! c' = conns (hs_server s) !! c' -> waiting_on s' c c'.
Proof using.
  intros (j & b & k & Hj & Hsend & Hb & Hh & Hk & Ht & Hp) Hjobs Hbs Hc. exists j, b, k.
  rewrite Hjobs, (Hbs j Hj), Hc. by split_and!.
Qed.

(** Nothing in the reach of the server ends it. *)
Lemma deadlocked_step D e s s' :
  handlers_inv s -> deadlocked D s -> handler_exec e s = Some (Ret s') ->
  deadlocked D s' /\ forall c, c ∈ D -> jobs_ s' !! c = jobs_ s !! c.
Proof using Hpool Hf Hlim.
  clear Hdef. intros Hs HD Hex.
  assert (forall c, c ∈ D -> exists j, jobs_ s !! c = Some j /\ jobs_ s' !! c = Some j) as Hjobs.
  { intros c Hc. destruct (HD c Hc) as (c' & _ & Hw). pose proof Hw as (j & b & k & Hj & Hsend & _).
    exists j. split; [done|].
    destruct (handler_jobs_of c e s s' j Hex Hj) as [?|[->|(order & _ & Hns)]]; [done| |congruence].
    by rewrite (waiting_not_returning s c c' Hs Hw) in Hex. }
  split; [|intros c Hc; destruct (Hjobs c Hc) as (j & -> & ->); done].
  intros c Hc. destruct (HD c Hc) as (c' & Hc' & Hw). exists c'. split; [done|].
  destruct (Hjobs c Hc) as (j & Hj & Hj1). destruct (Hjobs c' Hc') as (j' & Hj' & Hj1').
  destruct (handler_base e s s' Hex) as [Heq|(e' & Hbase & He)].
  { apply (waiting_other s); [done|congruence|by rewrite Heq..]. }
  destruct e as [e1|t c0 data|c0 order|c0].
  - destruct He as [-> Ha]. cbn [handler_exec] in Hex. rewrite Ha, Hbase in Hex. injection Hex as Hex.
    rewrite <- Hex. apply waiting_server; [done..| |done]. intros ev k0 k1 Hof Hk Hstep.
    by eapply outside_no_recycling, busy_outside.
  - destruct He as [-> Hnone]. apply (waiting_other s); [done|congruence| |].
    + intros j0 _. by rewrite (server_exec_broadcasts _ _ _ _ pool _ _ _ Hbase).
    + cbn [server_exec] in Hbase. destruct (conns (hs_server s) !! c0) as [k|]; [|done].
      destruct (_ || _); [done|]. destruct (step_conn _ k) as [[k'| | | |]|]; try done. injection Hbase as <-.
      cbn [update conns]. rewrite lookup_insert_ne; [done|congruence].
  - destruct He as (j0 & d & p & Hj0 & Hns & _ & ->). apply (waiting_other s); [done|congruence| |].
    + intros j2 Hj2. apply (exec_broadcast_of _ _ _ _ Hbase). cbn [not_by]. intros Heq.
      assert (c0 = c) as -> by by apply (hi_threads s Hs c0 c j0 j2).
      destruct Hw as (j3 & ? & ? & ? & ? & _). congruence.
    + cbn [server_exec] in Hbase. destruct (_ && _); [|done]. by injection Hbase as <-.
  - destruct He as (j0 & Hj0 & ->).
    assert (c0 ∉ D) as Hout.
    { intros Hin. destruct (HD c0 Hin) as (c2 & _ & Hw2). by rewrite (waiting_not_returning s c0 c2 Hs Hw2) in Hex. }
    apply (waiting_other s); [done|congruence| |].
    + intros j2 _. by rewrite (server_exec_broadcasts _ _ _ _ pool _ _ _ Hbase).
    + cbn [server_exec] in Hbase. destruct (conns (hs_server s) !! c0) as [k|]; [|done].
      destruct (_ || _); [done|]. destruct (step_conn _ k) as [[k'| | | |]|]; try done. injection Hbase as <-.
      cbn [update conns]. rewrite lookup_insert_ne; [done|]. by intros ->.
Qed.

(** ** When no thread runs the strands any more *)

(** What happens without a thread that takes handlers from the queue: the handlers that
    have begun go on. *)
Definition without_worker (e : handler_event) : bool :=
  match e with
  | HServer (VConn _ ev) => outside_strand ev
  | HServer (VAccept _ _ _ _) | HRead _ _ _ => false
  | _ => true
  end.

(** Then no handler that waits for a buffer ever gets one. *)
Lemma waiting_without_worker e s s' c c' :
  handlers_inv s -> without_worker e = true -> waiting_on s c c' -> handler_exec e s = Some (Ret s') ->
  waiting_on s' c c'.
Proof using Hpool Hf Hlim.
  clear Hdef. intros Hs Hww Hw Hex. pose proof Hw as (j & b & kw & Hj & Hsend & _).
  assert (jobs_ s' !! c = jobs_ s !! c) as Hjobs.
  { rewrite Hj. destruct (handler_jobs_of c e s s' j Hex Hj) as [?|[->|(order & _ & Hns)]]; [done| |congruence].
    by rewrite (waiting_not_returning s c c' Hs Hw) in Hex. }
  destruct (handler_base e s s' Hex) as [Heq|(e' & Hbase & He)].
  { by apply (waiting_other s); [|done|rewrite Heq..]. }
  destruct e as [e1|t c0 data|c0 order|c0]; [|done|..].
  - destruct He as [-> Ha]. cbn [handler_exec] in Hex. rewrite Ha, Hbase in Hex. injection Hex as Hex.
    rewrite <- Hex. apply waiting_server; [done..| |done]. intros ev k0 k1 Hof Hk Hstep.
    destruct e1 as [| | |c1 ev1| |t]; try done; cbn [step_of without_worker] in *.
    + destruct Hof as (t & prog & _ & [->|(d & k2 & _ & ->)]); [done|].
      apply outside_no_recycling, next_send_outside.
    + destruct Hof as (_ & -> & _). by apply outside_no_recycling.
    + destruct Hof as (d & s0 & l & k2 & _ & _ & ->). apply outside_no_recycling, next_send_outside.
  - destruct He as (j0 & d & p & Hj0 & Hns & _ & ->). apply (waiting_other s); [done|done| |].
    + intros j2 Hj2. apply (exec_broadcast_of _ _ _ _ Hbase). cbn [not_by]. intros Heq.
      assert (c0 = c) as -> by by apply (hi_threads s Hs c0 c j0 j2). congruence.
    + cbn [server_exec] in Hbase. destruct (_ && _); [|done]. by injection Hbase as <-.
  - destruct He as (j0 & Hj0 & ->).
    destruct (hi_job s Hs c0 j0 Hj0) as (k & a & don & m & e & off & room & Hk & _ & Hop & Hd & Hfr & _).
    destruct (base_read _ c0 k off room (job_data j0) _ e (hi_base s Hs) Hk Hop Hd Hfr)
      as (k' & _ & Hex' & _ & Hpl & Hth).
    rewrite Hex' in Hbase. injection Hbase as Hv.
    destruct Hw as (j1 & b1 & k1 & Hj1 & Hs1 & Hb1 & Hh1 & Hk1 & Ht1 & Hp1).
    destruct (decide (c' = c0)) as [->|Hne].
    + exists j1, b1, k'. rewrite Hjobs, <- Hv. cbn [update broadcasts conns]. rewrite lookup_insert_eq.
      replace k1 with k in * by congruence. rewrite Hth, Hpl. by split_and!.
    + exists j1, b1, k1. rewrite Hjobs, <- Hv. cbn [update broadcasts conns]. rewrite lookup_insert_ne by done.
      by split_and!.
Qed.

(** ** A handler runs to its end, or waits *)

(** How far thread [t] is in [send] on a connection, and what is left of its broadcast. *)
Definition send_pos (t : nat) (k : connection unit) : nat :=
  match threads (tx (ep k)) !! t with
  | None => 0 | Some (Popping _) => 1 | Some (Copying _ _) => 2 | Some (Posting _ _) => 3
  end.

Definition call_left (v : base_server) (t : nat) : nat :=
  match broadcasts v !! t with
  | Some (Broadcast _ _ (c :: l)) =>
      4 * length l + 4 - match conns v !! c with Some k => send_pos t k | None => 0 end
  | _ => 0
  end.

Lemma send_pos_bound t k : send_pos t k <= 3.
Proof using. clear. unfold send_pos. destruct (threads _ !! t) as [[]|]; lia. Qed.

Lemma send_step_moves t d (k k' : connection unit) :
  send_step cfg read_timeout_ (Some no_handler) t d k = Ret (k', None) ->
  (exists d', threads (tx (ep k)) !! t = Some (Popping d') /\ buffer_pool_ (tx (ep k)) = []) \/
  send_pos t k < send_pos t k'.
Proof using.
  clear Hpool Hf Hlim Hdef. unfold send_step, next_send, send_pos.
  destruct (threads (tx (ep k)) !! t) as [[d'|d' b|d' b]|] eqn:Ht; rewrite conn_step_send by done; cbn [exec];
    rewrite Ht.
  - destruct (buffer_pool_ (tx (ep k))) as [|b pl] eqn:Hp; [by left; exists d'|].
    cbn. intros [= <-]. right. cbn [ep tx set_tx threads set_threads]. rewrite lookup_insert_eq. lia.
  - destruct (heap _ !! b); [|done]. cbn. intros [= <-]. right.
    cbn [ep tx set_tx threads set_threads]. rewrite lookup_insert_eq. lia.
  - cbn. by rewrite lookup_delete_eq.
  - destruct (is_open _); cbn; [|by rewrite Ht]. rewrite lookup_insert_eq. intros [= <-]. right.
    cbn [ep tx set_tx threads set_threads]. rewrite lookup_insert_eq. lia.
Qed.

(** An event of the strand of [c], whose handlers run on thread [t]. *)
Definition own_event (c t : nat) (e : handler_event) : Prop :=
  match e with
  | HStep c' => c' = c
  | HSend c' _ => c' = c
  | HServer (VBroadcastStep t') => t' = t
  | _ => False
  end.

(** Without a step of any other strand or thread. *)
Definition goes_to (c t : nat) (s s' : handler_server) : Prop :=
  exists es, Forall (own_event c t) es /\ handlers_run es s = Some s'.

Lemma goes_to_refl c t s : goes_to c t s s.
Proof using. by exists []. Qed.

Lemma goes_to_step c t e s s1 s' :
  own_event c t e -> handler_exec e s = Some (Ret s1) -> goes_to c t s1 s' -> goes_to c t s s'.
Proof using.
  intros He Hex (es & Hes & Hrun). exists (e :: es). split; [by constructor|]. cbn [handlers_run]. by rewrite Hex.
Qed.

Lemma goes_to_trans c t s s1 s' : goes_to c t s s1 -> goes_to c t s1 s' -> goes_to c t s s'.
Proof using.
  intros (es & Hes & Hrun) H1. revert s Hrun. induction Hes as [|e es He _ IH]; intros s; cbn [handlers_run].
  - by intros [= <-].
  - destruct (handler_exec e s) as [[s2| | | |]|] eqn:Hex; try done. intros Hrun.
    eapply goes_to_step; [done..|by apply IH].
Qed.

(** The call of [send] returns. *)
Lemma send_returns s c t data d k ms :
  handlers_inv s -> jobs_ s !! c = Some (Job t data (CallSend d k) true ms) ->
  exists s', goes_to c t s s' /\ handlers_inv s' /\
    ((jobs_ s' !! c = Some (Job t data (CallSend d k) true ms) /\ broadcasting (hs_server s') t = false) \/
     exists c', waiting_on s' c c').
Proof using Hpool Hf Hlim.
  clear Hdef. remember (call_left (hs_server s) t) as fuel eqn:Hfuel. revert s Hfuel.
  induction (lt_wf fuel) as [fuel _ IH]. intros s -> Hs Hj.
  destruct (broadcasting (hs_server s) t) eqn:Hbr; [|exists s; split; [apply goes_to_refl|auto]].
  destruct (thread_ok_of s c _ Hs Hj) as [Hset (d0 & p & b & [= <- <-] & Hb & Hd & Ho)].
  cbn [job_thread] in *. unfold broadcasting in Hbr. rewrite Hb in Hbr.
  destruct b as [d' s0 [|c1 l]]; [done|]. cbn [b_data b_todo] in *. subst d'.
  destruct (broadcast_step_inv cfg read_timeout_ (Some no_handler) None pool Hpool f Hf Hlim (no_handler_defined cfg f)
              ltac:(by intros cb [=]) t d s0 c1 l _ (base_inv _ (hi_base s Hs)) Hb) as (v' & Hex & _).
  pose proof (server_event_inv (VBroadcastStep t) s v' Hs eq_refl Hex) as Hs'. cbn [accepted_state] in Hs'.
  set (s1 := HandlerServer v' (states_ s) (jobs_ s)) in *.
  assert (handler_exec (HServer (VBroadcastStep t)) s = Some (Ret s1)) as Hstep.
  { cbn [handler_exec allowed]. by rewrite Hex. }
  cbn [server_exec] in Hex. rewrite Hb in Hex. destruct (conns (hs_server s) !! c1) as [k1|] eqn:Hk1; [|done].
  destruct (send_step _ _ _ t d k1) as [[k' res]| | | |] eqn:Hsend; try done. injection Hex as Hv'.
  assert ((exists c', waiting_on s c c') \/ call_left v' t < call_left (hs_server s) t) as [Hw|Hlt].
  { pose proof (send_pos_bound t k1) as Hpos. unfold call_left. rewrite Hb, Hk1, <- Hv'.
    cbn [set_broadcasts broadcasts update conns]. rewrite lookup_insert_eq. destruct res as [r|].
    - right. destruct l as [|c2 l2]; cbn [length]; [lia|]. destruct (<[c1:=k']> _ !! c2); lia.
    - destruct (send_step_moves t d k1 k' Hsend) as [(d' & Ht & Hp)|Hlt].
      + left. exists c1. do 3 eexists. split; [exact Hj|]. split; [done|]. split; [exact Hb|]. split; [done|].
        split; [exact Hk1|]. split; [|done]. cbn [job_thread b_data]. rewrite Ht.
        specialize (Ho c1 k1 _ Hk1 Ht). by injection Ho as ->.
      + right. rewrite lookup_insert_eq. lia. }
  - exists s. split; [apply goes_to_refl|auto].
  - destruct (IH (call_left v' t) Hlt s1 eq_refl Hs' Hj) as (s' & Hgo & Hrest).
    exists s'. split; [|done]. by eapply goes_to_step; [|exact Hstep|].
Qed.

(** The handler returns; then the handlers of the messages after it run. *)
Lemma handler_returns s c t data p ms :
  handlers_inv s -> jobs_ s !! c = Some (Job t data p false ms) ->
  exists s', goes_to c t s s' /\ handlers_inv s' /\
    ((exists r, jobs_ s' !! c = Some (Job t data (Return r) false ms)) \/ exists c', waiting_on s' c c').
Proof using Hpool Hf Hlim Hdef.
  revert s. induction p as [r|d k IH|p IH|fl]; intros s Hs Hj.
  - exists s. split; [apply goes_to_refl|eauto].
  - destruct (thread_ok_of s c _ Hs Hj) as [Hset [Hnb Ho]]. cbn [job_thread] in *.
    assert (free_thread (hs_server s) t = true) as Hfree.
    { apply free_thread_iff. split; [|done]. unfold busy. by rewrite Hnb, Hset. }
    assert (base_exec (VBroadcast t d (elements (connections_ (hs_server s)))) (hs_server s) =
      Some (Ret (set_broadcasts (<[t := Broadcast d [] (elements (connections_ (hs_server s)))]>
                   (broadcasts (hs_server s))) (hs_server s)))) as Hex.
    { cbn [server_exec]. rewrite Hfree, bool_decide_eq_true_2 by done. done. }
    set (order := elements (connections_ (hs_server s))) in *.
    destruct (handler_exec (HSend c order) s) as [o|] eqn:Hse; [|cbn [handler_exec] in Hse; by rewrite Hj, Hex in Hse].
    destruct (handler_send_inv s c order o Hs Hse) as (s1 & -> & Hs1).
    assert (jobs_ s1 !! c = Some (Job t data (CallSend d k) true ms)) as Hj1.
    { cbn [handler_exec] in Hse. rewrite Hj, Hex in Hse. injection Hse as <-. apply lookup_insert_eq. }
    destruct (send_returns s1 c t data d k ms Hs1 Hj1) as (s2 & Hgo & Hs2 & [[Hj2 Hnb2]|Hw]).
    2: { exists s2. split; [|auto]. by eapply goes_to_step; [|exact Hse|]. }
    assert (handler_exec (HStep c) s2 = Some (Ret (set_job c (Job t data (k ok) false ms) s2))) as Hst.
    { cbn [handler_exec]. rewrite Hj2. cbn [andb]. by rewrite Hnb2. }
    destruct (step_inv s2 c _ Hs2 Hst) as (s3 & [= <-] & Hs3).
    destruct (IH ok _ Hs3 (lookup_insert_eq _ _ _)) as (s' & Hgo' & Hrest). exists s'. split; [|done].
    eapply goes_to_step; [|exact Hse|]; [done|]. eapply goes_to_trans; [exact Hgo|].
    by eapply goes_to_step; [|exact Hst|].
  - assert (handler_exec (HStep c) s = Some (Ret (set_job c (Job t data p false ms) s))) as Hst
      by (cbn [handler_exec]; by rewrite Hj).
    destruct (step_inv s c _ Hs Hst) as (s1 & [= <-] & Hs1).
    destruct (IH _ Hs1 (lookup_insert_eq _ _ _)) as (s' & Hgo & Hrest). exists s'. split; [|done].
    by eapply goes_to_step; [|exact Hst|].
  - by destruct (hi_job s Hs c _ Hj) as (? & ? & ? & ? & ? & ? & ? & _ & _ & _ & _ & _ & _ & _ & [] & _).
Qed.

Lemma read_returns s c t data p ms :
  handlers_inv s -> jobs_ s !! c = Some (Job t data p false ms) ->
  exists s', goes_to c t s s' /\ handlers_inv s' /\
    (jobs_ s' !! c = None \/ exists c', waiting_on s' c c').
Proof using Hpool Hf Hlim Hdef.
  revert s p. induction ms as [|m ms IH]; intros s p Hs Hj;
    destruct (handler_returns s c t data p _ Hs Hj) as (s1 & Hgo & Hs1 & [[[a m'] Hj1]|Hw]).
  2, 4: exists s1; auto.
  - destruct (handler_exec (HStep c) s1) as [o|] eqn:Hst.
    + destruct (step_inv s1 c o Hs1 Hst) as (s2 & -> & Hs2). exists s2. split; [|split; [done|left]].
      * eapply goes_to_trans; [exact Hgo|]. by eapply goes_to_step; [|exact Hst|apply goes_to_refl].
      * cbn [handler_exec] in Hst. rewrite Hj1 in Hst. unfold finish_read in Hst. cbn [hs_server] in Hst.
        destruct (base_exec _ _) as [[v| | | |]|]; try done. injection Hst as <-. apply lookup_delete_eq.
    + exfalso. cbn [handler_exec] in Hst. rewrite Hj1 in Hst. unfold finish_read in Hst. cbn [hs_server] in Hst.
      destruct (hi_job s1 Hs1 c _ Hj1) as (k & a1 & don & m1 & e & off & room & Hk & _ & Hop & Hd & Hfr & _).
      destruct (base_read _ c k off room data _ e (hi_base s1 Hs1) Hk Hop Hd Hfr) as (k' & _ & Hex & _).
      by rewrite Hex in Hst.
  - assert (exists s2, handler_exec (HStep c) s1 = Some (Ret s2) /\
              jobs_ s2 !! c = Some (Job t data (handle a m) false ms)) as (s2 & Hst & Hj2).
    { cbn [handler_exec]. rewrite Hj1. eexists. split; [reflexivity|]. apply lookup_insert_eq. }
    destruct (step_inv s1 c _ Hs1 Hst) as (s3 & [= <-] & Hs3).
    destruct (IH s2 _ Hs3 Hj2) as (s' & Hgo' & Hrest). exists s'. split; [|done].
    eapply goes_to_trans; [exact Hgo|]. by eapply goes_to_step; [|exact Hst|].
Qed.

Lemma strand_finishes s c j :
  handlers_inv s -> jobs_ s !! c = Some j ->
  exists s', goes_to c (job_thread j) s s' /\ handlers_inv s' /\
    (jobs_ s' !! c = None \/ exists c', waiting_on s' c c').
Proof using Hpool Hf Hlim Hdef.
  intros Hs Hj. destruct j as [t data p [] ms]; cbn [job_thread]; [|by eapply read_returns].
  destruct (thread_ok_of s c _ Hs Hj) as [_ (d & k & b & Hp & _)]. cbn [job_prog] in Hp. subst p.
  destruct (send_returns s c t data d k ms Hs Hj) as (s1 & Hgo & Hs1 & [[Hj1 Hnb]|Hw]); [|exists s1; auto].
  assert (handler_exec (HStep c) s1 = Some (Ret (set_job c (Job t data (k ok) false ms) s1))) as Hst.
  { cbn [handler_exec]. rewrite Hj1. cbn [andb]. by rewrite Hnb. }
  destruct (step_inv s1 c _ Hs1 Hst) as (s2 & [= <-] & Hs2).
  destruct (read_returns _ c t data (k ok) ms Hs2 (lookup_insert_eq _ _ _)) as (s' & Hgo' & Hs' & Hend).
  exists s'. split; [|by split]. eapply goes_to_trans; [exact Hgo|]. by eapply goes_to_step; [|exact Hst|].
Qed.

Lemma own_event_jobs c t e s s' c' :
  own_event c t e -> handler_exec e s = Some (Ret s') -> c' <> c -> jobs_ s' !! c' = jobs_ s !! c'.
Proof using.
  intros He Hex Hne. destruct e as [e|t0 c0 data|c0 order|c0]; cbn [own_event] in He; [|done|..]; subst;
    cbn [handler_exec] in Hex.
  - destruct (allowed e s); [|done].
    destruct (base_exec e (hs_server s)) as [[v| | | |]|]; try done. by injection Hex as <-.
  - destruct (jobs_ s !! c) as [[t1 data [|d k| |] [] ms]|]; try done.
    destruct (base_exec _ (hs_server s)) as [[v| | | |]|]; try done. injection Hex as <-.
    cbn [set_job jobs_ set_hs_server]. by rewrite lookup_insert_ne.
  - destruct (jobs_ s !! c) as [[t1 data [[a m]|d k|p|[]] sending ms]|]; try done.
    + destruct ms as [|m1 ms].
      * unfold finish_read in Hex. cbn [hs_server] in Hex.
        destruct (base_exec _ (hs_server s)) as [[v| | | |]|]; try done. injection Hex as <-.
        cbn [jobs_]. by rewrite lookup_delete_ne.
      * injection Hex as <-. cbn [set_job jobs_]. by rewrite lookup_insert_ne.
    + destruct (_ && _); [|done]. injection Hex as <-. cbn [set_job jobs_]. by rewrite lookup_insert_ne.
    + injection Hex as <-. cbn [set_job jobs_]. by rewrite lookup_insert_ne.
Qed.

Lemma goes_to_jobs c t s s' c' : goes_to c t s s' -> c' <> c -> jobs_ s' !! c' = jobs_ s !! c'.
Proof using.
  intros (es & Hes & Hrun) Hne. revert s Hrun. induction Hes as [|e es He _ IH]; intros s; cbn [handlers_run].
  - by intros [= <-].
  - destruct (handler_exec e s) as [[s2| | | |]|] eqn:Hex; try done. intros Hrun.
    rewrite (IH s2 Hrun). by eapply own_event_jobs.
Qed.

(** A handler that has begun goes on. *)
Definition running_event (e : handler_event) : Prop :=
  e = HServer VSetup \/ exists c t, own_event c t e.

Lemma handlers_run_app es es' s :
  handlers_run (es ++ es') s =
  match handlers_run es s with Some s' => handlers_run es' s' | None => None end.
Proof using.
  revert s. induction es as [|e es IH]; intros s; [done|]. cbn [Datatypes.app handlers_run].
  destruct (handler_exec e s) as [[s1| | | |]|]; done.
Qed.

Lemma goes_to_running c t s s' :
  goes_to c t s s' -> exists es, Forall running_event es /\ handlers_run es s = Some s'.
Proof using.
  intros (es & Hes & Hrun). exists es. split; [|done]. eapply Forall_impl; [exact Hes|].
  intros e He. right. eauto.
Qed.

Lemma all_finish s :
  handlers_inv s ->
  exists es s', Forall running_event es /\ handlers_run es s = Some s' /\ handlers_inv s' /\
    (jobs_ s' = ∅ \/ exists c c', waiting_on s' c c').
Proof using Hpool Hf Hlim Hdef.
  remember (size (jobs_ s)) as k eqn:Hk. revert s Hk.
  induction (lt_wf k) as [k _ IH]. intros s -> Hs. destruct (decide (jobs_ s = ∅)) as [He|Hne].
  { exists [], s. split; [done|]. split; [done|]. auto. }
  apply map_choose in Hne as (c & j & Hj).
  destruct (strand_finishes s c j Hs Hj) as (s1 & Hgo & Hs1 & Hend).
  destruct (goes_to_running _ _ _ _ Hgo) as (es1 & Hes1 & Hrun1).
  destruct Hend as [Hnone|[c' Hw]]; [|exists es1, s1; split; [done|]; split; [done|]; split; [done|]; right; eauto].
  assert (jobs_ s1 = delete c (jobs_ s)) as Heq.
  { apply map_eq. intros c'. destruct (decide (c' = c)) as [->|Hne].
    - by rewrite Hnone, lookup_delete_eq.
    - rewrite lookup_delete_ne by done. by eapply goes_to_jobs. }
  destruct (IH (size (jobs_ s1))) with (s := s1) as (es2 & s2 & Hes2 & Hrun2 & Hrest).
  - rewrite Heq. pose proof (map_size_delete_Some c (jobs_ s) ltac:(by rewrite Hj)) as Hsz.
    rewrite Hsz. assert (0 < size (jobs_ s)); [|lia].
    apply Nat.neq_0_lt_0. intros Hz%map_size_empty_inv. by rewrite Hz in Hj.
  - done.
  - done.
  - exists (es1 ++ es2), s2. split; [by apply Forall_app|]. split; [|done].
    by rewrite handlers_run_app, Hrun1.
Qed.

(** Without an [on_connect] hook the accept handler has one statement left. *)
Lemma base_setup_return v t c p :
  base_reachable v -> acceptor v = ASetup t c p -> p = Return tt.
Proof using.
  intros Hv. revert t c p. induction Hv as [open|v e v' _ IH Hex]; intros t c p; [done|].
  assert (forall w : base_server, acceptor (loop_accept w) = ASetup t c p -> p = Return tt) as Hloop.
  { intros w. unfold loop_accept, do_accept. by destruct (acceptor_open w). }
  destruct e as [|t' ec c' a| |c' e|t' data order|t']; cbn [server_exec] in Hex.
  - destruct (acceptor v) eqn:Hpc; try done. injection Hex as <-. unfold TcpServer.start.
    destruct (acceptor_open v); [done|]. cbn [snd]. by rewrite Hpc.
  - destruct (acceptor v), (conns v !! c'), (free_thread v t'); try done. injection Hex as <-.
    unfold accept_handler. destruct ec; [apply Hloop|]. cbn [acceptor]. by intros [= _ _ <-].
  - destruct (acceptor v) as [| |t0 c0 prog] eqn:Hpc; try done. destruct (conns v !! c0) as [k|]; [|done].
    rewrite (IH t0 c0 prog eq_refl) in Hex. cbn [setup_step] in Hex.
    destruct (step_conn CStart k) as [[k'| | | |]|]; try done. injection Hex as <-. apply Hloop.
  - destruct (conns v !! c') as [k|]; [|done]. destruct (_ || _); [done|].
    destruct (step_conn e k) as [[k'| | | |]|]; try done. injection Hex as <-. cbn [update acceptor]. apply IH.
  - destruct (_ && _); [|done]. injection Hex as <-. apply IH.
  - destruct (broadcasts v !! t') as [[d s0 [|c1 l]]|]; try done. destruct (conns v !! c1) as [k|]; [|done].
    destruct (send_step _ _ _ t' d k) as [[k' res]| | | |]; try done. injection Hex as <-. apply IH.
Qed.

Definition accepting (v : base_server) : bool :=
  match acceptor v with ASetup _ _ _ => true | _ => false end.

(** The accept handler ends. *)
Lemma setup_ends s :
  handlers_inv s -> accepting (hs_server s) = true ->
  exists s', handler_exec (HServer VSetup) s = Some (Ret s') /\ handlers_inv s' /\
    jobs_ s' = jobs_ s /\ accepting (hs_server s') = false.
Proof using Hpool Hf Hlim Hdef.
  intros Hs Hacc. unfold accepting in Hacc. destruct (acceptor (hs_server s)) as [| |t c p] eqn:Hpc; try done.
  pose proof (base_setup_return _ t c p (hi_base s Hs) Hpc) as ->.
  destruct (server_setup_inv cfg read_timeout_ (Some no_handler) None pool Hpool f Hf Hlim (no_handler_defined cfg f)
              ltac:(by intros cb [=]) t c _ _ (base_inv _ (hi_base s Hs)) Hpc) as (v' & Hex & _).
  eexists. split; [|split; [by apply (server_event_inv VSetup s v')|split; [reflexivity|]]].
  - cbn [handler_exec allowed]. by rewrite Hex.
  - cbn [hs_server]. cbn [server_exec] in Hex. rewrite Hpc in Hex.
    destruct (conns (hs_server s) !! c) as [k|]; [|done]. cbn [setup_step] in Hex.
    destruct (step_conn CStart k) as [[k'| | | |]|]; try done. injection Hex as <-.
    unfold accepting, loop_accept, do_accept. by destruct (acceptor_open _).
Qed.

(** No handler runs: of a message, or of [async_accept]. *)
Definition at_rest (s : handler_server) : bool :=
  bool_decide (jobs_ s = ∅) && negb (accepting (hs_server s)).

(** The handlers that have begun end, or one waits for a buffer. *)
Lemma comes_to_rest s :
  handlers_inv s ->
  exists es s', Forall running_event es /\ handlers_run es s = Some s' /\ handlers_inv s' /\
    (at_rest s' = true \/ exists c c', waiting_on s' c c').
Proof using Hpool Hf Hlim Hdef.
  intros Hs. destruct (all_finish s Hs) as (es & s1 & Hes & Hrun & Hs1 & [Hj|Hw]); [|exists es, s1; auto].
  destruct (accepting (hs_server s1)) eqn:Hacc.
  - destruct (setup_ends s1 Hs1 Hacc) as (s2 & Hex & Hs2 & Hj2 & Hacc2).
    exists (es ++ [HServer VSetup]), s2. split; [apply Forall_app; split; [done|]; constructor; [by left|done]|].
    split; [by rewrite handlers_run_app, Hrun; cbn [handlers_run]; rewrite Hex|]. split; [done|]. left.
    unfold at_rest. rewrite Hj2, Hj, Hacc2. by rewrite bool_decide_eq_true_2.
  - exists es, s1. split; [done|]. split; [done|]. split; [done|]. left.
    unfold at_rest. rewrite Hj, Hacc. by rewrite bool_decide_eq_true_2.
Qed.

End Handlers.

(** ** Properties *)

Section Properties.

Context `{!CircularBuffer} {A : Type}.
Context (cfg : framing_config) (read_timeout_ : Z).
Context (on_receive_ : option (app_callback A)) (a0 : A) (n : nat) (f : list byte -> Z).

Abbreviation exec_handlers := (handler_exec cfg read_timeout_ on_receive_ a0 n).
Abbreviation run_handlers := (handlers_run cfg read_timeout_ on_receive_ a0 n).
Abbreviation reachable_handlers := (handlers_reachable cfg read_timeout_ on_receive_ a0 n).

(** C26: the server with its handlers.  Whatever the connections' handlers, the threads
    that broadcast, the strands and the kernel do, in whatever order, no step is undefined,
    throws or loops, and the server underneath is at every moment a server in the sense of
    TcpServer.v whose receive callbacks send nothing.  A handler that broadcasts from inside
    its strand takes none of what is proved there away: it is one more thread that
    broadcasts. *)
Theorem handlers_refine_server s e o :
  n <= pool_capacity -> get_total_size_ cfg = Some f -> small_limits cfg ->
  callback_defined cfg f on_receive_ -> reachable_handlers s -> exec_handlers e s = Some o ->
  exists s', o = Ret s' /\
    server_reachable cfg read_timeout_ (Some no_handler) None n (hs_server s') /\
    (hs_server s' = hs_server s \/
     exists e', server_exec cfg read_timeout_ (Some no_handler) None n e' (hs_server s) =
       Some (Ret (hs_server s'))).
Proof.
  intros Hn%pool_fits Hf Hlim Hdef Hr Hex.
  destruct (handler_exec_inv _ _ _ a0 n Hn f Hf Hlim Hdef e s o
              (handlers_reachable_inv _ _ _ a0 n Hn f Hf Hlim Hdef s Hr) Hex) as (s' & -> & Hs').
  exists s'. split; [done|]. split; [apply Hs'|].
  destruct (handler_base _ _ _ _ _ e s s' Hex) as [|(e' & He' & _)]; eauto.
Qed.

(** C4: [RimApplication::send] from a handler.  When the call returns, every connection
    that was open when the handler made it, the handler's own included, has accepted the
    data for sending or is closed, whatever other handlers, strands and threads did
    meanwhile. *)
Theorem handler_broadcast_complete s c j d p order s1 es s2 s3 :
  n <= pool_capacity -> get_total_size_ cfg = Some f -> small_limits cfg ->
  callback_defined cfg f on_receive_ -> reachable_handlers s ->
  jobs_ s !! c = Some j -> job_prog j = CallSend d p ->
  exec_handlers (HSend c order) s = Some (Ret s1) ->
  Forall (not_step_of c) es -> run_handlers es s1 = Some s2 ->
  exec_handlers (HStep c) s2 = Some (Ret s3) ->
  forall c' k, conns (hs_server s) !! c' = Some k -> is_open (tx (ep k)) = true ->
  exists k', conns (hs_server s2) !! c' = Some k' /\
    (is_open (tx (ep k')) = true -> d ∈ accepted (tx (ep k'))).
Proof.
  intros Hn%pool_fits Hf Hlim Hdef Hr Hj Hp Hsend Hes Hrun Hret c' k Hk Hopen.
  pose proof (handlers_reachable_inv _ _ _ a0 n Hn f Hf Hlim Hdef s Hr) as Hs.
  destruct (handler_send_inv _ _ _ a0 n f s c order _ Hs Hsend) as (s1' & [= <-] & Hs1).
  assert (in_broadcast s1 c (job_thread j) d order /\ order ≡ₚ elements (connections_ (hs_server s))) as [Hin Hord].
  { cbn [handler_exec] in Hsend. rewrite Hj in Hsend. destruct j as [t data pr [] ms]; cbn in Hp; subst pr; [done|].
    cbn [server_exec] in Hsend. destruct (_ && _) eqn:Hg; [|done]. injection Hsend as <-.
    apply andb_prop in Hg as [Hord%bool_decide_eq_true _]. split; [|done]. split.
    - exists data, p, ms. apply lookup_insert_eq.
    - exists [], order. split; [apply lookup_insert_eq|done]. }
  destruct (in_broadcast_run _ _ _ a0 n Hn f Hf Hlim Hdef es s1 s2 c _ d order Hs1 Hin Hes Hrun)
    as [[(data & pr & ms & Hj2) (served & todo & Hb & Heq)] Hs2].
  assert (todo = []) as ->.
  { cbn [handler_exec] in Hret. rewrite Hj2 in Hret. unfold broadcasting in Hret. rewrite Hb in Hret.
    by destruct todo. }
  rewrite app_nil_r in Heq. subst served.
  pose proof (base_inv _ _ n Hn f Hf Hlim _ (hi_base _ _ _ _ _ _ s2 Hs2)) as Hv2.
  apply (served_ok _ _ _ (inv_serving _ _ _ _ _ Hv2 _ _ Hb)). cbn [b_done].
  rewrite Hord. apply elem_of_elements.
  pose proof (base_inv _ _ n Hn f Hf Hlim _ (hi_base _ _ _ _ _ _ s Hs)) as Hv.
  apply (inv_tracked _ _ _ _ _ Hv). eauto.
Qed.

(** C27: a handler comes back unless it has to wait for a buffer.  From any state of any
    run, the strand that handles a read goes on by itself, through the broadcasts that its
    handlers make and the messages that the read completed, until the read is done, or
    until it is in [send] to a connection that has no idle buffer.  There is nothing else
    that a handler waits for. *)
Theorem handlers_finish s c j :
  n <= pool_capacity -> get_total_size_ cfg = Some f -> small_limits cfg ->
  callback_defined cfg f on_receive_ -> reachable_handlers s -> jobs_ s !! c = Some j ->
  exists es s', Forall (own_event c (job_thread j)) es /\ run_handlers es s = Some s' /\
    (jobs_ s' !! c = None \/ exists c', waiting_on s' c c').
Proof.
  intros Hn%pool_fits Hf Hlim Hdef Hr Hj.
  pose proof (handlers_reachable_inv _ _ _ a0 n Hn f Hf Hlim Hdef s Hr) as Hs.
  destruct (strand_finishes _ _ _ a0 n Hn f Hf Hlim Hdef s c j Hs Hj) as (s' & (es & He & Hrun) & _ & Hend). eauto.
Qed.

(** C28: handlers can wait for each other for ever.  A handler inside [send] keeps its
    strand, and only the strand of a connection gives buffers back to the connection's
    pool.  So when the handlers of some connections all wait for buffers of connections
    among these, one that waits for its own connection being the smallest case, no event
    of the server, the kernel, the timers or other threads ends it: their strands never
    leave these handlers again. *)
Theorem handlers_deadlock D s es s' :
  n <= pool_capacity -> get_total_size_ cfg = Some f -> small_limits cfg ->
  callback_defined cfg f on_receive_ -> reachable_handlers s ->
  deadlocked D s -> run_handlers es s = Some s' ->
  deadlocked D s' /\ forall c, c ∈ D -> is_Some (jobs_ s !! c) /\ jobs_ s' !! c = jobs_ s !! c.
Proof.
  intros Hn%pool_fits Hf Hlim Hdef Hr.
  pose proof (handlers_reachable_inv _ _ _ a0 n Hn f Hf Hlim Hdef s Hr) as Hs. clear Hr.
  revert s Hs. induction es as [|e es IH]; intros s Hs HD; cbn [handlers_run].
  - intros [= <-]. split; [done|]. intros c Hc. split; [|done].
    destruct (HD c Hc) as (c' & _ & j & _ & _ & -> & _). done.
  - destruct (exec_handlers e s) as [[s1| | | |]|] eqn:Hex; try done. intros Hrun.
    destruct (handler_exec_inv _ _ _ a0 n Hn f Hf Hlim Hdef e s _ Hs Hex) as (s2 & [= <-] & Hs1).
    destruct (deadlocked_step _ _ _ a0 n Hn f Hf Hlim D e s s1 Hs HD Hex) as [HD1 Hj1].
    destruct (IH s1 Hs1 HD1 Hrun) as [HD' Hj']. split; [done|]. intros c Hc.
    destruct (Hj' c Hc) as [Hsome ->]. rewrite <- (Hj1 c Hc). done.
Qed.

End Properties.

(** ** Witnesses

    Handlers that count the messages and send each to everybody, on two connections. *)

#[local] Existing Instance overwriting_buffer.

Definition echo_count : app_callback nat.
Proof. refine (AppCallback (fun a m => CallSend m (fun _ => Return (S a, m))) _). by intros. Defined.

Lemma echo_count_defined cfg f : callback_defined cfg f (Some echo_count).
Proof. by intros cb [= <-] a m _ res. Qed.

Abbreviation demo_exec := (handler_exec test_config 0 (Some echo_count) 0 2).
Abbreviation demo_run := (handlers_run test_config 0 (Some echo_count) 0 2).
Abbreviation demo_reachable := (handlers_reachable test_config 0 (Some echo_count) 0 2).

Definition no_clients : handler_server (A := nat) := handlers_init true.

Lemma demo_handlers_reach es s :
  demo_reachable s -> (if demo_run es s is Some _ then true else false) = true ->
  demo_reachable (default no_clients (demo_run es s)) /\
  demo_run es s = Some (default no_clients (demo_run es s)).
Proof.
  intros Hs. destruct (demo_run es s) as [s'|] eqn:Hrun; [|done]. intros _.
  split; [by eapply handlers_reachable_run|done].
Qed.

Definition client_accepted (c : nat) : list handler_event :=
  [HServer (VAccept 9 false c tt); HServer VSetup].

(** Thread 1 runs the handler of connection 0. *)
Definition first_message : list handler_event :=
  HServer VStart :: client_accepted 0 ++ client_accepted 1 ++ [HRead 1 0 demo_message].

Definition handling_first : handler_server := default no_clients (demo_run first_message no_clients).

Lemma handling_first_reachable : demo_reachable handling_first.
Proof. apply (demo_handlers_reach first_message); [constructor|vm_compute; reflexivity]. Qed.

Definition first_job : job := default (Job 0 [] (Fails Undefined) false []) (jobs_ handling_first !! 0).

Lemma handling_first_job : jobs_ handling_first !! 0 = Some first_job.
Proof.
  unfold first_job.
  assert ((if jobs_ handling_first !! 0 is Some _ then true else false) = true) as Hsome by (vm_compute; reflexivity).
  by destruct (jobs_ handling_first !! 0).
Qed.

Lemma handlers_refine_server_witness :
  exists s', demo_exec (HSend 0 [1; 0]) handling_first = Some (Ret s').
Proof.
  destruct (demo_exec (HSend 0 [1; 0]) handling_first) as [o|] eqn:Hex.
  - destruct (handlers_refine_server test_config 0 (Some echo_count) 0 2 test_get_total_size handling_first
                (HSend 0 [1; 0]) o small_pool eq_refl test_config_small (echo_count_defined _ _)
                handling_first_reachable Hex) as (s' & -> & _).
    by exists s'.
  - exfalso.
    assert ((if demo_exec (HSend 0 [1; 0]) handling_first is Some _ then true else false) = true) as Hsome
      by (vm_compute; reflexivity).
    by rewrite Hex in Hsome.
Defined.

Lemma handlers_finish_witness :
  exists es s', Forall (own_event 0 1) es /\ demo_run es handling_first = Some s' /\
    (jobs_ s' !! 0 = None \/ exists c', waiting_on s' 0 c').
Proof.
  apply (handlers_finish test_config 0 (Some echo_count) 0 2 test_get_total_size handling_first 0 first_job
           small_pool eq_refl test_config_small (echo_count_defined _ _) handling_first_reachable
           handling_first_job).
Defined.

(** The broadcast of the handler, in which the other connection closes, and its end. *)
Definition begun : handler_server := default no_clients (demo_run [HSend 0 [1; 0]] handling_first).

Definition during : list handler_event :=
  [HServer (VBroadcastStep 1); HServer (VConn 1 (CSession SClose)); HServer (VBroadcastStep 1);
   HServer (VBroadcastStep 1); HServer (VBroadcastStep 1); HServer (VBroadcastStep 1); HServer (VBroadcastStep 1);
   HServer (VBroadcastStep 1); HServer (VBroadcastStep 1)].

Definition sent : handler_server := default no_clients (demo_run during begun).

Lemma run_one e s :
  (if demo_run [e] s is Some _ then true else false) = true ->
  demo_exec e s = Some (Ret (default no_clients (demo_run [e] s))).
Proof. cbn [handlers_run]. by destruct (demo_exec e s) as [[s'| | | |]|]. Qed.

Lemma begun_reachable : demo_reachable begun.
Proof. apply (demo_handlers_reach [HSend 0 [1; 0]]); [apply handling_first_reachable|vm_compute; reflexivity]. Qed.

Lemma handler_broadcast_complete_witness :
  exists k, conns (hs_server sent) !! 0 = Some k /\
    (is_open (tx (ep k)) = true -> demo_message ∈ accepted (tx (ep k))).
Proof.
  assert (match conns (hs_server handling_first) !! 0 with
          | Some k => is_open (tx (ep k)) | None => false end = true) as Hopen by (vm_compute; reflexivity).
  destruct (conns (hs_server handling_first) !! 0) as [k|] eqn:Hk; [|discriminate Hopen].
  apply (handler_broadcast_complete test_config 0 (Some echo_count) 0 2 test_get_total_size handling_first 0
           first_job demo_message (fun _ => Return (1, demo_message)) [1; 0] begun during sent
           (default no_clients (demo_run [HStep 0] sent)) small_pool eq_refl test_config_small
           (echo_count_defined _ _) handling_first_reachable handling_first_job) with (k := k).
  - vm_compute. reflexivity.
  - apply run_one. vm_compute. reflexivity.
  - by repeat constructor.
  - apply (demo_handlers_reach during); [apply begun_reachable|vm_compute; reflexivity].
  - apply run_one. vm_compute. reflexivity.
  - exact Hk.
  - exact Hopen.
Defined.

(** Three messages in one read, for a client whose connection has two buffers. *)
Definition send_whole : list handler_event :=
  HSend 0 [0] :: replicate 4 (HServer (VBroadcastStep 1)) ++ [HStep 0; HStep 0].

Definition self_wait : list handler_event :=
  HServer VStart :: client_accepted 0 ++ HRead 1 0 (demo_message ++ demo_message ++ demo_message) ::
  send_whole ++ send_whole ++ [HSend 0 [0]; HServer (VBroadcastStep 1)].

Definition self_waiting : handler_server := default no_clients (demo_run self_wait no_clients).

Lemma self_waiting_deadlocked : deadlocked {[0]} self_waiting.
Proof.
  intros c ->%elem_of_singleton. exists 0. split; [by apply elem_of_singleton|].
  apply waitingb_waits. vm_compute. reflexivity.
Qed.

(** The loop goes round, another client comes: to no avail. *)
Definition meanwhile : list handler_event :=
  [HServer (VBroadcastStep 1)] ++ client_accepted 1 ++ [HServer (VBroadcastStep 1)].

Lemma handlers_deadlock_witness :
  deadlocked {[0]} (default no_clients (demo_run meanwhile self_waiting)).
Proof.
  apply (handlers_deadlock test_config 0 (Some echo_count) 0 2 test_get_total_size {[0]} self_waiting meanwhile).
  - exact small_pool.
  - reflexivity.
  - exact test_config_small.
  - apply echo_count_defined.
  - apply (demo_handlers_reach self_wait); [constructor|vm_compute; reflexivity].
  - exact self_waiting_deadlocked.
  - apply demo_handlers_reach; [|vm_compute; reflexivity].
    apply (demo_handlers_reach self_wait); [constructor|vm_compute; reflexivity].
Defined.
