(* ===== verification/CallsEnd.v ===== *)
(** * The calls of threads outside the strands

    Threads that are inside [send] or [broadcast] need nobody else to come out again,
    except where they wait for a buffer.  For a pipe, and for a server whose strands have
    come to rest, as they have when their context has been stopped and its workers joined. *)

From S2P Require Import Prelude Framing Expected SendPipeline Callbacks TcpSession TcpConnection TcpServer ServerHandlers.
From Stdlib Require Import ZArith Lia.

Open Scope nat_scope.

#[local] Abbreviation length := Datatypes.length.

(** ** On one endpoint *)

Section Pipe.

Context `{!CircularBuffer}.

(** A thread's own statements inside [send]. *)
Definition own_statement (e : event) : Prop :=
  match e with EvPop _ | EvCopy _ | EvPost _ => True | _ => False end.

(** Some thread is in the loop that waits for a buffer, and there is none. *)
Definition pipe_waits (p : pipe) : Prop :=
  exists t d, threads p !! t = Some (Popping d) /\ buffer_pool_ p = [].

(** One thread's call comes back. *)
Definition call_ends (n t : nat) (p : pipe) : Prop :=
  exists es p', Forall own_statement es /\ run es p = Some p' /\ pipe_inv n p' /\ threads p' = delete t (threads p).

Lemma call_ends_after n t e p p1 :
  own_statement e -> exec e p = Some (Ret p1) -> delete t (threads p1) = delete t (threads p) ->
  call_ends n t p1 -> call_ends n t p.
Proof.
  intros He Hex Ht (es & p' & Hes & Hrun & Hp' & Ht'). exists (e :: es), p'. split; [by constructor|].
  cbn [run]. rewrite Hex. split_and!; [done|done|congruence].
Qed.

Lemma call_held_ends n t s p :
  n <= queue_capacity -> pipe_inv n p -> threads p !! t = Some s -> (forall d, s <> Popping d) -> call_ends n t p.
Proof.
  intros Hn.
  assert (forall p d b, pipe_inv n p -> threads p !! t = Some (Posting d b) -> call_ends n t p) as Hpost.
  { intros q d b Hq Ht. destruct (exec (EvPost t) q) as [o|] eqn:Hex; [|cbn [exec] in Hex; by rewrite Ht in Hex].
    destruct (exec_inv n _ q o Hn Hq Hex) as (q1 & -> & Hq1). exists [EvPost t], q1. split; [by repeat constructor|].
    cbn [run]. rewrite Hex. split_and!; [done|done|]. cbn [exec] in Hex. rewrite Ht in Hex. by injection Hex as <-. }
  intros Hp Ht Hs. destruct s as [d|d b|d b]; [by destruct (Hs d)| |by eapply Hpost].
  destruct (exec (EvCopy t) p) as [o|] eqn:Hex; [|cbn [exec] in Hex; by rewrite Ht in Hex].
  destruct (exec_inv n _ p o Hn Hp Hex) as (p1 & -> & Hp1). pose proof Hex as Hex'. cbn [exec] in Hex'. rewrite Ht in Hex'.
  destruct (heap p !! b); [|done]. injection Hex' as <-.
  eapply (call_ends_after n t (EvCopy t)); [done|exact Hex| |].
  - cbn [threads set_threads]. by rewrite delete_insert_eq.
  - eapply Hpost; [exact Hp1|]. cbn [threads set_threads]. apply lookup_insert_eq.
Qed.

Lemma call_ends_or_waits n t s p :
  n <= queue_capacity -> pipe_inv n p -> threads p !! t = Some s -> pipe_waits p \/ call_ends n t p.
Proof.
  intros Hn Hp Ht. destruct s as [d|d b|d b]; [|right; by eapply call_held_ends..].
  destruct (buffer_pool_ p) as [|b pool] eqn:Hpool; [left; by exists t, d|right].
  destruct (exec (EvPop t) p) as [o|] eqn:Hex; [|cbn [exec] in Hex; by rewrite Ht, Hpool in Hex].
  destruct (exec_inv n _ p o Hn Hp Hex) as (p1 & -> & Hp1). pose proof Hex as Hex'. cbn [exec] in Hex'.
  rewrite Ht, Hpool in Hex'. injection Hex' as <-.
  eapply (call_ends_after n t (EvPop t)); [done|exact Hex| |].
  - cbn [threads set_threads]. by rewrite delete_insert_eq.
  - eapply (call_held_ends n t (Copying d b)); [done|exact Hp1| |done]. cbn [threads set_threads]. apply lookup_insert_eq.
Qed.

(** All of them, until one waits. *)
Lemma calls_end n p :
  n <= queue_capacity -> pipe_inv n p ->
  exists es p', Forall own_statement es /\ run es p = Some p' /\ pipe_inv n p' /\
    (threads p' = ∅ \/ pipe_waits p').
Proof.
  intros Hn. remember (size (threads p)) as k eqn:Hk. revert p Hk. induction (lt_wf k) as [k _ IH]. intros p -> Hp.
  destruct (decide (threads p = ∅)) as [He|(t & s & Ht)%map_choose]; [exists [], p; auto|].
  destruct (call_ends_or_waits n t s p Hn Hp Ht) as [Hw|(es & p1 & Hes & Hrun & Hp1 & Ht1)]; [exists [], p; auto|].
  destruct (IH (size (threads p1))) with (p := p1) as (es' & p' & Hes' & Hrun' & Hp' & Hend); [|done|done|].
  - pose proof (map_size_delete_Some t (threads p) ltac:(by rewrite Ht)) as Hsz. rewrite Ht1, Hsz.
    assert (size (threads p) <> 0); [|lia]. intros Hz%map_size_empty_inv. by rewrite Hz in Ht.
  - exists (es ++ es'), p'. split; [by apply Forall_app|]. rewrite run_app, Hrun. by split_and!.
Qed.

End Pipe.

(** ** On a server *)

Section Server.

Context `{!CircularBuffer} {A : Type}.
Context (cfg : framing_config) (read_timeout_ : Z).
Context (on_receive_ : option (app_callback A)) (a0 : A) (n : nat).
Context (Hn : n <= queue_capacity).
Context (f : list byte -> Z) (Hf : get_total_size_ cfg = Some f) (Hlim : small_limits cfg).
Context (Hdef : callback_defined cfg f on_receive_).

Abbreviation base_server := (server (A := unit)).
Abbreviation exec_handlers := (handler_exec cfg read_timeout_ on_receive_ a0 n).
Abbreviation run_handlers := (handlers_run cfg read_timeout_ on_receive_ a0 n).
Abbreviation hs_inv := (handlers_inv cfg read_timeout_ on_receive_ a0 n f).

(** A thread outside the strands is inside [broadcast], or in [send] on a connection. *)
Definition called (v : base_server) : bool :=
  negb (bool_decide (map_Forall (fun _ b => b_todo b = []) (broadcasts v)) &&
        bool_decide (map_Forall (fun _ k => threads (tx (ep k)) = ∅) (conns v))).

(** A thread inside [broadcast] or [send] goes on. *)
Definition call_event (e : handler_event) : Prop :=
  match e with
  | HServer (VBroadcastStep _) => True
  | HServer (VConn _ (CSession (SSendPath e))) => own_statement e
  | _ => False
  end.

(** [s'] comes from [s] by such steps, and the strands rest in both. *)
Record calls_lead (s s' : handler_server (A := A)) : Prop := {
  cl_inv : hs_inv s';
  cl_rest : at_rest s' = true;
  cl_run : exists es, Forall call_event es /\ run_handlers es s = Some s';
}.

Lemma calls_lead_refl s : hs_inv s -> at_rest s = true -> calls_lead s s.
Proof using. split; [done|done|by exists []]. Qed.

Lemma calls_lead_trans s s1 s2 : calls_lead s s1 -> calls_lead s1 s2 -> calls_lead s s2.
Proof using.
  intros [_ _ (es & Hes & Hrun)] [H1 H2 (es' & Hes' & Hrun')]. split; [done|done|]. exists (es ++ es').
  split; [by apply Forall_app|]. by rewrite handlers_run_app, Hrun.
Qed.

Lemma at_rest_iff (s : handler_server (A := A)) :
  at_rest s = true <-> jobs_ s = ∅ /\ accepting (hs_server s) = false.
Proof using. unfold at_rest. by rewrite andb_true_iff, bool_decide_eq_true, negb_true_iff. Qed.

Lemma calls_lead_step e s s1 :
  hs_inv s -> call_event e -> exec_handlers e s = Some (Ret s1) -> at_rest s1 = true -> calls_lead s s1.
Proof using Hn Hf Hlim Hdef.
  intros Hs He Hex Hr. destruct (handler_exec_inv _ _ _ a0 n Hn f Hf Hlim Hdef e s _ Hs Hex) as (s' & [= <-] & Hs1).
  split; [done|done|]. exists [e]. split; [by repeat constructor|]. cbn [handlers_run]. by rewrite Hex.
Qed.

(** Some thread outside the strands waits for a buffer of a connection. *)
Definition caller_waits (v : base_server) : Prop :=
  exists c k, conns v !! c = Some k /\ pipe_waits (tx (ep k)).

(** *** Broadcasts *)

Lemma broadcast_ends s t :
  hs_inv s -> at_rest s = true ->
  exists s', calls_lead s s' /\
    (forall t', t' <> t -> broadcasts (hs_server s') !! t' = broadcasts (hs_server s) !! t') /\
    (broadcasting (hs_server s') t = false \/ caller_waits (hs_server s')).
Proof using Hn Hf Hlim Hdef.
  remember (call_left (hs_server s) t) as fuel eqn:Hfuel. revert s Hfuel.
  induction (lt_wf fuel) as [fuel _ IH]. intros s -> Hs Hr.
  destruct (broadcasting (hs_server s) t) eqn:Hbr; [|exists s; split; [by apply calls_lead_refl|auto]].
  unfold broadcasting in Hbr. destruct (broadcasts (hs_server s) !! t) as [[d s0 [|c1 l]]|] eqn:Hb; try done.
  destruct (broadcast_step_inv cfg read_timeout_ (Some no_handler) None n Hn f Hf Hlim (no_handler_defined cfg f)
              ltac:(by intros cb [=]) t d s0 c1 l _
              (base_inv cfg read_timeout_ n Hn f Hf Hlim _ (hi_base _ _ _ _ _ _ _ Hs)) Hb) as (v' & Hex & _).
  set (s1 := HandlerServer v' (states_ s) (jobs_ s)).
  assert (exec_handlers (HServer (VBroadcastStep t)) s = Some (Ret s1)) as Hstep.
  { cbn [handler_exec allowed]. by rewrite Hex. }
  cbn [server_exec] in Hex. rewrite Hb in Hex. destruct (conns (hs_server s) !! c1) as [k1|] eqn:Hk1; [|done].
  destruct (send_step _ _ _ t d k1) as [[k' res]| | | |] eqn:Hsend; try done. injection Hex as Hv'.
  assert (calls_lead s s1) as Hlead.
  { apply (calls_lead_step (HServer (VBroadcastStep t))); [done|done|exact Hstep|].
    apply at_rest_iff in Hr as [Hj Hacc]. apply at_rest_iff. split; [done|]. subst s1. cbn [hs_server]. by rewrite <- Hv'. }
  assert ((exists d', threads (tx (ep k1)) !! t = Some (Popping d') /\ buffer_pool_ (tx (ep k1)) = []) \/
          call_left v' t < call_left (hs_server s) t) as [(d' & Ht & Hp)|Hlt].
  { pose proof (send_pos_bound t k1) as Hpos. unfold call_left. rewrite Hb, Hk1, <- Hv'.
    cbn [set_broadcasts broadcasts update conns]. rewrite lookup_insert_eq. destruct res as [r|].
    - right. destruct l as [|c2 l2]; cbn [length]; [lia|]. destruct (<[c1:=k']> _ !! c2); lia.
    - destruct (send_step_moves cfg read_timeout_ t d k1 k' Hsend) as [Hw|Hlt]; [by left|right].
      rewrite lookup_insert_eq. lia. }
  - exists s. split; [by apply calls_lead_refl|]. split; [done|]. right. exists c1, k1. split; [done|]. by exists t, d'.
  - destruct (IH (call_left v' t) Hlt s1 eq_refl (cl_inv _ _ Hlead) (cl_rest _ _ Hlead)) as (s' & Hl' & Hkeep & Hend).
    exists s'. split; [by eapply calls_lead_trans|]. split; [|done]. intros t' Hne. rewrite (Hkeep t' Hne).
    subst s1. cbn [hs_server]. rewrite <- Hv'. cbn [set_broadcasts broadcasts]. by rewrite lookup_insert_ne.
Qed.

(** All broadcasts of the threads in [ts]. *)
Lemma broadcasts_end s (ts : list nat) :
  hs_inv s -> at_rest s = true ->
  exists s', calls_lead s s' /\
    ((forall t, broadcasting (hs_server s') t = true -> broadcasting (hs_server s) t = true /\ t ∉ ts) \/
     caller_waits (hs_server s')).
Proof using Hn Hf Hlim Hdef.
  revert s. induction ts as [|t ts IH]; intros s Hs Hr.
  - exists s. split; [by apply calls_lead_refl|]. left. intros t Ht. split; [done|]. apply not_elem_of_nil.
  - destruct (broadcast_ends s t Hs Hr) as (s1 & Hl1 & Hkeep & [Hb|Hw]); [|exists s1; auto].
    destruct (IH s1 (cl_inv _ _ Hl1) (cl_rest _ _ Hl1)) as (s' & Hl' & [Hend|Hw]);
      (exists s'; split; [by eapply calls_lead_trans|]); [left|by right].
    intros t' [Ht' Hni]%Hend. destruct (decide (t' = t)) as [->|Hne]; [congruence|].
    split; [|by rewrite not_elem_of_cons]. unfold broadcasting in *. by rewrite <- (Hkeep t' Hne).
Qed.

Lemma all_broadcasts_end s :
  hs_inv s -> at_rest s = true ->
  exists s', calls_lead s s' /\
    ((forall t, broadcasting (hs_server s') t = false) \/ caller_waits (hs_server s')).
Proof using Hn Hf Hlim Hdef.
  intros Hs Hr. destruct (broadcasts_end s (map_to_list (broadcasts (hs_server s))).*1 Hs Hr)
    as (s' & Hl & [Hend|Hw]); exists s'; (split; [done|]); [left|by right].
  intros t. destruct (broadcasting (hs_server s') t) eqn:Hb; [|done]. apply Hend in Hb as [Hb Hni].
  destruct Hni. unfold broadcasting in Hb. destruct (broadcasts (hs_server s) !! t) as [b|] eqn:Hlk; [|done].
  apply list_elem_of_fmap. exists (t, b). split; [done|]. by apply elem_of_map_to_list.
Qed.

(** *** Calls of [send] on a connection *)

Definition no_broadcasts (v : base_server) : Prop := forall t, broadcasting v t = false.

Lemma statement_on_connection e s c k p' :
  hs_inv s -> at_rest s = true -> no_broadcasts (hs_server s) -> own_statement e ->
  conns (hs_server s) !! c = Some k -> exec e (tx (ep k)) = Some (Ret p') ->
  exists s' k', calls_lead s s' /\ no_broadcasts (hs_server s') /\
    conns (hs_server s') = <[c := k']> (conns (hs_server s)) /\ tx (ep k') = p'.
Proof using Hn Hf Hlim Hdef.
  intros Hs Hr Hnb He Hk Hex. pose proof Hr as [Hj Hacc]%at_rest_iff.
  set (k' := Session (rx k) (set_tx p' (ep k)) (started k)).
  set (s1 := HandlerServer (update c k k' (hs_server s)) (states_ s) (jobs_ s)).
  assert (forall t, busy (hs_server s) t = false) as Hbusy.
  { intros t. unfold busy. rewrite (Hnb t). unfold setting_up. unfold accepting in Hacc. by destruct (acceptor (hs_server s)). }
  assert (exec_handlers (HServer (VConn c (CSession (SSendPath e)))) s = Some (Ret s1)) as Hstep.
  { cbn [handler_exec]. assert (allowed (VConn c (CSession (SSendPath e))) s = true) as ->.
    { unfold allowed, handling. rewrite Hj, lookup_empty. cbn [completed_read negb andb conn_thread].
      destruct (event_thread e); [|done]. by rewrite bool_decide_eq_true_2 by apply map_Forall_empty. }
    cbn [server_exec]. rewrite Hk. cbn [orb conn_thread].
    assert (match event_thread e with Some t => busy (hs_server s) t | None => false end = false) as ->.
    { by destruct (event_thread e). }
    rewrite conn_step_send by by destruct e. by rewrite Hex. }
  exists s1, k'. split; [|by split_and!]. apply (calls_lead_step (HServer (VConn c (CSession (SSendPath e))))); [done..|].
  by apply at_rest_iff.
Qed.

Lemma run_on_connection es s c k p' :
  hs_inv s -> at_rest s = true -> no_broadcasts (hs_server s) -> Forall own_statement es ->
  conns (hs_server s) !! c = Some k -> run es (tx (ep k)) = Some p' ->
  exists s' k', calls_lead s s' /\ no_broadcasts (hs_server s') /\
    conns (hs_server s') = <[c := k']> (conns (hs_server s)) /\ tx (ep k') = p'.
Proof using Hn Hf Hlim Hdef.
  intros Hs Hr Hnb Hes. revert s k Hs Hr Hnb. induction Hes as [|e es He _ IH]; intros s k Hs Hr Hnb Hk; cbn [run].
  - intros [= <-]. exists s, k. split; [by apply calls_lead_refl|]. by rewrite insert_id.
  - destruct (exec e (tx (ep k))) as [[p1| | | |]|] eqn:Hex; try done. intros Hrun.
    destruct (statement_on_connection e s c k p1 Hs Hr Hnb He Hk Hex) as (s1 & k1 & Hl1 & Hnb1 & Hc1 & Hp1).
    destruct (IH s1 k1 (cl_inv _ _ Hl1) (cl_rest _ _ Hl1) Hnb1) as (s' & k' & Hl' & Hnb' & Hc' & Hp').
    { by rewrite Hc1, lookup_insert_eq. }
    { by rewrite Hp1. }
    exists s', k'. split; [by eapply calls_lead_trans|]. split; [done|]. split; [|done].
    by rewrite Hc', Hc1, insert_insert_eq.
Qed.

(** No thread is inside [send] on the connections [cs]. *)
Lemma connections_end s (cs : list nat) :
  hs_inv s -> at_rest s = true -> no_broadcasts (hs_server s) ->
  exists s', calls_lead s s' /\
    ((no_broadcasts (hs_server s') /\ dom (conns (hs_server s')) = dom (conns (hs_server s)) /\
      forall c k, conns (hs_server s') !! c = Some k ->
        (c ∈ cs -> threads (tx (ep k)) = ∅) /\ (c ∉ cs -> conns (hs_server s) !! c = Some k)) \/
     caller_waits (hs_server s')).
Proof using Hn Hf Hlim Hdef.
  revert s. induction cs as [|c cs IH]; intros s Hs Hr Hnb.
  - exists s. split; [by apply calls_lead_refl|]. left. split_and!; [done|done|].
    intros c k Hk. split; [by intros ?%not_elem_of_nil|done].
  - destruct (IH s Hs Hr Hnb) as (s1 & Hl1 & [(Hnb1 & Hdom1 & Hc1)|Hw]); [|exists s1; auto].
    destruct (conns (hs_server s1) !! c) as [k|] eqn:Hk.
    2: { exists s1. split; [done|]. left. split_and!; [done|done|]. intros c' k' Hk'.
         destruct (Hc1 c' k' Hk') as [H1 H2]. assert (c' <> c) by congruence.
         rewrite elem_of_cons. split; [by intros [?|?]; auto|]. intros Hni. apply H2. tauto. }
    pose proof (base_sess_inv cfg read_timeout_ n Hn f Hf Hlim _ c k (hi_base _ _ _ _ _ _ _ (cl_inv _ _ Hl1)) Hk) as Hsk.
    destruct (calls_end n (tx (ep k)) Hn) as (es & p' & Hes & Hrun & _ & Hend).
    { apply reachable_inv; [exact Hn|]. apply (inv_tx _ _ _ _ (inv_ep _ _ _ _ Hsk)). }
    destruct (run_on_connection es s1 c k p' (cl_inv _ _ Hl1) (cl_rest _ _ Hl1) Hnb1 Hes Hk Hrun)
      as (s' & k' & Hl' & Hnb' & Hc' & Hp').
    exists s'. split; [by eapply calls_lead_trans|]. destruct Hend as [Hth|Hw].
    2: { right. exists c, k'. by rewrite Hc', lookup_insert_eq, Hp'. }
    left. split; [done|]. split.
    { rewrite Hc', dom_insert_L, <- Hdom1. assert (c ∈ dom (conns (hs_server s1))) by by apply elem_of_dom. set_solver. }
    intros c' k0. rewrite Hc', lookup_insert_Some. intros [[<- <-]|[Hne Hk0]].
    + split; [by rewrite Hp'|]. intros []. by left.
    + destruct (Hc1 c' k0 Hk0) as [H1 H2]. rewrite elem_of_cons. split; [by intros [?|?]; auto|].
      intros Hni. apply H2. tauto.
Qed.

(** Once the strands rest, the threads come out of their calls, or one waits for a buffer. *)
Lemma server_calls_end s :
  hs_inv s -> at_rest s = true ->
  exists s', calls_lead s s' /\ (called (hs_server s') = false \/ caller_waits (hs_server s')).
Proof using Hn Hf Hlim Hdef.
  intros Hs Hr. destruct (all_broadcasts_end s Hs Hr) as (s1 & Hl1 & [Hnb|Hw]); [|exists s1; auto].
  destruct (connections_end s1 (elements (dom (conns (hs_server s1)))) (cl_inv _ _ Hl1) (cl_rest _ _ Hl1) Hnb)
    as (s' & Hl' & [(Hnb' & Hdom & Hc)|Hw]); (exists s'; split; [by eapply calls_lead_trans|]); [left|by right].
  unfold called. rewrite !bool_decide_eq_true_2; [done|..].
  - intros c k Hk. apply (Hc c k Hk), elem_of_elements. rewrite <- Hdom. by apply elem_of_dom.
  - intros t b Hb. specialize (Hnb' t). unfold broadcasting in Hnb'. rewrite Hb in Hnb'. by destruct b as [? ? []].
Qed.

(** From any state: first the handlers that have begun, then the calls. *)
Lemma handlers_and_calls_end s :
  hs_inv s ->
  exists es s', Forall (fun e => running_event e \/ call_event e) es /\ run_handlers es s = Some s' /\ hs_inv s' /\
    ((exists c c', waiting_on s' c c') \/
     at_rest s' = true /\ (called (hs_server s') = false \/ caller_waits (hs_server s'))).
Proof using Hn Hf Hlim Hdef.
  intros Hs. destruct (comes_to_rest _ _ _ a0 n Hn f Hf Hlim Hdef s Hs) as (es & s1 & Hes & Hrun & Hs1 & [Hr|Hw]).
  - destruct (server_calls_end s1 Hs1 Hr) as (s' & [Hs' Hr' (es' & Hes' & Hrun')] & Hend).
    exists (es ++ es'), s'. split_and!; [|by rewrite handlers_run_app, Hrun|done|by right].
    apply Forall_app. split; [by eapply Forall_impl; [exact Hes|by left]|by eapply Forall_impl; [exact Hes'|by right]].
  - exists es, s1. split_and!; [|done|done|by left]. by eapply Forall_impl; [exact Hes|by left].
Qed.

End Server.
