(* ===== verification/UdpEndpoint.v ===== *)
(** * udp_endpoint.hpp: [UdpEndpoint]

    The set-up calls ([bind], [connect], [join_multicast]) with their error
    paths, the receive loop, and the send path: like the TCP one it passes pooled
    items through a strand queue, but sends one datagram at a time, each to its
    own target.  Items and the vectors they point to live in one heap of typed
    objects, because the destructor confuses the two. *)

From S2P Require Import Prelude Expected SendPipeline Callbacks.
From Stdlib Require Import ZArith Lia.

Open Scope nat_scope.

Section Udp.

Context `{!CircularBuffer} {Addr : Type}.

(** The default-constructed [udp::endpoint]. *)
Context (addr0 : Addr).

(** ** The operating system's answers

    Error codes are [Z], 0 for success. *)

Record os := Os {
  os_open : Z;                                  (* [socket_.open] on a closed socket *)
  os_bind : Z;
  os_connect : Addr -> Z;
  os_resolve : Z * list Addr;
  os_make_address : Z * bool;                   (* error, [is_v4()] *)
  os_reuse_address : Z;
  os_join_group : Z;
}.

Definition already_open : Z := 1.                 (* [boost::asio::error::already_open] *)
Definition host_not_found : Z := 1.               (* of the netdb category *)
Definition address_family_not_supported : Z := 97. (* [EAFNOSUPPORT] *)

(** ** State *)

(** Heap objects: a [UdpSendItem] and a [std::vector<std::byte>]. *)
Inductive object :=
| OItem (buf : nat) (target : Addr)
| OVec (bytes : list byte).

(** A thread inside [send_to], by the statement it executes next. *)
Inductive usender :=
| UPopping (data : list byte) (target : Addr)
| UCopying (data : list byte) (target : Addr) (item : nat)
| UAddressing (data : list byte) (target : Addr) (item : nat)
| UPosting (data : list byte) (target : Addr) (item : nat).

Definition usender_item (s : usender) : list nat :=
  match s with
  | UPopping _ _ => []
  | UCopying _ _ i | UAddressing _ _ i | UPosting _ _ i => [i]
  end.

(** [uwrite_op] is the outstanding [async_send_to]: the buffer it was given, as
    vector and size, the target, and whether the datagram has left.  [receiving]
    counts the outstanding [async_receive_from] operations.  History: [uaccepted], the datagrams
    in the order of their [post]; [uwire], those that left; [received], those
    handed to the receive callback. *)
Record udp := Udp {
  socket_open : bool;
  is_connected_ : bool;
  remote_endpoint_ : Addr;
  has_callback : bool;
  receiving : nat;
  uheap : gmap nat object;
  ubuffer_pool_ : list nat;
  usend_queue_ : list nat;
  uwrite_op : option (nat * nat * Addr * bool);
  uposted : list nat;
  uthreads : gmap nat usender;
  uaccepted : list (list byte * Addr);
  uwire : list (list byte * Addr);
  received : list (list byte * Addr);
}.

(** The items of the pool, at even addresses, and their buffers. *)
Fixpoint alloc_items (k : nat) : gmap nat object :=
  match k with
  | O => ∅
  | S k => <[2 * k := OItem (S (2 * k)) addr0]> (<[S (2 * k) := OVec []]> (alloc_items k))
  end.

(** The constructor, with [n] items. *)
Definition udp_init (n : nat) : udp :=
  Udp false false addr0 false 0 (alloc_items n) ((fun k => 2 * k) <$> seq 0 n) []
    None [] ∅ [] [] [].

Definition set_socket (o c : bool) (r : Addr) (u : udp) : udp :=
  Udp o c r (has_callback u) (receiving u) (uheap u) (ubuffer_pool_ u) (usend_queue_ u)
    (uwrite_op u) (uposted u) (uthreads u) (uaccepted u) (uwire u) (received u).

Definition set_receive (cb : bool) (rcv : nat) (l : list (list byte * Addr)) (u : udp) : udp :=
  Udp (socket_open u) (is_connected_ u) (remote_endpoint_ u) cb rcv (uheap u)
    (ubuffer_pool_ u) (usend_queue_ u) (uwrite_op u) (uposted u) (uthreads u)
    (uaccepted u) (uwire u) l.

Definition set_store (h : gmap nat object) (pool q : list nat) (u : udp) : udp :=
  Udp (socket_open u) (is_connected_ u) (remote_endpoint_ u) (has_callback u) (receiving u) h
    pool q (uwrite_op u) (uposted u) (uthreads u) (uaccepted u) (uwire u) (received u).

Definition set_op (op : option (nat * nat * Addr * bool)) (w : list (list byte * Addr))
    (u : udp) : udp :=
  Udp (socket_open u) (is_connected_ u) (remote_endpoint_ u) (has_callback u) (receiving u)
    (uheap u) (ubuffer_pool_ u) (usend_queue_ u) op (uposted u) (uthreads u)
    (uaccepted u) w (received u).

Definition set_front (ts : gmap nat usender) (l : list nat) (acc : list (list byte * Addr))
    (u : udp) : udp :=
  Udp (socket_open u) (is_connected_ u) (remote_endpoint_ u) (has_callback u) (receiving u)
    (uheap u) (ubuffer_pool_ u) (usend_queue_ u) (uwrite_op u) l ts acc (uwire u) (received u).

(** ** Setting up *)

Definition is_open_error (code : Z) : bool := negb (code =? 0)%Z.

(** [socket_.open(protocol, ec)]. *)
Definition socket_open_call (o : os) (u : udp) : Z * udp :=
  if socket_open u then (already_open, u)
  else if is_open_error (os_open o) then (os_open o, u)
  else (0%Z, set_socket true (is_connected_ u) (remote_endpoint_ u) u).

Definition bind (o : os) (u : udp) : send_result * udp :=
  let '(ec, u) := socket_open_call o u in
  if is_open_error ec then (error_of ec, u)
  else if is_open_error (os_bind o) then (error_of (os_bind o), u)
  else (ok, u).

Definition connect (o : os) (u : udp) : send_result * udp :=
  let '(ec, endpoints) := os_resolve o in
  if is_open_error ec then (error_of ec, u)
  else match endpoints with
  | [] => (error_of host_not_found, u)
  | e :: _ =>
      let '(ec, u) := if socket_open u then (0%Z, u) else socket_open_call o u in
      if is_open_error ec then (error_of ec, u)
      else if is_open_error (os_connect o e) then (error_of (os_connect o e), u)
      else (ok, set_socket (socket_open u) true e u)
  end.

Definition join_multicast (o : os) (u : udp) : send_result * udp :=
  let '(ec, v4) := os_make_address o in
  if is_open_error ec then (error_of ec, u)
  else if negb v4 then (error_of address_family_not_supported, u)
  else
    let '(ec, u) := if socket_open u then (0%Z, u) else socket_open_call o u in
    if is_open_error ec then (error_of ec, u)
    else if is_open_error (os_reuse_address o) then (error_of (os_reuse_address o), u)
    else if is_open_error (os_bind o) then (error_of (os_bind o), u)
    else if is_open_error (os_join_group o) then (error_of (os_join_group o), u)
    else (ok, u).

(** ** Receiving *)

Definition on_receive (u : udp) : udp := set_receive true (receiving u) (received u) u.

Definition start_receive (u : udp) : udp :=
  if negb (has_callback u) || negb (socket_open u) then u
  else set_receive (has_callback u) (S (receiving u)) (received u) u.

(** The completion handler of [async_receive_from]; [aborted] tells whether a
    failure is [operation_aborted].  What the callback does to other objects is
    the application's; its calls of [send_to] and [close] of this endpoint are
    events of their own here, and UdpSession.v runs the callback in its place. *)
Definition receive_handler (ec aborted : bool) (data : list byte) (sender : Addr) (u : udp) : udp :=
  let u := set_receive (has_callback u) (Nat.pred (receiving u)) (received u) u in
  if negb ec && (0 <? length data) then
    start_receive (set_receive (has_callback u) (receiving u) (received u ++ [(data, sender)]) u)
  else if ec && negb aborted then start_receive u
  else u.

(** ** Sending *)

(** The entry of [send_to]: its immediate error, or the thread's next step. *)
Definition send_to_entry (data : list byte) (target : Addr) (u : udp) : send_result + usender :=
  if socket_open u then inr (UPopping data target) else inl (error_of bad_descriptor).

(** [send] forwards to [send_to] with the cached endpoint. *)
Definition send_entry (data : list byte) (u : udp) : send_result + usender :=
  if negb (is_connected_ u) then inl (error_of not_connected)
  else send_to_entry data (remote_endpoint_ u) u.

Definition close (u : udp) : udp := set_socket false false (remote_endpoint_ u) u.

(** [do_write] looks at the front of the queue; an [async_send_to] while one is
    outstanding would interleave two on one socket. *)
Definition do_write (u : udp) : outcome udp :=
  match usend_queue_ u with
  | [] => UB
  | i :: _ =>
      match uheap u !! i with
      | Some (OItem b tgt) =>
          match uheap u !! b, uwrite_op u with
          | Some (OVec d), None => Ret (set_op (Some (b, length d, tgt, false)) (uwire u) u)
          | _, _ => UB
          end
      | _ => UB
      end
  end.

(** The lambda posted by [send_to]. *)
Definition post_handler (item : nat) (u : udp) : outcome udp :=
  let start_write := match usend_queue_ u with [] => true | _ => false end in
  let u := set_store (uheap u) (ubuffer_pool_ u)
             (circular_push_back queue_capacity (usend_queue_ u) item) u in
  if start_write then do_write u else Ret u.

(** The completion handler of [async_send_to]. *)
Definition send_handler (ec push_ok : bool) (u : udp) : outcome udp :=
  match usend_queue_ u with
  | [] => UB
  | i :: q =>
      u ← (if push_ok then Ret (set_store (uheap u) (ubuffer_pool_ u ++ [i]) q u)
           else match uheap u !! i with
                | Some (OItem b _) => Ret (set_store (delete i (delete b (uheap u))) (ubuffer_pool_ u) q u)
                | _ => UB
                end);
      let u := set_op None (uwire u) u in
      if negb ec && match usend_queue_ u with [] => false | _ => true end then do_write u
      else if ec then Ret (close u)
      else Ret u
  end.

(** ** The machine *)

Inductive uevent :=
| UBind (o : os) | UConnect (o : os) | UJoin (o : os)
| UOnReceive | UStartReceive
| UReceive (ec aborted : bool) (data : list byte) (sender : Addr)
| USend (t : nat) (data : list byte)
| USendTo (t : nat) (data : list byte) (target : Addr)
| UPop (t : nat) | UCopy (t : nat) | UAddress (t : nat) | UPost (t : nat)
| URunPosted
| UTransmit                             (* the datagram leaves *)
| USendDone (ec push_ok : bool)
| UClose.

Definition enter (t : nat) (r : send_result + usender) (u : udp) : option (outcome udp) :=
  match uthreads u !! t, r with
  | Some _, _ => None
  | None, inl _ => Some (Ret u)
  | None, inr s => Some (Ret (set_front (<[t := s]> (uthreads u)) (uposted u) (uaccepted u) u))
  end.

Definition uexec (e : uevent) (u : udp) : option (outcome udp) :=
  match e with
  | UBind o => Some (Ret (snd (bind o u)))
  | UConnect o => Some (Ret (snd (connect o u)))
  | UJoin o => Some (Ret (snd (join_multicast o u)))
  | UOnReceive => Some (Ret (on_receive u))
  | UStartReceive => Some (Ret (start_receive u))
  | UReceive ec aborted data sender =>
      if receiving u =? 0 then None else Some (Ret (receive_handler ec aborted data sender u))
  | USend t data => enter t (send_entry data u) u
  | USendTo t data target => enter t (send_to_entry data target u) u
  | UPop t =>
      match uthreads u !! t with
      | Some (UPopping data target) =>
          match ubuffer_pool_ u with
          | [] => Some (Ret u) (* yield, and try again *)
          | i :: pool =>
              Some (Ret (set_front (<[t := UCopying data target i]> (uthreads u)) (uposted u)
                           (uaccepted u) (set_store (uheap u) pool (usend_queue_ u) u)))
          end
      | _ => None
      end
  | UCopy t =>
      match uthreads u !! t with
      | Some (UCopying data target i) =>
          Some (match uheap u !! i with
                | Some (OItem b _) =>
                    match uheap u !! b with
                    | Some (OVec _) =>
                        Ret (set_front (<[t := UAddressing data target i]> (uthreads u)) (uposted u)
                               (uaccepted u)
                               (set_store (<[b := OVec data]> (uheap u)) (ubuffer_pool_ u)
                                  (usend_queue_ u) u))
                    | _ => UB
                    end
                | _ => UB
                end)
      | _ => None
      end
  | UAddress t =>
      match uthreads u !! t with
      | Some (UAddressing data target i) =>
          Some (match uheap u !! i with
                | Some (OItem b _) =>
                    Ret (set_front (<[t := UPosting data target i]> (uthreads u)) (uposted u)
                           (uaccepted u)
                           (set_store (<[i := OItem b target]> (uheap u)) (ubuffer_pool_ u)
                              (usend_queue_ u) u))
                | _ => UB
                end)
      | _ => None
      end
  | UPost t =>
      match uthreads u !! t with
      | Some (UPosting data target i) =>
          Some (Ret (set_front (delete t (uthreads u)) (uposted u ++ [i])
                       (uaccepted u ++ [(data, target)]) u))
      | _ => None
      end
  | URunPosted =>
      match uposted u with
      | [] => None
      | i :: l => Some (post_handler i (set_front (uthreads u) l (uaccepted u) u))
      end
  | UTransmit =>
      match uwrite_op u with
      | Some (b, k, tgt, false) =>
          if socket_open u then
            Some (match uheap u !! b with
                  | Some (OVec d) =>
                      if k <=? length d
                      then Ret (set_op (Some (b, k, tgt, true)) (uwire u ++ [(take k d, tgt)]) u)
                      else UB
                  | _ => UB
                  end)
          else None
      | _ => None
      end
  | USendDone ec push_ok =>
      match uwrite_op u with
      | Some (_, _, _, sent) => if ec || sent then Some (send_handler ec push_ok u) else None
      | None => None
      end
  | UClose => Some (Ret (close u))
  end.

Inductive ureachable (n : nat) : udp -> Prop :=
| ureach_init : ureachable n (udp_init n)
| ureach_step u e u' : ureachable n u -> uexec e u = Some (Ret u') -> ureachable n u'.

Fixpoint urun (es : list uevent) (u : udp) : option udp :=
  match es with
  | [] => Some u
  | e :: es => match uexec e u with Some (Ret u') => urun es u' | _ => None end
  end.

(** ** The destructor

    It closes the socket and pops the pool into a [std::vector<std::byte> *];
    the pool holds [UdpSendItem *].  Deleting through a pointer of the wrong
    type, or twice, is undefined. *)

Definition delete_vec (p : nat) (h : gmap nat object) : outcome (gmap nat object) :=
  match h !! p with Some (OVec _) => Ret (delete p h) | _ => UB end.

Fixpoint delete_pool (pool : list nat) (h : gmap nat object) : outcome (gmap nat object) :=
  match pool with
  | [] => Ret h
  | p :: pool => h ← delete_vec p h; delete_pool pool h
  end.

Fixpoint delete_queue (q : list nat) (h : gmap nat object) : outcome (gmap nat object) :=
  match q with
  | [] => Ret h
  | i :: q =>
      match h !! i with
      | Some (OItem b _) => h ← delete_vec b h; delete_queue q h
      | _ => UB
      end
  end.

Definition destroy (u : udp) : outcome (gmap nat object) :=
  h ← delete_pool (ubuffer_pool_ u) (uheap u); delete_queue (usend_queue_ u) h.

(** ** The invariant *)

(** Item [i] with buffer [S i] holds [d] for [t]. *)
Definition live (h : gmap nat object) (i : nat) (d : list byte) (t : Addr) : Prop :=
  Nat.Even i /\ h !! i = Some (OItem (S i) t) /\ h !! S i = Some (OVec d).

Definition payload (h : gmap nat object) (i : nat) : list byte * Addr :=
  match h !! i with
  | Some (OItem b t) => match h !! b with Some (OVec d) => (d, t) | _ => ([], t) end
  | _ => ([], addr0)
  end.

Definition uheld (ts : gmap nat usender) : list nat :=
  map_to_list ts ≫= (fun x => usender_item x.2).

Definition uplaces (u : udp) : list nat :=
  ubuffer_pool_ u ++ usend_queue_ u ++ uposted u ++ uheld (uthreads u).

Definition sender_inv (h : gmap nat object) (s : usender) : Prop :=
  match s with
  | UPopping _ _ | UCopying _ _ _ => True
  | UAddressing d _ i => exists t, live h i d t
  | UPosting d t i => live h i d t
  end.

Record udp_inv (n : nat) (u : udp) : Prop := {
  uinv_places : NoDup (uplaces u);
  uinv_count : length (uplaces u) <= n;
  uinv_live i : i ∈ uplaces u -> exists d t, live (uheap u) i d t;
  uinv_senders t s : uthreads u !! t = Some s -> sender_inv (uheap u) s;
  uinv_write b k tgt sent : uwrite_op u = Some (b, k, tgt, sent) ->
    exists i q d, usend_queue_ u = i :: q /\ b = S i /\ live (uheap u) i d tgt /\ k = length d;
  uinv_order : exists don,
    uaccepted u = don ++ (payload (uheap u) <$> usend_queue_ u ++ uposted u) /\
    uwire u `sublist_of`
      don ++ match uwrite_op u with
             | Some (_, _, _, true) => take 1 (payload (uheap u) <$> usend_queue_ u)
             | _ => []
             end;
}.

Lemma live_payload h i d t : live h i d t -> payload h i = (d, t).
Proof. intros (_ & H1 & H2). unfold payload. by rewrite H1, H2. Qed.

Lemma live_same h i d d' t t' : live h i d t -> live h i d' t' -> d = d' /\ t = t'.
Proof. intros Ha%live_payload Hb%live_payload. split; congruence. Qed.

Lemma uinv_wire_accepted n u : udp_inv n u -> uwire u `sublist_of` uaccepted u.
Proof.
  intros [_ _ _ _ _ (don & Ha & Hs)]. etrans; [exact Hs|]. rewrite Ha. apply sublist_app; [done|].
  destruct (uwrite_op u) as [[[[b k] tgt] []]|]; try apply sublist_nil_l.
  rewrite fmap_app. etrans; [apply sublist_take|]. by apply sublist_inserts_r.
Qed.

(** Writing to one item leaves the others alone. *)
Lemma live_copy h i d t d' : live h i d t -> live (<[S i := OVec d']> h) i d' t.
Proof.
  intros (He & H1 & H2). split_and!; [done| |by rewrite lookup_insert_eq].
  rewrite lookup_insert_ne; [done|lia].
Qed.

Lemma live_address h i d t t' : live h i d t -> live (<[i := OItem (S i) t']> h) i d t'.
Proof.
  intros (He & H1 & H2). split_and!; [done|by rewrite lookup_insert_eq|].
  rewrite lookup_insert_ne; [done|lia].
Qed.

Lemma live_other h i j d t o k :
  live h j d t -> Nat.Even i -> i <> j -> k = i \/ k = S i -> live (<[k := o]> h) j d t.
Proof.
  intros (Hj & H1 & H2) Hi Hne Hk.
  assert (k <> j /\ k <> S j) as [Hk1 Hk2].
  { destruct Hi as [a ->], Hj as [b ->]. lia. }
  split_and!; [done|by rewrite lookup_insert_ne|by rewrite lookup_insert_ne].
Qed.

Lemma live_delete h i j d t :
  live h j d t -> Nat.Even i -> i <> j -> live (delete i (delete (S i) h)) j d t.
Proof.
  intros (Hj & H1 & H2) Hi Hne. destruct Hi as [a ->], Hj as [b ->].
  split_and!; [by exists b|rewrite !lookup_delete_ne by lia; done|rewrite !lookup_delete_ne by lia; done].
Qed.

Lemma uheld_lookup ts t s :
  ts !! t = Some s -> uheld ts ≡ₚ usender_item s ++ uheld (delete t ts).
Proof.
  intros Ht. unfold uheld. rewrite <- (map_to_list_delete ts t s Ht). done.
Qed.

Lemma uheld_insert ts t s : uheld (<[t := s]> ts) ≡ₚ usender_item s ++ uheld (delete t ts).
Proof.
  rewrite (uheld_lookup (<[t := s]> ts) t s) by apply lookup_insert_eq.
  by rewrite delete_insert_eq.
Qed.

Lemma uheld_delete_none ts t : ts !! t = None -> uheld (delete t ts) = uheld ts.
Proof. intros Ht. by rewrite delete_id. Qed.

Lemma elem_of_uheld ts t s i : ts !! t = Some s -> i ∈ usender_item s -> i ∈ uheld ts.
Proof. intros Ht Hi. rewrite uheld_lookup by done. set_solver. Qed.

Lemma elem_of_uplaces u i :
  i ∈ uplaces u <->
  i ∈ ubuffer_pool_ u \/ i ∈ usend_queue_ u \/ i ∈ uposted u \/ i ∈ uheld (uthreads u).
Proof. unfold uplaces. set_solver. Qed.

Lemma payload_live_ext h h' (l : list nat) :
  (forall i, i ∈ l -> exists d t, live h i d t /\ live h' i d t) ->
  payload h' <$> l = payload h <$> l.
Proof.
  intros Hl. apply list_fmap_ext. intros k i Hi. apply list_elem_of_lookup_2 in Hi.
  destruct (Hl i Hi) as (d & t & Ha%live_payload & Hb%live_payload). congruence.
Qed.

(** *** Preservation *)

(** What the setting-up and receiving operations leave alone. *)
Definition same_send (u u' : udp) : Prop :=
  uheap u' = uheap u /\ ubuffer_pool_ u' = ubuffer_pool_ u /\ usend_queue_ u' = usend_queue_ u /\
  uwrite_op u' = uwrite_op u /\ uposted u' = uposted u /\ uthreads u' = uthreads u /\
  uaccepted u' = uaccepted u /\ uwire u' = uwire u.

Lemma same_send_inv n u u' : same_send u u' -> udp_inv n u -> udp_inv n u'.
Proof.
  intros (H1 & H2 & H3 & H4 & H5 & H6 & H7 & H8) [P1 P2 P3 P4 P5 P6].
  assert (uplaces u' = uplaces u) as Hp by (unfold uplaces; congruence).
  split; rewrite ?Hp, ?H1, ?H3, ?H4, ?H5, ?H6, ?H7, ?H8; auto.
Qed.

Lemma socket_open_call_same o u : same_send u (snd (socket_open_call o u)).
Proof.
  unfold socket_open_call. destruct (socket_open u); [done|].
  by destruct (is_open_error (os_open o)).
Qed.

Ltac case_calls :=
  repeat (match goal with
          | |- context [if ?b then _ else _] => destruct b
          | |- context [let '(_, _) := ?p in _] => destruct p
          | |- context [match ?l with [] => _ | _ :: _ => _ end] => destruct l
          end; simpl).

Lemma bind_same o u : same_send u (snd (bind o u)).
Proof.
  pose proof (socket_open_call_same o u) as Hs. unfold bind.
  destruct (socket_open_call o u) as [ec u1]. by case_calls.
Qed.

Lemma maybe_open_same o u ec u1 :
  (if socket_open u then (0%Z, u) else socket_open_call o u) = (ec, u1) -> same_send u u1.
Proof.
  pose proof (socket_open_call_same o u) as Hs. destruct (socket_open u).
  - by intros [= <- <-].
  - intros E. by rewrite E in Hs.
Qed.

Lemma connect_same o u : same_send u (snd (connect o u)).
Proof.
  unfold connect. destruct (os_resolve o) as [ec [|e l]]; [by case_calls|].
  destruct (is_open_error ec); [done|].
  destruct (if socket_open u then _ else _) as [ec' u1] eqn:Ho.
  apply maybe_open_same in Ho. by case_calls.
Qed.

Lemma join_multicast_same o u : same_send u (snd (join_multicast o u)).
Proof.
  unfold join_multicast. destruct (os_make_address o) as [ec v4].
  destruct (is_open_error ec); [done|]. destruct (negb v4); [done|].
  destruct (if socket_open u then _ else _) as [ec' u1] eqn:Ho.
  apply maybe_open_same in Ho. by case_calls.
Qed.

Lemma start_receive_same u : same_send u (start_receive u).
Proof. unfold start_receive. by destruct (_ || _). Qed.

Lemma start_receive_set_same cb k l u : same_send u (start_receive (set_receive cb k l u)).
Proof. apply (start_receive_same (set_receive cb k l u)). Qed.

Lemma receive_handler_same ec aborted data sender u :
  same_send u (receive_handler ec aborted data sender u).
Proof.
  unfold receive_handler.
  destruct (_ && _); [exact (start_receive_set_same _ _ _ (set_receive _ _ _ u))|].
  destruct (_ && _); [|done]. apply start_receive_set_same.
Qed.

(** A thread's step that changes neither the heap nor the queue. *)
Lemma uinv_thread_step n u u' :
  udp_inv n u -> uheap u' = uheap u -> uplaces u' ≡ₚ uplaces u ->
  usend_queue_ u' = usend_queue_ u -> uposted u' = uposted u -> uwrite_op u' = uwrite_op u ->
  uaccepted u' = uaccepted u -> uwire u' = uwire u ->
  (forall t s, uthreads u' !! t = Some s -> sender_inv (uheap u) s) ->
  udp_inv n u'.
Proof.
  intros [P1 P2 P3 P4 P5 P6] H1 Hp H3 H4 H5 H6 H7 H8.
  split; rewrite ?H1, ?H3, ?H4, ?H5, ?H6, ?H7; auto.
  - by rewrite Hp.
  - by rewrite Hp.
  - intros i. rewrite Hp. auto.
Qed.

Lemma uinv_enter n u t s :
  udp_inv n u -> uthreads u !! t = None -> usender_item s = [] -> sender_inv (uheap u) s ->
  udp_inv n (set_front (<[t := s]> (uthreads u)) (uposted u) (uaccepted u) u).
Proof.
  intros Hinv Ht Hi Hs. eapply uinv_thread_step; [exact Hinv|done| |done..|].
  - unfold uplaces. simpl. by rewrite uheld_insert, Hi, uheld_delete_none.
  - simpl. intros t' s'. rewrite lookup_insert_Some. intros [[_ <-]|[_ ?]]; [done|].
    by eapply (uinv_senders n u).
Qed.

Lemma uinv_pop n u t data target i pool :
  udp_inv n u -> uthreads u !! t = Some (UPopping data target) -> ubuffer_pool_ u = i :: pool ->
  udp_inv n (set_front (<[t := UCopying data target i]> (uthreads u)) (uposted u) (uaccepted u)
               (set_store (uheap u) pool (usend_queue_ u) u)).
Proof.
  intros Hinv Ht Hp. eapply uinv_thread_step; [exact Hinv|done| |done..|].
  - unfold uplaces. simpl. rewrite uheld_insert, (uheld_lookup _ _ _ Ht), Hp. simpl.
    rewrite !app_assoc. rewrite Permutation_middle. solve_Permutation.
  - simpl. intros t' s'. rewrite lookup_insert_Some. intros [[_ <-]|[_ ?]]; [done|].
    by eapply (uinv_senders n u).
Qed.

(** The item a thread holds is in no other place. *)
Lemma uheld_apart u t s i :
  NoDup (uplaces u) -> uthreads u !! t = Some s -> i ∈ usender_item s ->
  (i ∉ ubuffer_pool_ u) /\ (i ∉ usend_queue_ u) /\ (i ∉ uposted u) /\
  (forall t' s', uthreads u !! t' = Some s' -> t' <> t -> i ∉ usender_item s').
Proof.
  intros Hnd Ht Hi. pose proof (elem_of_uheld _ _ _ _ Ht Hi) as Hh. unfold uplaces in Hnd.
  apply NoDup_app in Hnd as (_ & D1 & Hnd). apply NoDup_app in Hnd as (_ & D2 & Hnd).
  apply NoDup_app in Hnd as (_ & D3 & Hnd). split_and!.
  - intros Hq. apply (D1 i Hq). set_solver.
  - intros Hq. apply (D2 i Hq). set_solver.
  - intros Hq. apply (D3 i Hq). set_solver.
  - intros t' s' Ht' Hne Hi'. rewrite (uheld_lookup _ t s Ht) in Hnd.
    apply NoDup_app in Hnd as (_ & D4 & _). apply (D4 i Hi), (elem_of_uheld _ t' s'); [|done].
    by rewrite lookup_delete_ne.
Qed.

(** A thread writes to the item it holds. *)
Lemma uinv_write_item n u t s s' i k o :
  udp_inv n u -> uthreads u !! t = Some s -> usender_item s = [i] -> usender_item s' = [i] ->
  k = i \/ k = S i ->
  (forall d tgt, live (uheap u) i d tgt -> exists d' tgt', live (<[k := o]> (uheap u)) i d' tgt') ->
  sender_inv (<[k := o]> (uheap u)) s' ->
  udp_inv n (set_front (<[t := s']> (uthreads u)) (uposted u) (uaccepted u)
               (set_store (<[k := o]> (uheap u)) (ubuffer_pool_ u) (usend_queue_ u) u)).
Proof.
  intros [P1 P2 P3 P4 P5 P6] Ht Hi Hi' Hk Hlive Hs'.
  destruct (uheld_apart u t s i P1 Ht) as (A1 & A2 & A3 & A4); [rewrite Hi; set_solver|].
  destruct (P3 i) as (d0 & t0 & Hl0).
  { apply elem_of_uplaces. do 3 right. apply (elem_of_uheld _ t s); [done|]. rewrite Hi. set_solver. }
  pose proof (proj1 Hl0) as Hev.
  assert (forall j d tgt, j <> i -> live (uheap u) j d tgt -> live (<[k := o]> (uheap u)) j d tgt)
    as Hother by (intros; eapply live_other; eauto).
  assert (forall l : list nat, i ∉ l -> (forall j, j ∈ l -> j ∈ uplaces u) ->
          payload (<[k := o]> (uheap u)) <$> l = payload (uheap u) <$> l) as Hpay.
  { intros l Hl Hin. apply payload_live_ext. intros j Hj. destruct (P3 j (Hin j Hj)) as (d & tt' & Hd).
    exists d, tt'. split; [done|]. apply Hother; [|done]. by intros ->. }
  split; simpl.
  - unfold uplaces in *. simpl. rewrite uheld_insert, Hi'.
    by rewrite (uheld_lookup _ _ _ Ht), Hi in P1.
  - unfold uplaces in *. simpl. rewrite uheld_insert, Hi'.
    by rewrite (uheld_lookup _ _ _ Ht), Hi in P2.
  - intros j Hj. assert (j ∈ uplaces u) as Hj'.
    { unfold uplaces in *. simpl in Hj. rewrite uheld_insert, Hi' in Hj.
      by rewrite (uheld_lookup _ _ _ Ht), Hi. }
    destruct (decide (j = i)) as [->|Hne]; [by eapply Hlive|].
    destruct (P3 j Hj') as (d & tt' & Hd). eauto.
  - intros t' s1. rewrite lookup_insert_Some. intros [[_ <-]|[Hne Ht']]; [done|].
    specialize (P4 t' s1 Ht'). specialize (A4 t' s1 Ht' (not_eq_sym Hne)).
    destruct s1 as [| |d1 t1 j|d1 t1 j]; simpl in *; [done|done| |].
    + destruct P4 as [t2 H2]. exists t2. apply Hother; [set_solver|done].
    + apply Hother; [set_solver|done].
  - intros b k' tgt sent Hop. destruct (P5 b k' tgt sent Hop) as (j & q & d & Hq & -> & Hd & ->).
    exists j, q, d. split_and!; try done. apply Hother; [|done]. intros ->. apply A2. rewrite Hq. set_solver.
  - destruct P6 as (don & Ha & Hw). exists don. rewrite !Hpay; [done|..].
    + done.
    + intros j Hj. apply elem_of_uplaces. auto.
    + set_solver.
    + intros j Hj. apply elem_of_uplaces. set_solver.
Qed.

Lemma held_live n u t s i :
  udp_inv n u -> uthreads u !! t = Some s -> usender_item s = [i] ->
  exists d tgt, live (uheap u) i d tgt.
Proof.
  intros Hinv Ht Hi. apply (uinv_live n u Hinv), elem_of_uplaces. do 3 right.
  apply (elem_of_uheld _ t s); [done|]. rewrite Hi. set_solver.
Qed.

Lemma uinv_copy n u t data target i d tgt :
  udp_inv n u -> uthreads u !! t = Some (UCopying data target i) -> live (uheap u) i d tgt ->
  udp_inv n (set_front (<[t := UAddressing data target i]> (uthreads u)) (uposted u) (uaccepted u)
               (set_store (<[S i := OVec data]> (uheap u)) (ubuffer_pool_ u) (usend_queue_ u) u)).
Proof.
  intros Hinv Ht Hl. eapply uinv_write_item; [done|exact Ht|done|done|by right| |].
  - intros d1 t1 H1. exists data, t1. by eapply live_copy.
  - exists tgt. by eapply live_copy.
Qed.

Lemma uinv_address n u t data target i d tgt :
  udp_inv n u -> uthreads u !! t = Some (UAddressing data target i) -> live (uheap u) i d tgt ->
  udp_inv n (set_front (<[t := UPosting data target i]> (uthreads u)) (uposted u) (uaccepted u)
               (set_store (<[i := OItem (S i) target]> (uheap u)) (ubuffer_pool_ u)
                  (usend_queue_ u) u)).
Proof.
  intros Hinv Ht Hl. eapply uinv_write_item; [done|exact Ht|done|done|by left| |].
  - intros d1 t1 H1. exists d1, target. by eapply live_address.
  - destruct (uinv_senders n u Hinv t _ Ht) as [t1 H1]. by eapply live_address.
Qed.

Lemma uinv_post n u t data target i :
  udp_inv n u -> uthreads u !! t = Some (UPosting data target i) ->
  udp_inv n (set_front (delete t (uthreads u)) (uposted u ++ [i]) (uaccepted u ++ [(data, target)]) u).
Proof.
  intros [P1 P2 P3 P4 P5 P6] Ht.
  assert (uplaces (set_front (delete t (uthreads u)) (uposted u ++ [i])
            (uaccepted u ++ [(data, target)]) u) ≡ₚ uplaces u) as Hp.
  { unfold uplaces. simpl. rewrite (uheld_lookup _ _ _ Ht). simpl. solve_Permutation. }
  split; simpl; try done.
  - by rewrite Hp.
  - by rewrite Hp.
  - intros j. rewrite Hp. apply P3.
  - intros t' s. rewrite lookup_delete_Some. intros [_ ?]. by apply (P4 t').
  - destruct P6 as (don & Ha & Hw). exists don. split; [|done].
    rewrite Ha, app_assoc, !fmap_app, <- !app_assoc. do 3 f_equal. simpl.
    by rewrite (live_payload _ _ _ _ (P4 t _ Ht)).
Qed.

(** A write starts only when none is outstanding and the queue has a front. *)
Lemma uinv_write_started n u i q :
  udp_inv n u -> uwrite_op u = None -> usend_queue_ u = i :: q ->
  exists (d : list byte) tgt, do_write u = Ret (set_op (Some (S i, length d, tgt, false)) (uwire u) u) /\
    udp_inv n (set_op (Some (S i, length d, tgt, false)) (uwire u) u).
Proof.
  intros Hinv Hop Hq.
  destruct (uinv_live n u Hinv i) as (d & tgt & Hl).
  { apply elem_of_uplaces. rewrite Hq. set_solver. }
  exists d, tgt. split.
  - destruct Hl as (_ & H1 & H2). unfold do_write. by rewrite Hq, H1, H2, Hop.
  - destruct Hinv as [P1 P2 P3 P4 P5 P6]. split; simpl; try done.
    + intros b k tgt' sent [= <- <- <- <-]. by exists i, q, d.
    + destruct P6 as (don & Ha & Hw). exists don. by rewrite Hop in Hw.
Qed.

Lemma uinv_run_posted n u i l :
  n <= queue_capacity -> udp_inv n u -> uposted u = i :: l ->
  exists u', post_handler i (set_front (uthreads u) l (uaccepted u) u) = Ret u' /\ udp_inv n u'.
Proof.
  intros Hn Hinv Hl. pose proof (uinv_count n u Hinv) as Hlen.
  unfold uplaces in Hlen. rewrite !length_app, Hl in Hlen. simpl in Hlen.
  unfold post_handler. cbn [uheap ubuffer_pool_ usend_queue_ set_front].
  rewrite circular_push_back_room by lia.
  set (u1 := set_store (uheap u) (ubuffer_pool_ u) (usend_queue_ u ++ [i])
               (set_front (uthreads u) l (uaccepted u) u)).
  assert (udp_inv n u1) as Hinv1.
  { destruct Hinv as [P1 P2 P3 P4 P5 P6].
    assert (uplaces u1 = uplaces u) as Hp.
    { unfold uplaces. simpl. by rewrite Hl, <- !app_assoc. }
    split; rewrite ?Hp; simpl; try done.
    - intros b k tgt sent Hop. destruct (P5 b k tgt sent Hop) as (j & q & d & Hq & ?).
      exists j, (q ++ [i]), d. by rewrite Hq.
    - destruct P6 as (don & Ha & Hw). exists don. rewrite Ha, Hl, <- app_assoc. split; [done|].
      destruct (uwrite_op u) as [[[[b k] tgt] []]|] eqn:Hop; try done.
      destruct (P5 b k tgt true eq_refl) as (j & q & d & Hq & _). by rewrite Hq in *. }
  destruct (usend_queue_ u) as [|j q] eqn:Hq; [|by exists u1].
  destruct (uinv_write_started n u1 i []) as (d & tgt & -> & ?); [done| |done|by eexists].
  simpl. destruct (uwrite_op u) as [[[[b k] tgt] sent]|] eqn:Hop; [|done].
  destruct (uinv_write n u Hinv b k tgt sent Hop) as (j & q & d & Hq' & _). congruence.
Qed.

Lemma uinv_transmit n u b k tgt :
  udp_inv n u -> uwrite_op u = Some (b, k, tgt, false) ->
  exists d : list byte, uheap u !! b = Some (OVec d) /\ k = length d /\
    udp_inv n (set_op (Some (b, k, tgt, true)) (uwire u ++ [(take k d, tgt)]) u).
Proof.
  intros Hinv Hop. destruct (uinv_write n u Hinv b k tgt false Hop) as (i & q & d & Hq & -> & Hl & ->).
  exists d. split; [apply Hl|]. split; [done|]. destruct Hinv as [P1 P2 P3 P4 P5 P6].
  split; simpl; try done.
  - intros b k tgt' sent [= <- <- <- <-]. by exists i, q, d.
  - destruct P6 as (don & Ha & Hw). exists don. split; [done|]. rewrite Hop, app_nil_r in Hw.
    rewrite Hq, take_ge by done. simpl. rewrite (live_payload _ _ _ _ Hl).
    apply sublist_app; [done|]. simpl. done.
Qed.

(** The front item goes back to the pool, or is deleted. *)
Lemma uinv_recycle n u i q push_ok :
  udp_inv n u -> is_Some (uwrite_op u) -> usend_queue_ u = i :: q ->
  exists u1,
    (if push_ok : bool then Ret (set_store (uheap u) (ubuffer_pool_ u ++ [i]) q u)
     else match uheap u !! i with
          | Some (OItem b _) =>
              Ret (set_store (delete i (delete b (uheap u))) (ubuffer_pool_ u) q u)
          | _ => UB
          end) = Ret u1 /\
    udp_inv n (set_op None (uwire u1) u1) /\ usend_queue_ u1 = q /\
    socket_open u1 = socket_open u.
Proof.
  intros Hinv Hop Hq. destruct Hinv as [P1 P2 P3 P4 P5 P6].
  destruct (P3 i) as (d & tgt & Hl); [apply elem_of_uplaces; rewrite Hq; set_solver|].
  assert (exists don, uaccepted u = don ++ (payload (uheap u) <$> q ++ uposted u) /\
            uwire u `sublist_of` don) as (don & Ha & Hw).
  { destruct P6 as (don & Ha & Hw). rewrite Hq in *. exists (don ++ [payload (uheap u) i]).
    split; [by rewrite Ha, <- app_assoc|].
    destruct (uwrite_op u) as [[[[b k] t1] []]|]; [exact Hw|..];
      rewrite app_nil_r in Hw; by apply sublist_inserts_r. }
  destruct push_ok.
  - eexists. split; [done|]. split; [|done].
    assert (uplaces (set_op None (uwire u) (set_store (uheap u) (ubuffer_pool_ u ++ [i]) q u))
              ≡ₚ uplaces u) as Hp.
    { unfold uplaces. simpl. rewrite Hq. solve_Permutation. }
    split; simpl; try done; [by rewrite Hp|by rewrite Hp|intros j; rewrite Hp; apply P3|].
    exists don. by rewrite app_nil_r.
  - pose proof Hl as (Hev & H1 & _). rewrite H1. eexists. split; [done|]. split; [|done].
    assert (uplaces u ≡ₚ i :: uplaces (set_store (delete i (delete (S i) (uheap u)))
              (ubuffer_pool_ u) q u)) as Hp.
    { unfold uplaces. simpl. rewrite Hq. solve_Permutation. }
    rewrite Hp in P1, P2. apply NoDup_cons in P1 as [Hni P1]. simpl in P2.
    assert (forall j, j ∈ uplaces (set_store (delete i (delete (S i) (uheap u)))
              (ubuffer_pool_ u) q u) -> j <> i /\ j ∈ uplaces u) as Hj.
    { intros j Hj. rewrite Hp. split; [by intros ->|set_solver]. }
    assert (forall j d t, j <> i -> live (uheap u) j d t ->
              live (delete i (delete (S i) (uheap u))) j d t) as Hdel
      by (intros; eapply live_delete; eauto).
    split; [exact P1|unfold uplaces in *; simpl in *; lia|..]; simpl; try done.
    + intros j [Hne Hin]%Hj. destruct (P3 j Hin) as (d1 & t1 & ?). eauto.
    + intros t s Ht. specialize (P4 t s Ht).
      assert (forall j, j ∈ usender_item s -> j <> i) as Hne.
      { intros j Hjs. apply Hj, elem_of_uplaces. do 3 right. by apply (elem_of_uheld _ t s). }
      destruct s as [| |d1 t1 j|d1 t1 j]; simpl in *; [done|done| |].
      * destruct P4 as [t2 ?]. exists t2. apply Hdel; [set_solver|done].
      * apply Hdel; [set_solver|done].
    + exists don. rewrite app_nil_r. split; [|done]. rewrite Ha. f_equal. symmetry.
      apply payload_live_ext. intros j Hin.
      destruct (Hj j) as [Hne Hin']; [apply elem_of_uplaces; simpl; set_solver|].
      destruct (P3 j Hin') as (d1 & t1 & ?). eauto.
Qed.

Lemma close_inv_udp n u : udp_inv n u -> udp_inv n (close u).
Proof. by apply same_send_inv. Qed.

Lemma uinv_send_done n u ec push_ok :
  udp_inv n u -> is_Some (uwrite_op u) ->
  exists u', send_handler ec push_ok u = Ret u' /\ udp_inv n u'.
Proof.
  intros Hinv [[[[b k] tgt] sent] Hop].
  destruct (uinv_write n u Hinv b k tgt sent Hop) as (i & q & d & Hq & _).
  destruct (uinv_recycle n u i q push_ok) as (u1 & Hu1 & Hinv1 & Hq1 & _); [done|by rewrite Hop|done|].
  unfold send_handler. rewrite Hq, Hu1. cbn [mbind outcome_bind usend_queue_ set_op]. rewrite Hq1.
  destruct ec; simpl.
  - eexists. split; [done|]. by apply close_inv_udp.
  - destruct q as [|j q']; [by eexists|].
    destruct (uinv_write_started n (set_op None (uwire u1) u1) j q') as (d' & tgt' & -> & ?);
      [done..|]. eauto.
Qed.

Lemma length_alloc k : length ((fun k => 2 * k) <$> seq 0 k) = k.
Proof. by rewrite length_fmap, length_seq. Qed.

Lemma alloc_items_lookup k j :
  j < k -> live (alloc_items k) (2 * j) [] addr0.
Proof.
  induction k as [|k IH]; [lia|]. intros Hj. cbn [alloc_items].
  destruct (decide (j = k)) as [->|Hne].
  - split; [by exists k|]. split; [by rewrite lookup_insert_eq|].
    rewrite lookup_insert_ne by lia. by rewrite lookup_insert_eq.
  - assert (j < k) as Hlt by lia. apply IH in Hlt as (He & H1 & H2).
    split; [done|]. rewrite !lookup_insert_ne by lia. done.
Qed.

Lemma udp_init_inv n : udp_inv n (udp_init n).
Proof.
  assert (uplaces (udp_init n) = (fun k => 2 * k) <$> seq 0 n) as Hp.
  { unfold uplaces, uheld. cbn [ubuffer_pool_ usend_queue_ uposted uthreads udp_init].
    rewrite map_to_list_empty. simpl. by rewrite app_nil_r. }
  split; try rewrite Hp; try done.
  - apply NoDup_fmap_2; [intros a b; lia|apply NoDup_seq].
  - by rewrite length_alloc.
  - intros i (k & -> & Hk)%list_elem_of_fmap. apply elem_of_seq in Hk.
    do 2 eexists. apply alloc_items_lookup. lia.
  - exists []. simpl. done.
Qed.

Lemma uexec_inv n e u o :
  n <= queue_capacity -> udp_inv n u -> uexec e u = Some o ->
  exists u', o = Ret u' /\ udp_inv n u'.
Proof.
  intros Hn Hinv.
  destruct e as [os|os|os| | |ec ab data sender|t data|t data tgt|t|t|t|t| | |ec ok|]; simpl.
  - intros [= <-]. eexists. split; [done|]. eapply same_send_inv; [apply bind_same|done].
  - intros [= <-]. eexists. split; [done|]. eapply same_send_inv; [apply connect_same|done].
  - intros [= <-]. eexists. split; [done|]. eapply same_send_inv; [apply join_multicast_same|done].
  - intros [= <-]. eexists. split; [done|]. eapply same_send_inv; [|done]. done.
  - intros [= <-]. eexists. split; [done|]. eapply same_send_inv; [apply start_receive_same|done].
  - destruct (receiving u =? 0); [done|]. intros [= <-]. eexists. split; [done|].
    eapply same_send_inv; [apply receive_handler_same|done].
  - unfold enter. destruct (uthreads u !! t) eqn:Ht; [done|]. unfold send_entry, send_to_entry.
    destruct (negb _); [intros [= <-]; eauto|].
    destruct (socket_open u); intros [= <-]; eexists; (split; [done|]); [by apply uinv_enter|done].
  - unfold enter. destruct (uthreads u !! t) eqn:Ht; [done|]. unfold send_to_entry.
    destruct (socket_open u); intros [= <-]; eexists; (split; [done|]); [by apply uinv_enter|done].
  - destruct (uthreads u !! t) as [[data target| | |]|] eqn:Ht; try done.
    destruct (ubuffer_pool_ u) eqn:Hp; intros [= <-]; eauto using uinv_pop.
  - destruct (uthreads u !! t) as [[|data target i| |]|] eqn:Ht; try done. intros [= <-].
    destruct (held_live n u t _ i Hinv Ht eq_refl) as (d & tgt & Hl).
    pose proof Hl as (_ & -> & ->). eauto using uinv_copy.
  - destruct (uthreads u !! t) as [[| |data target i|]|] eqn:Ht; try done. intros [= <-].
    destruct (held_live n u t _ i Hinv Ht eq_refl) as (d & tgt & Hl).
    pose proof Hl as (_ & -> & _). eauto using uinv_address.
  - destruct (uthreads u !! t) as [[| | |data target i]|] eqn:Ht; try done. intros [= <-].
    eauto using uinv_post.
  - destruct (uposted u) as [|i l] eqn:Hl; [done|]. intros [= <-].
    by apply uinv_run_posted.
  - destruct (uwrite_op u) as [[[[b k] tgt] []]|] eqn:Hop; try done.
    destruct (socket_open u); [|done]. intros [= <-].
    destruct (uinv_transmit n u b k tgt Hinv Hop) as (d & -> & -> & ?).
    rewrite Nat.leb_refl. eauto.
  - destruct (uwrite_op u) as [[[[b k] tgt] sent]|] eqn:Hop; [|done].
    destruct (ec || sent); [|done]. intros [= <-]. apply uinv_send_done; [done|by rewrite Hop].
  - intros [= <-]. eauto using close_inv_udp.
Qed.

Lemma ureachable_inv n u : n <= queue_capacity -> ureachable n u -> udp_inv n u.
Proof.
  intros Hn. induction 1 as [|u e u' _ IH He]; [apply udp_init_inv|].
  destruct (uexec_inv n e u _ Hn IH He) as (u'' & [= <-] & ?). done.
Qed.

(** The destructor takes the first item of the pool for a vector. *)
Lemma delete_pool_undefined n u p pool :
  udp_inv n u -> ubuffer_pool_ u = p :: pool -> delete_pool (p :: pool) (uheap u) = UB.
Proof.
  intros Hinv Hp. destruct (uinv_live n u Hinv p) as (d & t & _ & H1 & _).
  { unfold uplaces. rewrite Hp. by left. }
  cbn [delete_pool]. unfold delete_vec. by rewrite H1.
Qed.

Lemma ureachable_run n es u u' : ureachable n u -> urun es u = Some u' -> ureachable n u'.
Proof.
  revert u. induction es as [|e es IH]; intros u Hr; simpl; [by intros [= <-]|].
  destruct (uexec e u) as [[u1| | | |]|] eqn:He; try done.
  apply IH. by eapply ureach_step.
Qed.

(** ** Stalling and draining *)

(** Nothing is being sent although the queue is not empty. *)
Definition ustalled (u : udp) : Prop := usend_queue_ u <> [] /\ uwrite_op u = None.

Lemma same_send_stalled u u' :
  same_send u u' -> ustalled u -> ustalled u' /\ uwire u' = uwire u.
Proof. intros (_ & _ & Hq & Hop & _ & _ & _ & Hw) [? ?]. unfold ustalled. by rewrite Hq, Hop, Hw. Qed.

Lemma uexec_stalled e u u' :
  ustalled u -> uexec e u = Some (Ret u') -> ustalled u' /\ uwire u' = uwire u.
Proof.
  intros Hst. pose proof Hst as [Hq Hop].
  destruct e as [os|os|os| | |ec ab data sender|t data|t data tgt|t|t|t|t| | |ec ok|]; simpl.
  - intros [= <-]. by eapply same_send_stalled; [apply bind_same|].
  - intros [= <-]. by eapply same_send_stalled; [apply connect_same|].
  - intros [= <-]. by eapply same_send_stalled; [apply join_multicast_same|].
  - by intros [= <-].
  - intros [= <-]. by eapply same_send_stalled; [apply start_receive_same|].
  - destruct (receiving u =? 0); [done|]. intros [= <-].
    by eapply same_send_stalled; [apply receive_handler_same|].
  - unfold enter. destruct (uthreads u !! t); [done|]. by destruct (send_entry data u); intros [= <-].
  - unfold enter. destruct (uthreads u !! t); [done|].
    by destruct (send_to_entry data tgt u); intros [= <-].
  - destruct (uthreads u !! t) as [[]|]; try done. by destruct (ubuffer_pool_ u); intros [= <-].
  - destruct (uthreads u !! t) as [[|? ? i| |]|]; try done.
    destruct (uheap u !! i) as [[b ?|]|]; try done. destruct (uheap u !! b) as [[|]|]; try done.
    by intros [= <-].
  - destruct (uthreads u !! t) as [[| |? ? i|]|]; try done.
    destruct (uheap u !! i) as [[b ?|]|]; try done. by intros [= <-].
  - destruct (uthreads u !! t) as [[]|]; try done. by intros [= <-].
  - destruct (uposted u) as [|i l]; [done|]. unfold post_handler.
    cbn [usend_queue_ set_front]. destruct (usend_queue_ u) as [|j q]; [done|].
    intros [= <-]. split; [|done]. split; [|done]. apply circular_push_back_cons.
  - by rewrite Hop.
  - by rewrite Hop.
  - by intros [= <-].
Qed.

Lemma urun_stalled es u u' : ustalled u -> urun es u = Some u' -> uwire u' = uwire u.
Proof.
  revert u. induction es as [|e es IH]; intros u Hst; simpl; [by intros [= ->]|].
  destruct (uexec e u) as [[u1| | | |]|] eqn:He; try done. intros Hrun.
  destruct (uexec_stalled e u u1 Hst He) as [Hst1 <-]. by apply IH.
Qed.

(** Events of the strand and the network in which nothing fails. *)
Definition ubenign (e : uevent) : Prop :=
  match e with
  | URunPosted | UTransmit => True
  | USendDone ec push_ok => ec = false /\ push_ok = true
  | _ => False
  end.

Lemma urun_app es1 es2 u : urun (es1 ++ es2) u = urun es1 u ≫= urun es2.
Proof.
  revert u. induction es1 as [|e es1 IH]; intros u; simpl; [done|].
  destruct (uexec e u) as [[u1| | | |]|]; simpl; auto.
Qed.

(** What draining keeps. *)
Definition same_load (u u' : udp) : Prop :=
  socket_open u' = true /\ (forall j, payload (uheap u') j = payload (uheap u) j).

(** A write is outstanding, its datagram not sent, exactly when there is something
    in the queue. *)
Definition uwriting (u : udp) : Prop :=
  match usend_queue_ u with
  | [] => uwrite_op u = None
  | _ => exists b k tgt, uwrite_op u = Some (b, k, tgt, false)
  end.

(** The write of the front item completes; the next one starts. *)
Lemma ufinish_one n u b k tgt i q :
  udp_inv n u -> socket_open u = true -> uwrite_op u = Some (b, k, tgt, true) ->
  usend_queue_ u = i :: q ->
  exists u', urun [USendDone false true] u = Some u' /\ udp_inv n u' /\ same_load u u' /\
    usend_queue_ u' = q /\ uposted u' = uposted u /\ uwriting u' /\ uwire u' = uwire u.
Proof.
  intros Hinv Ho Hop Hq. cbn [urun uexec]. rewrite Hop. cbn [orb].
  destruct (uinv_send_done n u false true Hinv) as (u2 & Hu2 & Hinv2); [by eexists|].
  rewrite Hu2. exists u2. split; [done|].
  unfold send_handler in Hu2. rewrite Hq in Hu2.
  cbn [mbind outcome_bind negb andb usend_queue_ set_op set_store] in Hu2.
  destruct q as [|j q]; [by injection Hu2 as <-|].
  unfold do_write in Hu2. cbn [usend_queue_ set_op set_store uheap uwrite_op uwire] in Hu2.
  destruct (uheap u !! j) as [[b' t'|]|]; try done.
  destruct (uheap u !! b') as [[|d']|]; try done. injection Hu2 as <-.
  split_and!; try done. unfold uwriting. simpl. eauto.
Qed.

Lemma udrain_one n u b k tgt i q :
  udp_inv n u -> socket_open u = true -> uwrite_op u = Some (b, k, tgt, false) ->
  usend_queue_ u = i :: q ->
  exists u', urun [UTransmit; USendDone false true] u = Some u' /\ udp_inv n u' /\ same_load u u' /\
    usend_queue_ u' = q /\ uposted u' = uposted u /\ uwriting u' /\
    uwire u' = uwire u ++ [payload (uheap u) i].
Proof.
  intros Hinv Ho Hop Hq.
  destruct (uinv_write n u Hinv b k tgt false Hop) as (i' & q' & d0 & Hq' & -> & Hl & ->).
  rewrite Hq in Hq'. injection Hq' as <- <-.
  destruct (uinv_transmit n u _ _ tgt Hinv Hop) as (d & Hd & Hk & Hinv1).
  pose proof Hl as (_ & _ & Hd'). rewrite Hd in Hd'. injection Hd' as ->. clear Hk.
  destruct (ufinish_one n _ (S i) (length d0) tgt i q Hinv1) as (u' & Hrun & H1 & H2 & H3 & H4 & H5 & H6);
    [done..|].
  exists u'. split.
  - cbn [urun]. cbn [uexec]. rewrite Hop, Ho, Hd, Nat.leb_refl. exact Hrun.
  - rewrite H6. cbn [uwire set_op]. by rewrite take_ge, (live_payload _ _ _ _ Hl) by done.
Qed.

Lemma udrain_queue n q u :
  udp_inv n u -> socket_open u = true -> usend_queue_ u = q -> uwriting u ->
  exists es u', Forall ubenign es /\ urun es u = Some u' /\ udp_inv n u' /\ same_load u u' /\
    usend_queue_ u' = [] /\ uwrite_op u' = None /\ uposted u' = uposted u /\
    uwire u' = uwire u ++ (payload (uheap u) <$> q).
Proof.
  revert u. induction q as [|i q IH]; intros u Hinv Ho Hq Hw.
  - exists [], u. unfold uwriting in Hw. rewrite Hq in Hw. by rewrite app_nil_r.
  - pose proof Hw as Hw'. unfold uwriting in Hw'. rewrite Hq in Hw'.
    destruct Hw' as (b & k & tgt & Hop).
    destruct (udrain_one n u b k tgt i q Hinv Ho Hop Hq) as (u1 & R1 & I1 & [O1 P1] & Q1 & L1 & W1 & E1).
    destruct (IH u1 I1 O1 Q1 W1) as (es & u2 & B2 & R2 & I2 & [O2 P2] & Q2 & N2 & L2 & E2).
    exists ([UTransmit; USendDone false true] ++ es), u2.
    split; [repeat constructor; done|]. split; [by rewrite urun_app, R1|].
    split_and!; try done; [split; [done|congruence]|congruence|].
    rewrite E2, E1, <- app_assoc. f_equal. simpl. f_equal. apply list_fmap_ext. intros. apply P1.
Qed.

Lemma uwriting_empty u : usend_queue_ u = [] -> uwrite_op u = None -> uwriting u.
Proof. intros Hq Hop. unfold uwriting. by rewrite Hq. Qed.

Lemma udrain_posted n l u :
  n <= queue_capacity -> udp_inv n u -> socket_open u = true -> usend_queue_ u = [] ->
  uwrite_op u = None -> uposted u = l ->
  exists es u', Forall ubenign es /\ urun es u = Some u' /\ udp_inv n u' /\ socket_open u' = true /\
    usend_queue_ u' = [] /\ uposted u' = [] /\
    uwire u' = uwire u ++ (payload (uheap u) <$> l).
Proof.
  intros Hn. revert u. induction l as [|i l IH]; intros u Hinv Ho Hq Hop Hl.
  - exists [], u. by rewrite app_nil_r.
  - destruct (uinv_run_posted n u i l Hn Hinv Hl) as (u1 & R1 & I1).
    assert (socket_open u1 = true /\ uheap u1 = uheap u /\ usend_queue_ u1 = [i] /\ uposted u1 = l /\
            uwire u1 = uwire u /\ uwriting u1) as (O1 & P1 & Q1 & L1 & E1 & W1).
    { unfold post_handler in R1. cbn [uheap ubuffer_pool_ usend_queue_ set_front] in R1.
      rewrite Hq, circular_push_back_room in R1 by (simpl; apply queue_capacity_pos).
      unfold do_write in R1. cbn [usend_queue_ set_store set_front uheap uwrite_op uwire app] in R1.
      destruct (uheap u !! i) as [[b t|]|]; try done.
      destruct (uheap u !! b) as [[|d]|]; try done. rewrite Hop in R1. injection R1 as <-.
      split_and!; try done. unfold uwriting. simpl. eauto. }
    destruct (udrain_queue n [i] u1 I1 O1 Q1 W1)
      as (es2 & u2 & B2 & R2 & I2 & [O2 P2] & Q2 & N2 & L2 & E2).
    destruct (IH u2 I2 O2 Q2 N2) as (es3 & u3 & B3 & R3 & I3 & O3 & Q3 & L3 & E3); [congruence|].
    exists (URunPosted :: es2 ++ es3), u3.
    split; [constructor; [done|by apply Forall_app]|].
    split. { cbn [urun uexec]. rewrite Hl, R1. by rewrite urun_app, R2. }
    split_and!; try done. rewrite E3, E2, E1, P1, <- app_assoc. f_equal. simpl. f_equal.
    apply list_fmap_ext. intros. rewrite P2. by rewrite P1.
Qed.

(** ** Receiving stops *)

Definition not_started_again (e : uevent) : Prop :=
  match e with UStartReceive => False | _ => True end.

(** Sending operations do not touch the receive state. *)
Definition same_receive (u u' : udp) : Prop :=
  receiving u' = receiving u /\ received u' = received u.

Lemma maybe_open_receive o u ec u1 :
  (if socket_open u then (0%Z, u) else socket_open_call o u) = (ec, u1) -> same_receive u u1.
Proof.
  unfold socket_open_call. destruct (socket_open u); [by intros [= <- <-]|].
  destruct (is_open_error (os_open o)); by intros [= <- <-].
Qed.

Lemma setup_receive o u :
  same_receive u (snd (bind o u)) /\ same_receive u (snd (connect o u)) /\
  same_receive u (snd (join_multicast o u)).
Proof.
  split_and!.
  - unfold bind, socket_open_call.
    destruct (socket_open u); [done|]. destruct (is_open_error (os_open o)) eqn:E; simpl; by case_calls.
  - unfold connect. destruct (os_resolve o) as [ec [|e l]]; [by case_calls|].
    destruct (is_open_error ec); [done|].
    destruct (if socket_open u then _ else _) as [ec' u1] eqn:Ho.
    apply maybe_open_receive in Ho. by case_calls.
  - unfold join_multicast. destruct (os_make_address o) as [ec v4].
    destruct (is_open_error ec); [done|]. destruct (negb v4); [done|].
    destruct (if socket_open u then _ else _) as [ec' u1] eqn:Ho.
    apply maybe_open_receive in Ho. by case_calls.
Qed.

(** None of them closes the socket. *)
Lemma setup_open o u :
  (socket_open u = true -> socket_open (snd (bind o u)) = true) /\
  (socket_open u = true -> socket_open (snd (connect o u)) = true) /\
  (socket_open u = true -> socket_open (snd (join_multicast o u)) = true).
Proof.
  split_and!; intros Ho.
  - unfold bind, socket_open_call. rewrite Ho. exact Ho.
  - unfold connect. rewrite Ho. destruct (os_resolve o) as [ec [|e l]]; by case_calls.
  - unfold join_multicast. rewrite Ho. destruct (os_make_address o) as [ec v4]. by case_calls.
Qed.

Lemma do_write_receive u u' : do_write u = Ret u' -> same_receive u u'.
Proof.
  unfold do_write. destruct (usend_queue_ u); [done|].
  destruct (uheap u !! n) as [[b t|]|]; try done.
  destruct (uheap u !! b) as [[|d]|], (uwrite_op u); try done. by intros [= <-].
Qed.

Lemma send_handler_receive ec ok u u' : send_handler ec ok u = Ret u' -> same_receive u u'.
Proof.
  unfold send_handler. destruct (usend_queue_ u) as [|i q]; [done|].
  destruct (if ok then _ else _) as [u1| | | |] eqn:E; try done.
  assert (same_receive u u1) as H1.
  { destruct ok; [by injection E as <-|]. destruct (uheap u !! i) as [[|]|]; try done.
    by injection E as <-. }
  cbn [mbind outcome_bind]. destruct (negb ec && _).
  - intros (? & ?)%do_write_receive. destruct H1. split; by etrans.
  - destruct ec; by intros [= <-].
Qed.

Definition not_received (e : uevent) : Prop :=
  match e with UReceive _ _ _ _ => False | _ => True end.

Lemma uexec_same_receive e u u' :
  not_started_again e -> not_received e -> uexec e u = Some (Ret u') -> same_receive u u'.
Proof.
  intros He Hr.
  destruct e as [o|o|o| | |ec ab data sender|t data|t data tgt|t|t|t|t| | |ec ok|]; simpl; try done.
  - intros [= <-]. apply (setup_receive o u).
  - intros [= <-]. apply (setup_receive o u).
  - intros [= <-]. apply (setup_receive o u).
  - by intros [= <-].
  - unfold enter. destruct (uthreads u !! t); [done|]. by destruct (send_entry data u); intros [= <-].
  - unfold enter. destruct (uthreads u !! t); [done|].
    by destruct (send_to_entry data tgt u); intros [= <-].
  - destruct (uthreads u !! t) as [[]|]; try done. by destruct (ubuffer_pool_ u); intros [= <-].
  - destruct (uthreads u !! t) as [[|? ? i| |]|]; try done.
    destruct (uheap u !! i) as [[b ?|]|]; try done. destruct (uheap u !! b) as [[|]|]; try done.
    by intros [= <-].
  - destruct (uthreads u !! t) as [[| |? ? i|]|]; try done.
    destruct (uheap u !! i) as [[b ?|]|]; try done. by intros [= <-].
  - destruct (uthreads u !! t) as [[]|]; try done. by intros [= <-].
  - destruct (uposted u) as [|i l]; [done|]. unfold post_handler.
    destruct (match _ with [] => true | _ => false end).
    + intros [= Hd]. by apply do_write_receive in Hd.
    + by intros [= <-].
  - destruct (uwrite_op u) as [[[[b k] tgt] []]|]; try done. destruct (socket_open u); [|done].
    destruct (uheap u !! b) as [[|d]|]; try done. destruct (k <=? length d); [|done]. by intros [= <-].
  - destruct (uwrite_op u) as [[[[b k] tgt] sent]|]; [|done]. destruct (ec || sent); [|done].
    intros [= Hd]. by apply send_handler_receive in Hd.
  - by intros [= <-].
Qed.

Lemma uexec_receive e u u' :
  not_started_again e -> receiving u = 0 -> uexec e u = Some (Ret u') -> same_receive u u'.
Proof.
  intros He H0. destruct e; try by apply uexec_same_receive. cbn [uexec]. by rewrite H0.
Qed.

Lemma uexec_received e u u' :
  not_received e -> uexec e u = Some (Ret u') -> received u' = received u.
Proof.
  intros He. destruct e; try by intros [_ ?]%uexec_same_receive.
  cbn [uexec]. intros [= <-]. unfold start_receive. by destruct (_ || _).
Qed.

Lemma urun_receive es u u' :
  Forall not_started_again es -> receiving u = 0 -> urun es u = Some u' ->
  receiving u' = 0 /\ received u' = received u.
Proof.
  intros Hes. revert u. induction Hes as [|e es He _ IH]; intros u H0; simpl; [by intros [= <-]|].
  destruct (uexec e u) as [[u1| | | |]|] eqn:Hex; try done. intros Hrun.
  destruct (uexec_receive e u u1 He H0 Hex) as [Hr1 Hd1].
  destruct (IH u1) as [? ?]; [congruence|done|]. split; congruence.
Qed.

(** ** Deleting *)

Lemma delete_queue_spec q h :
  NoDup q -> (forall i, i ∈ q -> exists d t, live h i d t) ->
  exists h', delete_queue q h = Ret h' /\
    forall j, h' !! j = if decide (j ∈ S <$> q) then None else h !! j.
Proof.
  intros Hnd. revert h. induction Hnd as [|i q Hi Hnd IH]; intros h Hl; cbn [delete_queue].
  { exists h. split; [done|]. intros j. case_decide as Hc; [|done]. set_solver. }
  destruct (Hl i) as (d & t & Hev & -> & Hd); [set_solver|]. unfold delete_vec. rewrite Hd. cbn [mbind outcome_bind].
  destruct (IH (delete (S i) h)) as (h' & -> & Hh').
  { intros j Hj. destruct (Hl j) as (d' & t' & Hevj & H1 & H2); [set_solver|]. exists d', t'.
    assert (j <> i) as Hne by by intros ->.
    destruct Hev as [a ->], Hevj as [b ->]. split; [by exists b|].
    by rewrite !lookup_delete_ne by lia. }
  exists h'. split; [done|]. intros j. rewrite Hh'. destruct (decide (j ∈ S <$> q)) as [Hj|Hj].
  - case_decide as Hc; [done|]. destruct Hc. rewrite fmap_cons. set_solver.
  - destruct (decide (j = S i)) as [->|Hne].
    + rewrite lookup_delete_eq. case_decide as Hc; [done|]. destruct Hc. rewrite fmap_cons.
      set_solver.
    + rewrite lookup_delete_ne by done. case_decide as Hc; [|done].
      rewrite fmap_cons in Hc. set_solver.
Qed.

Lemma destroy_cases n u :
  udp_inv n u ->
  match ubuffer_pool_ u with [] => exists h, destroy u = Ret h | _ => destroy u = UB end.
Proof.
  intros Hinv. unfold destroy. destruct (ubuffer_pool_ u) as [|p pool] eqn:Hp.
  - cbn [delete_pool mbind outcome_bind].
    destruct (delete_queue_spec (usend_queue_ u) (uheap u)) as (h & Hh & _); [| |by exists h].
    + pose proof (uinv_places n u Hinv) as Hnd. unfold uplaces in Hnd. rewrite Hp in Hnd.
      cbn [app] in Hnd. by apply NoDup_app in Hnd as (Hnd & _ & _).
    + intros i Hi. apply (uinv_live n u Hinv), elem_of_uplaces. auto.
  - by rewrite (delete_pool_undefined n u p pool Hinv Hp).
Qed.

(** ** Properties *)

Context (n : nat) (u : udp).

Lemma udp_pool_fits : n <= pool_capacity -> n <= queue_capacity.
Proof. intros. etrans; [eassumption|]. apply pool_queue_capacity. Qed.

(** No undefined behaviour before destruction.  Whatever threads call
    [send], [send_to], [connect], [bind] and [close], and whatever fails: every
    possible step returns, no [async_send_to] is started while one is
    outstanding, [front] is never called on an empty queue, and no item or buffer
    is used after it was freed. *)
Theorem udp_safe e o :
  n <= pool_capacity -> ureachable n u -> uexec e u = Some o -> exists u', o = Ret u'.
Proof.
  intros Hn%udp_pool_fits Hr He.
  destruct (uexec_inv n e u o Hn (ureachable_inv n u Hn Hr) He) as (u' & -> & _). eauto.
Qed.

(** C34: the heap is well typed.  In every reachable state each pointer of the pool, of
    the queue, of the posted lambdas and of the threads inside [send_to] points to a
    [UdpSendItem] whose own pointer is to a vector; no item is in two of these places, no
    two items share a vector, and none is at the address of another's vector; and the
    outstanding [async_send_to] reads exactly the vector of the queue's front. *)
Theorem udp_heap_typed :
  n <= pool_capacity -> ureachable n u ->
  NoDup (uplaces u) /\
  (forall i, i ∈ uplaces u ->
     exists b t d, uheap u !! i = Some (OItem b t) /\ uheap u !! b = Some (OVec d) /\ (b ∉ uplaces u) /\
       (forall j t', j ∈ uplaces u -> uheap u !! j = Some (OItem b t') -> j = i)) /\
  (forall b k tgt sent, uwrite_op u = Some (b, k, tgt, sent) ->
     exists i q d, usend_queue_ u = i :: q /\ uheap u !! i = Some (OItem b tgt) /\
       uheap u !! b = Some (OVec d) /\ k = length d).
Proof.
  intros Hn%udp_pool_fits Hr. destruct (ureachable_inv n u Hn Hr) as [Hnd _ Hl _ Hw _].
  split; [exact Hnd|]. split.
  - intros i Hi. destruct (Hl i Hi) as (d & t & _ & Hit & Hv). exists (S i), t, d. split_and!; [done..| |].
    + intros Hin. destruct (Hl _ Hin) as (d' & t' & _ & Hit' & _). congruence.
    + intros j t' Hj Hjt. destruct (Hl j Hj) as (d' & t2 & _ & Hjt' & _). congruence.
  - intros b k tgt sent Hop. destruct (Hw b k tgt sent Hop) as (i & q & d & Hq & -> & (_ & Hit & Hv) & Hk).
    by exists i, q, d.
Qed.


(** Without failures everything queued is sent.  From every reachable open
    state in which a write is under way or the queue is empty, a failure-free
    schedule empties the strand and the queue and puts every datagram they hold on
    the wire, in order. *)
Theorem udp_drains :
  n <= pool_capacity -> ureachable n u -> socket_open u = true ->
  (usend_queue_ u = [] \/ uwrite_op u <> None) ->
  exists es u' sent, Forall ubenign es /\ urun es u = Some u' /\
    usend_queue_ u' = [] /\ uposted u' = [] /\
    uwire u' = uwire u ++ sent /\
    (payload (uheap u) <$> usend_queue_ u ++ uposted u) =
      match uwrite_op u with Some (_, _, _, true) => take 1 (payload (uheap u) <$> usend_queue_ u) | _ => [] end
      ++ sent.
Proof.
  intros Hn%udp_pool_fits Hr Ho Hst. pose proof (ureachable_inv n u Hn Hr) as Hinv.
  assert (exists es1 u1, Forall ubenign es1 /\ urun es1 u = Some u1 /\ udp_inv n u1 /\
            same_load u u1 /\ uposted u1 = uposted u /\ uwriting u1 /\ uwire u1 = uwire u /\
            (payload (uheap u) <$> usend_queue_ u) =
              match uwrite_op u with
              | Some (_, _, _, true) => take 1 (payload (uheap u) <$> usend_queue_ u) | _ => [] end
              ++ (payload (uheap u) <$> usend_queue_ u1))
    as (es1 & u1 & B1 & R1 & I1 & [O1 P1] & L1 & W1 & E1 & Q1).
  { destruct (uwrite_op u) as [[[[b k] tgt] sent]|] eqn:Hop.
    - destruct (uinv_write n u Hinv b k tgt sent Hop) as (i & q & d & Hq & _).
      destruct sent.
      + destruct (ufinish_one n u b k tgt i q Hinv Ho Hop Hq) as (u1 & R1 & I1 & S1 & Q1 & L1 & W1 & E1).
        exists [USendDone false true], u1. split; [by repeat constructor|].
        split_and!; try done. rewrite Hq, Q1. done.
      + exists [], u. split_and!; try done. unfold uwriting. rewrite Hq. eauto.
    - destruct Hst as [Hq|]; [|done]. exists [], u.
      split_and!; try done. by apply uwriting_empty. }
  destruct (udrain_queue n _ u1 I1 O1 eq_refl W1) as (es2 & u2 & B2 & R2 & I2 & [O2 P2] & Q2 & N2 & L2 & E2).
  destruct (udrain_posted n _ u2 Hn I2 O2 Q2 N2 eq_refl) as (es3 & u3 & B3 & R3 & I3 & O3 & Q3 & L3 & E3).
  exists (es1 ++ es2 ++ es3), u3, ((payload (uheap u) <$> usend_queue_ u1) ++ (payload (uheap u) <$> uposted u)).
  split; [by rewrite !Forall_app|]. split; [by rewrite !urun_app, R1; simpl; rewrite urun_app, R2|].
  split; [done|]. split; [done|]. split.
  - rewrite E3, E2, E1, <- app_assoc, L2, L1. f_equal. f_equal; apply list_fmap_ext; intros.
    + by rewrite P1.
    + by rewrite P2, P1.
  - rewrite fmap_app, Q1, <- app_assoc. do 2 f_equal. by rewrite <- Q1.
Qed.

(** A send error with other datagrams queued stops the endpoint for good.
    Closing in the error path leaves the queue non-empty with no write under way,
    and the posted lambdas only start a write on an empty queue: whatever is done
    afterwards ([connect] and [bind] included, after which [send] succeeds again),
    no datagram leaves any more. *)
Theorem udp_error_stalls_for_good i j q ok u1 es u' :
  usend_queue_ u = i :: j :: q -> uexec (USendDone true ok) u = Some (Ret u1) ->
  urun es u1 = Some u' -> uwire u' = uwire u.
Proof.
  intros Hq He Hrun. simpl in He. destruct (uwrite_op u) as [[[[b k] tgt] sent]|]; [|done].
  unfold send_handler in He. rewrite Hq in He. simpl in He.
  destruct (if ok then _ else _) as [u2| | | |] eqn:E; try done. injection He as <-.
  assert (usend_queue_ u2 = j :: q /\ uwire u2 = uwire u) as [Hq2 <-].
  { destruct ok; [by injection E as <-|]. destruct (uheap u !! i) as [[|]|]; try done.
    by injection E as <-. }
  change (uwire u2) with (uwire (close (set_op None (uwire u2) u2))).
  apply (urun_stalled es); [|done]. split; [simpl; congruence|done].
Qed.

(** An empty datagram, which any host can send, ends the receive loop: its
    completion starts no further receive, and until the application calls
    [start_receive] again nothing more is received, whatever else happens. *)
Theorem udp_empty_datagram_ends_receiving aborted sender es u' :
  receiving u = 1 -> Forall not_started_again es ->
  urun (UReceive false aborted [] sender :: es) u = Some u' ->
  receiving u' = 0 /\ received u' = received u.
Proof.
  intros H1 Hes Hrun. cbn [urun uexec] in Hrun. rewrite H1 in Hrun. simpl in Hrun.
  apply urun_receive in Hrun; [done|done|]. simpl. by rewrite H1.
Qed.

(** Every other outcome keeps an endpoint with a callback receiving: a
    datagram is handed to the callback with its sender and a new receive is
    started, a transient error only starts a new receive, and an abort (or a
    closed socket) ends the loop. *)
Theorem udp_receive_handler_cases ec aborted data sender :
  has_callback u = true -> receiving u = 1 -> data <> [] ->
  let u' := receive_handler ec aborted data sender u in
  receiving u' = (if socket_open u && negb (ec && aborted) then 1 else 0) /\
  received u' = (if ec then received u else received u ++ [(data, sender)]) /\ same_send u u'.
Proof.
  intros Hc H1 Hd u'. apply and_assoc. split; [|apply receive_handler_same].
  unfold u', receive_handler, start_receive. destruct data as [|b data]; [done|].
  destruct ec, aborted, (socket_open u) eqn:Ho; simpl; rewrite ?Hc; simpl; rewrite ?Ho; simpl;
    by rewrite ?H1.
Qed.

(** The destructor is undefined behaviour whenever the pool holds an item,
    which it deletes as a [std::vector]; with an empty pool it frees the buffers of
    the queued items but leaks the items. *)
Theorem udp_destructor_undefined :
  n <= pool_capacity -> ureachable n u ->
  (ubuffer_pool_ u <> [] -> destroy u = UB) /\
  (ubuffer_pool_ u = [] -> exists h, destroy u = Ret h /\
     forall i, i ∈ usend_queue_ u -> h !! S i = None /\ exists t, h !! i = Some (OItem (S i) t)).
Proof.
  intros Hn%udp_pool_fits Hr. pose proof (ureachable_inv n u Hn Hr) as Hinv.
  pose proof (uinv_live n u Hinv) as Hl. pose proof (uinv_places n u Hinv) as Hnd.
  unfold destroy. destruct (ubuffer_pool_ u) as [|p pool] eqn:Hp; (split; [|]); try done.
  - intros _. simpl. destruct (delete_queue_spec (usend_queue_ u) (uheap u)) as (h & -> & Hh).
    + unfold uplaces in Hnd. by apply NoDup_app in Hnd as (_ & _ & [? _]%NoDup_app).
    + intros i Hi. apply Hl, elem_of_uplaces. auto.
    + exists h. split; [done|]. intros i Hi. rewrite !Hh. split; [by rewrite decide_True by set_solver|].
      destruct (Hl i) as (d & t & Hev & H1 & _); [apply elem_of_uplaces; auto|]. exists t.
      rewrite decide_False; [done|]. intros (j & -> & Hj)%list_elem_of_fmap.
      destruct (Hl j) as (d' & t' & [b ->] & _); [apply elem_of_uplaces; auto|].
      destruct Hev as [a Ha]. lia.
  - intros _. by rewrite (delete_pool_undefined n u p pool Hinv Hp).
Qed.

(** [connect].  On success the socket is open, the cached endpoint is the
    first one the resolver gave, and [send] addresses it; every failure (resolver,
    empty result, [open], OS connect) is reported as a non-zero error and leaves
    the connected flag, the cached endpoint and the send path as they were. *)
Theorem udp_connect_cases o :
  let '(r, u') := connect o u in
  (has_value r = true ->
   socket_open u' = true /\
   exists e l, os_resolve o = (0%Z, e :: l) /\ os_connect o e = 0%Z /\
     forall data, send_entry data u' = inr (UPopping data e)) /\
  (has_value r = false ->
   is_connected_ u' = is_connected_ u /\ remote_endpoint_ u' = remote_endpoint_ u /\
   (socket_open u = true -> socket_open u' = true) /\
   exists code, error r = Ret code /\ code <> 0%Z) /\
  same_send u u'.
Proof.
  pose proof (connect_same o u) as Hs. unfold connect in *.
  assert (forall c, is_open_error c = false -> c = 0%Z) as Hz.
  { intros c Hc%negb_false_iff. by apply Z.eqb_eq in Hc. }
  assert (forall c, is_open_error c = true -> c <> 0%Z) as Hnz.
  { intros c Hc%negb_true_iff. by apply Z.eqb_neq in Hc. }
  destruct (os_resolve o) as [ec [|e l]] eqn:Hres.
  { destruct (is_open_error ec) eqn:He; (split; [done|]); (split; [|done]); intros _;
      split_and!; try done; eexists; (split; [reflexivity|]); [by apply Hnz|done]. }
  destruct (is_open_error ec) eqn:He.
  { split; [done|]. split; [|done]. intros _. split_and!; try done. eexists. eauto. }
  apply Hz in He as ->.
  destruct (if socket_open u then _ else _) as [ec' u1] eqn:Ho.
  assert (is_connected_ u1 = is_connected_ u /\ remote_endpoint_ u1 = remote_endpoint_ u /\
          (socket_open u = true -> socket_open u1 = true) /\
          (is_open_error ec' = false -> socket_open u1 = true)) as (C1 & C2 & C3 & C4).
  { unfold socket_open_call in Ho. destruct (socket_open u) eqn:Hso.
    - by injection Ho as <- <-.
    - destruct (is_open_error (os_open o)) eqn:Hoo; injection Ho as <- <-; split_and!; try done.
      rewrite Hoo. done. }
  destruct (is_open_error ec') eqn:He'.
  { split; [done|]. split; [|done]. intros _. split_and!; try done. eexists. eauto. }
  destruct (is_open_error (os_connect o e)) eqn:Hec.
  { split; [done|]. split; [|done]. intros _. split_and!; try done. eexists. eauto. }
  split; [|split; [done|done]]. intros _. split; [by apply C4|]. exists e, l.
  split_and!; [done|by apply Hz|]. intros data. unfold send_entry, send_to_entry. simpl. by rewrite C4.
Qed.

(** A bound server endpoint.  [bind] succeeds exactly on a closed socket whose
    [open] and [bind] succeed; an endpoint that was only bound receives but refuses
    [send] with [not_connected]. *)
Theorem udp_bind_cases o :
  let '(r, u') := bind o u in
  (has_value r = true <-> socket_open u = false /\ os_open o = 0%Z /\ os_bind o = 0%Z) /\
  (has_value r = true -> socket_open u' = true /\
     receiving (start_receive (on_receive u')) = S (receiving u)) /\
  (is_connected_ u = false -> forall data, send_entry data u' = inl (error_of not_connected)) /\
  same_send u u'.
Proof.
  pose proof (bind_same o u) as Hs. unfold bind, socket_open_call in *.
  assert (forall c, is_open_error c = true <-> c <> 0%Z) as Hz.
  { intros c. unfold is_open_error. rewrite negb_true_iff. apply Z.eqb_neq. }
  assert (forall c, is_open_error c = false <-> c = 0%Z) as Hz0.
  { intros c. unfold is_open_error. rewrite negb_false_iff. apply Z.eqb_eq. }
  unfold send_entry. destruct (socket_open u) eqn:Ho.
  { split_and!; try done; [|by intros ->]. split; [done|]. by intros (? & _). }
  destruct (is_open_error (os_open o)) eqn:Hoo.
  { rewrite Hoo in *. apply Hz in Hoo. split_and!; try done; [|by intros ->].
    split; [done|]. by intros (_ & ? & _). }
  apply Hz0 in Hoo. cbn [is_open_error Z.eqb negb] in *.
  destruct (is_open_error (os_bind o)) eqn:Hob.
  - apply Hz in Hob. split_and!; try done; [|by simpl; intros ->]. split; [done|]. by intros (_ & _ & ?).
  - apply Hz0 in Hob. split_and!; try done; by simpl; intros ->.
Qed.

End Udp.

(** ** Witnesses *)

Arguments udp Addr : clear implicits.
Arguments uevent Addr : clear implicits.

#[local] Existing Instance overwriting_buffer.

(** Addresses are port numbers. *)
Definition lan : os :=
  Os (Addr := nat) 0 0 (fun _ => 0%Z) (0%Z, [7]) (0%Z, true) 0 0.

Definition post_datagram (t : nat) (d : list byte) : list (uevent nat) :=
  [USend t d; UPop t; UCopy t; UAddress t; UPost t].

(** A connected endpoint with one datagram being sent and another queued. *)
Definition two_datagrams : list (uevent nat) :=
  UConnect lan :: post_datagram 1 [x61] ++ post_datagram 2 [x62; x63] ++
  [URunPosted; URunPosted; UTransmit].

Definition two_datagrams_state : udp nat :=
  default (udp_init 0 2) (urun two_datagrams (udp_init 0 2)).

Lemma two_datagrams_reachable : ureachable 0 2 two_datagrams_state.
Proof. eapply (ureachable_run 0 2 two_datagrams); [constructor|by vm_compute]. Qed.

Lemma udp_heap_typed_witness :
  2 ∈ uplaces two_datagrams_state /\ exists b t, uheap two_datagrams_state !! 2 = Some (OItem b t).
Proof.
  destruct (udp_heap_typed 0 2 two_datagrams_state small_pool two_datagrams_reachable) as (_ & H & _).
  assert (2 ∈ uplaces two_datagrams_state) as Hi by (apply (bool_decide_eq_true_1 _); vm_compute; reflexivity).
  split; [exact Hi|]. destruct (H 2 Hi) as (b & t & d & Hit & _). by exists b, t.
Defined.

Lemma udp_safe_witness :
  exists u', uexec (USendDone false false) two_datagrams_state = Some (Ret u').
Proof.
  destruct (uexec (USendDone false false) two_datagrams_state) as [o|] eqn:E.
  - destruct (udp_safe 0 2 two_datagrams_state (USendDone false false) o
                small_pool two_datagrams_reachable E) as [u' ->]. by exists u'.
  - exfalso. revert E. by vm_compute.
Defined.


Lemma udp_drains_witness :
  exists es u' sent, Forall ubenign es /\ urun es two_datagrams_state = Some u' /\
    usend_queue_ u' = [] /\ uposted u' = [] /\
    uwire u' = [([x61], 7)] ++ sent /\ [([x61], 7); ([x62; x63], 7)] = [([x61], 7)] ++ sent.
Proof.
  apply (udp_drains 0 2 two_datagrams_state small_pool two_datagrams_reachable eq_refl).
  right. by vm_compute.
Defined.

(** The first send fails; the endpoint is connected again; a third datagram is
    accepted and posted. *)
Definition error_then_reconnect : list (uevent nat) :=
  UConnect lan :: post_datagram 3 [x64] ++ [URunPosted].

Definition errored_state : udp nat :=
  match uexec (USendDone true true) two_datagrams_state with
  | Some (Ret u) => u | _ => two_datagrams_state end.

Definition reconnected_state : udp nat :=
  default errored_state (urun error_then_reconnect errored_state).

Lemma udp_error_stalls_for_good_witness :
  urun error_then_reconnect errored_state = Some reconnected_state /\
  uaccepted reconnected_state = [([x61], 7); ([x62; x63], 7); ([x64], 7)] /\
  uwire reconnected_state = [([x61], 7)].
Proof.
  assert (urun error_then_reconnect errored_state = Some reconnected_state) as Hrun by by vm_compute.
  split; [exact Hrun|]. split; [by vm_compute|].
  rewrite (udp_error_stalls_for_good two_datagrams_state 0 2 [] true errored_state
             error_then_reconnect reconnected_state); by vm_compute.
Defined.

Definition listening : udp nat := start_receive (on_receive (snd (bind lan (udp_init 0 2)))).

Lemma udp_empty_datagram_ends_receiving_witness :
  exists u', urun [UReceive false false [] 7; UOnReceive] listening = Some u' /\ receiving u' = 0.
Proof.
  destruct (urun [UReceive false false [] 7; UOnReceive] listening) as [u'|] eqn:E.
  - exists u'. split; [done|].
    apply (udp_empty_datagram_ends_receiving listening false 7 [UOnReceive] u');
      [by vm_compute|by repeat constructor|exact E].
  - exfalso. revert E. by vm_compute.
Defined.

Lemma udp_receive_handler_cases_witness :
  receiving (receive_handler false false [x61] 7 listening) = 1 /\
  received (receive_handler false false [x61] 7 listening) = [([x61], 7)].
Proof.
  destruct (udp_receive_handler_cases listening false false [x61] 7) as (H1 & H2 & _);
    [by vm_compute|by vm_compute|done|]. split; [exact H1|exact H2].
Defined.

Lemma udp_destructor_undefined_witness : destroy (udp_init 0 2) = UB.
Proof.
  apply (udp_destructor_undefined 0 2 (udp_init 0 2) small_pool); [constructor|by vm_compute].
Defined.
