(* ===== verification/UdpSession.v ===== *)
(** * udp_endpoint.hpp: [UdpEndpoint] with its receive callback

    UdpEndpoint.v has the endpoint's own steps, in which the completion handler of a
    receive only records the datagram.  Here the handler runs the callback, a program over
    [send], [send_to] and [close] of the endpoint it was registered with, inside the
    strand and before the next receive starts.  Every run of this machine is one of the
    endpoint's, so that the theorems about the endpoint hold of it too. *)

From S2P Require Import Prelude Expected SendPipeline Callbacks UdpEndpoint.
From Stdlib Require Import ZArith Lia.

Open Scope nat_scope.

(** ** Callbacks *)

Inductive udp_prog (Addr R : Type) : Type :=
| UReturn (r : R)
| CallUdpSend (data : list byte) (k : send_result -> udp_prog Addr R)
| CallSendTo (data : list byte) (target : Addr) (k : send_result -> udp_prog Addr R)
| CallUdpClose (k : udp_prog Addr R)
| UFails (f : failure).
Arguments UReturn {Addr R} r.
Arguments CallUdpSend {Addr R} data k.
Arguments CallSendTo {Addr R} data target k.
Arguments CallUdpClose {Addr R} k.
Arguments UFails {Addr R} f.

(** A program that knows no addresses. *)
Fixpoint udp_of_app {Addr R S} (g : R -> S) (p : app_prog R) : udp_prog Addr S :=
  match p with
  | Return r => UReturn (g r)
  | CallSend data k => CallUdpSend data (fun res => udp_of_app g (k res))
  | CallClose k => CallUdpClose (udp_of_app g k)
  | Fails f => UFails f
  end.

(** It comes back, whatever the endpoint answers. *)
Fixpoint udp_never_fails {Addr R} (p : udp_prog Addr R) : Prop :=
  match p with
  | UReturn _ => True
  | CallUdpSend _ k | CallSendTo _ _ k => forall res, udp_never_fails (k res)
  | CallUdpClose k => udp_never_fails k
  | UFails _ => False
  end.

(** It sends at most [k] datagrams. *)
Fixpoint sends_at_most {Addr R} (k : nat) (p : udp_prog Addr R) : Prop :=
  match p with
  | UReturn _ | UFails _ => True
  | CallUdpSend _ c | CallSendTo _ _ c =>
      match k with O => False | S k => forall res, sends_at_most k (c res) end
  | CallUdpClose c => sends_at_most k c
  end.

(** [ReceiveCallback]: the span is of constant bytes.  [A] is the application's state. *)
Definition udp_callback (Addr A : Type) : Type := A -> list byte -> Addr -> udp_prog Addr A.

(** A server that answers each datagram to the address it came from. *)
Definition udp_responder {Addr} (reply : list byte -> list byte) : udp_callback Addr unit :=
  fun _ data sender => CallSendTo (reply data) sender (fun _ => UReturn tt).

Section UdpSession.

Context `{!CircularBuffer} {Addr : Type} (addr0 : Addr) {A : Type}.

(** ** Calls from inside the strand *)

(** The statements of [send_to] run one after another without the strand doing anything
    else.  Items come back to the pool in the completion handler of a send, which the
    strand cannot run before the callback returns. *)
Definition send_to_in_strand (data : list byte) (target : Addr) (u : udp Addr) :
    outcome (send_result * udp Addr) :=
  if socket_open u then
    match ubuffer_pool_ u with
    | [] => Hang
    | i :: pool =>
        match uheap u !! i with
        | Some (OItem b _) =>
            match uheap u !! b with
            | Some (OVec _) =>
                Ret (ok, set_front (uthreads u) (uposted u ++ [i]) (uaccepted u ++ [(data, target)])
                           (set_store (<[i := OItem b target]> (<[b := OVec data]> (uheap u))) pool
                              (usend_queue_ u) u))
            | _ => UB
            end
        | _ => UB
        end
    end
  else Ret (error_of bad_descriptor, u).

Definition udp_send_in_strand (data : list byte) (u : udp Addr) : outcome (send_result * udp Addr) :=
  if negb (is_connected_ u) then Ret (error_of not_connected, u)
  else send_to_in_strand data (remote_endpoint_ u) u.

(** [close] is dispatched to the strand, so a callback runs it at once. *)
Fixpoint udp_interp {R} (p : udp_prog Addr R) (u : udp Addr) : outcome (R * udp Addr) :=
  match p with
  | UReturn r => Ret (r, u)
  | CallUdpSend data k => '(res, u) ← udp_send_in_strand data u; udp_interp (k res) u
  | CallSendTo data target k => '(res, u) ← send_to_in_strand data target u; udp_interp (k res) u
  | CallUdpClose k => udp_interp k (close u)
  | UFails f => fail_as f
  end.

(** ** The machine *)

Record usession := USession { uep : udp Addr; uown : A }.

Context (receive_callback_ : udp_callback Addr A).

(** The completion handler of [async_receive_from]. *)
Definition session_receive (ec aborted : bool) (data : list byte) (sender : Addr) (s : usession) :
    outcome usession :=
  let u := set_receive (has_callback (uep s)) (Nat.pred (receiving (uep s))) (received (uep s)) (uep s) in
  if negb ec && (0 <? length data) then
    let u := set_receive (has_callback u) (receiving u) (received u ++ [(data, sender)]) u in
    '(a, u) ← udp_interp (receive_callback_ (uown s) data sender) u;
    Ret (USession (start_receive u) a)
  else if ec && negb aborted then Ret (USession (start_receive u) (uown s))
  else Ret (USession u (uown s)).

Definition usess_exec (e : uevent Addr) (s : usession) : option (outcome usession) :=
  match e with
  | UReceive ec aborted data sender =>
      if receiving (uep s) =? 0 then None else Some (session_receive ec aborted data sender s)
  | _ =>
      match uexec e (uep s) with
      | Some o => Some (u ← o; Ret (USession u (uown s)))
      | None => None
      end
  end.

Definition usess_init (n : nat) (a : A) : usession := USession (udp_init addr0 n) a.

Inductive usess_reachable (n : nat) (a : A) : usession -> Prop :=
| usess_reach_init : usess_reachable n a (usess_init n a)
| usess_reach_step s e s' :
    usess_reachable n a s -> usess_exec e s = Some (Ret s') -> usess_reachable n a s'.

Fixpoint usess_run (es : list (uevent Addr)) (s : usession) : option usession :=
  match es with
  | [] => Some s
  | e :: es => match usess_exec e s with Some (Ret s') => usess_run es s' | _ => None end
  end.

Lemma usess_reachable_run n a es s s' :
  usess_reachable n a s -> usess_run es s = Some s' -> usess_reachable n a s'.
Proof.
  revert s. induction es as [|e es IH]; intros s Hr; simpl; [by intros [= <-]|].
  destruct (usess_exec e s) as [[s1| | | |]|] eqn:He; try done.
  apply IH. by eapply usess_reach_step.
Qed.

(** ** What a callback does to its endpoint *)

(** A call is a run of the endpoint by a thread that is not inside [send_to] yet. *)
Definition callback_event (e : uevent Addr) : bool :=
  match e with
  | USend _ _ | USendTo _ _ _ | UPop _ | UCopy _ | UAddress _ | UPost _ | UClose => true
  | _ => false
  end.

Lemma send_to_in_strand_run n data target u res u' :
  udp_inv addr0 n u -> send_to_in_strand data target u = Ret (res, u') ->
  exists es, urun es u = Some u'.
Proof.
  intros Hinv. unfold send_to_in_strand. destruct (socket_open u) eqn:Ho; [|intros [= _ <-]; by exists []].
  destruct (ubuffer_pool_ u) as [|i pool] eqn:Hp; [done|].
  destruct (uinv_live addr0 n u Hinv i) as (d & tgt & _ & Hi & Hb).
  { apply elem_of_uplaces. left. rewrite Hp. set_solver. }
  rewrite Hi, Hb. intros [= _ <-].
  set (t := fresh (dom (uthreads u))).
  assert (uthreads u !! t = None) as Ht by apply not_elem_of_dom, is_fresh.
  exists [USendTo t data target; UPop t; UCopy t; UAddress t; UPost t].
  unfold urun. cbn [uexec]. unfold enter, send_to_entry. rewrite Ht, Ho.
  cbn [uthreads set_front]. rewrite lookup_insert_eq. cbn [ubuffer_pool_ set_front]. rewrite Hp.
  cbn [uthreads set_front uheap set_store]. rewrite lookup_insert_eq, Hi, Hb.
  cbn [uthreads set_front uheap set_store]. rewrite lookup_insert_eq.
  rewrite lookup_insert_ne by lia. rewrite Hi.
  cbn [uthreads set_front uheap set_store uposted uaccepted]. rewrite lookup_insert_eq.
  rewrite !insert_insert_eq, delete_insert_id by done. by destruct u.
Qed.

Lemma udp_send_in_strand_run n data u res u' :
  udp_inv addr0 n u -> udp_send_in_strand data u = Ret (res, u') -> exists es, urun es u = Some u'.
Proof.
  intros Hinv. unfold udp_send_in_strand. destruct (negb _); [intros [= _ <-]; by exists []|].
  by apply (send_to_in_strand_run n).
Qed.

Lemma urun_inv n es u u' :
  n <= queue_capacity -> udp_inv addr0 n u -> urun es u = Some u' -> udp_inv addr0 n u'.
Proof.
  intros Hn. revert u. induction es as [|e es IH]; intros u Hinv; simpl; [by intros [= <-]|].
  destruct (uexec e u) as [o|] eqn:He; [|done].
  destruct (uexec_inv addr0 n e u o Hn Hinv He) as (u1 & -> & Hinv1). by apply IH.
Qed.

Lemma udp_interp_run {R} n (p : udp_prog Addr R) u r u' :
  n <= queue_capacity -> udp_inv addr0 n u -> udp_interp p u = Ret (r, u') ->
  exists es, urun es u = Some u'.
Proof.
  intros Hn.
  assert (forall o (k : send_result -> udp_prog Addr R) u,
    (forall res u1, udp_inv addr0 n u1 -> udp_interp (k res) u1 = Ret (r, u') -> exists es, urun es u1 = Some u') ->
    udp_inv addr0 n u ->
    (forall res u1, o = Ret (res, u1) -> exists es, urun es u = Some u1) ->
    ('(res, u) ← o; udp_interp (k res) u) = Ret (r, u') -> exists es, urun es u = Some u') as Hcall.
  { intros [[res u1]| | | |] k u0 IH Hinv Hrun; simpl; try done. intros Hi.
    destruct (Hrun res u1 eq_refl) as [es1 H1].
    destruct (IH res u1 (urun_inv n es1 u0 u1 Hn Hinv H1) Hi) as [es2 H2].
    exists (es1 ++ es2). by rewrite urun_app, H1. }
  revert u. induction p as [r0|data k IH|data tgt k IH|k IH|f]; intros u Hinv; cbn [udp_interp].
  - intros [= _ <-]. by exists [].
  - eapply (Hcall _ k); [exact IH|done|]. intros res u1. by apply (udp_send_in_strand_run n).
  - eapply (Hcall _ k); [exact IH|done|]. intros res u1. by apply (send_to_in_strand_run n).
  - intros Hi. assert (urun [UClose] u = Some (close u)) as H1 by done.
    destruct (IH (close u) (urun_inv n [UClose] u _ Hn Hinv H1) Hi) as [es Hes].
    by exists (UClose :: es).
  - by destruct f.
Qed.

(** Calls do not see the receive state. *)
Lemma send_to_in_strand_frame cb k l data target u :
  send_to_in_strand data target (set_receive cb k l u) =
  '(res, u) ← send_to_in_strand data target u; Ret (res, set_receive cb k l u).
Proof.
  unfold send_to_in_strand. cbn [socket_open set_receive ubuffer_pool_ uheap].
  destruct (socket_open u); [|done]. destruct (ubuffer_pool_ u) as [|i pool]; [done|].
  destruct (uheap u !! i) as [[b t|]|]; try done. by destruct (uheap u !! b) as [[|]|].
Qed.

Lemma udp_interp_frame {R} cb k l (p : udp_prog Addr R) u :
  udp_interp p (set_receive cb k l u) =
  '(r, u) ← udp_interp p u; Ret (r, set_receive cb k l u).
Proof.
  revert u. induction p as [r0|data c IH|data tgt c IH|c IH|f]; intros u; cbn [udp_interp].
  - done.
  - unfold udp_send_in_strand. cbn [is_connected_ set_receive remote_endpoint_].
    destruct (negb _); [apply IH|]. rewrite send_to_in_strand_frame.
    destruct (send_to_in_strand _ _ u) as [[res u1]| | | |]; simpl; try done; apply IH.
  - rewrite send_to_in_strand_frame.
    destruct (send_to_in_strand _ _ u) as [[res u1]| | | |]; simpl; try done; apply IH.
  - apply (IH (close u)).
  - by destruct f.
Qed.

Lemma set_receive_id (u : udp Addr) : set_receive (has_callback u) (receiving u) (received u) u = u.
Proof. by destruct u. Qed.

(** A callback leaves the receive state alone. *)
Lemma udp_interp_receive {R} (p : udp_prog Addr R) u r u' :
  udp_interp p u = Ret (r, u') ->
  has_callback u' = has_callback u /\ receiving u' = receiving u /\ received u' = received u.
Proof.
  rewrite <- (set_receive_id u), udp_interp_frame.
  destruct (udp_interp p u) as [[r1 u1]| | | |]; simpl; try done. by intros [= _ <-].
Qed.

(** ** Simulation *)

(** A step of the session is a run of the endpoint: first what the callback does, then
    the receive. *)
Lemma session_receive_run n ec aborted data sender s s' :
  n <= queue_capacity -> udp_inv addr0 n (uep s) -> receiving (uep s) <> 0 ->
  session_receive ec aborted data sender s = Ret s' ->
  exists es, urun es (uep s) = Some (uep s').
Proof.
  intros Hn Hinv H0. unfold session_receive. destruct (negb ec && _) eqn:Hd.
  - rewrite udp_interp_frame, udp_interp_frame.
    destruct (udp_interp _ (uep s)) as [[a u1]| | | |] eqn:Hi; try done. intros [= <-].
    destruct (udp_interp_run n _ _ _ _ Hn Hinv Hi) as [es Hes].
    destruct (udp_interp_receive _ _ _ _ Hi) as (Hc & Hrc & Hrd).
    exists (es ++ [UReceive ec aborted data sender]). rewrite urun_app, Hes.
    cbn [mbind option_bind urun uexec]. destruct (Nat.eqb_spec (receiving u1) 0); [congruence|].
    unfold receive_handler. rewrite Hd. by rewrite Hc, Hrc, Hrd.
  - intros Hs. exists [UReceive ec aborted data sender].
    cbn [urun uexec]. destruct (Nat.eqb_spec (receiving (uep s)) 0); [done|].
    unfold receive_handler. rewrite Hd. revert Hs. by destruct (ec && negb aborted); intros Hs; injection Hs as <-.
Qed.

Lemma usess_exec_run n e s s' :
  n <= queue_capacity -> udp_inv addr0 n (uep s) -> usess_exec e s = Some (Ret s') ->
  exists es, urun es (uep s) = Some (uep s').
Proof.
  intros Hn Hinv He.
  assert (forall o, (match uexec e (uep s) with
                     | Some o => Some (u ← o; Ret (USession u (uown s))) | None => None end) = Some o ->
          o = Ret s' -> exists es, urun es (uep s) = Some (uep s')) as Hown.
  { intros o Ho ->. destruct (uexec e (uep s)) as [[u| | | |]|] eqn:Hu; try done.
    injection Ho as <-. exists [e]. cbn [urun]. by rewrite Hu. }
  destruct e; try (by apply (Hown _ He)). cbn [usess_exec] in He.
  destruct (Nat.eqb_spec (receiving (uep s)) 0); [done|]. injection He as He.
  by eapply session_receive_run.
Qed.

Lemma usess_reachable_ep n a s :
  n <= queue_capacity -> usess_reachable n a s -> ureachable addr0 n (uep s).
Proof.
  intros Hn. induction 1 as [|s e s' _ IH He]; [constructor|].
  destruct (usess_exec_run n e s s' Hn (ureachable_inv addr0 n _ Hn IH) He) as [es Hes].
  by apply (ureachable_run addr0 n es (uep s)).
Qed.

(** ** No faults, and no waiting with enough idle items *)

Lemma send_to_in_strand_cases n data target u :
  udp_inv addr0 n u ->
  (socket_open u = true /\ ubuffer_pool_ u = [] /\ send_to_in_strand data target u = Hang) \/
  exists res u', send_to_in_strand data target u = Ret (res, u') /\ socket_open u' = socket_open u /\
    length (ubuffer_pool_ u) <= S (length (ubuffer_pool_ u')).
Proof.
  intros Hinv. unfold send_to_in_strand. destruct (socket_open u) eqn:Ho.
  2: { right. eexists _, _. split; [reflexivity|]. split; [done|lia]. }
  destruct (ubuffer_pool_ u) as [|i pool] eqn:Hp; [by left|]. right.
  destruct (uinv_live addr0 n u Hinv i) as (d & tgt & _ & -> & ->).
  { apply elem_of_uplaces. left. rewrite Hp. set_solver. }
  eexists _, _. split; [reflexivity|]. done.
Qed.

Lemma udp_send_in_strand_cases n data u :
  udp_inv addr0 n u ->
  (ubuffer_pool_ u = [] /\ udp_send_in_strand data u = Hang) \/
  exists res u', udp_send_in_strand data u = Ret (res, u') /\
    length (ubuffer_pool_ u) <= S (length (ubuffer_pool_ u')).
Proof.
  intros Hinv. unfold udp_send_in_strand. destruct (negb _).
  { right. eexists _, _. split; [reflexivity|lia]. }
  destruct (send_to_in_strand_cases n data (remote_endpoint_ u) u Hinv) as [(_ & ? & ?)|(? & ? & ? & _ & ?)];
    [by left|right; eauto].
Qed.

Lemma sends_at_most_mono {R} (p : udp_prog Addr R) m m' :
  m <= m' -> sends_at_most m p -> sends_at_most m' p.
Proof.
  revert m m'. induction p as [r|d c IH|d t c IH|c IH|f]; intros m m' Hm; simpl; try done.
  - destruct m, m'; try done; [lia|]. intros Hs res. eapply (IH res m m'); [lia|apply Hs].
  - destruct m, m'; try done; [lia|]. intros Hs res. eapply (IH res m m'); [lia|apply Hs].
  - by apply IH.
Qed.

Lemma not_sends_more {R} (c : send_result -> udp_prog Addr R) res m m' :
  m <= S m' -> ~ sends_at_most m' (c res) ->
  ~ match m with O => False | S k => forall res, sends_at_most k (c res) end.
Proof.
  destruct m as [|m]; intros Hm Hn Hs; [exact Hs|]. apply Hn.
  apply (sends_at_most_mono _ m m'); [lia|apply Hs].
Qed.

(** Waiting needs more sends than idle items. *)
Lemma udp_interp_safe {R} n (p : udp_prog Addr R) u :
  n <= queue_capacity -> udp_inv addr0 n u -> udp_never_fails p ->
  (exists r u', udp_interp p u = Ret (r, u')) \/
  (udp_interp p u = Hang /\ ~ sends_at_most (length (ubuffer_pool_ u)) p).
Proof.
  intros Hn.
  revert u. induction p as [r|d c IH|d t c IH|c IH|f]; intros u Hinv Hp; cbn [udp_interp sends_at_most];
    cbn [udp_never_fails] in Hp.
  - left. eauto.
  - destruct (udp_send_in_strand_cases n d u Hinv) as [(Hpool & ->)|(res & u1 & Hs & Hlen)].
    + right. split; [done|]. rewrite Hpool. exact (fun H => H).
    + rewrite Hs. cbn [mbind outcome_bind].
      destruct (udp_send_in_strand_run n d u res u1 Hinv Hs) as [es Hes].
      destruct (IH res u1 (urun_inv n es u u1 Hn Hinv Hes) (Hp res)) as [?|[-> Hk]]; [by left|right].
      split; [done|]. by eapply not_sends_more.
  - destruct (send_to_in_strand_cases n d t u Hinv) as [(_ & Hpool & ->)|(res & u1 & Hs & _ & Hlen)].
    + right. split; [done|]. rewrite Hpool. exact (fun H => H).
    + rewrite Hs. cbn [mbind outcome_bind].
      destruct (send_to_in_strand_run n d t u res u1 Hinv Hs) as [es Hes].
      destruct (IH res u1 (urun_inv n es u u1 Hn Hinv Hes) (Hp res)) as [?|[-> Hk]]; [by left|right].
      split; [done|]. by eapply not_sends_more.
  - apply (IH (close u)); [|done]. by apply (urun_inv n [UClose] u).
  - done.
Qed.

Lemma session_receive_safe n ec aborted data sender s :
  n <= queue_capacity -> udp_inv addr0 n (uep s) ->
  (forall a d x, udp_never_fails (receive_callback_ a d x)) ->
  (exists s', session_receive ec aborted data sender s = Ret s') \/
  (session_receive ec aborted data sender s = Hang /\ ec = false /\
   ~ sends_at_most (length (ubuffer_pool_ (uep s))) (receive_callback_ (uown s) data sender)).
Proof.
  intros Hn Hinv Hcb. unfold session_receive. destruct (negb ec && _) eqn:Hd.
  - rewrite udp_interp_frame, udp_interp_frame.
    destruct (udp_interp_safe n _ _ Hn Hinv (Hcb (uown s) data sender)) as [(a & u1 & ->)|[-> Hk]].
    + left. by eexists.
    + right. split_and!; [done|by destruct ec|done].
  - left. destruct (ec && negb aborted); by eexists.
Qed.

End UdpSession.

(** ** A callback that answers *)

(** What the front of the endpoint keeps in a step that neither sends nor receives. *)
Definition same_front {Addr} (u u' : udp Addr) : Prop :=
  uthreads u' = uthreads u /\ uaccepted u' = uaccepted u /\ received u' = received u /\
  receiving u' = receiving u.

Section Echo.

Context `{!CircularBuffer} {Addr : Type} (addr0 : Addr) (reply : list byte -> list byte).

Abbreviation answers := (fmap (M := list) (fun x : list byte * Addr => (reply x.1, x.2))).

Lemma setup_front (o : os (Addr := Addr)) (u u' : udp Addr) :
  u' = snd (bind o u) \/ u' = snd (connect o u) \/ u' = snd (join_multicast o u) ->
  same_front u u' /\ (socket_open u = true -> socket_open u' = true).
Proof.
  destruct (setup_receive o u) as ((B1 & B2) & (C1 & C2) & (J1 & J2)).
  pose proof (bind_same o u) as (_ & _ & _ & _ & _ & B3 & B4 & _).
  pose proof (connect_same o u) as (_ & _ & _ & _ & _ & C3 & C4 & _).
  pose proof (join_multicast_same o u) as (_ & _ & _ & _ & _ & J3 & J4 & _).
  destruct (setup_open o u) as (B5 & C5 & J5).
  by intros [->|[->| ->]].
Qed.

Lemma udo_write_front (u u' : udp Addr) :
  do_write u = Ret u' -> same_front u u' /\ socket_open u' = socket_open u.
Proof.
  unfold do_write. destruct (usend_queue_ u) as [|i q]; [done|].
  destruct (uheap u !! i) as [[b t|]|]; try done.
  destruct (uheap u !! b) as [[|d]|], (uwrite_op u); try done. by intros [= <-].
Qed.

Lemma send_handler_front ec ok (u u' : udp Addr) :
  send_handler ec ok u = Ret u' -> same_front u u' /\ (ec = false -> socket_open u' = socket_open u).
Proof.
  unfold send_handler. destruct (usend_queue_ u) as [|i q]; [done|].
  destruct (if ok then _ else _) as [u1| | | |] eqn:E; try done.
  assert (same_front u u1 /\ socket_open u1 = socket_open u) as [(H1 & H2 & H3 & H4) H5].
  { destruct ok; [by injection E as <-|]. destruct (uheap u !! i) as [[|]|]; try done.
    by injection E as <-. }
  cbn [mbind outcome_bind]. destruct (negb ec && _).
  - intros [(W1 & W2 & W3 & W4) W5]%udo_write_front. split; [|intros _; by rewrite W5].
    unfold same_front. by rewrite W1, W2, W3, W4.
  - destruct ec; by intros [= <-].
Qed.

(** Only the callback sends. *)
Definition no_other_sender (e : uevent Addr) : Prop :=
  match e with USend _ _ | USendTo _ _ _ => False | _ => True end.

(** The socket stays open. *)
Definition keeps_open (e : uevent Addr) : Prop :=
  match e with UClose | USendDone true _ => False | _ => True end.

Lemma uexec_front e (u u' : udp Addr) :
  no_other_sender e -> (forall ec ab d x, e <> UReceive ec ab d x) -> uthreads u = ∅ ->
  uexec e u = Some (Ret u') ->
  uthreads u' = ∅ /\ uaccepted u' = uaccepted u /\ received u' = received u /\
  (keeps_open e -> (receiving u = 0 \/ socket_open u = true) ->
   receiving u' = 0 \/ socket_open u' = true).
Proof.
  assert (forall u', same_front u u' /\ (keeps_open e -> socket_open u = true -> socket_open u' = true) ->
    uthreads u = ∅ ->
    uthreads u' = ∅ /\ uaccepted u' = uaccepted u /\ received u' = received u /\
    (keeps_open e -> (receiving u = 0 \/ socket_open u = true) ->
     receiving u' = 0 \/ socket_open u' = true)) as Hsame.
  { intros u1 [(H1 & H2 & H3 & H4) H5] Ht. rewrite H1, H4. split_and!; try done.
    intros Hk [?|?]; [by left|right; auto]. }
  intros He Hr Ht.
  destruct e as [o|o|o| | |ec ab data sender|t data|t data tgt|t|t|t|t| | |ec ok|]; cbn [uexec]; try done;
    try (rewrite Ht, lookup_empty; done).
  - intros [= <-]. apply Hsame; [|done]. destruct (setup_front o u (snd (bind o u))); auto.
  - intros [= <-]. apply Hsame; [|done]. destruct (setup_front o u (snd (connect o u))); auto.
  - intros [= <-]. apply Hsame; [|done]. destruct (setup_front o u (snd (join_multicast o u))); auto.
  - intros [= <-]. by apply Hsame.
  - intros [= <-]. unfold start_receive. destruct (has_callback u), (socket_open u) eqn:Ho; simpl;
      rewrite ?Ho; tauto.
  - by destruct (Hr ec ab data sender).
  - destruct (uposted u) as [|i l]; [done|]. unfold post_handler.
    destruct (match _ with [] => true | _ => false end).
    + intros [= [(H1 & H2 & H3 & H4) H5]%udo_write_front]. apply Hsame; [|done].
      split; [done|]. by rewrite H5.
    + intros [= <-]. by apply Hsame.
  - destruct (uwrite_op u) as [[[[b k] tgt] []]|]; try done. destruct (socket_open u) eqn:Ho; [|done].
    destruct (uheap u !! b) as [[|d]|]; try done. destruct (k <=? length d); [|done].
    intros [= <-]. apply Hsame; [|done]. split; [done|]. intros _ _. exact Ho.
  - destruct (uwrite_op u) as [[[[b k] tgt] sent]|]; [|done]. destruct (ec || sent); [|done].
    intros [= [Hf Ho]%send_handler_front]. apply Hsame; [|done]. split; [done|].
    destruct ec; [done|]. by rewrite Ho.
  - intros [= <-]. by apply Hsame.
Qed.

(** Invariants of an answering endpoint. *)
Definition answering (s : usession (Addr := Addr) (A := unit)) : Prop :=
  uthreads (uep s) = ∅ /\ uaccepted (uep s) `sublist_of` answers (received (uep s)).

Definition answering_all (s : usession (Addr := Addr) (A := unit)) : Prop :=
  (receiving (uep s) = 0 \/ socket_open (uep s) = true) /\
  uaccepted (uep s) = answers (received (uep s)).

Lemma start_receive_front (u : udp Addr) :
  uthreads (start_receive u) = uthreads u /\ uaccepted (start_receive u) = uaccepted u /\
  received (start_receive u) = received u /\ socket_open (start_receive u) = socket_open u.
Proof. unfold start_receive. by destruct (_ || _). Qed.

Lemma responder_receive ec ab data sender s s' :
  session_receive (udp_responder reply) ec ab data sender s = Ret s' ->
  let got := if negb ec && (0 <? length data) then [(data, sender)] else [] in
  uthreads (uep s') = uthreads (uep s) /\ socket_open (uep s') = socket_open (uep s) /\
  received (uep s') = received (uep s) ++ got /\
  uaccepted (uep s') = uaccepted (uep s) ++ (if socket_open (uep s) then answers got else []).
Proof.
  unfold session_receive. destruct (negb ec && _).
  - unfold udp_responder. cbn [udp_interp].
    rewrite send_to_in_strand_frame, send_to_in_strand_frame. unfold send_to_in_strand.
    destruct (socket_open (uep s)) eqn:Ho.
    + destruct (ubuffer_pool_ (uep s)) as [|i pool]; [done|].
      destruct (uheap (uep s) !! i) as [[b t|]|]; try done.
      destruct (uheap (uep s) !! b) as [[|d]|]; try done.
      cbn [mbind outcome_bind uep]. intros [= <-]. cbn [uep].
      match goal with |- context [start_receive ?u] =>
        destruct (start_receive_front u) as (-> & -> & -> & ->) end. by rewrite <- Ho.
    + cbn [mbind outcome_bind uep]. intros [= <-]. cbn [uep].
      match goal with |- context [start_receive ?u] =>
        destruct (start_receive_front u) as (-> & -> & -> & ->) end. by rewrite app_nil_r.
  - assert (forall v : udp Addr,
      uthreads v = uthreads (uep s) /\ uaccepted v = uaccepted (uep s) /\
      received v = received (uep s) /\ socket_open v = socket_open (uep s) ->
      uthreads v = uthreads (uep s) /\ socket_open v = socket_open (uep s) /\
      received v = received (uep s) ++ [] /\
      uaccepted v = uaccepted (uep s) ++ (if socket_open (uep s) then answers [] else [])) as Hsame.
    { intros v (-> & -> & -> & ->). destruct (socket_open (uep s)); by rewrite !app_nil_r. }
    destruct (ec && negb ab); intros Hs; injection Hs as <-; apply Hsame; [|done].
    exact (start_receive_front (set_receive _ _ _ (uep s))).
Qed.

Lemma exec_answering e s s' :
  no_other_sender e -> answering s -> usess_exec (udp_responder reply) e s = Some (Ret s') ->
  answering s' /\ (keeps_open e -> answering_all s -> answering_all s').
Proof.
  intros He [Ht Hsub] Hex.
  assert (forall o, (match uexec e (uep s) with
                     | Some o => Some (u ← o; Ret (USession u (uown s))) | None => None end) = Some o ->
    o = Ret s' -> (forall ec ab d x, e <> UReceive ec ab d x) ->
    answering s' /\ (keeps_open e -> answering_all s -> answering_all s')) as Hown.
  { intros o Ho -> Hr. destruct (uexec e (uep s)) as [[u| | | |]|] eqn:Hu; try done. injection Ho as <-.
    destruct (uexec_front e (uep s) u He Hr Ht Hu) as (H1 & H2 & H3 & H4).
    unfold answering, answering_all. cbn [uep]. rewrite H2, H3. split; [done|]. intros Hk [Hro Ha]. auto. }
  destruct e; try (by apply (Hown _ Hex)). clear Hown. cbn [usess_exec] in Hex.
  destruct (Nat.eqb_spec (receiving (uep s)) 0) as [|H0]; [done|]. injection Hex as Hex.
  apply responder_receive in Hex as (H1 & H2 & H3 & H4).
  unfold answering, answering_all. rewrite H1, H2, H3, H4, fmap_app. split; [split; [done|]|].
  - apply sublist_app; [done|]. destruct (socket_open (uep s)); [done|apply sublist_nil_l].
  - intros _ [[?|Ho] Ha]; [done|]. rewrite Ho, Ha. auto.
Qed.

Lemma run_answering es s s' :
  Forall no_other_sender es -> answering s -> usess_run (udp_responder reply) es s = Some s' ->
  answering s' /\ (Forall keeps_open es -> answering_all s -> answering_all s').
Proof.
  intros Hes. revert s. induction Hes as [|e es He _ IH]; intros s Hs; simpl; [by intros [= <-]|].
  destruct (usess_exec _ e s) as [[s1| | | |]|] eqn:Hex; try done. intros Hrun.
  destruct (exec_answering e s s1 He Hs Hex) as [H1 H2]. destruct (IH s1 H1 Hrun) as [H3 H4].
  split; [done|]. intros [Hk Hks]%Forall_cons. auto.
Qed.

End Echo.

(** ** An endpoint that only listens *)

Section Listener.

Context `{!CircularBuffer} {Addr A : Type} (note : A -> list byte -> A).

(** A callback that keeps something of each datagram and touches no endpoint. *)
Definition listener : udp_callback Addr A := fun a data _ => UReturn (note a data).

Lemma listener_step e s s' a :
  usess_exec listener e s = Some (Ret s') -> uown s = foldl note a (received (uep s)).*1 ->
  uown s' = foldl note a (received (uep s')).*1.
Proof.
  intros Hex Hs.
  assert (forall o, (match uexec e (uep s) with
                     | Some o => Some (u ← o; Ret (USession u (uown s))) | None => None end) = Some o ->
    o = Ret s' -> not_received e -> uown s' = foldl note a (received (uep s')).*1) as Hown.
  { intros o Ho -> Hr. destruct (uexec e (uep s)) as [[u| | | |]|] eqn:Hu; try done. injection Ho as <-.
    cbn [uep uown]. by rewrite (uexec_received e (uep s) u Hr Hu). }
  destruct e; try (by apply (Hown _ Hex)). clear Hown. cbn [usess_exec] in Hex.
  destruct (receiving (uep s) =? 0); [done|]. injection Hex as Hex. revert Hex. unfold session_receive.
  assert (forall u : udp Addr, received (start_receive u) = received u) as Hsr.
  { intros u. unfold start_receive. by destruct (_ || _). }
  destruct (_ && _); [|destruct (_ && _)].
  - unfold listener. cbn [udp_interp mbind outcome_bind]. intros [= <-]. cbn [uep uown].
    rewrite Hsr. cbn [received set_receive]. by rewrite fmap_app, foldl_app, <- Hs.
  - intros [= <-]. cbn [uep uown]. by rewrite Hsr.
  - by intros [= <-].
Qed.

(** What it keeps is of what was received, in order. *)
Lemma listener_run es s0 a s :
  uown s0 = foldl note a (received (uep s0)).*1 -> usess_run listener es s0 = Some s ->
  uown s = foldl note a (received (uep s)).*1.
Proof.
  revert s0. induction es as [|e es IH]; intros s0 H0; cbn [usess_run].
  - by intros [= <-].
  - destruct (usess_exec listener e s0) as [[s1| | | |]|] eqn:Hex; try done. apply IH. by eapply listener_step.
Qed.

End Listener.

(** ** Properties *)

Section Properties.

Context `{!CircularBuffer} {Addr : Type} (addr0 : Addr).

(** An endpoint with its callback is an endpoint.  With a callback that comes back,
    whatever it does with [send], [send_to] and [close] of its own endpoint, every
    reachable state is one of the endpoint's, and every step returns and is a run of the
    endpoint, so that the theorems about the endpoint hold inside callbacks too.  The one
    exception is a completed receive whose callback sends more datagrams than there are
    idle items: the strand then waits for itself. *)
Theorem udp_session_refines {A} (cb : udp_callback Addr A) n a s e o :
  n <= pool_capacity -> (forall a d x, udp_never_fails (cb a d x)) ->
  usess_reachable addr0 cb n a s -> usess_exec cb e s = Some o ->
  ureachable addr0 n (uep s) /\
  ((exists s' es, o = Ret s' /\ urun es (uep s) = Some (uep s')) \/
   (o = Hang /\ exists aborted data sender, e = UReceive false aborted data sender /\
      ~ sends_at_most (length (ubuffer_pool_ (uep s))) (cb (uown s) data sender))).
Proof.
  intros Hn%udp_pool_fits Hcb Hr He. pose proof (usess_reachable_ep addr0 cb n a s Hn Hr) as Hep.
  split; [exact Hep|]. pose proof (ureachable_inv addr0 n _ Hn Hep) as Hinv.
  assert ((exists s', o = Ret s') -> exists s' es, o = Ret s' /\ urun es (uep s) = Some (uep s')) as Hret.
  { intros [s' ->]. destruct (usess_exec_run addr0 cb n e s s' Hn Hinv He) as [es Hes]. eauto. }
  assert (forall o', (match uexec e (uep s) with
                      | Some o => Some (u ← o; Ret (USession u (uown s))) | None => None end) = Some o' ->
          exists s', o' = Ret s') as Hown.
  { intros o' Ho. destruct (uexec e (uep s)) as [o1|] eqn:Hu; [|done].
    destruct (uexec_inv addr0 n e (uep s) o1 Hn Hinv Hu) as (u & -> & _). injection Ho as <-. eauto. }
  destruct e as [| | | | |ec ab data sender| | | | | | | | | |]; try (left; apply Hret, (Hown _ He)).
  cbn [usess_exec] in He. destruct (receiving (uep s) =? 0); [done|]. injection He as <-.
  destruct (session_receive_safe addr0 cb n ec ab data sender s Hn Hinv Hcb) as [Hs|(-> & -> & Hk)].
  - left. by apply Hret.
  - right. split; [done|]. by exists ab, data, sender.
Qed.

(** C36: an answering endpoint.  With a callback that answers each datagram to where it
    came from and no other sender, whatever is sent, lost, closed and bound again: the
    datagrams accepted for sending are answers to received datagrams, at most one for
    each and in their order, and one for each as long as the socket is not closed; and
    only these answers leave, in order, each to the address its datagram came from. *)
Theorem udp_answers (reply : list byte -> list byte) n es s :
  n <= pool_capacity -> Forall no_other_sender es ->
  usess_run (udp_responder reply) es (usess_init addr0 n tt) = Some s ->
  let answers := (fun x => (reply x.1, x.2)) <$> received (uep s) in
  uaccepted (uep s) `sublist_of` answers /\
  (Forall keeps_open es -> uaccepted (uep s) = answers) /\
  uwire (uep s) `sublist_of` answers.
Proof.
  intros Hn%udp_pool_fits Hes Hrun answers.
  destruct (run_answering reply es (usess_init addr0 n tt) s Hes) as [[_ Hsub] Hall]; [|exact Hrun|].
  { split; [done|apply sublist_nil_l]. }
  split; [exact Hsub|]. split.
  - intros Hk. apply Hall; [exact Hk|]. split; [by left|done].
  - etrans; [|exact Hsub].
    assert (ureachable addr0 n (uep s)) as Hep.
    { apply (usess_reachable_ep addr0 (udp_responder reply) n tt); [done|].
      eapply usess_reachable_run; [constructor|exact Hrun]. }
    apply (uinv_wire_accepted addr0 n), (ureachable_inv addr0 n _ Hn Hep).
Qed.

(** An answering callback makes the strand wait for itself exactly when no item is idle
    and the socket is open. *)
Theorem udp_answer_blocks (reply : list byte -> list byte) n s aborted data sender o :
  n <= pool_capacity -> usess_reachable addr0 (udp_responder reply) n tt s -> data <> [] ->
  usess_exec (udp_responder reply) (UReceive false aborted data sender) s = Some o ->
  o = Hang <-> socket_open (uep s) = true /\ ubuffer_pool_ (uep s) = [].
Proof.
  intros Hn%udp_pool_fits Hr Hd. cbn [usess_exec]. destruct (receiving (uep s) =? 0); [done|].
  pose proof (ureachable_inv addr0 n _ Hn (usess_reachable_ep addr0 _ n tt s Hn Hr)) as Hinv.
  intros [= <-]. unfold session_receive. destruct data as [|b data]; [done|].
  cbn [negb andb length Nat.ltb Nat.leb]. unfold udp_responder. cbn [udp_interp].
  rewrite send_to_in_strand_frame, send_to_in_strand_frame.
  destruct (send_to_in_strand_cases addr0 n (reply (b :: data)) sender (uep s) Hinv)
    as [(H1 & H2 & ->)|(res & u' & Hs & _)]; [done|].
  rewrite Hs. split; [done|]. intros [Ho Hp]. unfold send_to_in_strand in Hs. by rewrite Ho, Hp in Hs.
Qed.

End Properties.

(** ** Witnesses

    An echo server with one item, bound to a port. *)

#[local] Existing Instance overwriting_buffer.

Definition echo_setup : list (uevent nat) := [UBind lan; UOnReceive; UStartReceive].

Definition echo_once : list (uevent nat) :=
  echo_setup ++ [UReceive false false [x61] 7; URunPosted; UTransmit].

Definition echoed_session : usession (Addr := nat) (A := unit) :=
  default (usess_init 0 1 tt) (usess_run (udp_responder id) echo_once (usess_init 0 1 tt)).

Lemma echo_once_run :
  usess_run (udp_responder id) echo_once (usess_init 0 1 tt) = Some echoed_session.
Proof. by vm_compute. Qed.

Lemma echoed_reachable : usess_reachable 0 (udp_responder id) 1 tt echoed_session.
Proof. eapply usess_reachable_run; [constructor|exact echo_once_run]. Qed.

Lemma responder_returns {Addr} (reply : list byte -> list byte) a d (x : Addr) :
  udp_never_fails (udp_responder reply a d x).
Proof. done. Qed.

Lemma small_pool_1 : 1 <= pool_capacity.
Proof. etrans; [|exact small_pool]. lia. Qed.

Lemma udp_session_refines_witness :
  exists s' es, usess_exec (udp_responder id) (USendDone false true) echoed_session = Some (Ret s') /\
    urun es (uep echoed_session) = Some (uep s').
Proof.
  destruct (usess_exec (udp_responder id) (USendDone false true) echoed_session) as [o|] eqn:He.
  - destruct (udp_session_refines 0 (udp_responder id) 1 tt echoed_session (USendDone false true) o
                small_pool_1 (responder_returns id) echoed_reachable He)
      as (_ & [(s' & es & -> & Hes)|(_ & ab & d & x & [=] & _)]).
    by exists s', es.
  - exfalso. revert He. by vm_compute.
Defined.

Lemma udp_answers_witness :
  uaccepted (uep echoed_session) = [([x61], 7)] /\ uwire (uep echoed_session) = [([x61], 7)].
Proof.
  destruct (udp_answers 0 id 1 echo_once echoed_session small_pool_1) as (_ & Hall & Hw);
    [by repeat constructor|exact echo_once_run|].
  rewrite Hall by (by repeat constructor). split; vm_compute; reflexivity.
Defined.

(** The one item is under way when the next datagram comes. *)
Lemma udp_answer_blocks_witness :
  usess_exec (udp_responder id) (UReceive false false [x62] 8) echoed_session = Some Hang.
Proof.
  destruct (usess_exec (udp_responder id) (UReceive false false [x62] 8) echoed_session) as [o|] eqn:He.
  - f_equal. apply (udp_answer_blocks 0 id 1 echoed_session false [x62] 8 o
                      small_pool_1 echoed_reachable); [done|exact He|by vm_compute].
  - exfalso. revert He. by vm_compute.
Defined.
