(* ===== verification/UdpThread.v ===== *)
(** * A thread that sends on a UDP endpoint

    The client nodes of the examples make an endpoint, connect it and call [send] from
    one thread of their own, statement by statement while the strand and the network go
    on.  The thread runs a program of Callbacks.v. *)

From S2P Require Import Prelude Expected SendPipeline Callbacks ConnectSend UdpEndpoint UdpSession.
From Stdlib Require Import ZArith Lia.

Open Scope nat_scope.

Section Thread.

Context `{!CircularBuffer} {Addr R : Type} (addr0 : Addr).

(** [tprog] is what is left to run; [tcalling]: the thread is inside the call that
    [tprog] begins with. *)
Record user_thread := UserThread { tep : udp Addr; tprog : app_prog R; tcalling : bool }.

Inductive tevent :=
| TStep                   (* the thread calls [send] or [close], or [send] returns to it *)
| TEndpoint (e : uevent Addr).

(** The thread is number 0, and the only one.  [close] is dispatched to the strand, which
    runs it at some later time: an event of the endpoint. *)
Definition thread_exec (e : tevent) (s : user_thread) : option (outcome user_thread) :=
  match e with
  | TStep =>
      match tprog s with
      | CallSend data k =>
          if tcalling s then
            match uthreads (tep s) !! 0 with
            | None => Some (Ret (UserThread (tep s) (k ok) false))
            | Some _ => None
            end
          else
            match send_entry data (tep s) with
            | inl res => Some (Ret (UserThread (tep s) (k res) false))
            | inr snd => Some (Ret (UserThread (set_front (<[0 := snd]> (uthreads (tep s))) (uposted (tep s))
                                                  (uaccepted (tep s)) (tep s)) (tprog s) true))
            end
      | CallClose k => Some (Ret (UserThread (tep s) k false))
      | Return _ => None
      | Fails f => Some (fail_as f)
      end
  | TEndpoint e =>
      match e with
      | USend _ _ | USendTo _ _ _ => None
      | _ =>
          match uexec e (tep s) with
          | Some o => Some (u ← o; Ret (UserThread u (tprog s) (tcalling s)))
          | None => None
          end
      end
  end.

Fixpoint thread_run (es : list tevent) (s : user_thread) : option user_thread :=
  match es with
  | [] => Some s
  | e :: es => match thread_exec e s with Some (Ret s') => thread_run es s' | _ => None end
  end.

(** ** What the endpoint does while the thread is inside [send] *)

Definition sender_load (s : usender) : list byte * Addr :=
  match s with
  | UPopping d x | UCopying d x _ | UAddressing d x _ | UPosting d x _ => (d, x)
  end.

Definition in_send (ts : gmap nat usender) (x : list byte * Addr) : Prop :=
  exists s, ts = {[0 := s]} /\ sender_load s = x.

Lemma in_send_step ts x t s s' :
  in_send ts x -> ts !! t = Some s -> sender_load s' = sender_load s -> in_send (<[t := s']> ts) x.
Proof.
  intros (s0 & -> & Hx) [<- <-]%lookup_singleton_Some Hl. exists s'.
  by rewrite insert_singleton_eq, Hl.
Qed.

Lemma do_write_threads (u u' : udp Addr) :
  do_write u = Ret u' -> uthreads u' = uthreads u /\ uaccepted u' = uaccepted u.
Proof. intros [(H1 & H2 & _) _]%udo_write_front. done. Qed.

Lemma uexec_in_send e (u u' : udp Addr) x :
  no_other_sender e -> in_send (uthreads u) x -> uexec e u = Some (Ret u') ->
  (in_send (uthreads u') x /\ uaccepted u' = uaccepted u) \/
  (uthreads u' = ∅ /\ uaccepted u' = uaccepted u ++ [x]).
Proof.
  assert (forall v : udp Addr, uthreads v = uthreads u /\ uaccepted v = uaccepted u ->
    in_send (uthreads u) x ->
    (in_send (uthreads v) x /\ uaccepted v = uaccepted u) \/
    (uthreads v = ∅ /\ uaccepted v = uaccepted u ++ [x])) as Hsame by (intros v [-> ->]; auto).
  intros He Hx.
  destruct e as [o|o|o| | |ec ab data sender|t data|t data tgt|t|t|t|t| | |ec ok|]; cbn [uexec]; try done.
  - intros [= <-]. apply Hsame; [|done]. by destruct (bind_same o u) as (_ & _ & _ & _ & _ & ? & ? & _).
  - intros [= <-]. apply Hsame; [|done]. by destruct (connect_same o u) as (_ & _ & _ & _ & _ & ? & ? & _).
  - intros [= <-]. apply Hsame; [|done].
    by destruct (join_multicast_same o u) as (_ & _ & _ & _ & _ & ? & ? & _).
  - intros [= <-]. by apply Hsame.
  - intros [= <-]. apply Hsame; [|done]. by destruct (start_receive_front u) as (? & ? & _).
  - destruct (receiving u =? 0); [done|]. intros [= <-]. apply Hsame; [|done].
    by destruct (receive_handler_same ec ab data sender u) as (_ & _ & _ & _ & _ & ? & ? & _).
  - destruct (uthreads u !! t) as [[d tgt| | |]|] eqn:Ht; try done.
    destruct (ubuffer_pool_ u) as [|i pool]; intros [= <-]; [by apply Hsame|].
    left. split; [|done]. by apply (in_send_step _ _ t (UPopping d tgt)).
  - destruct (uthreads u !! t) as [[|d tgt i| |]|] eqn:Ht; try done.
    destruct (uheap u !! i) as [[b ?|]|]; try done. destruct (uheap u !! b) as [[|]|]; try done.
    intros [= <-]. left. split; [|done]. by apply (in_send_step _ _ t (UCopying d tgt i)).
  - destruct (uthreads u !! t) as [[| |d tgt i|]|] eqn:Ht; try done.
    destruct (uheap u !! i) as [[b ?|]|]; try done.
    intros [= <-]. left. split; [|done]. by apply (in_send_step _ _ t (UAddressing d tgt i)).
  - destruct (uthreads u !! t) as [[| | |d tgt i]|] eqn:Ht; try done. intros [= <-]. right.
    destruct Hx as (s & Hts & <-). rewrite Hts in Ht. apply lookup_singleton_Some in Ht as [<- ->].
    cbn [uthreads set_front uaccepted sender_load]. by rewrite Hts, delete_singleton_eq.
  - destruct (uposted u) as [|i l]; [done|]. unfold post_handler.
    destruct (match _ with [] => true | _ => false end).
    + intros [= Hd%do_write_threads]. by apply Hsame.
    + intros [= <-]. by apply Hsame.
  - destruct (uwrite_op u) as [[[[b k] tgt] []]|]; try done. destruct (socket_open u); [|done].
    destruct (uheap u !! b) as [[|d]|]; try done. destruct (k <=? length d); [|done].
    intros [= <-]. by apply Hsame.
  - destruct (uwrite_op u) as [[[[b k] tgt] sent]|]; [|done]. destruct (ec || sent); [|done].
    intros [= [(H1 & H2 & _) _]%send_handler_front]. by apply Hsame.
  - intros [= <-]. by apply Hsame.
Qed.

Lemma uexec_idle e (u u' : udp Addr) :
  no_other_sender e -> uthreads u = ∅ -> uexec e u = Some (Ret u') ->
  uthreads u' = ∅ /\ uaccepted u' = uaccepted u.
Proof.
  intros He Ht Hex. destruct e as [o|o|o| | |ec ab data sender|t data|t data tgt|t|t|t|t| | |ec ok|];
    try (by destruct (uexec_front _ u u' He ltac:(done) Ht Hex) as (H1 & H2 & _)).
  cbn [uexec] in Hex. destruct (receiving u =? 0); [done|]. injection Hex as <-.
  destruct (receive_handler_same ec ab data sender u) as (_ & _ & _ & _ & _ & -> & -> & _). done.
Qed.

(** ** An endpoint that stays connected *)

Definition usable (u : udp Addr) : Prop := is_connected_ u = true /\ socket_open u = true.

Lemma usable_same (u u' : udp Addr) :
  is_connected_ u' = is_connected_ u -> socket_open u' = socket_open u -> usable u -> usable u'.
Proof. unfold usable. by intros -> ->. Qed.

Lemma setup_usable (o : os (Addr := Addr)) (u : udp Addr) :
  usable u -> usable (snd (bind o u)) /\ usable (snd (connect o u)) /\ usable (snd (join_multicast o u)).
Proof.
  intros [Hc Ho]. split_and!.
  - unfold bind, socket_open_call. by rewrite Ho.
  - unfold connect. rewrite Ho. destruct (os_resolve o) as [ec [|e l]]; destruct (is_open_error ec); try done.
    cbn [is_open_error Z.eqb negb]. by destruct (is_open_error (os_connect o e)).
  - unfold join_multicast. rewrite Ho. destruct (os_make_address o) as [ec v4].
    destruct (is_open_error ec); [done|]. destruct (negb v4); [done|]. cbn [is_open_error Z.eqb negb].
    destruct (is_open_error (os_reuse_address o)); [done|].
    destruct (is_open_error (os_bind o)); [done|]. by destruct (is_open_error (os_join_group o)).
Qed.

Lemma do_write_usable (u u' : udp Addr) : do_write u = Ret u' -> usable u -> usable u'.
Proof.
  unfold do_write. destruct (usend_queue_ u) as [|i q]; [done|].
  destruct (uheap u !! i) as [[b t|]|]; try done.
  destruct (uheap u !! b) as [[|d]|], (uwrite_op u); try done. by intros [= <-].
Qed.

Lemma send_handler_usable ok (u u' : udp Addr) : send_handler false ok u = Ret u' -> usable u -> usable u'.
Proof.
  unfold send_handler. destruct (usend_queue_ u) as [|i q]; [done|].
  destruct (if ok then _ else _) as [u1| | | |] eqn:E; try done.
  assert (usable u -> usable u1) as H1.
  { destruct ok; [by injection E as <-|]. destruct (uheap u !! i) as [[|]|]; try done.
    by injection E as <-. }
  cbn [mbind outcome_bind negb andb]. destruct (match _ with [] => false | _ => true end).
  - intros Hw Hu. apply (do_write_usable _ _ Hw). by apply H1.
  - intros [= <-] Hu. by apply H1.
Qed.

Lemma uexec_usable e (u u' : udp Addr) :
  keeps_open e -> usable u -> uexec e u = Some (Ret u') -> usable u'.
Proof.
  intros He Hu.
  assert (forall v : udp Addr, is_connected_ v = is_connected_ u -> socket_open v = socket_open u -> usable v)
    as Hsame by (intros; by apply (usable_same u)).
  assert (forall v : udp Addr, usable v -> usable (start_receive v)) as Hstart.
  { intros v Hv. unfold start_receive. by destruct (_ || _). }
  destruct e as [o|o|o| | |ec ab data sender|t data|t data tgt|t|t|t|t| | |ec ok|]; cbn [uexec]; try done.
  - intros [= <-]. by apply setup_usable.
  - intros [= <-]. by apply setup_usable.
  - intros [= <-]. by apply setup_usable.
  - intros [= <-]. done.
  - intros [= <-]. by apply Hstart.
  - destruct (receiving u =? 0); [done|]. intros [= <-]. unfold receive_handler.
    destruct (negb ec && (0 <? length data)); [by apply Hstart|].
    destruct (ec && negb ab); [by apply Hstart|done].
  - unfold enter. destruct (uthreads u !! t); [done|]. by destruct (send_entry data u); intros [= <-].
  - unfold enter. destruct (uthreads u !! t); [done|]. by destruct (send_to_entry data tgt u); intros [= <-].
  - destruct (uthreads u !! t) as [[]|]; try done. by destruct (ubuffer_pool_ u); intros [= <-].
  - destruct (uthreads u !! t) as [[|d tgt i| |]|]; try done.
    destruct (uheap u !! i) as [[b ?|]|]; try done. destruct (uheap u !! b) as [[|]|]; try done.
    by intros [= <-].
  - destruct (uthreads u !! t) as [[| |d tgt i|]|]; try done.
    destruct (uheap u !! i) as [[b ?|]|]; try done. by intros [= <-].
  - destruct (uthreads u !! t) as [[]|]; try done. by intros [= <-].
  - destruct (uposted u) as [|i l]; [done|]. unfold post_handler.
    destruct (match _ with [] => true | _ => false end).
    + intros [= Hd]. by apply (do_write_usable _ _ Hd).
    + by intros [= <-].
  - destruct (uwrite_op u) as [[[[b k] tgt] []]|]; try done. destruct (socket_open u); [|done].
    destruct (uheap u !! b) as [[|d]|]; try done. destruct (k <=? length d); [|done]. by intros [= <-].
  - destruct (uwrite_op u) as [[[[b k] tgt] sent]|]; [|done]. destruct (ec || sent); [|done].
    destruct ec; [done|]. intros [= Hd]. by apply (send_handler_usable _ _ _ Hd).
Qed.

(** ** The invariant

    [ms] is what the program sends; with [strict] the endpoint stays usable. *)

Definition kept (strict : bool) (acc ms : list (list byte)) : Prop :=
  if strict then acc = ms else acc `sublist_of` ms.

Lemma kept_snoc strict acc ms m : kept strict acc ms -> kept strict (acc ++ [m]) (ms ++ [m]).
Proof. destruct strict; simpl; [by intros ->|]. intros. by apply sublist_app. Qed.

Definition thread_inv (strict : bool) (ms : list (list byte)) (s : user_thread) : Prop :=
  exists l1 l2, ms = l1 ++ l2 /\ sends (tprog s) l2 /\ (strict = true -> usable (tep s)) /\
  if tcalling s then
    exists d k l3 x, tprog s = CallSend d k /\ l2 = d :: l3 /\ x.1 = d /\
      ((in_send (uthreads (tep s)) x /\ kept strict (uaccepted (tep s)).*1 l1) \/
       (uthreads (tep s) = ∅ /\ kept strict (uaccepted (tep s)).*1 (l1 ++ [d])))
  else uthreads (tep s) = ∅ /\ kept strict (uaccepted (tep s)).*1 l1.

Lemma send_entry_refused (data : list byte) (u : udp Addr) res :
  send_entry data u = inl res -> ~ usable u.
Proof.
  unfold send_entry, send_to_entry. intros Hs [Hc Ho]. by rewrite Hc, Ho in Hs.
Qed.

Lemma send_entry_load (data : list byte) (u : udp Addr) snd :
  send_entry data u = inr snd -> (sender_load snd).1 = data.
Proof.
  unfold send_entry, send_to_entry. destruct (negb _); [done|]. destruct (socket_open u); [|done].
  by intros [= <-].
Qed.

Lemma tstep_inv strict ms s s' :
  thread_inv strict ms s -> thread_exec TStep s = Some (Ret s') -> thread_inv strict ms s'.
Proof.
  intros (l1 & l2 & -> & Hs & Hu & Hin). cbn [thread_exec].
  destruct (tprog s) as [r|data k|k|f] eqn:Hp; [done| | |by destruct f].
  2: { by destruct l2. }
  destruct l2 as [|m l2]; [done|]. destruct Hs as [-> Hk]. destruct (tcalling s) eqn:Hc.
  - destruct (uthreads (tep s) !! 0) eqn:H0; [done|]. intros [= <-].
    destruct Hin as (d & k' & l3 & x & [= <- <-] & [= <-] & Hx & [[(s0 & Hts & _) _]|[Ht Ha]]).
    { rewrite Hts, lookup_singleton_eq in H0. done. }
    exists (l1 ++ [m]), l2. cbn [tprog tep tcalling]. rewrite <- app_assoc. done.
  - destruct Hin as [Ht Ha]. destruct (send_entry m (tep s)) as [res|snd] eqn:He; intros [= <-].
    + exists (l1 ++ [m]), l2. cbn [tprog tep tcalling]. rewrite <- app_assoc.
      split_and!; [done|apply Hk|done|done|]. destruct strict; simpl.
      * destruct (send_entry_refused _ _ _ He). by apply Hu.
      * by apply sublist_inserts_r.
    + exists l1, (m :: l2). cbn [tprog tep tcalling]. split_and!; [done|by split|done|].
      exists m, k, l2, (sender_load snd). split_and!; [done|done|by apply (send_entry_load m (tep s))|].
      left. split; [|done]. exists snd. cbn [uthreads set_front]. by rewrite Ht.
Qed.

Definition thread_keeps_open (e : tevent) : Prop :=
  match e with TStep => True | TEndpoint e => keeps_open e end.

Lemma tendpoint_inv strict ms e s s' :
  (strict = true -> keeps_open e) -> thread_inv strict ms s ->
  thread_exec (TEndpoint e) s = Some (Ret s') -> thread_inv strict ms s'.
Proof.
  intros Hke (l1 & l2 & -> & Hs & Hu & Hin) Hex.
  assert (no_other_sender e /\ exists u, uexec e (tep s) = Some (Ret u) /\
            s' = UserThread u (tprog s) (tcalling s)) as (He & u & Hex' & ->).
  { cbn [thread_exec] in Hex. destruct e; try done; (split; [done|]);
      (destruct (uexec _ (tep s)) as [[u| | | |]|]; try done; injection Hex as <-; eauto). }
  assert (strict = true -> usable u) as Hu'.
  { intros ->. apply (uexec_usable e (tep s)); [by apply Hke|by apply Hu|done]. }
  exists l1, l2. cbn [tprog tep tcalling]. split_and!; [done|done|done|].
  destruct (tcalling s).
  - destruct Hin as (d & k & l3 & x & Hp & -> & Hx & Hacc). exists d, k, l3, x.
    split_and!; [done|done|done|]. destruct Hacc as [[Hin Ha]|[Ht Ha]].
    + destruct (uexec_in_send e (tep s) u x He Hin Hex') as [[H1 H2]|[H1 H2]]; rewrite H2; [by left|right].
      split; [done|]. rewrite fmap_app. cbn [fmap list_fmap]. rewrite Hx. by apply kept_snoc.
    + destruct (uexec_idle e (tep s) u He Ht Hex') as [-> ->]. by right.
  - destruct Hin as [Ht Ha]. destruct (uexec_idle e (tep s) u He Ht Hex') as [-> ->]. done.
Qed.

Lemma thread_run_inv strict ms es s s' :
  (strict = true -> Forall thread_keeps_open es) -> thread_inv strict ms s ->
  thread_run es s = Some s' -> thread_inv strict ms s'.
Proof.
  revert s. induction es as [|e es IH]; intros s Hes Hs; cbn [thread_run]; [by intros [= <-]|].
  destruct (thread_exec e s) as [[s1| | | |]|] eqn:Hex; try done.
  apply IH; [intros Ht; by apply Forall_cons in Hes as [_ ?]|].
  destruct e as [|e]; [by eapply tstep_inv|].
  eapply tendpoint_inv; [|exact Hs|exact Hex]. intros Ht. by apply Forall_cons in Hes as [? _].
Qed.

(** The thread's calls are the endpoint's events. *)
Lemma thread_exec_reachable n strict ms e s s' :
  thread_inv strict ms s -> ureachable addr0 n (tep s) -> thread_exec e s = Some (Ret s') ->
  ureachable addr0 n (tep s').
Proof.
  intros (l1 & l2 & _ & _ & _ & Hin) Hr. destruct e as [|e]; cbn [thread_exec].
  - destruct (tprog s) as [r|data k|k|f]; [done| |by intros [= <-]|by destruct f].
    destruct (tcalling s).
    + destruct (uthreads (tep s) !! 0); [done|]. by intros [= <-].
    + destruct Hin as [Ht _]. destruct (send_entry data (tep s)) as [res|snd] eqn:He; intros [= <-]; [done|].
      apply (ureach_step _ _ _ (USend 0 data) _ Hr). cbn [uexec]. unfold enter.
      by rewrite Ht, lookup_empty, He.
  - intros Hex. assert (exists u, uexec e (tep s) = Some (Ret u) /\ s' = UserThread u (tprog s) (tcalling s))
      as (u & Hu & ->).
    { destruct e; try done; (destruct (uexec _ (tep s)) as [[u| | | |]|]; try done; injection Hex as <-; eauto). }
    by apply (ureach_step _ _ (tep s) e).
Qed.

Lemma thread_run_reachable n ms es s s' :
  thread_inv false ms s -> ureachable addr0 n (tep s) -> thread_run es s = Some s' ->
  ureachable addr0 n (tep s').
Proof.
  revert s. induction es as [|e es IH]; intros s Hs Hr; cbn [thread_run]; [by intros [= <-]|].
  destruct (thread_exec e s) as [[s1| | | |]|] eqn:Hex; try done. apply IH.
  - apply (thread_run_inv false ms [e] s); [done|done|]. cbn [thread_run]. by rewrite Hex.
  - by eapply thread_exec_reachable.
Qed.

(** A thread that starts on an endpoint nobody has sent on. *)
Lemma thread_start strict ms p (u : udp Addr) :
  sends p ms -> uthreads u = ∅ -> uaccepted u = [] -> (strict = true -> usable u) ->
  thread_inv strict ms (UserThread u p false).
Proof.
  intros Hp Ht Ha Hu. exists [], ms. cbn [tprog tep tcalling]. rewrite Ha. split_and!; try done.
  by destruct strict.
Qed.

(** What it has had accepted and what has left. *)
Lemma thread_accepted n ms p (u : udp Addr) es s :
  n <= queue_capacity -> ureachable addr0 n u -> sends p ms -> uthreads u = ∅ -> uaccepted u = [] ->
  thread_run es (UserThread u p false) = Some s ->
  ureachable addr0 n (tep s) /\ (uaccepted (tep s)).*1 `sublist_of` ms /\ (uwire (tep s)).*1 `sublist_of` ms.
Proof.
  intros Hn Hr Hp Ht Ha Hrun.
  pose proof (thread_start false ms p u Hp Ht Ha ltac:(done)) as Hs.
  pose proof (thread_run_reachable n ms es _ s Hs Hr Hrun) as Hrs.
  assert ((uaccepted (tep s)).*1 `sublist_of` ms) as Hacc.
  { destruct (thread_run_inv false ms es _ s ltac:(done) Hs Hrun) as (l1 & l2 & -> & _ & _ & Hin).
    destruct (tcalling s).
    - destruct Hin as (d & k & l3 & x & _ & -> & _ & [[_ Hk]|[_ Hk]]); simpl in Hk.
      + by apply sublist_inserts_r.
      + change (d :: l3) with ([d] ++ l3). rewrite app_assoc. by apply sublist_inserts_r.
    - destruct Hin as [_ Hk]. by apply sublist_inserts_r. }
  split_and!; [done|done|]. etrans; [|exact Hacc]. apply fmap_sublist.
  apply (uinv_wire_accepted addr0 n), (ureachable_inv addr0 n _ Hn Hrs).
Qed.

(** On an endpoint that stays connected and open nothing is refused. *)
Lemma thread_kept ms p (u : udp Addr) es s :
  sends p ms -> uthreads u = ∅ -> uaccepted u = [] -> usable u -> Forall thread_keeps_open es ->
  thread_run es (UserThread u p false) = Some s ->
  (uaccepted (tep s)).*1 `prefix_of` ms /\
  ((exists r, tprog s = Return r) -> (uaccepted (tep s)).*1 = ms).
Proof.
  intros Hp Ht Ha Hu Hes Hrun.
  destruct (thread_run_inv true ms es (UserThread u p false) s)
    as (l1 & l2 & -> & Hs & _ & Hin); [done|by apply thread_start|exact Hrun|].
  destruct (tcalling s).
  - destruct Hin as (d & k & l3 & x & Hd & -> & _ & [[_ Hk]|[_ Hk]]); simpl in Hk; rewrite Hk.
    + split; [by apply prefix_app_r|]. intros [r Hret]. congruence.
    + split; [|intros [r Hret]; congruence]. change (d :: l3) with ([d] ++ l3). rewrite app_assoc.
      by apply prefix_app_r.
  - destruct Hin as [_ Hk]. simpl in Hk. rewrite Hk. split; [by apply prefix_app_r|].
    intros [r Hret]. rewrite Hret in Hs. destruct l2; [by rewrite app_nil_r|done].
Qed.

End Thread.

(** ** Properties *)

Section Properties.

Context `{!CircularBuffer} {Addr R : Type} (addr0 : Addr).

(** A thread that sends over UDP.  Whatever the strand and the network do between
    the statements of [send]: of the messages its program sends, those accepted and those
    that leave are some, in order and each at most once; and on an endpoint that stays
    connected and open all that have been called so far, and every one of them by the
    time the program has ended. *)
Theorem udp_thread_sends n ms (p : app_prog R) (u : udp Addr) es s :
  n <= pool_capacity -> ureachable addr0 n u -> uthreads u = ∅ -> uaccepted u = [] ->
  sends p ms -> thread_run es (UserThread u p false) = Some s ->
  (uaccepted (tep s)).*1 `sublist_of` ms /\ (uwire (tep s)).*1 `sublist_of` ms /\
  (is_connected_ u = true -> socket_open u = true -> Forall thread_keeps_open es ->
   (uaccepted (tep s)).*1 `prefix_of` ms /\
   ((exists r, tprog s = Return r) -> (uaccepted (tep s)).*1 = ms)).
Proof.
  intros Hn%udp_pool_fits Hr Ht Ha Hp Hrun.
  destruct (thread_accepted addr0 n ms p u es s Hn Hr Hp Ht Ha Hrun) as (_ & Hacc & Hw).
  split; [exact Hacc|]. split; [exact Hw|]. intros Hc Ho Hes. by eapply thread_kept.
Qed.

End Properties.

(** ** Witnesses *)

#[local] Existing Instance overwriting_buffer.

Definition two_sends : app_prog unit :=
  CallSend [x61] (fun _ => CallSend [x62] (fun _ => Return tt)).

Definition connected_udp : udp nat := snd (connect lan (udp_init 0 2)).

Definition send_steps : list (tevent (Addr := nat)) :=
  [TStep; TEndpoint (UPop 0); TEndpoint (UCopy 0); TEndpoint (UAddress 0); TEndpoint (UPost 0); TStep].

Definition two_sent : user_thread (Addr := nat) (R := unit) :=
  default (UserThread connected_udp two_sends false)
    (thread_run (send_steps ++ [TEndpoint URunPosted; TEndpoint UTransmit] ++ send_steps)
       (UserThread connected_udp two_sends false)).

Lemma udp_thread_sends_witness :
  (uaccepted (tep two_sent)).*1 = [[x61]; [x62]] /\ (uwire (tep two_sent)).*1 `sublist_of` [[x61]; [x62]].
Proof.
  destruct (udp_thread_sends 0 2 [[x61]; [x62]] two_sends connected_udp
              (send_steps ++ [TEndpoint URunPosted; TEndpoint UTransmit] ++ send_steps) two_sent small_pool)
    as (_ & Hw & Hall).
  - by apply (ureach_step _ _ (udp_init 0 2) (UConnect lan)); [constructor|].
  - reflexivity.
  - reflexivity.
  - done.
  - by vm_compute.
  - split; [|exact Hw]. apply Hall; [reflexivity|reflexivity|by repeat constructor|].
    exists tt. by vm_compute.
Defined.
