(* ===== verification/UdpSteps.v ===== *)
(** * A receive callback over UDP, statement by statement

    In UdpSession.v a receive callback runs in one step.  Here it runs statement by
    statement, in a thread of the context: other threads enter and leave [send_to]
    between its own statements, and datagrams leave.  The strand is busy until the
    callback has returned.  Every step is one of the endpoint's, or none. *)

From S2P Require Import Prelude Expected SendPipeline Callbacks UdpEndpoint UdpSession UdpThread.
From Stdlib Require Import ZArith Lia.

Open Scope nat_scope.

#[local] Abbreviation length := Datatypes.length.

(** ** Calls *)

Inductive udp_call (Addr : Type) :=
| SendCall (data : list byte)
| SendToCall (data : list byte) (target : Addr).
Arguments SendCall {Addr} data.
Arguments SendToCall {Addr} data target.

(** The datagram that is accepted for a call: [send] goes to the cached endpoint. *)
Definition sends_for {Addr} (x : list byte * Addr) (c : udp_call Addr) : Prop :=
  match c with SendCall data => x.1 = data | SendToCall data target => x = (data, target) end.

(** A call that has returned. *)
Abbreviation answered Addr := (udp_call Addr * send_result)%type.

Definition udp_taken {Addr} (calls : list (answered Addr)) : list (udp_call Addr) :=
  (List.filter (fun c => operator_bool c.2) calls).*1.

Lemma udp_taken_app {Addr} (calls calls' : list (answered Addr)) :
  udp_taken (calls ++ calls') = udp_taken calls ++ udp_taken calls'.
Proof. unfold udp_taken. by rewrite List.filter_app, fmap_app. Qed.

(** The call that a program makes next, and what it does with the answer. *)
Definition next_call {Addr R} (p : udp_prog Addr R) : option (udp_call Addr * (send_result -> udp_prog Addr R)) :=
  match p with
  | CallUdpSend data k => Some (SendCall data, k)
  | CallSendTo data target k => Some (SendToCall data target, k)
  | _ => None
  end.

(** [p] has come to [p'] by the calls [tr]. *)
Inductive udp_comes_to {Addr R} (p : udp_prog Addr R) : list (answered Addr) -> udp_prog Addr R -> Prop :=
| udp_comes_refl : udp_comes_to p [] p
| udp_comes_call tr p' c k res :
    udp_comes_to p tr p' -> next_call p' = Some (c, k) -> udp_comes_to p (tr ++ [(c, res)]) (k res)
| udp_comes_close tr k : udp_comes_to p tr (CallUdpClose k) -> udp_comes_to p tr k.

Section Steps.

Context `{!CircularBuffer} {Addr A : Type} (addr0 : Addr).
Context (receive_callback_ : udp_callback Addr A).

(** ** The machine *)

(** The strand is inside the callback, on thread [ur_thread], with the datagram and what is
    left of the callback's program. *)
Record udp_running := URunning {
  ur_thread : nat;
  ur_data : list byte;
  ur_sender : Addr;
  ur_prog : udp_prog Addr A;
}.

(** [us_calls]: the callbacks' calls so far (history). *)
Record ustepping := UStepping {
  us_ep : udp Addr;
  us_app : A;
  us_running : option udp_running;
  us_calls : list (answered Addr);
}.

Definition ustepping_init (n : nat) (a : A) : ustepping := UStepping (udp_init addr0 n) a None [].

Inductive ustepping_event :=
| UXEndpoint (e : uevent Addr)
| UXRead (t : nat) (data : list byte) (sender : Addr)   (* a receive completes; thread [t] runs its handler *)
| UXStatement.                                           (* the next statement of the callback *)

Definition uevent_thread (e : uevent Addr) : option nat :=
  match e with
  | USend t _ | USendTo t _ _ | UPop t | UCopy t | UAddress t | UPost t => Some t
  | _ => None
  end.

(** What happens outside the strand: other threads and the network. *)
Definition outside_strand (e : uevent Addr) : bool :=
  match e with UReceive _ _ _ _ | URunPosted | USendDone _ _ | UClose => false | _ => true end.

(** The completion of a receive that runs the callback. *)
Definition runs_callback (e : uevent Addr) : bool :=
  match e with UReceive false _ (_ :: _) _ => true | _ => false end.

Definition upossible (e : uevent Addr) (s : ustepping) : bool :=
  match us_running s with
  | None => negb (runs_callback e)
  | Some r => outside_strand e && bool_decide (uevent_thread e <> Some (ur_thread r))
  end.

Definition call_entry (c : udp_call Addr) (u : udp Addr) : send_result + usender :=
  match c with SendCall data => send_entry data u | SendToCall data target => send_to_entry data target u end.

(** The statement of the call that thread [t] executes next. *)
Definition next_event (t : nat) (c : udp_call Addr) (u : udp Addr) : uevent Addr :=
  match uthreads u !! t with
  | None => match c with SendCall data => USend t data | SendToCall data target => USendTo t data target end
  | Some (UPopping _ _) => UPop t
  | Some (UCopying _ _ _) => UCopy t
  | Some (UAddressing _ _ _) => UAddress t
  | Some (UPosting _ _ _) => UPost t
  end.

(** It, and the answer of the call when it ends it. *)
Definition call_statement (t : nat) (c : udp_call Addr) (u : udp Addr) :
    option (outcome (udp Addr * option send_result)) :=
  match uexec (next_event t c u) u with
  | None => None
  | Some o =>
      Some (u' ← o;
            Ret (u', match uthreads u' !! t, uthreads u !! t with
                     | Some _, _ => None
                     | None, Some _ => Some ok
                     | None, None => match call_entry c u with inl res => Some res | inr _ => None end
                     end))
  end.

Definition ustatement (r : udp_running) (s : ustepping) : option (outcome ustepping) :=
  let '(URunning t data sender p) := r in
  match p with
  | UReturn a =>
      match uexec (UReceive false false data sender) (us_ep s) with
      | Some o => Some (u ← o; Ret (UStepping u a None (us_calls s)))
      | None => None
      end
  | CallUdpClose k =>
      Some (Ret (UStepping (close (us_ep s)) (us_app s) (Some (URunning t data sender k)) (us_calls s)))
  | UFails f => Some (fail_as f)
  | _ =>
      '(c, k) ← next_call p;
      o ← call_statement t c (us_ep s);
      Some ('(u, res) ← o;
            Ret (match res with
                 | None => UStepping u (us_app s) (Some r) (us_calls s)
                 | Some res => UStepping u (us_app s) (Some (URunning t data sender (k res))) (us_calls s ++ [(c, res)])
                 end))
  end.

Definition ustepping_exec (e : ustepping_event) (s : ustepping) : option (outcome ustepping) :=
  match e with
  | UXEndpoint e =>
      if upossible e s then
        match uexec e (us_ep s) with
        | Some o => Some (u ← o; Ret (UStepping u (us_app s) (us_running s) (us_calls s)))
        | None => None
        end
      else None
  | UXRead t data sender =>
      match us_running s, uthreads (us_ep s) !! t with
      | None, None =>
          if (0 <? receiving (us_ep s)) && (0 <? length data) then
            Some (Ret (UStepping (us_ep s) (us_app s)
                         (Some (URunning t data sender (receive_callback_ (us_app s) data sender))) (us_calls s)))
          else None
      | _, _ => None
      end
  | UXStatement => match us_running s with Some r => ustatement r s | None => None end
  end.

Fixpoint ustepping_run (es : list ustepping_event) (s : ustepping) : option ustepping :=
  match es with
  | [] => Some s
  | e :: es => match ustepping_exec e s with Some (Ret s') => ustepping_run es s' | _ => None end
  end.

(** The specification: the callback runs on datagrams one after another. *)
Inductive udp_served (a0 : A) : list (list byte * Addr) -> list (answered Addr) -> A -> Prop :=
| udp_served_nil : udp_served a0 [] [] a0
| udp_served_snoc xs tr a data sender tr' a' :
    udp_served a0 xs tr a -> udp_comes_to (receive_callback_ a data sender) tr' (UReturn a') ->
    udp_served a0 (xs ++ [(data, sender)]) (tr ++ tr') a'.

(** ** What a step of the endpoint leaves alone *)

Lemma enter_later t r (u u' : udp Addr) :
  enter t r u = Some (Ret u') -> uaccepted u' = uaccepted u /\ received u' = received u /\ receiving u' = receiving u /\
  forall t', t' <> t -> uthreads u' !! t' = uthreads u !! t'.
Proof.
  unfold enter. destruct (uthreads u !! t); [done|]. destruct r; intros [= <-]; [done|].
  split_and!; [done|done|done|]. intros t' Hne. cbn [uthreads set_front]. by rewrite lookup_insert_ne.
Qed.

(** Threads other than the event's, and what has been received. *)
Lemma uexec_later e (u u' : udp Addr) :
  (forall ec ab d x, e <> UReceive ec ab d x) -> uexec e u = Some (Ret u') ->
  received u' = received u /\ receiving u <= receiving u' /\ uaccepted u `prefix_of` uaccepted u' /\
  (forall t, uevent_thread e <> Some t -> uthreads u' !! t = uthreads u !! t) /\
  (uevent_thread e = None -> uaccepted u' = uaccepted u).
Proof.
  assert (forall v : udp Addr, same_front u v ->
    received v = received u /\ receiving u <= receiving v /\ uaccepted u `prefix_of` uaccepted v /\
    (forall t, uevent_thread e <> Some t -> uthreads v !! t = uthreads u !! t) /\
    (uevent_thread e = None -> uaccepted v = uaccepted u)) as Hsame.
  { intros v (Ht & Ha & Hr & Hc). by rewrite Ht, Ha, Hr, Hc. }
  assert (forall t s (v : udp Addr), uevent_thread e = Some t -> uthreads v = <[t := s]> (uthreads u) ->
    uaccepted v = uaccepted u -> received v = received u -> receiving v = receiving u ->
    received v = received u /\ receiving u <= receiving v /\ uaccepted u `prefix_of` uaccepted v /\
    (forall t, uevent_thread e <> Some t -> uthreads v !! t = uthreads u !! t) /\
    (uevent_thread e = None -> uaccepted v = uaccepted u)) as Hmove.
  { intros t s v He Ht Ha Hr Hc. rewrite Ht, Ha, Hr, Hc, He. split_and!; [done|done|done| |done].
    intros t' Hne. rewrite lookup_insert_ne; congruence. }
  intros Hr. destruct e as [o|o|o| | |ec ab data sender|t data|t data tgt|t|t|t|t| | |ec ok|]; cbn [uexec].
  - intros [= <-]. apply Hsame. destruct (setup_front o u (snd (bind o u))) as [? _]; auto.
  - intros [= <-]. apply Hsame. destruct (setup_front o u (snd (connect o u))) as [? _]; auto.
  - intros [= <-]. apply Hsame. destruct (setup_front o u (snd (join_multicast o u))) as [? _]; auto.
  - intros [= <-]. by apply Hsame.
  - intros [= <-]. destruct (start_receive_front u) as (Ht & Ha & Hrc & _). rewrite Hrc, Ha, Ht.
    split_and!; try done. unfold start_receive. destruct (_ || _); cbn; lia.
  - by destruct (Hr ec ab data sender).
  - intros (Ha & Hrc & Hc & Ht)%enter_later. rewrite Ha, Hrc, Hc. split_and!; try done. intros t' Hne. apply Ht. cbn in Hne. congruence.
  - intros (Ha & Hrc & Hc & Ht)%enter_later. rewrite Ha, Hrc, Hc. split_and!; try done. intros t' Hne. apply Ht. cbn in Hne. congruence.
  - destruct (uthreads u !! t) as [[d tgt| | |]|] eqn:Ht; try done.
    destruct (ubuffer_pool_ u) as [|i pool]; intros [= <-]; [by apply Hsame|]. by eapply Hmove.
  - destruct (uthreads u !! t) as [[|d tgt i| |]|] eqn:Ht; try done.
    destruct (uheap u !! i) as [[b ?|]|]; try done. destruct (uheap u !! b) as [[|]|]; try done.
    intros [= <-]. by eapply Hmove.
  - destruct (uthreads u !! t) as [[| |d tgt i|]|] eqn:Ht; try done.
    destruct (uheap u !! i) as [[b ?|]|]; try done. intros [= <-]. by eapply Hmove.
  - destruct (uthreads u !! t) as [[| | |d tgt i]|] eqn:Ht; try done. intros [= <-]. cbn.
    split_and!; [done|done|by apply prefix_app_r| |done]. intros t' Hne. rewrite lookup_delete_ne; congruence.
  - destruct (uposted u) as [|i l]; [done|]. unfold post_handler. destruct (match _ with [] => true | _ => false end).
    + intros [= [Hf _]%udo_write_front]. by apply Hsame.
    + intros [= <-]. by apply Hsame.
  - destruct (uwrite_op u) as [[[[b k] tgt] []]|]; try done. destruct (socket_open u); [|done].
    destruct (uheap u !! b) as [[|d]|]; try done. destruct (k <=? length d); [|done].
    intros [= <-]. by apply Hsame.
  - destruct (uwrite_op u) as [[[[b k] tgt] sent]|]; [|done]. destruct (ec || sent); [|done].
    intros [= [Hf _]%send_handler_front]. by apply Hsame.
  - intros [= <-]. by apply Hsame.
Qed.

(** The end of the receive: the datagram is recorded and the next receive starts. *)
Lemma finish_receive (u : udp Addr) data sender :
  0 < receiving u -> 0 < length data ->
  exists u', uexec (UReceive false false data sender) u = Some (Ret u') /\
    received u' = received u ++ [(data, sender)] /\ uthreads u' = uthreads u /\ uaccepted u' = uaccepted u.
Proof.
  intros Hr Hd. cbn [uexec]. destruct (Nat.eqb_spec (receiving u) 0); [lia|].
  eexists. split; [reflexivity|]. unfold receive_handler.
  destruct (Nat.ltb_spec 0 (length data)); [|lia]. cbn [negb andb].
  match goal with |- context [start_receive ?v] => destruct (start_receive_front v) as (-> & -> & -> & _) end. done.
Qed.

(** ** One statement of a call *)

Context (n : nat) (Hn : n <= queue_capacity).

Definition inside (t : nat) (c : udp_call Addr) (u : udp Addr) : Prop :=
  forall snd, uthreads u !! t = Some snd -> sends_for (sender_load snd) c.

Definition refused (res : send_result) : Prop := res = error_of not_connected \/ res = error_of bad_descriptor.

Definition call_post (t : nat) (c : udp_call Addr) (u u' : udp Addr) (res : option send_result) : Prop :=
  match res with
  | None => (exists snd, uthreads u' !! t = Some snd /\ sends_for (sender_load snd) c) /\ uaccepted u' = uaccepted u
  | Some res =>
      uthreads u' !! t = None /\
      if operator_bool res then res = ok /\ exists x, sends_for x c /\ uaccepted u' = uaccepted u ++ [x]
      else refused res /\ uaccepted u' = uaccepted u
  end.

Lemma call_entry_spec c (u : udp Addr) :
  match call_entry c u with
  | inl res => refused res
  | inr snd => sends_for (sender_load snd) c
  end.
Proof.
  unfold refused. destruct c as [d|d tgt]; cbn [call_entry]; unfold send_entry, send_to_entry.
  - destruct (negb _); [by left|]. destruct (socket_open u); [done|by right].
  - destruct (socket_open u); [done|by right].
Qed.

Lemma next_event_thread t c (u : udp Addr) : uevent_thread (next_event t c u) = Some t.
Proof. unfold next_event. by destruct (uthreads u !! t) as [[]|], c. Qed.

Lemma next_event_no_receive t c (u : udp Addr) ec ab d x : next_event t c u <> UReceive ec ab d x.
Proof. unfold next_event. by destruct (uthreads u !! t) as [[]|], c. Qed.

Lemma next_event_enters t c (u : udp Addr) :
  uthreads u !! t = None -> uexec (next_event t c u) u = enter t (call_entry c u) u.
Proof. intros Ht. unfold next_event. rewrite Ht. by destruct c. Qed.

Lemma call_statement_spec t c (u : udp Addr) :
  udp_inv addr0 n u -> inside t c u ->
  exists u' res, call_statement t c u = Some (Ret (u', res)) /\
    uexec (next_event t c u) u = Some (Ret u') /\ call_post t c u u' res.
Proof using Hn.
  intros Hinv Hin. unfold call_statement.
  destruct (uthreads u !! t) as [snd|] eqn:Ht.
  - specialize (Hin snd Ht). destruct (uexec (next_event t c u) u) as [o|] eqn:Hex.
    2: { exfalso. revert Hex. unfold next_event. rewrite Ht. destruct snd; cbn [uexec]; rewrite Ht; try done.
         by destruct (ubuffer_pool_ u). }
    destruct (uexec_inv addr0 n _ u o Hn Hinv Hex) as (u' & -> & _). do 2 eexists. split; [reflexivity|].
    split; [done|]. revert Hex. unfold next_event, call_post. rewrite Ht.
    destruct snd as [d tgt|d tgt i|d tgt i|d tgt i]; cbn [uexec]; rewrite Ht.
    + destruct (ubuffer_pool_ u) as [|i pool]; intros [= <-]; cbn; rewrite ?Ht, ?lookup_insert_eq; (split; [by eexists|done]).
    + destruct (uheap u !! i) as [[b ?|]|]; try done. destruct (uheap u !! b) as [[|]|]; try done.
      intros [= <-]. cbn. rewrite lookup_insert_eq. split; [by eexists|done].
    + destruct (uheap u !! i) as [[b ?|]|]; try done. intros [= <-]. cbn. rewrite lookup_insert_eq. split; [by eexists|done].
    + intros [= <-]. cbn. rewrite lookup_delete_eq. split; [done|]. split; [done|]. by exists (d, tgt).
  - rewrite next_event_enters by done. unfold enter. rewrite Ht. pose proof (call_entry_spec c u) as He.
    destruct (call_entry c u) as [res|snd]; do 2 eexists; (split; [reflexivity|]); (split; [reflexivity|]); unfold call_post; cbn.
    + rewrite Ht. split; [done|]. assert (operator_bool res = false) as -> by (by destruct He as [-> | ->]). done.
    + rewrite lookup_insert_eq. split; [by eexists|done].
Qed.

(** ** The invariant *)

Context (a0 : A) (Hcb : forall a d x, udp_never_fails (receive_callback_ a d x)).

(** The callback that is running on a datagram not yet recorded. *)
Definition urunning_ok (s : ustepping) (r : udp_running) : Prop :=
  0 < receiving (us_ep s) /\ 0 < length (ur_data r) /\
  exists tr tr', us_calls s = tr ++ tr' /\ udp_served a0 (received (us_ep s)) tr (us_app s) /\
    udp_comes_to (receive_callback_ (us_app s) (ur_data r) (ur_sender r)) tr' (ur_prog r) /\
    udp_never_fails (ur_prog r) /\
    forall snd, uthreads (us_ep s) !! ur_thread r = Some snd ->
      exists c k, next_call (ur_prog r) = Some (c, k) /\ sends_for (sender_load snd) c.

(** What the calls have come to.  With [alone], no other thread sends. *)
Record ucalls_inv (alone : bool) (u : udp Addr) (calls : list (answered Addr)) (on : option nat) : Prop := {
  uci_answers : Forall (fun c => c.2 = ok \/ refused c.2) calls;
  uci_taken : exists l, l `sublist_of` uaccepted u /\ Forall2 sends_for l (udp_taken calls);
  uci_alone : alone = true ->
    Forall2 sends_for (uaccepted u) (udp_taken calls) /\ forall t, is_Some (uthreads u !! t) -> on = Some t;
}.

Record ustepping_inv (alone : bool) (s : ustepping) : Prop := {
  usi_ep : ureachable addr0 n (us_ep s);
  usi_calls : ucalls_inv alone (us_ep s) (us_calls s) (ur_thread <$> us_running s);
  usi_running :
    match us_running s with
    | Some r => urunning_ok s r
    | None => udp_served a0 (received (us_ep s)) (us_calls s) (us_app s)
    end;
}.

Lemma ucalls_keep alone (u u' : udp Addr) calls on on' :
  ucalls_inv alone u calls on -> uaccepted u `prefix_of` uaccepted u' ->
  (alone = true -> uaccepted u' = uaccepted u /\ forall t, is_Some (uthreads u' !! t) -> on' = Some t) ->
  ucalls_inv alone u' calls on'.
Proof using.
  intros [H1 (l & Hl & H2) H3] Ha Hs. split; [done| |].
  - exists l. split; [|done]. destruct Ha as [k ->]. by apply sublist_inserts_r.
  - intros Hal. destruct (Hs Hal) as [-> Ht]. destruct (H3 Hal) as [? _]. done.
Qed.

Lemma ucalls_answered alone (u u' : udp Addr) calls c res t :
  ucalls_inv alone u calls (Some t) -> uthreads u' !! t = None ->
  (forall t', t' <> t -> uthreads u' !! t' = uthreads u !! t') -> call_post t c u u' (Some res) ->
  ucalls_inv alone u' (calls ++ [(c, res)]) (Some t).
Proof using.
  intros [H1 (l & Hl & H2) H3] Ht Hth [_ Hres].
  assert (udp_taken (calls ++ [(c, res)]) = udp_taken calls ++ if operator_bool res then [c] else []) as Htk.
  { rewrite udp_taken_app. f_equal. unfold udp_taken. cbn. by destruct (operator_bool res). }
  assert (exists k, uaccepted u' = uaccepted u ++ k /\ Forall2 sends_for k (if operator_bool res then [c] else []))
    as (k & Hk & Hks).
  { destruct (operator_bool res).
    - destruct Hres as (_ & x & Hx & ->). exists [x]. by repeat constructor.
    - destruct Hres as (_ & ->). exists []. by rewrite app_nil_r. }
  split.
  - apply Forall_app. split; [done|]. constructor; [|done]. cbn.
    destruct (operator_bool res); [left|right]; apply Hres.
  - exists (l ++ k). rewrite Htk, Hk. split; [by apply sublist_app|by apply Forall2_app].
  - intros Hal. destruct (H3 Hal) as [Heq Hon]. rewrite Htk, Hk. split; [by apply Forall2_app|].
    intros t' Ht'. destruct (decide (t' = t)) as [->|Hne]; [done|]. rewrite Hth in Ht' by done. by apply Hon.
Qed.

Lemma ustepping_init_inv alone : ustepping_inv alone (ustepping_init n a0).
Proof using.
  split; cbn [ustepping_init us_ep us_calls us_running us_app]; [constructor| |constructor].
  split; [done|by exists []|]. intros _. split; [constructor|]. intros t [snd Hs]. by apply (lookup_empty_Some (M := gmap nat) t snd) in Hs.
Qed.

Definition ualone_event (e : ustepping_event) : Prop :=
  match e with UXEndpoint e => UdpSession.no_other_sender e | _ => True end.

Lemma upossible_no_read e s :
  upossible e s = true -> (forall ec ab d x, e <> UReceive ec ab d x) \/
  (us_running s = None /\ exists ec ab d x, e = UReceive ec ab d x /\ negb ec && (0 <? length d) = false).
Proof using.
  unfold upossible. destruct (us_running s), e as [| | | | |[] ab [|] x| | | | | | | | | |];
    try (by left); try done; intros _; right; (split; [done|]); by do 4 eexists.
Qed.

(** A receive that runs no callback leaves everything but its own loop alone. *)
Lemma silent_receive ec ab d x (u u' : udp Addr) :
  negb ec && (0 <? length d) = false -> uexec (UReceive ec ab d x) u = Some (Ret u') ->
  received u' = received u /\ uthreads u' = uthreads u /\ uaccepted u' = uaccepted u.
Proof using.
  intros Hd. cbn [uexec]. destruct (receiving u =? 0); [done|]. intros [= <-]. unfold receive_handler. rewrite Hd.
  destruct (ec && negb ab); [|done].
  match goal with |- context [start_receive ?v] => destruct (start_receive_front v) as (-> & -> & -> & _) end. done.
Qed.

(** The events of a thread that is not inside a call. *)
Lemma idle_uthread_event e (u u' : udp Addr) t :
  uevent_thread e = Some t -> uthreads u !! t = None -> uexec e u = Some (Ret u') -> ~ UdpSession.no_other_sender e.
Proof using.
  destruct e; cbn [uevent_thread]; try done; intros [= ->] Ht; cbn [uexec]; rewrite ?Ht; try done;
    intros _ Hno; exact Hno.
Qed.

Lemma endpoint_step_inv alone e s u' :
  (alone = true -> ualone_event (UXEndpoint e)) -> ustepping_inv alone s -> upossible e s = true ->
  uexec e (us_ep s) = Some (Ret u') ->
  ustepping_inv alone (UStepping u' (us_app s) (us_running s) (us_calls s)).
Proof using.
  clear Hcb Hn. intros He [Hr Hcalls Hrun] Hp Hex.
  assert (ureachable addr0 n u') as Hr' by by eapply ureach_step.
  destruct (upossible_no_read e s Hp) as [Hne|(Hnone & ec & ab & d & x & -> & Hd)].
  - destruct (uexec_later e _ u' Hne Hex) as (Hrc & Hc & Ha & Hth & Hsame).
    split; cbn [us_ep us_calls us_running us_app]; [done| |].
    + eapply ucalls_keep; [exact Hcalls|exact Ha|]. intros Hal.
      destruct (uci_alone _ _ _ _ Hcalls Hal) as [_ Hon].
      destruct (uevent_thread e) as [t|] eqn:Ht.
      2: { split; [by apply Hsame|]. intros t Ht'. rewrite Hth in Ht' by done. by apply Hon. }
      exfalso. destruct (uthreads (us_ep s) !! t) eqn:Hnone.
      * unfold upossible in Hp. specialize (Hon t ltac:(by rewrite Hnone)).
        destruct (us_running s) as [r|]; [|done]. injection Hon as Hon.
        apply andb_prop in Hp as [_ Hp%bool_decide_eq_true]. by rewrite Ht, Hon in Hp.
      * by destruct (idle_uthread_event e _ u' t Ht Hnone Hex (He Hal)).
    + destruct (us_running s) as [r|] eqn:Hrs; [|by rewrite Hrc].
      unfold upossible in Hp. rewrite Hrs in Hp. apply andb_prop in Hp as [_ Hp%bool_decide_eq_true].
      destruct Hrun as (H1 & H2 & tr & tr' & H3 & H4 & H5 & H6 & H7).
      split; [cbn [us_ep]; lia|]. split; [done|]. exists tr, tr'. cbn [us_ep us_calls us_app]. by rewrite Hrc, (Hth _ Hp).
  - destruct (silent_receive ec ab d x _ u' Hd Hex) as (Hrc & Hth & Ha).
    split; cbn [us_ep us_calls us_running us_app]; [done| |].
    + eapply ucalls_keep; [exact Hcalls|by rewrite Ha|]. intros Hal. rewrite Ha, Hth. split; [done|].
      apply (uci_alone _ _ _ _ Hcalls Hal).
    + rewrite Hnone in *. by rewrite Hrc.
Qed.

Lemma uread_step_inv alone t data sender s o :
  ustepping_inv alone s -> ustepping_exec (UXRead t data sender) s = Some o ->
  exists s', o = Ret s' /\ ustepping_inv alone s'.
Proof using Hcb.
  clear Hn. intros [Hr Hcalls Hrun]. cbn [ustepping_exec].
  destruct (us_running s) as [r|] eqn:Hrs; [done|]. destruct (uthreads (us_ep s) !! t) eqn:Ht; [done|].
  destruct (_ && _) eqn:Hd; [|done]. intros [= <-]. apply andb_prop in Hd as [H1%Nat.ltb_lt H2%Nat.ltb_lt].
  eexists. split; [reflexivity|]. split; cbn [us_ep us_calls us_running us_app fmap option_fmap option_map ur_thread]; [done| |].
  - eapply ucalls_keep; [exact Hcalls|done|]. intros Hal. split; [done|]. intros t' Ht'.
    by apply (uci_alone _ _ _ _ Hcalls Hal) in Ht'.
  - split; [done|]. split; [done|]. exists (us_calls s), []. cbn [us_ep us_calls us_app ur_prog ur_data ur_sender ur_thread].
    rewrite app_nil_r, Ht. split_and!; [done|done|constructor|apply Hcb|done].
Qed.

(** A statement of a call. *)
Lemma ucall_step_inv alone s t data sender p c k o :
  ustepping_inv alone s -> us_running s = Some (URunning t data sender p) -> next_call p = Some (c, k) ->
  ustatement (URunning t data sender p) s = Some o ->
  exists s', o = Ret s' /\ ustepping_inv alone s'.
Proof using Hn.
  clear Hcb. intros [Hr Hcalls Hrun] Hrs Hc. rewrite Hrs in Hrun, Hcalls.
  destruct Hrun as (H1 & H2 & tr & tr' & H3 & H4 & H5 & H6 & H7).
  cbn [ur_thread ur_data ur_sender ur_prog] in *.
  assert (ustatement (URunning t data sender p) s =
    (o ← call_statement t c (us_ep s);
     Some ('(u, res) ← o;
           Ret (match res with
                | None => UStepping u (us_app s) (Some (URunning t data sender p)) (us_calls s)
                | Some res => UStepping u (us_app s) (Some (URunning t data sender (k res))) (us_calls s ++ [(c, res)])
                end)))) as ->.
  { destruct p; try done; injection Hc as <- <-; reflexivity. }
  destruct (call_statement_spec t c (us_ep s) (ureachable_inv addr0 n _ Hn Hr)) as (u' & res & -> & Hex & Hpost).
  { intros snd Hs. destruct (H7 snd Hs) as (c' & k' & Hc' & Hl). congruence. }
  cbn [mbind option_bind outcome_bind]. intros [= <-]. eexists. split; [reflexivity|].
  assert (ureachable addr0 n u') as Hr' by by eapply ureach_step.
  destruct (uexec_later _ _ u' (next_event_no_receive t c (us_ep s)) Hex)
    as (Hrc & Hc' & Ha & Hth & _). rewrite next_event_thread in Hth.
  destruct res as [res|].
  - pose proof Hpost as [Ht _].
    split; cbn [us_ep us_calls us_running us_app fmap option_fmap option_map ur_thread]; [done| |].
    + eapply ucalls_answered; [exact Hcalls|done| |exact Hpost]. intros t' Hne. apply Hth. congruence.
    + split; [cbn [us_ep]; lia|]. split; [done|]. exists tr, (tr' ++ [(c, res)]).
      cbn [us_ep us_calls us_app ur_prog ur_data ur_sender ur_thread]. rewrite Hrc, H3, <- app_assoc, Ht.
      split_and!; [done|done|by eapply udp_comes_call| |done].
      destruct p; try done; injection Hc as <- <-; apply H6.
  - destruct Hpost as [(snd & Ht & Hl) Ha'].
    split; cbn [us_ep us_calls us_running us_app fmap option_fmap option_map ur_thread]; [done| |].
    + eapply ucalls_keep; [exact Hcalls|done|]. intros Hal. split; [done|]. intros t' Ht'.
      destruct (decide (t' = t)) as [->|Hne]; [done|]. rewrite Hth in Ht' by congruence.
      by apply (uci_alone _ _ _ _ Hcalls Hal) in Ht'.
    + split; [cbn [us_ep]; lia|]. split; [done|]. exists tr, tr'.
      cbn [us_ep us_calls us_app ur_prog ur_data ur_sender ur_thread]. rewrite Hrc, Ht.
      split_and!; [done|done|done|done|]. intros snd' [= <-]. eauto.
Qed.

Lemma ustatement_inv alone s r o :
  ustepping_inv alone s -> us_running s = Some r -> ustatement r s = Some o ->
  exists s', o = Ret s' /\ ustepping_inv alone s'.
Proof using Hn.
  clear Hcb. intros Hs Hrs. destruct r as [t data sender p]. destruct (next_call p) as [[c k]|] eqn:Hc.
  { by eapply ucall_step_inv. }
  destruct Hs as [Hr Hcalls Hrun]. rewrite Hrs in Hrun, Hcalls.
  destruct Hrun as (H1 & H2 & tr & tr' & H3 & H4 & H5 & H6 & H7).
  cbn [ur_thread ur_data ur_sender ur_prog] in *.
  assert (uthreads (us_ep s) !! t = None) as Ht.
  { destruct (uthreads (us_ep s) !! t) as [snd|]; [|done]. destruct (H7 snd eq_refl) as (c & k & Hc' & _). congruence. }
  destruct p as [a|d k|d tgt k|k|f]; cbn [ustatement]; try done.
  - destruct (finish_receive (us_ep s) data sender H1 H2) as (u' & Hex & Hrc & Hth & Ha). rewrite Hex.
    cbn [mbind outcome_bind]. intros [= <-]. eexists. split; [reflexivity|].
    split; cbn [us_ep us_calls us_running us_app]; [by eapply ureach_step| |].
    + eapply ucalls_keep; [exact Hcalls|by rewrite Ha|]. intros Hal. rewrite Ha, Hth. split; [done|].
      intros t' Ht'. pose proof (proj2 (uci_alone _ _ _ _ Hcalls Hal) t' Ht') as [= ->]. by rewrite Ht in Ht'; destruct Ht'.
    + rewrite Hrc, H3. by econstructor.
  - intros [= <-]. eexists. split; [reflexivity|].
    split; cbn [us_ep us_calls us_running us_app fmap option_fmap option_map ur_thread].
    + by apply (ureach_step _ _ (us_ep s) UClose).
    + eapply ucalls_keep; [exact Hcalls|done|]. intros Hal. split; [done|]. apply (uci_alone _ _ _ _ Hcalls Hal).
    + split; [done|]. split; [done|]. exists tr, tr'. cbn [us_ep us_calls us_app ur_prog ur_data ur_sender ur_thread].
      change (uthreads (close (us_ep s))) with (uthreads (us_ep s)). rewrite Ht.
      split_and!; [done|done|by constructor|done|done].
Qed.

Lemma ustepping_exec_inv alone e s o :
  (alone = true -> ualone_event e) -> ustepping_inv alone s -> ustepping_exec e s = Some o ->
  exists s', o = Ret s' /\ ustepping_inv alone s'.
Proof using Hn Hcb.
  intros He Hs. destruct e as [e|t data sender|]; cbn [ustepping_exec].
  - destruct (upossible e s) eqn:Hp; [|done]. destruct (uexec e (us_ep s)) as [o'|] eqn:Hex; [|done].
    intros [= <-]. destruct (uexec_inv addr0 n e _ o' Hn (ureachable_inv addr0 n _ Hn (usi_ep _ _ Hs)) Hex) as (u' & -> & _).
    eexists. split; [reflexivity|]. by eapply endpoint_step_inv.
  - by apply uread_step_inv.
  - destruct (us_running s) as [r|] eqn:Hr; [|done]. by apply ustatement_inv.
Qed.

Lemma ustepping_run_inv alone es s s' :
  (alone = true -> Forall ualone_event es) -> ustepping_inv alone s -> ustepping_run es s = Some s' ->
  ustepping_inv alone s'.
Proof using Hn Hcb.
  revert s. induction es as [|e es IH]; intros s Hes Hs; cbn [ustepping_run]; [by intros [= <-]|].
  destruct (ustepping_exec e s) as [[s1| | | |]|] eqn:Hex; try done. apply IH.
  - intros Hal. by destruct (Forall_cons_1 _ _ _ (Hes Hal)).
  - destruct (ustepping_exec_inv alone e s _ ltac:(intros Hal; by destruct (Forall_cons_1 _ _ _ (Hes Hal))) Hs Hex)
      as (s2 & [= <-] & ?). done.
Qed.

Lemma ustepping_run_app es es' s s' :
  ustepping_run es s = Some s' -> ustepping_run (es ++ es') s = ustepping_run es' s'.
Proof using.
  revert s. induction es as [|e es IH]; intros s; cbn [ustepping_run Datatypes.app]; [by intros [= <-]|].
  destruct (ustepping_exec e s) as [[s1| | | |]|]; try done. apply IH.
Qed.

(** ** A callback that waits for an idle item *)

Definition ustarved (s : ustepping) : Prop :=
  exists r c k snd, us_running s = Some r /\ next_call (ur_prog r) = Some (c, k) /\
    uthreads (us_ep s) !! ur_thread r = Some (UPopping (sender_load snd).1 (sender_load snd).2) /\
    ubuffer_pool_ (us_ep s) = [].

(** Nothing outside the strand gives items back. *)
Lemma outside_pool e (u u' : udp Addr) :
  outside_strand e = true -> uexec e u = Some (Ret u') -> ubuffer_pool_ u = [] -> ubuffer_pool_ u' = [].
Proof using.
  clear Hcb Hn. intros Ho Hex Hp.
  destruct e as [o|o|o| | |ec ab data sender|t data|t data tgt|t|t|t|t| | |ec ok|]; cbn [outside_strand uexec] in *; try done.
  - injection Hex as <-. destruct (bind_same o u) as (_ & -> & _). done.
  - injection Hex as <-. destruct (connect_same o u) as (_ & -> & _). done.
  - injection Hex as <-. destruct (join_multicast_same o u) as (_ & -> & _). done.
  - by injection Hex as <-.
  - injection Hex as <-. destruct (start_receive_same u) as (_ & -> & _). done.
  - unfold enter in Hex. destruct (uthreads u !! t); [done|]. by destruct (send_entry data u); injection Hex as <-.
  - unfold enter in Hex. destruct (uthreads u !! t); [done|]. by destruct (send_to_entry data tgt u); injection Hex as <-.
  - destruct (uthreads u !! t) as [[]|]; try done. rewrite Hp in Hex. by injection Hex as <-.
  - destruct (uthreads u !! t) as [[]|]; try done. destruct (uheap u !! item) as [[]|]; try done.
    destruct (uheap u !! buf) as [[]|]; try done. by injection Hex as <-.
  - destruct (uthreads u !! t) as [[]|]; try done. destruct (uheap u !! item) as [[]|]; try done. by injection Hex as <-.
  - destruct (uthreads u !! t) as [[]|]; try done. by injection Hex as <-.
  - destruct (uwrite_op u) as [[[[b k] tgt] []]|]; try done. destruct (socket_open u); [|done].
    destruct (uheap u !! b) as [[|d]|]; try done. destruct (k <=? length d); [|done]. by injection Hex as <-.
Qed.

Lemma ustarved_step e s s' :
  ustarved s -> ustepping_exec e s = Some (Ret s') ->
  ustarved s' /\ us_running s' = us_running s /\ us_app s' = us_app s /\ us_calls s' = us_calls s.
Proof using.
  clear Hcb Hn. intros (r & c & k & snd & Hr & Hc & Ht & Hp). destruct e as [e|t data sender|]; cbn [ustepping_exec].
  - destruct (upossible e s) eqn:Hpos; [|done]. unfold upossible in Hpos. rewrite Hr in Hpos.
    apply andb_prop in Hpos as [Ho Hne%bool_decide_eq_true].
    destruct (uexec e (us_ep s)) as [[u'| | | |]|] eqn:Hex; try done. intros [= <-]. split; [|done].
    exists r, c, k, snd. cbn [us_running us_ep]. split_and!; [done|done| |by eapply outside_pool].
    destruct (uexec_later e (us_ep s) u') as (_ & _ & _ & Hth & _); [by destruct e|done|]. by rewrite Hth.
  - by rewrite Hr.
  - rewrite Hr. destruct r as [t data sender p]. cbn [ur_prog ur_thread] in *.
    assert (call_statement t c (us_ep s) = Some (Ret (us_ep s, None))) as Hstmt.
    { unfold call_statement, next_event. rewrite Ht. cbn [uexec]. rewrite Ht, Hp. cbn [mbind outcome_bind].
      by rewrite Ht. }
    intros Hex. assert (s' = s) as ->; [|split; [by exists (URunning t data sender p), c, k, snd|done]].
    destruct s as [u a run calls]. cbn [us_running us_ep us_app us_calls] in *. subst run.
    destruct p; try done; injection Hc as <- <-; cbn [ustatement next_call mbind option_bind us_ep] in Hex;
      rewrite Hstmt in Hex; cbn [mbind option_bind outcome_bind us_app us_calls] in Hex; by injection Hex as <-.
Qed.

Lemma ustarved_run es s s' :
  ustarved s -> ustepping_run es s = Some s' ->
  ustarved s' /\ us_running s' = us_running s /\ us_app s' = us_app s /\ us_calls s' = us_calls s.
Proof using.
  revert s. induction es as [|e es IH]; intros s Hs; cbn [ustepping_run]; [by intros [= <-]|].
  destruct (ustepping_exec e s) as [[s1| | | |]|] eqn:Hex; try done.
  destruct (ustarved_step e s s1 Hs Hex) as (Hs1 & <- & <- & <-). by apply IH.
Qed.

(** ** The strand on its own *)

Definition ugoes_on (s s' : ustepping) : Prop :=
  exists es, Forall (fun e => e = UXStatement) es /\ ustepping_run es s = Some s'.

Lemma ugoes_on_refl s : ugoes_on s s.
Proof using. by exists []. Qed.

Lemma ugoes_on_trans s1 s2 s3 : ugoes_on s1 s2 -> ugoes_on s2 s3 -> ugoes_on s1 s3.
Proof using.
  intros (es & He & Hes) (es' & He' & Hes'). exists (es ++ es'). split; [by apply Forall_app|].
  by rewrite (ustepping_run_app es es' s1 s2 Hes).
Qed.

Lemma ugoes_on_step s1 s2 s3 : ustepping_exec UXStatement s1 = Some (Ret s2) -> ugoes_on s2 s3 -> ugoes_on s1 s3.
Proof using.
  intros H1. apply ugoes_on_trans. exists [UXStatement]. split; [by constructor|]. cbn [ustepping_run]. by rewrite H1.
Qed.

(** A call runs in the strand as its statements one after another. *)
Definition call_in_strand (c : udp_call Addr) (u : udp Addr) : outcome (send_result * udp Addr) :=
  match c with
  | SendCall data => udp_send_in_strand data u
  | SendToCall data target => send_to_in_strand data target u
  end.

(** The state in which the callback's program is [p], outside of any call. *)
Definition at_program (t : nat) (data : list byte) (sender : Addr) (p : udp_prog Addr A) (u : udp Addr) (a : A)
    (s : ustepping) : Prop :=
  us_ep s = u /\ us_app s = a /\ us_running s = Some (URunning t data sender p) /\ uthreads u !! t = None.

Lemma call_step_exec t data sender p c k (u u' : udp Addr) a calls res :
  next_call p = Some (c, k) -> call_statement t c u = Some (Ret (u', res)) ->
  ustepping_exec UXStatement (UStepping u a (Some (URunning t data sender p)) calls) = Some (Ret
    match res with
    | None => UStepping u' a (Some (URunning t data sender p)) calls
    | Some res => UStepping u' a (Some (URunning t data sender (k res))) (calls ++ [(c, res)])
    end).
Proof using.
  clear Hcb Hn. intros Hc Hs. cbn [ustepping_exec us_running].
  destruct p; try done; injection Hc as <- <-; cbn [ustatement next_call mbind option_bind us_ep]; rewrite Hs;
    cbn [mbind option_bind outcome_bind us_app us_calls]; by destruct res.
Qed.

(** On an open socket: its five statements, or the wait for an item. *)
Lemma open_call_steps t data sender p c k (u : udp Addr) a calls :
  udp_inv addr0 n u -> uthreads u !! t = None -> next_call p = Some (c, k) ->
  forall d tgt, call_entry c u = inr (UPopping d tgt) ->
  match ubuffer_pool_ u with
  | [] => exists s', ugoes_on (UStepping u a (Some (URunning t data sender p)) calls) s' /\ ustarved s'
  | i :: pool =>
      match uheap u !! i with
      | Some (OItem b _) =>
          match uheap u !! b with
          | Some (OVec _) => exists s', ugoes_on (UStepping u a (Some (URunning t data sender p)) calls) s' /\
              at_program t data sender (k ok)
                (set_front (uthreads u) (uposted u ++ [i]) (uaccepted u ++ [(d, tgt)])
                   (set_store (<[i := OItem b tgt]> (<[b := OVec d]> (uheap u))) pool (usend_queue_ u) u)) a s'
          | _ => False
          end
      | _ => False
      end
  end.
Proof using.
  clear Hcb Hn. intros Hinv Ht Hc d tgt He.
  set (u1 := set_front (<[t := UPopping d tgt]> (uthreads u)) (uposted u) (uaccepted u) u).
  assert (call_statement t c u = Some (Ret (u1, None))) as H1.
  { unfold call_statement. rewrite next_event_enters by done. unfold enter. rewrite Ht, He. cbn [mbind outcome_bind].
    unfold u1. cbn [uthreads set_front]. by rewrite lookup_insert_eq. }
  assert (forall v, uthreads v !! t <> None -> forall v' snd, uexec (next_event t c v) v = Some (Ret v') ->
            uthreads v' !! t = Some snd -> call_statement t c v = Some (Ret (v', None))) as Hgo.
  { intros v Hv v' snd Hex Hv'. unfold call_statement. rewrite Hex. cbn [mbind outcome_bind]. by rewrite Hv'. }
  destruct (ubuffer_pool_ u) as [|i pool] eqn:Hp.
  - eexists. split; [eapply ugoes_on_step; [by eapply call_step_exec|apply ugoes_on_refl]|].
    exists (URunning t data sender p), c, k, (UPopping d tgt). cbn [us_running us_ep ur_prog ur_thread sender_load fst snd].
    unfold u1. cbn [uthreads set_front ubuffer_pool_]. by rewrite lookup_insert_eq.
  - destruct (uinv_live addr0 n u Hinv i) as (d0 & t0 & _ & Hi & Hb).
    { apply elem_of_uplaces. left. rewrite Hp. set_solver. }
    rewrite Hi, Hb. eexists. split.
    + eapply ugoes_on_step; [by eapply call_step_exec|].
      eapply ugoes_on_step; [eapply call_step_exec; [exact Hc|]; eapply Hgo;
        [unfold u1; cbn; by rewrite lookup_insert_eq|
         unfold next_event, u1; cbn; rewrite lookup_insert_eq; cbn; rewrite lookup_insert_eq, Hp; reflexivity|
         cbn; by rewrite lookup_insert_eq]|].
      eapply ugoes_on_step; [eapply call_step_exec; [exact Hc|]; eapply Hgo;
        [cbn; by rewrite lookup_insert_eq|
         unfold next_event, u1; cbn; rewrite lookup_insert_eq; cbn; rewrite lookup_insert_eq, Hi, Hb; reflexivity|
         cbn; by rewrite lookup_insert_eq]|].
      eapply ugoes_on_step; [eapply call_step_exec; [exact Hc|]; eapply Hgo;
        [cbn; by rewrite lookup_insert_eq|
         unfold next_event, u1; cbn; rewrite lookup_insert_eq; cbn;
         rewrite lookup_insert_eq, lookup_insert_ne, Hi by lia; reflexivity|
         cbn; by rewrite lookup_insert_eq]|].
      eapply ugoes_on_step; [eapply (call_step_exec _ _ _ _ _ _ _ _ _ _ (Some ok)); [exact Hc|]|apply ugoes_on_refl].
      unfold call_statement, next_event, u1. cbn. rewrite lookup_insert_eq. cbn. rewrite lookup_insert_eq. cbn.
      rewrite lookup_delete_eq. reflexivity.
    + split; [|done]. cbn [us_ep]. unfold u1. cbn. rewrite !insert_insert_eq, delete_insert_id by done. by destruct u.
Qed.

Lemma udp_call_steps t data sender p c k (u : udp Addr) a s :
  udp_inv addr0 n u -> at_program t data sender p u a s -> next_call p = Some (c, k) ->
  match call_in_strand c u with
  | Ret (res, u') => exists s', ugoes_on s s' /\ at_program t data sender (k res) u' a s'
  | Hang => exists s', ugoes_on s s' /\ ustarved s'
  | _ => False
  end.
Proof using.
  clear Hcb Hn. intros Hinv (Hu & Ha & Hr & Ht) Hc. destruct s as [u0 a1 run calls]. cbn [us_ep us_app us_running] in *. subst u0 a1 run.
  assert (forall res, call_entry c u = inl res -> exists s', ugoes_on (UStepping u a (Some (URunning t data sender p)) calls) s' /\
            at_program t data sender (k res) u a s') as Hrefused.
  { intros res He. eexists. split.
    - eapply ugoes_on_step; [|apply ugoes_on_refl]. eapply call_step_exec; [exact Hc|].
      unfold call_statement. rewrite next_event_enters by done. unfold enter. rewrite Ht, He. cbn [mbind outcome_bind].
      by rewrite Ht.
    - done. }
  pose proof (open_call_steps t data sender p c k u a calls Hinv Ht Hc) as Hcall.
  destruct c as [d|d tgt]; cbn [call_in_strand call_entry] in *.
  - unfold udp_send_in_strand, send_entry in *. destruct (negb (is_connected_ u)); [by apply Hrefused|].
    unfold send_to_in_strand, send_to_entry in *. destruct (socket_open u); [|by apply Hrefused].
    specialize (Hcall d (remote_endpoint_ u) eq_refl). destruct (ubuffer_pool_ u) as [|i pool]; [done|].
    destruct (uheap u !! i) as [[b t0|]|]; try done. by destruct (uheap u !! b) as [[|]|].
  - unfold send_to_in_strand, send_to_entry in *. destruct (socket_open u); [|by apply Hrefused].
    specialize (Hcall d tgt eq_refl). destruct (ubuffer_pool_ u) as [|i pool]; [done|].
    destruct (uheap u !! i) as [[b t0|]|]; try done. by destruct (uheap u !! b) as [[|]|].
Qed.

Lemma call_in_strand_inv c (u u' : udp Addr) res :
  udp_inv addr0 n u -> call_in_strand c u = Ret (res, u') -> udp_inv addr0 n u'.
Proof.
  clear Hcb. intros Hinv Hc. assert (exists es, urun es u = Some u') as [es Hes].
  { destruct c; [by eapply udp_send_in_strand_run|by eapply send_to_in_strand_run]. }
  by eapply urun_inv.
Qed.

Lemma udp_interp_call p c k (u : udp Addr) :
  next_call p = Some (c, k) ->
  udp_interp (R := A) p u = ('(res, u) ← call_in_strand c u; udp_interp (k res) u).
Proof using. by destruct p; try done; intros [= <- <-]. Qed.

(** The callback that UdpSession.v runs in one step. *)
Lemma udp_callback_steps t data sender p (u : udp Addr) a s :
  udp_inv addr0 n u -> at_program t data sender p u a s -> udp_never_fails p ->
  match udp_interp p u with
  | Ret (a', u') => exists s', ugoes_on s s' /\ at_program t data sender (UReturn a') u' a s'
  | Hang => exists s', ugoes_on s s' /\ ustarved s'
  | _ => False
  end.
Proof using Hn.
  clear Hcb.
  assert (forall p c k, next_call p = Some (c, k) -> udp_never_fails p -> forall u s,
    (forall res u s, udp_inv addr0 n u -> at_program t data sender (k res) u a s -> udp_never_fails (k res) ->
       match udp_interp (k res) u with
       | Ret (a', u') => exists s', ugoes_on s s' /\ at_program t data sender (UReturn a') u' a s'
       | Hang => exists s', ugoes_on s s' /\ ustarved s'
       | _ => False
       end) ->
    udp_inv addr0 n u -> at_program t data sender p u a s ->
    match udp_interp p u with
    | Ret (a', u') => exists s', ugoes_on s s' /\ at_program t data sender (UReturn a') u' a s'
    | Hang => exists s', ugoes_on s s' /\ ustarved s'
    | _ => False
    end) as Hcall.
  { intros p0 c k Hc Hnf u0 s0 IH Hinv Hat. rewrite (udp_interp_call p0 c k u0 Hc).
    pose proof (udp_call_steps t data sender p0 c k u0 a s0 Hinv Hat Hc) as Hsteps.
    destruct (call_in_strand c u0) as [[res u1]| | | |] eqn:Hcs; cbn [mbind outcome_bind]; try done.
    destruct Hsteps as (s1 & H1 & Hat1).
    specialize (IH res u1 s1 (call_in_strand_inv c u0 u1 res Hinv Hcs) Hat1).
    assert (udp_never_fails (k res)) as Hk by (by destruct p0; try done; injection Hc as <- <-; apply Hnf).
    specialize (IH Hk). destruct (udp_interp (k res) u1) as [[a' u']| | | |]; try done;
      destruct IH as (s' & H2 & Hend); exists s'; (split; [by eapply ugoes_on_trans|done]). }
  revert u s. induction p as [r|d k IH|d tgt k IH|k IH|f]; intros u s Hinv Hat Hnf; cbn [udp_interp].
  - exists s. split; [apply ugoes_on_refl|done].
  - by eapply (Hcall (CallUdpSend d k)).
  - by eapply (Hcall (CallSendTo d tgt k)).
  - destruct Hat as (Hu & Ha & Hr & Ht).
    set (s1 := UStepping (close u) a (Some (URunning t data sender k)) (us_calls s)).
    assert (ustepping_exec UXStatement s = Some (Ret s1)) as H1.
    { cbn [ustepping_exec]. rewrite Hr. cbn [ustatement]. by rewrite Hu, Ha. }
    specialize (IH (close u) s1 (urun_inv addr0 n [UClose] u _ Hn Hinv eq_refl)).
    destruct (udp_interp k (close u)) as [[a' u']| | | |];
      (destruct IH as (s' & H2 & Hend); [done|exact Hnf|exists s'; split; [by eapply ugoes_on_step|done]]) || by apply IH.
  - done.
Qed.

(** ** Every callback ends, unless it waits *)

Definition ustatements_left (o : option (usender (Addr := Addr))) : nat :=
  match o with
  | None => 5
  | Some (UPopping _ _) => 4
  | Some (UCopying _ _ _) => 3
  | Some (UAddressing _ _ _) => 2
  | Some (UPosting _ _ _) => 1
  end.

Lemma call_statement_left t c (u u' : udp Addr) :
  call_statement t c u = Some (Ret (u', None)) ->
  (exists d tgt, uthreads u !! t = Some (UPopping d tgt) /\ ubuffer_pool_ u = []) \/
  ustatements_left (uthreads u' !! t) < ustatements_left (uthreads u !! t).
Proof using.
  clear Hcb Hn. unfold call_statement.
  destruct (uexec (next_event t c u) u) as [[u1| | | |]|] eqn:Hex; try done. cbn [mbind outcome_bind].
  intros Hs. assert (u1 = u') as -> by by injection Hs. revert Hs. unfold next_event in Hex.
  destruct (uthreads u !! t) as [[d tgt|d tgt i|d tgt i|d tgt i]|] eqn:Ht.
  - cbn [uexec] in Hex. rewrite Ht in Hex. destruct (ubuffer_pool_ u) as [|i pool]; injection Hex as <-; [eauto|].
    intros _. right. cbn. rewrite lookup_insert_eq. cbn. lia.
  - cbn [uexec] in Hex. rewrite Ht in Hex. destruct (uheap u !! i) as [[b t0|]|]; try done.
    destruct (uheap u !! b) as [[|]|]; try done. injection Hex as <-. intros _. right. cbn. rewrite lookup_insert_eq. cbn. lia.
  - cbn [uexec] in Hex. rewrite Ht in Hex. destruct (uheap u !! i) as [[b t0|]|]; try done.
    injection Hex as <-. intros _. right. cbn. rewrite lookup_insert_eq. cbn. lia.
  - cbn [uexec] in Hex. rewrite Ht in Hex. injection Hex as <-. cbn. by rewrite lookup_delete_eq.
  - intros Hs. right. destruct (uthreads u' !! t) as [[]|] eqn:Ht'; cbn; try lia. exfalso.
    destruct (call_entry c u) as [res|snd] eqn:He; [done|].
    assert (enter t (call_entry c u) u = Some (Ret u')) as Hen.
    { rewrite <- (next_event_enters t c u Ht). unfold next_event. by rewrite Ht. }
    rewrite He in Hen. unfold enter in Hen. rewrite Ht in Hen. injection Hen as <-. cbn in Ht'.
    by rewrite lookup_insert_eq in Ht'.
Qed.

Lemma ucall_comes_back alone s t data sender p c k :
  ustepping_inv alone s -> us_running s = Some (URunning t data sender p) -> next_call p = Some (c, k) ->
  exists s', ugoes_on s s' /\ (ustarved s' \/ exists res, us_running s' = Some (URunning t data sender (k res))).
Proof using Hn Hcb.
  remember (ustatements_left (uthreads (us_ep s) !! t)) as fuel eqn:Hfuel.
  revert s Hfuel. induction (lt_wf fuel) as [fuel _ IH]. intros s -> Hs Hr Hc.
  pose proof (usi_running _ _ Hs) as Hrun. rewrite Hr in Hrun.
  destruct Hrun as (_ & _ & tr & tr' & _ & _ & _ & _ & H7). cbn [ur_thread ur_prog] in H7.
  destruct (call_statement_spec t c (us_ep s) (ureachable_inv addr0 n _ Hn (usi_ep _ _ Hs))) as (u' & res & Hstmt & _ & _).
  { intros snd Hsnd. destruct (H7 snd Hsnd) as (c' & k' & Hc' & Hl). congruence. }
  assert (ustepping_exec UXStatement s = Some (Ret
    match res with
    | None => UStepping u' (us_app s) (Some (URunning t data sender p)) (us_calls s)
    | Some res => UStepping u' (us_app s) (Some (URunning t data sender (k res))) (us_calls s ++ [(c, res)])
    end)) as Hex.
  { destruct s as [u a run calls]. cbn [us_running us_ep us_app us_calls] in *. subst run. by apply call_step_exec. }
  destruct res as [res|].
  - eexists. split; [eapply ugoes_on_step; [exact Hex|apply ugoes_on_refl]|]. right. by exists res.
  - destruct (call_statement_left t c _ u' Hstmt) as [(d & tgt & Ht & Hp)|Hlt].
    + exists s. split; [apply ugoes_on_refl|]. left. by exists (URunning t data sender p), c, k, (UPopping d tgt).
    + destruct (ustepping_exec_inv alone UXStatement _ _ (fun _ => I) Hs Hex) as (s1 & [= <-] & Hs1).
      destruct (IH _ Hlt (UStepping u' (us_app s) (Some (URunning t data sender p)) (us_calls s)) eq_refl Hs1 eq_refl Hc) as (s' & Hgo & Hend).
      exists s'. split; [|done]. by eapply ugoes_on_step.
Qed.

Lemma ugoes_on_inv alone s s' : ustepping_inv alone s -> ugoes_on s s' -> ustepping_inv alone s'.
Proof using Hn Hcb.
  intros Hs (es & He & Hes). eapply ustepping_run_inv; [|exact Hs|exact Hes]. intros _.
  eapply Forall_impl; [exact He|]. by intros e ->.
Qed.

Lemma ucallback_comes_back alone s t data sender p :
  ustepping_inv alone s -> us_running s = Some (URunning t data sender p) ->
  exists s', ugoes_on s s' /\ (ustarved s' \/ us_running s' = None).
Proof using Hn Hcb.
  assert (forall p c k, next_call p = Some (c, k) ->
    (forall res s, ustepping_inv alone s -> us_running s = Some (URunning t data sender (k res)) ->
       exists s', ugoes_on s s' /\ (ustarved s' \/ us_running s' = None)) ->
    forall s, ustepping_inv alone s -> us_running s = Some (URunning t data sender p) ->
    exists s', ugoes_on s s' /\ (ustarved s' \/ us_running s' = None)) as Hcall.
  { intros p0 c k Hc IH s0 Hs Hr.
    destruct (ucall_comes_back alone s0 t data sender p0 c k Hs Hr Hc) as (s1 & H1 & [Hst|[res Hr1]]); [by exists s1; auto|].
    destruct (IH res s1) as (s2 & H2 & Hend); [by eapply ugoes_on_inv|done|].
    exists s2. split; [by eapply ugoes_on_trans|done]. }
  revert s. induction p as [r|d k IH|d tgt k IH|k IH|f]; intros s Hs Hr;
    [| by eapply (Hcall (CallUdpSend d k)) | by eapply (Hcall (CallSendTo d tgt k))|..];
    pose proof (usi_running _ _ Hs) as Hrun; rewrite Hr in Hrun;
    destruct Hrun as (H1 & H2 & tr & tr' & _ & _ & _ & Hnf & _); cbn [ur_data ur_prog] in *; [| |done].
  - destruct (finish_receive (us_ep s) data sender H1 H2) as (u' & Hex & _).
    exists (UStepping u' r None (us_calls s)). split; [eapply ugoes_on_step; [|apply ugoes_on_refl]|by right].
    cbn [ustepping_exec]. rewrite Hr. cbn [ustatement]. rewrite Hex. reflexivity.
  - set (s1 := UStepping (close (us_ep s)) (us_app s) (Some (URunning t data sender k)) (us_calls s)).
    assert (ustepping_exec UXStatement s = Some (Ret s1)) as Hex by (cbn [ustepping_exec]; by rewrite Hr).
    destruct (ustepping_exec_inv alone UXStatement _ _ (fun _ => I) Hs Hex) as (s2 & [= <-] & Hs1).
    destruct (IH s1 Hs1 eq_refl) as (s' & Hgo & Hend). exists s'. split; [|done]. by eapply ugoes_on_step.
Qed.

(** ** The callback in one step *)

Definition of_session (s : usession (Addr := Addr) (A := A)) (calls : list (answered Addr)) : ustepping :=
  UStepping (uep s) (uown s) None calls.

(** What an outcome of the one-step machine is here. *)
Definition umatched (s : ustepping) (o : outcome (usession (Addr := Addr) (A := A))) : Prop :=
  match o with
  | Ret s' => exists es calls, ustepping_run es s = Some (of_session s' calls)
  | Hang => exists es s', ustepping_run es s = Some s' /\ ustarved s'
  | _ => False
  end.

Lemma one_receive data sender ab s calls :
  udp_inv addr0 n (uep s) -> receiving (uep s) <> 0 -> 0 < length data ->
  umatched (of_session s calls) (session_receive receive_callback_ false ab data sender s).
Proof using Hn Hcb.
  intros Hinv Hr Hd. unfold session_receive. destruct (Nat.ltb_spec 0 (length data)); [|lia]. cbn [negb andb].
  rewrite !udp_interp_frame. set (t := fresh (dom (uthreads (uep s)))).
  assert (uthreads (uep s) !! t = None) as Ht by apply not_elem_of_dom, is_fresh.
  set (p := receive_callback_ (uown s) data sender).
  set (s0 := UStepping (uep s) (uown s) (Some (URunning t data sender p)) calls).
  assert (ustepping_exec (UXRead t data sender) (of_session s calls) = Some (Ret s0)) as Hread.
  { cbn [ustepping_exec of_session us_running us_ep]. rewrite Ht.
    destruct (Nat.ltb_spec 0 (receiving (uep s))), (Nat.ltb_spec 0 (length data)); try lia. done. }
  pose proof (udp_callback_steps t data sender p (uep s) (uown s) s0 Hinv) as Hsteps. cbn [mbind outcome_bind] in *.
  destruct (udp_interp p (uep s)) as [[a u1]| | | |] eqn:Hi; cbn [mbind outcome_bind umatched];
    (destruct Hsteps as (s1 & (es & _ & Hes) & Hend); [done|apply Hcb|]) || (exfalso; apply Hsteps; [done|apply Hcb]).
  - destruct Hend as (Hu & Ha & Hrun & _). destruct (udp_interp_receive p (uep s) a u1 Hi) as (Hc & Hrc & Hrd).
    exists ([UXRead t data sender] ++ es ++ [UXStatement]), (us_calls s1).
    rewrite (ustepping_run_app [UXRead t data sender] _ _ s0) by (cbn [ustepping_run]; by rewrite Hread).
    rewrite (ustepping_run_app es _ s0 s1 Hes). cbn [ustepping_run ustepping_exec]. rewrite Hrun.
    cbn [ustatement uexec]. rewrite Hu, Hrc. destruct (Nat.eqb_spec (receiving (uep s)) 0); [done|].
    unfold receive_handler. destruct (Nat.ltb_spec 0 (length data)); [|lia].
    cbn [mbind outcome_bind negb andb of_session uep uown]. do 3 f_equal. by rewrite Hc, Hrc, Hrd.
  - exists ([UXRead t data sender] ++ es), s1. split; [|done].
    by rewrite (ustepping_run_app [UXRead t data sender] _ _ s0) by (cbn [ustepping_run]; by rewrite Hread).
Qed.

Lemma one_step e s calls o :
  udp_inv addr0 n (uep s) -> usess_exec receive_callback_ e s = Some o -> umatched (of_session s calls) o.
Proof using Hn Hcb.
  intros Hinv Hex.
  assert (runs_callback e = false -> usess_exec receive_callback_ e s =
            match uexec e (uep s) with Some o => Some (u ← o; Ret (USession u (uown s))) | None => None end) as Hplain.
  { destruct e as [| | | | |[] ab [|] x| | | | | | | | | |]; try done; intros _; cbn [usess_exec uexec];
      destruct (receiving (uep s) =? 0); try done; unfold session_receive, receive_handler; cbn [negb andb length Nat.ltb Nat.leb];
      by destruct ab. }
  destruct (runs_callback e) eqn:Hrc.
  - destruct e as [| | | | |[] ab [|b data] x| | | | | | | | | |]; try done. cbn [usess_exec] in Hex.
    destruct (Nat.eqb_spec (receiving (uep s)) 0); [done|]. injection Hex as <-. apply one_receive; [done|done|cbn; lia].
  - rewrite Hplain in Hex by done. destruct (uexec e (uep s)) as [o'|] eqn:Hu; [|done]. injection Hex as <-.
    destruct (uexec_inv addr0 n e _ o' Hn Hinv Hu) as (u' & -> & _). cbn [mbind outcome_bind umatched].
    exists [UXEndpoint e], calls. cbn [ustepping_run ustepping_exec]. unfold upossible. cbn [of_session us_running us_ep].
    by rewrite Hrc, Hu.
Qed.

Lemma one_step_run es s s' calls :
  udp_inv addr0 n (uep s) -> usess_run receive_callback_ es s = Some s' ->
  exists es' calls', ustepping_run es' (of_session s calls) = Some (of_session s' calls') /\ udp_inv addr0 n (uep s').
Proof using Hn Hcb.
  revert s calls. induction es as [|e es IH]; intros s calls Hinv; cbn [usess_run]; [intros [= <-]; by exists [], calls|].
  destruct (usess_exec receive_callback_ e s) as [[s1| | | |]|] eqn:Hex; try done. intros Hrun.
  destruct (one_step e s calls _ Hinv Hex) as (es1 & calls1 & H1).
  destruct (usess_exec_run addr0 receive_callback_ n e s s1 Hn Hinv Hex) as [es0 Hes0].
  destruct (IH s1 calls1 (urun_inv addr0 n es0 _ _ Hn Hinv Hes0) Hrun) as (es2 & calls2 & H2 & Hinv2).
  exists (es1 ++ es2), calls2. split; [|done]. by rewrite (ustepping_run_app es1 es2 _ _ H1).
Qed.

End Steps.

(** ** Properties *)

Section Properties.

Context `{!CircularBuffer} {Addr A : Type} (addr0 : Addr) (cb : udp_callback Addr A) (n : nat) (a0 : A).

Abbreviation run_usteps := (ustepping_run cb).

(** C35: callbacks over UDP.  At any time of any run, whatever other threads do between
    the statements of the callbacks: the endpoint is in one of its states, so that what is
    proved of it holds; the callbacks have run on the datagrams received, one after
    another, and the one that is running has come where it is by the answers its calls
    have had; what the calls answered with success have sent has been accepted in that
    order, to the addresses they named, among the datagrams of other threads, and is all
    that has been accepted when no other thread sends; other calls have been refused as
    not connected or for the closed socket; and only what was accepted has left. *)
Theorem udp_callbacks_served es s :
  n <= pool_capacity -> (forall a d x, udp_never_fails (cb a d x)) ->
  run_usteps es (ustepping_init addr0 n a0) = Some s ->
  ureachable addr0 n (us_ep s) /\
  (exists tr tr', us_calls s = tr ++ tr' /\ udp_served cb a0 (received (us_ep s)) tr (us_app s) /\
     match us_running s with
     | None => tr' = []
     | Some r => udp_comes_to (cb (us_app s) (ur_data r) (ur_sender r)) tr' (ur_prog r)
     end) /\
  (exists l, l `sublist_of` uaccepted (us_ep s) /\ Forall2 sends_for l (udp_taken (us_calls s))) /\
  (Forall ualone_event es -> Forall2 sends_for (uaccepted (us_ep s)) (udp_taken (us_calls s))) /\
  Forall (fun c => c.2 = ok \/ refused c.2) (us_calls s) /\
  uwire (us_ep s) `sublist_of` uaccepted (us_ep s).
Proof.
  intros Hn%udp_pool_fits Hcb Hrun.
  pose proof (ustepping_run_inv addr0 cb n Hn a0 Hcb false es _ s ltac:(done) (ustepping_init_inv addr0 cb n a0 false) Hrun)
    as [Hr [Hans Htk _] Hserved].
  split; [exact Hr|]. split; [|split; [exact Htk|split; [|split; [exact Hans|]]]].
  - destruct (us_running s) as [r|].
    + destruct Hserved as (_ & _ & tr & tr' & Hc & Hs & Hcome & _). by exists tr, tr'.
    + exists (us_calls s), []. by rewrite app_nil_r.
  - intros Hal.
    destruct (ustepping_run_inv addr0 cb n Hn a0 Hcb true es _ s ltac:(done) (ustepping_init_inv addr0 cb n a0 true) Hrun)
      as [_ [_ _ Hall] _]. by apply Hall.
  - apply (uinv_wire_accepted addr0 n), (ureachable_inv addr0 n _ Hn Hr).
Qed.

(** No step goes wrong, and a callback that is running goes on by itself until it has
    returned and its receive is done, or it waits for an idle item; it then waits for
    ever, whatever other threads and the network do. *)
Theorem udp_callback_ends_or_starves es s :
  n <= pool_capacity -> (forall a d x, udp_never_fails (cb a d x)) ->
  run_usteps es (ustepping_init addr0 n a0) = Some s ->
  (forall e o, ustepping_exec cb e s = Some o -> exists s', o = Ret s') /\
  (is_Some (us_running s) -> exists s', ugoes_on cb s s' /\
     (us_running s' = None \/
      (ustarved s' /\ forall es' s'', run_usteps es' s' = Some s'' ->
         ustarved s'' /\ us_running s'' = us_running s' /\ us_calls s'' = us_calls s'))).
Proof.
  intros Hn%udp_pool_fits Hcb Hrun.
  pose proof (ustepping_run_inv addr0 cb n Hn a0 Hcb false es _ s ltac:(done) (ustepping_init_inv addr0 cb n a0 false) Hrun)
    as Hs.
  split.
  - intros e o Hex. destruct (ustepping_exec_inv addr0 cb n Hn a0 Hcb false e s o ltac:(done) Hs Hex) as (s' & -> & _).
    by exists s'.
  - intros [[t data sender p] Hr].
    destruct (ucallback_comes_back addr0 cb n Hn a0 Hcb false s t data sender p Hs Hr) as (s' & Hgo & Hend).
    exists s'. split; [exact Hgo|]. destruct Hend as [Hst|Hnone]; [right|by left]. split; [done|].
    intros es' s'' Hrun'. by destruct (ustarved_run cb es' s' s'' Hst Hrun') as (H1 & H2 & _ & H3).
Qed.

(** What UdpSession.v shows with the callback in one step can happen here too: its runs are
    runs of this machine, and where it hangs, a callback comes to wait for ever. *)
Theorem udp_one_step_contained es s :
  n <= pool_capacity -> (forall a d x, udp_never_fails (cb a d x)) ->
  usess_run cb es (usess_init addr0 n a0) = Some s ->
  exists es' calls, run_usteps es' (ustepping_init addr0 n a0) = Some (of_session s calls) /\
    forall e o, usess_exec cb e s = Some o -> umatched cb (of_session s calls) o.
Proof.
  intros Hn%udp_pool_fits Hcb Hrun.
  destruct (one_step_run addr0 cb n Hn Hcb es (usess_init addr0 n a0) s [] (udp_init_inv addr0 n) Hrun)
    as (es' & calls & Hes & Hinv).
  exists es', calls. split; [exact Hes|]. intros e o Hex. by eapply one_step.
Qed.

End Properties.

(** ** Witnesses

    An echo server with two items, while another thread sends: one item each, and the
    next callback has to wait. *)

#[local] Existing Instance overwriting_buffer.

Abbreviation echo := (udp_responder (Addr := nat) id).
Abbreviation endpoint_steps := (fmap (M := list) (UXEndpoint (Addr := nat))).

Definition echo_reads : list (ustepping_event (Addr := nat)) :=
  endpoint_steps echo_setup ++
  [UXRead 1 [x61] 7; UXStatement; UXEndpoint (USendTo 2 [x62] 9); UXEndpoint (UPop 2); UXEndpoint (UCopy 2);
   UXStatement; UXEndpoint (UAddress 2); UXEndpoint (UPost 2); UXStatement; UXStatement; UXStatement; UXStatement;
   UXRead 1 [x63] 7; UXStatement].

Definition echo_waits : ustepping (Addr := nat) (A := unit) :=
  default (ustepping_init 0 2 tt) (ustepping_run echo echo_reads (ustepping_init 0 2 tt)).

Lemma echo_waits_run : ustepping_run echo echo_reads (ustepping_init 0 2 tt) = Some echo_waits.
Proof. by vm_compute. Qed.

Lemma udp_callbacks_served_witness :
  received (us_ep echo_waits) = [([x61], 7)] /\ us_calls echo_waits = [(SendToCall [x61] 7, ok)] /\
  exists l, l `sublist_of` uaccepted (us_ep echo_waits) /\ Forall2 sends_for l [SendToCall [x61] 7].
Proof.
  destruct (udp_callbacks_served 0 echo 2 tt echo_reads echo_waits small_pool (responder_returns id) echo_waits_run)
    as (_ & _ & Htk & _).
  split; [by vm_compute|]. split; [by vm_compute|].
  assert (udp_taken (us_calls echo_waits) = [SendToCall [x61] 7]) as He by by vm_compute. by rewrite He in Htk.
Defined.

Lemma udp_callback_ends_or_starves_witness :
  exists s', ugoes_on echo echo_waits s' /\
    (us_running s' = None \/
     (ustarved s' /\ forall es' s'', ustepping_run echo es' s' = Some s'' ->
        ustarved s'' /\ us_running s'' = us_running s' /\ us_calls s'' = us_calls s')).
Proof.
  destruct (udp_callback_ends_or_starves 0 echo 2 tt echo_reads echo_waits small_pool (responder_returns id) echo_waits_run)
    as [_ Hend].
  apply Hend. vm_compute. by eexists.
Defined.

Lemma udp_one_step_contained_witness :
  exists es' calls, ustepping_run echo es' (ustepping_init 0 1 tt) = Some (of_session echoed_session calls).
Proof.
  destruct (udp_one_step_contained 0 echo 1 tt echo_once echoed_session small_pool_1 (responder_returns id) echo_once_run)
    as (es' & calls & Hes & _).
  by exists es', calls.
Defined.
