(* ===== verification/EndToEnd.v ===== *)
(** * From [send] to the receive callback

    The send path of one endpoint and the receive path of its peer, with a
    connection between them that carries a prefix of the bytes put on the wire and
    cuts it anywhere; and what the receiver's application makes of the messages. *)

From S2P Require Import Prelude Framing SendPipeline Callbacks TcpSession.
From Stdlib Require Import ZArith Lia.

Open Scope Z_scope.

(** ** Framing of what has arrived so far *)

Section Prefix.

Context (hdr mx : Z) (f : list byte -> Z) (Hhdr : 0 < hdr).

(** The front of a well-framed message, short of the whole. *)
Lemma frames_front s k :
  well_framed hdr mx f (s ++ k) -> k <> [] -> frames hdr mx f s [] (Partial s).
Proof using.
  intros (H1 & H2 & H3) Hk. rewrite size_of_app in *.
  assert (0 < size_of k) by (destruct k; [done|unfold size_of; simpl; lia]).
  destruct (Z_lt_le_dec (size_of s) hdr) as [Hs|Hs]; [by apply frames_short|].
  rewrite announced_app in H2 by done. apply frames_wait; lia.
Qed.

(** The front of a sequence of messages: the messages that are whole, and a rest
    that is no violation. *)
Lemma frames_prefix ms s :
  Forall (well_framed hdr mx f) ms -> s `prefix_of` concat ms ->
  exists k rest, frames hdr mx f s (take k ms) (Partial rest).
Proof using Hhdr.
  intros Hms. revert s. induction Hms as [|m ms Hm _ IH]; intros s Hs; simpl in Hs.
  - apply prefix_nil_inv in Hs as ->. exists 0%nat, []. by apply frames_short.
  - destruct Hs as [t Ht].
    destruct (decide (length m <= length s)%nat) as [Hle|Hlt].
    + assert (take (length m) s = m /\ concat ms = drop (length m) s ++ t) as [Hm' Hrest].
      { assert (m ++ concat ms = take (length m) s ++ (drop (length m) s ++ t)) as Heq.
        { by rewrite app_assoc, take_drop. }
        apply app_inj_1 in Heq as [<- ->]; [done|]. rewrite length_take. lia. }
      destruct (IH (drop (length m) s)) as (k & rest & Hf); [by exists t|].
      exists (S k), rest. simpl. rewrite <- (take_drop (length m) s), Hm'. by apply frames_msg.
    + exists 0%nat, s. simpl.
      assert (m = s ++ drop (length s) m) as Hsplit.
      { rewrite <- (take_drop (length s) m) at 1. f_equal.
        assert (take (length s) (m ++ concat ms) = take (length s) (s ++ t)) as Heq by by f_equal.
        rewrite take_app_le in Heq by lia. by rewrite take_app_length in Heq. }
      apply (frames_front s (drop (length s) m)); [by rewrite <- Hsplit|].
      intros Hd. rewrite Hd, app_nil_r in Hsplit. subst. lia.
Qed.

End Prefix.

(** What has arrived of a sequence of messages, in whatever pieces, has been
    delivered, and the application's part of the state has followed. *)
Section Arrivals.

Context {St X : Type} `{!StreamEndpoint St}.
Context (cfg : framing_config) (cb : receive_callback St) (f : list byte -> Z).
Context (proj : St -> X) (g : X -> list byte -> X).

Lemma arrived ms cs st :
  get_total_size_ cfg = Some f -> small_limits cfg -> tracks cfg (Some cb) f proj g ->
  Forall (well_framed (header_size_ cfg) (max_message_size_ cfg) f) ms ->
  reads_fit cfg (Some cb) cs (start_receive rx_init) st -> concat cs `prefix_of` concat ms ->
  exists r' st' k,
    read_all cfg (Some cb) cs (start_receive rx_init) st = Ret (r', st') /\
    delivered r' = take k ms /\ is_Some (read_op r') /\ proj st' = foldl g (proj st) (take k ms) /\
    (concat cs = concat ms -> take k ms = ms).
Proof.
  intros Hf Hlim Hcb Hms Hcs Hall. assert (0 < header_size_ cfg) as Hhdr by apply Hlim.
  destruct (frames_prefix _ _ f Hhdr _ _ Hms Hall) as (k & rest & Hfr).
  destruct (rx_init_armed cfg Hlim) as (Harm & Hp & Hd).
  destruct (read_all_tracked cfg (Some cb) f Hf (small_limits_wf _ Hlim) proj g cs _ st []
              (take k ms) (Partial rest) Hlim Hcb Harm Hcs Hp)
    as (r' & st' & Hrun & [Hdel Hend] & Hproj).
  { by apply frames_short. }
  { exact Hfr. }
  rewrite Hd in Hdel. exists r', st', k. destruct Hend as [(_ & -> & _) _]. split_and!; try done.
  intros Heq. rewrite Heq in Hfr.
  by destruct (frames_det _ _ _ _ _ _ Hfr _ _ (frames_messages _ _ f Hhdr _ Hms)).
Qed.

End Arrivals.

(** A session's receive callback that does nothing but change the application's
    state: what it makes of the messages is what the application ends up with. *)
Definition after {A} (cb : app_callback A) (a : A) (m : list byte) : A :=
  match app_on_recv cb a m with Return (a', _) => a' | _ => a end.

Lemma session_tracks `{!CircularBuffer} {X A} `{!Owner X} read_timeout_ cfg f (cb : app_callback A) :
  (forall a m, well_framed (header_size_ cfg) (max_message_size_ cfg) f m -> quiet (app_on_recv cb a m)) ->
  tracks (St := endpoint X A) (StreamEndpoint0 := session_endpoint read_timeout_) cfg
    (recv_callback read_timeout_ (Some cb)) f TcpSession.app (after cb).
Proof.
  intros Hq. split.
  - intros st. cbn. unfold TcpSession.close. by destruct (is_open (tx st)).
  - intros st. cbn. unfold TcpSession.reset_read_timeout. by destruct (0 <? read_timeout_).
  - intros rcb st m [= <-] Hm. specialize (Hq (TcpSession.app st) m Hm).
    cbn [lift_callback rc_call]. unfold after.
    destruct (app_on_recv cb (TcpSession.app st) m) as [[a m']| | |]; try done. by do 2 eexists.
Qed.

(** ** Properties *)

Section Properties.

Context `{!CircularBuffer} {St : Type} `{!StreamEndpoint St}.
Context (cfg : framing_config) (cb : receive_callback St) (f : list byte -> Z).

(** C2: end to end, one direction of a connection.  The sender's state is any that
    interleaved senders, the strand and the kernel can reach, and the messages
    accepted so far are well framed for the receiver.  However much of what the
    sender put on the wire has arrived, in whatever pieces: the receiver has not
    refused the stream and waits for more, and its callback has been given the
    first so many of the accepted messages, whole and in order; all of them, once
    all their bytes are there.  And the sender can always get there: while its
    socket is open, some continuation without failures puts them all on the wire. *)
Theorem end_to_end n p cs st :
  (n <= pool_capacity)%nat -> reachable n p ->
  get_total_size_ cfg = Some f -> small_limits cfg -> callback_returns (Some cb) ->
  Forall (well_framed (header_size_ cfg) (max_message_size_ cfg) f) (accepted p) ->
  reads_fit cfg (Some cb) cs (start_receive rx_init) st ->
  concat cs `prefix_of` wire p ->
  (exists r' st' k,
     read_all cfg (Some cb) cs (start_receive rx_init) st = Ret (r', st') /\
     delivered r' = take k (accepted p) /\ is_Some (read_op r') /\
     (concat cs = concat (accepted p) -> delivered r' = accepted p)) /\
  (is_open p = true ->
   exists es p', Forall benign es /\ run es p = Some p' /\ wire p' = concat (accepted p)).
Proof.
  intros Hn Hr Hf Hlim Hcb Hms Hcs Hpre. pose proof (pool_fits n Hn) as Hnq.
  pose proof (reachable_inv n p Hnq Hr) as Hinv. split.
  - assert (concat cs `prefix_of` concat (accepted p)) as Hall.
    { etrans; [exact Hpre|]. apply Hinv. }
    destruct (arrived cfg cb f (fun _ => tt) (fun _ _ => tt) (accepted p) cs st Hf Hlim)
      as (r' & st' & k & Hrun & Hdel & Hop & _ & Hk); [|done..|].
    { split; [done..|]. intros cb' st0 m [= <-] _. destruct (Hcb st0 m) as (st1 & m1 & ->). eauto. }
    exists r', st', k. split_and!; try done. intros Heq. by rewrite Hdel, Hk.
  - intros Ho. destruct (drain n p Hinv Hnq Ho) as (es & p' & Hes & Hrun & Hinv' & Hload & Hp & Hq).
    destruct Hload as (Ha & _ & Ho' & _). exists es, p'. split_and!; [done..|].
    rewrite <- Ha. apply (drained n); [done|congruence|done|done].
Qed.

End Properties.

(** ** Witness

    Two messages of the framing of tests/test_networking.cpp are accepted, nine
    bytes have gone out and arrive in two pieces. *)

#[local] Existing Instances overwriting_buffer flag_endpoint.

Definition two_sends : list event :=
  send_schedule 1 demo_message ++ send_schedule 2 demo_message ++ [EvRunPosted] ++
  replicate 7 EvTransmit ++ [EvWriteDone false (fun _ => true); EvRunPosted; EvTransmit; EvTransmit].

Definition sending : pipe := default (pipe_init 2) (run two_sends (pipe_init 2)).

Definition arrivals : list (list byte) := [take 5 demo_message; [x62; x63; x03]].

Lemma end_to_end_witness :
  exists r' st', read_all test_config (Some silent_callback) arrivals (start_receive rx_init) true = Ret (r', st') /\
    delivered r' `prefix_of` [demo_message; demo_message] /\ is_Some (read_op r').
Proof.
  destruct (end_to_end test_config silent_callback test_get_total_size 2 sending arrivals true)
    as [(r' & st' & k & Hrun & Hdel & Hop & _) _].
  - exact small_pool.
  - apply (reachable_run 2 two_sends (pipe_init 2)); [constructor|by vm_compute].
  - reflexivity.
  - exact test_config_small.
  - exact silent_returns.
  - assert (accepted sending = [demo_message; demo_message]) as -> by (vm_compute; reflexivity).
    repeat constructor; apply demo_well_framed.
  - apply demo_reads_fit. repeat constructor; by vm_compute.
  - exists [x00]. vm_compute. reflexivity.
  - exists r', st'. split; [exact Hrun|]. split; [|exact Hop]. rewrite Hdel.
    assert (accepted sending = [demo_message; demo_message]) as -> by (vm_compute; reflexivity).
    apply prefix_take.
Defined.
