(* ===== verification/Factory.v ===== *)
(** * factory.hpp and context.hpp

    The configuration records, the objects that [Factory] makes of them, with every
    way their making can fail, and the life of a [Context]. *)

From S2P Require Import Prelude Framing Expected SendPipeline Callbacks TcpSession TcpClient.
From S2P Require Import UdpEndpoint.
From Stdlib Require Import ZArith Lia String.

Open Scope nat_scope.

(** ** [Context] *)

(** [threads_] counts the workers; [stopped]: [io_context::stop] has been called,
    and nothing calls [io_context::restart]. *)
Record context := MakeContext {
  work_guard_ : bool;
  stopped : bool;
  threads_ : nat;
}.

Definition context_init : context := MakeContext true false 0.

Definition context_start (num_threads : nat) (c : context) : context :=
  if negb (threads_ c =? 0) then c else MakeContext (work_guard_ c) (stopped c) num_threads.

(** [stop] up to the [join]s: the workers finish the handlers they are in and take no
    others. *)
Definition context_halt (c : context) : context := MakeContext false true (threads_ c).

(** The workers are joined once [run()] has returned in each of them. *)
Definition context_stop (c : context) : context := MakeContext false true 0.

(** Some thread runs handlers: there are workers, and [run()] does not return at
    once. *)
Definition serving (c : context) : bool := negb (stopped c) && (0 <? threads_ c) && work_guard_ c.

Lemma context_serves k : 0 < k -> serving (context_start k context_init) = true.
Proof. intros. unfold serving. simpl. by destruct k; [lia|]. Qed.

(** A stopped context never serves again. *)
Lemma context_not_restarted k c : serving (context_start k (context_stop c)) = false.
Proof. done. Qed.

(** ** Configurations *)

Inductive Protocol := TCP | UDP.

#[export] Instance Protocol_eq_dec : EqDecision Protocol.
Proof. solve_decision. Defined.

Record ClientConfig := MakeClientConfig {
  cc_protocol : Protocol;
  cc_ip : string;
  cc_port : Z;
  cc_header_size : Z;
  cc_get_total_size : option (list byte -> Z);
  cc_max_message_size : Z;
  cc_read_timeout : Z;
}.

Record ServerConfig := MakeServerConfig {
  sc_protocol : Protocol;
  sc_port : Z;
  sc_header_size : Z;
  sc_get_total_size : option (list byte -> Z);
  sc_max_message_size : Z;
  sc_read_timeout : Z;
}.

Definition default_max_message_size : Z := 10 * 1024 * 1024.

(** Aggregate initialisation of the first fields; the others keep their default
    member initialisers. *)
Definition client_config (protocol : Protocol) (ip : string) (port : Z) : ClientConfig :=
  MakeClientConfig protocol ip port 0 None default_max_message_size 0.

Definition client_config_framed (protocol : Protocol) (ip : string) (port header_size : Z)
    (get_total_size : option (list byte -> Z)) : ClientConfig :=
  MakeClientConfig protocol ip port header_size get_total_size default_max_message_size 0.

Definition server_config (protocol : Protocol) (port : Z) : ServerConfig :=
  MakeServerConfig protocol port 0 None default_max_message_size 0.

Definition server_config_framed (protocol : Protocol) (port header_size : Z)
    (get_total_size : option (list byte -> Z)) : ServerConfig :=
  MakeServerConfig protocol port header_size get_total_size default_max_message_size 0.

(** ** [Factory] *)

Section Factory.

Context `{!CircularBuffer} {A Addr : Type}.
Context (addr0 : Addr) (n : nat) (a0 : A).

(** The state of a server: [server] of TcpServer.v, or [handler_server] of
    ServerHandlers.v when the callbacks broadcast; [new_server] makes it, given whether the
    acceptor is open. *)
Context {T : Type} (new_server : bool -> T).

(** A [TcpClient] and a [TcpServer] with the parameters their constructors were
    given and the callback registered since. *)
Record tcp_client := MakeTcpClient {
  client_framing : framing_config;
  client_timeout : Z;
  client_on_receive : option (app_callback A);
  client_state : client (A := A);
}.

Record tcp_server := MakeTcpServer {
  server_framing : framing_config;
  server_timeout : Z;
  server_on_receive : option (app_callback A);
  server_on_connect : option (nat -> app_prog unit);
  server_state : T;
}.

(** [TcpClient::on_receive], [TcpServer::on_receive] and [TcpServer::on_connect]. *)
Definition tcp_client_on_receive (cb : app_callback A) (c : tcp_client) : tcp_client :=
  MakeTcpClient (client_framing c) (client_timeout c) (Some cb) (client_state c).

Definition tcp_server_on_receive (cb : app_callback A) (v : tcp_server) : tcp_server :=
  MakeTcpServer (server_framing v) (server_timeout v) (Some cb) (server_on_connect v) (server_state v).

Definition tcp_server_on_connect (cb : nat -> app_prog unit) (v : tcp_server) : tcp_server :=
  MakeTcpServer (server_framing v) (server_timeout v) (server_on_receive v) (Some cb) (server_state v).

Definition create_tcp_client (config : ClientConfig) : outcome (expected tcp_client Z) :=
  Ret (of_value (MakeTcpClient
    (FramingConfig (cc_header_size config) (cc_max_message_size config) (cc_get_total_size config))
    (cc_read_timeout config) None (client_init n a0))).

Definition create_udp_client (o : os (Addr := Addr)) : outcome (expected (udp Addr) Z) :=
  let '(res, client) := UdpEndpoint.connect o (udp_init addr0 n) in
  if negb (operator_bool res) then e ← error res; Ret (error_of e)
  else Ret (of_value client).

(** The acceptor's constructor opens, binds and listens; it throws the error. *)
Definition create_tcp_server (acceptor_ec : Z) (config : ServerConfig) :
    outcome (expected tcp_server Z) :=
  if (acceptor_ec =? 0)%Z then
    Ret (of_value (MakeTcpServer
      (FramingConfig (sc_header_size config) (sc_max_message_size config) (sc_get_total_size config))
      (sc_read_timeout config) None None (new_server true)))
  else Throw (system_error acceptor_ec).

Definition create_udp_server (o : os (Addr := Addr)) : outcome (expected (udp Addr) Z) :=
  let '(res, server) := UdpEndpoint.bind o (udp_init addr0 n) in
  if negb (operator_bool res) then e ← error res; Ret (error_of e)
  else Ret (of_value server).

Lemma create_udp_client_cases o :
  let '(res, u) := UdpEndpoint.connect o (udp_init addr0 n) in
  create_udp_client o = Ret (match res with Alt0 _ => of_value u | Alt1 e => error_of (val e) end).
Proof.
  unfold create_udp_client. destruct (UdpEndpoint.connect o _) as [[[]|e] u]; done.
Qed.

Lemma create_udp_server_cases o :
  let '(res, u) := UdpEndpoint.bind o (udp_init addr0 n) in
  create_udp_server o = Ret (match res with Alt0 _ => of_value u | Alt1 e => error_of (val e) end).
Proof.
  unfold create_udp_server. destruct (UdpEndpoint.bind o _) as [[[]|e] u]; done.
Qed.

End Factory.
