(* ===== verification/Application.v ===== *)
(** * application.hpp: [RimApplication]

    The object that owns one endpoint, chosen by role and protocol: [run] sets it
    up and takes it down, [send] routes to it, and the lambda it registers hands what
    the endpoint receives to the dispatcher.  The machine puts the endpoints' machines
    under one application, with any number of threads that call [send] and [stop].  The
    handlers of a TCP server, whose [send] is a broadcast, run on the machine of
    ServerHandlers.v; the others' run inside their endpoint.  [context.stop()] has two
    steps: from the first on no worker takes a handler any more, at the second the workers
    have come out of theirs.  Nothing waits for the other threads: [run] destroys the
    endpoint and the context under those that are still inside [send], and that is a fault
    of the machine. *)

From S2P Require Import Prelude Framing Expected SendPipeline Callbacks TcpSession.
From S2P Require Import Structs TcpConnection Dispatcher TcpClient ConnectSend TcpServer ServerHandlers CallsEnd UdpEndpoint Factory.
From Stdlib Require Import ZArith Lia String.

Open Scope nat_scope.

Inductive AppRole := ServerRole | ClientRole.

Record AppConfig := MakeAppConfig {
  role : AppRole;
  protocol : Protocol;
  address : string;
  port : Z;
  record_id : Z;
}.

Section Application.

Context `{!CircularBuffer} {A Addr : Type}.
Context (addr0 : Addr) (n : nat) (a0 : A).

(** The virtual functions: the extractor, the [add_handler] calls of
    [setup_handlers] in their order, and [on_client_connected]. *)
Context {MessageType HeaderType : Type}.
Context `{EqDecision MessageType, !Countable MessageType, !Layout HeaderType}.
Context (get_extractor : option (HeaderType -> MessageType * Z)).
Context (setup_handlers : list (registration MessageType A)).
Context (on_client_connected : A -> app_prog A).

(** The dispatcher that [run] makes, and the lambda registered with the endpoint. *)
Definition dispatcher_ : dispatcher MessageType HeaderType A :=
  registered setup_handlers (dispatcher_init get_extractor).

Definition on_message : app_callback A := dispatch_callback dispatcher_.

(** The server, with the handlers that its strands run. *)
Abbreviation app_server := (tcp_server (A := A) (T := handler_server (A := A))).

(** [std::variant]s of [shared_ptr]s; [None] is the null pointer. *)
Inductive ServerVariant :=
| TcpServerPtr (v : option app_server)
| UdpServerPtr (u : option (udp Addr)).

Inductive ClientVariant :=
| TcpClientPtr (c : option (tcp_client (A := A)))
| UdpClientPtr (u : option (udp Addr)).

(** [context_] is the local variable of [run]; [None] when [run] is not active. *)
Record app := App {
  config_ : AppConfig;
  server_ : ServerVariant;
  client_ : ClientVariant;
  logger_ : bool;
  app_running_ : bool;
  context_ : option context;
}.

Definition app_init (config : AppConfig) (shared_logger : bool) : app :=
  App config (TcpServerPtr None) (TcpClientPtr None) shared_logger true None.

Definition set_server (v : ServerVariant) (s : app) : app :=
  App (config_ s) v (client_ s) (logger_ s) (app_running_ s) (context_ s).

Definition set_client (v : ClientVariant) (s : app) : app :=
  App (config_ s) (server_ s) v (logger_ s) (app_running_ s) (context_ s).

Definition stop (s : app) : app :=
  App (config_ s) (server_ s) (client_ s) (logger_ s) false (context_ s).

(** What the lambda of a UDP server does with the datagrams it is called on.  A handler
    that sends is refused: the endpoint of a UDP server never has a target.  DatagramApp.v
    shows that this is what the lambda does when it runs on the endpoint. *)
Fixpoint run_refused {R} (p : app_prog R) : outcome R :=
  match p with
  | Return r => Ret r
  | CallSend _ k => run_refused (k (error_of not_connected))
  | CallClose k => run_refused k
  | Fails f => fail_as f
  end.

Fixpoint serve_datagrams (a : A) (datagrams : list (list byte)) : outcome A :=
  match datagrams with
  | [] => Ret a
  | d :: ds => '(a, _) ← run_refused (app_on_recv on_message a d); serve_datagrams a ds
  end.

(** ** Setting up *)

(** What the operating system answers during [run]: the UDP calls, the acceptor's
    constructor, the resolver and the opening of the TCP socket. *)
Record setup_env := SetupEnv {
  env_os : os (Addr := Addr);
  env_acceptor : Z;
  env_resolve : Z;
  env_opens : bool;
}.

Definition set_server_state (st : handler_server (A := A)) (v : app_server) : app_server :=
  MakeTcpServer (server_framing v) (server_timeout v) (server_on_receive v) (server_on_connect v) st.

Definition set_client_state (st : client (A := A)) (c : tcp_client (A := A)) : tcp_client :=
  MakeTcpClient (client_framing c) (client_timeout c) (client_on_receive c) st.

Definition setup_server (e : setup_env) (s : app) : outcome app :=
  let cfg := server_config_framed (protocol (config_ s)) (port (config_ s))
               (header_size (HeaderType := HeaderType)) (get_size_lambda dispatcher_) in
  match protocol (config_ s) with
  | TCP =>
      var ← create_tcp_server handlers_init (env_acceptor e) cfg;
      if operator_bool var then
        v ← value var;
        let v := tcp_server_on_receive on_message v in
        let hs := server_state v in
        let '(_, st) := TcpServer.start (hs_server hs) in (* an error is only logged *)
        Ret (set_server (TcpServerPtr (Some (set_server_state (set_hs_server st hs) v))) s)
      else Ret s
  | UDP =>
      var ← create_udp_server addr0 n (env_os e);
      if operator_bool var then
        u ← value var;
        Ret (set_server (UdpServerPtr (Some (UdpEndpoint.start_receive (UdpEndpoint.on_receive u)))) s)
      else Ret s
  end.

(** The callback given to [connect]: it calls the hook on success. *)
Definition connect_callback (res : send_result) (a : A) : app_prog A :=
  if operator_bool res then on_client_connected a else Return a.

(** For UDP the hook runs here, in the thread of [run]; what it sends are sends of
    that thread. *)
Definition setup_client (e : setup_env) (s : app) : outcome app :=
  let cfg := client_config_framed (protocol (config_ s)) (address (config_ s)) (port (config_ s))
               (header_size (HeaderType := HeaderType)) (get_size_lambda dispatcher_) in
  match protocol (config_ s) with
  | TCP =>
      var ← create_tcp_client n a0 cfg;
      if operator_bool var then
        c ← value var;
        let c := tcp_client_on_receive on_message c in
        let '(_, st) := TcpClient.connect (env_resolve e) (env_opens e) (client_state c) in
        Ret (set_client (TcpClientPtr (Some (set_client_state st c))) s)
      else Ret s
  | UDP =>
      var ← create_udp_client addr0 n (env_os e);
      if operator_bool var then
        u ← value var;
        Ret (set_client (UdpClientPtr (Some (UdpEndpoint.start_receive (UdpEndpoint.on_receive u)))) s)
      else Ret s
  end.

Definition set_context (logger : bool) (c : context) (s : app) : app :=
  App (config_ s) (server_ s) (client_ s) logger (app_running_ s) (Some c).

(** [run] up to [wait_for_shutdown]; a logger is made unless there is one. *)
Definition run_begin (e : setup_env) (s : app) : outcome app :=
  let s := set_context true context_init s in
  s ← match role (config_ s) with
      | ServerRole => setup_server e s
      | ClientRole => setup_client e s
      end;
  Ret (set_context (logger_ s) (context_start 4 context_init) s).

(** ** Taking down *)

(** The endpoints are destroyed with the last pointer to them, at the latest when
    the context is: before [run] returns.  The copies of pointers to connections that a
    broadcast in progress holds live on; see [run_end]. *)
Fixpoint destroy_connections (l : list (connection unit)) : outcome unit :=
  match l with
  | [] => Ret tt
  | k :: l => _ ← SendPipeline.destroy (tx (ep k)); destroy_connections l
  end.

Definition destroy_server (v : ServerVariant) : outcome unit :=
  match v with
  | TcpServerPtr (Some v) => destroy_connections (map_to_list (conns (hs_server (server_state v)))).*2
  | UdpServerPtr (Some u) => _ ← UdpEndpoint.destroy u; Ret tt
  | _ => Ret tt
  end.

Definition destroy_client_variant (v : ClientVariant) : outcome unit :=
  match v with
  | TcpClientPtr (Some c) => _ ← destroy_client (client_state c); Ret tt
  | UdpClientPtr (Some u) => _ ← UdpEndpoint.destroy u; Ret tt
  | _ => Ret tt
  end.

(** Some thread is inside the [send] or [broadcast] of the endpoint that the application
    points to.  It called through a reference to the pointer, [*ptr], without a copy. *)
Definition calls_inside (s : app) : bool :=
  match server_ s with
  | TcpServerPtr (Some v) => called (hs_server (server_state v))
  | UdpServerPtr (Some u) => negb (bool_decide (uthreads u = ∅))
  | _ => false
  end ||
  match client_ s with
  | TcpClientPtr (Some c) => negb (bool_decide (threads (tx (ep (session_ (client_state c)))) = ∅))
  | UdpClientPtr (Some u) => negb (bool_decide (uthreads u = ∅))
  | _ => false
  end.

(** [run] from the return of [wait_for_shutdown] to its own return, when the context, its
    local variable, is gone too.  A thread inside a call goes on with the pool, the strand
    or the socket of an object that has been destroyed; where it is a broadcast with copies
    of its own, with connections whose context has been. *)
Definition run_end (s : app) : outcome app :=
  _ ← destroy_server (server_ s);
  _ ← destroy_client_variant (client_ s);
  if calls_inside s then UB
  else Ret (App (config_ s) (TcpServerPtr None) (TcpClientPtr None) (logger_ s) (app_running_ s) None).

(** ** The machine *)

(** The steps of a UDP endpoint that are not calls of the application. *)
Definition udp_internal (e : uevent Addr) : bool :=
  match e with
  | UReceive _ _ _ _ | UPop _ | UCopy _ | UAddress _ | UPost _ | URunPosted | UTransmit
  | USendDone _ _ => true
  | _ => false
  end.

Inductive app_event :=
| ARun (e : setup_env)
| ASend (t : nat) (data : list byte) (order : list nat) (* thread [t] calls [send] *)
| ATcpServer (e : handler_event)
| ATcpClient (e : client_event)
| AUdp (e : uevent Addr)
| AStop
| AContextStop                     (* [run] calls [context.stop()] *)
| AEnd.                            (* the workers have been joined *)

Definition exec_on_server (v : app_server) (e : handler_event) : option (outcome app_server) :=
  match handler_exec (server_framing v) (server_timeout v) (server_on_receive v) a0 n e (server_state v) with
  | Some o => Some (st ← o; Ret (set_server_state st v))
  | None => None
  end.

Definition exec_on_client (c : tcp_client (A := A)) (e : client_event) :
    option (outcome (tcp_client (A := A))) :=
  match client_exec (client_framing c) (client_timeout c) (client_on_receive c) (Some connect_callback) e
          (client_state c) with
  | Some o => Some (st ← o; Ret (set_client_state st c))
  | None => None
  end.

Definition lift_app {B} (put : B -> app -> app) (o : option (outcome B)) (s : app) : option (outcome app) :=
  match o with Some o => Some (b ← o; Ret (put b s)) | None => None end.

Definition put_tcp_server v := set_server (TcpServerPtr (Some v)).
Definition put_udp_server u := set_server (UdpServerPtr (Some u)).
Definition put_tcp_client c := set_client (TcpClientPtr (Some c)).
Definition put_udp_client u := set_client (UdpClientPtr (Some u)).

(** [send]; the result of the endpoint's own [send] is dropped.  [order] is the
    order in which [broadcast] finds the connections in its set. *)
Definition send (t : nat) (data : list byte) (order : list nat) (s : app) : option (outcome app) :=
  match role (config_ s), protocol (config_ s) with
  | ClientRole, TCP =>
      match client_ s with
      | TcpClientPtr (Some c) =>
          lift_app put_tcp_client (exec_on_client c (KSession (SSendPath (EvSend t data)))) s
      | _ => Some (Ret s)
      end
  | ClientRole, UDP =>
      match client_ s with
      | UdpClientPtr (Some u) => lift_app put_udp_client (uexec (USend t data) u) s
      | _ => Some (Ret s)
      end
  | ServerRole, TCP =>
      match server_ s with
      | TcpServerPtr (Some v) => lift_app put_tcp_server (exec_on_server v (HServer (VBroadcast t data order))) s
      | _ => Some (Ret s)
      end
  | ServerRole, UDP =>
      match server_ s with
      | UdpServerPtr (Some u) => lift_app put_udp_server (uexec (USend t data) u) s
      | _ => Some (Ret s)
      end
  end.

(** [wait_for_shutdown] polls [app_running_]. *)
Definition wait_for_shutdown (s : app) : bool := negb (app_running_ s).

(** Threads take handlers from the context's queue. *)
Definition workers (s : app) : bool :=
  match context_ s with Some c => serving c | None => false end.

(** What takes a worker that is free: everything but the calls of other threads and what
    goes on in a handler or in the kernel. *)
Definition needs_worker (e : app_event) : bool :=
  match e with
  | ATcpServer e => negb (without_worker e)
  | ATcpClient (KSession e) => negb (outside_strand (CSession e))
  | ATcpClient _ => true
  | AUdp (UReceive _ _ _ _ | URunPosted | USendDone _ _) => true
  | _ => false
  end.

(** No worker is inside a handler.  The handlers of the other endpoints are single steps.
    [Context::stop] joins only the workers: other threads may be anywhere. *)
Definition workers_free (s : app) : bool :=
  match server_ s with
  | TcpServerPtr (Some v) => at_rest (server_state v)
  | _ => true
  end.

(** [None]: the event is not possible in this state.  [context.stop()] returns when the
    workers have come out of the handlers they are in. *)
Definition app_step (e : app_event) (s : app) : option (outcome app) :=
  match e with
  | ARun env => match context_ s with None => Some (run_begin env s) | Some _ => None end
  | ASend t data order => send t data order s
  | ATcpServer e =>
      match server_ s, e with
      | _, HServer (VStart | VBroadcast _ _ _) => None
      | TcpServerPtr (Some v), _ => lift_app put_tcp_server (exec_on_server v e) s
      | _, _ => None
      end
  | ATcpClient e =>
      match client_ s, e with
      | _, KConnect _ _ => None
      | TcpClientPtr (Some c), _ => lift_app put_tcp_client (exec_on_client c e) s
      | _, _ => None
      end
  | AUdp e =>
      if udp_internal e then
        match server_ s, client_ s with
        | UdpServerPtr (Some u), _ => lift_app put_udp_server (uexec e u) s
        | _, UdpClientPtr (Some u) => lift_app put_udp_client (uexec e u) s
        | _, _ => None
        end
      else None
  | AStop => Some (Ret (stop s))
  | AContextStop =>
      match context_ s with
      | Some c =>
          if wait_for_shutdown s && negb (stopped c)
          then Some (Ret (set_context (logger_ s) (context_halt c) s)) else None
      | None => None
      end
  | AEnd =>
      match context_ s with
      | Some c => if stopped c && workers_free s then Some (run_end s) else None
      | None => None
      end
  end.

Definition app_exec (e : app_event) (s : app) : option (outcome app) :=
  if needs_worker e && negb (workers s) then None else app_step e s.

Fixpoint app_run (es : list app_event) (s : app) : option app :=
  match es with
  | [] => Some s
  | e :: es => match app_exec e s with Some (Ret s') => app_run es s' | _ => None end
  end.

Inductive app_reachable (config : AppConfig) : app -> Prop :=
| app_reach_init shared_logger : app_reachable config (app_init config shared_logger)
| app_reach_step s e s' :
    app_reachable config s -> app_exec e s = Some (Ret s') -> app_reachable config s'.

(** ** The invariant *)

Definition app_framing : framing_config :=
  FramingConfig (header_size (HeaderType := HeaderType)) default_max_message_size
    (get_size_lambda dispatcher_).

(** The size that a message's header announces, and the messages that the framing
    lets through. *)
Definition announced_size (ext : HeaderType -> MessageType * Z) (m : list byte) : Z :=
  (ext (load (take (sizeof HeaderType) m))).2.

Definition framed_message (ext : HeaderType -> MessageType * Z) : list byte -> Prop :=
  well_framed (header_size (HeaderType := HeaderType)) default_max_message_size (announced_size ext).

(** A UDP endpoint through which nothing was ever sent. *)
Record never_sent (u : udp Addr) : Prop := {
  ns_unconnected : is_connected_ u = false;
  ns_threads : uthreads u = ∅;
  ns_posted : uposted u = [];
  ns_queue : usend_queue_ u = [];
  ns_op : uwrite_op u = None;
  ns_accepted : uaccepted u = [];
  ns_wire : uwire u = [];
}.

Definition server_variant_inv (config : AppConfig) (v : ServerVariant) : Prop :=
  match v with
  | TcpServerPtr None | UdpServerPtr None => True
  | TcpServerPtr (Some v) =>
      role config = ServerRole /\ protocol config = TCP /\
      v = MakeTcpServer app_framing 0 (Some on_message) None (server_state v) /\
      handlers_reachable app_framing 0 (Some on_message) a0 n (server_state v)
  | UdpServerPtr (Some u) =>
      role config = ServerRole /\ protocol config = UDP /\ ureachable addr0 n u /\ never_sent u
  end.

Definition client_variant_inv (config : AppConfig) (v : ClientVariant) : Prop :=
  match v with
  | TcpClientPtr None | UdpClientPtr None => True
  | TcpClientPtr (Some c) =>
      role config = ClientRole /\ protocol config = TCP /\
      c = MakeTcpClient app_framing 0 (Some on_message) (client_state c) /\
      client_reachable app_framing 0 (Some on_message) (Some connect_callback) n a0 (client_state c) /\
      connects_once (client_state c)
  | UdpClientPtr (Some u) =>
      role config = ClientRole /\ protocol config = UDP /\ ureachable addr0 n u
  end.

Record app_inv (config : AppConfig) (s : app) : Prop := {
  inv_config : config_ s = config;
  inv_server : server_variant_inv config (server_ s);
  inv_client : client_variant_inv config (client_ s);
  inv_idle : context_ s = None -> server_ s = TcpServerPtr None /\ client_ s = TcpClientPtr None;
}.

Lemma never_sent_init : never_sent (udp_init addr0 n).
Proof. by split. Qed.

Lemma never_sent_same u u' :
  same_send u u' -> is_connected_ u' = is_connected_ u -> never_sent u -> never_sent u'.
Proof.
  intros (_ & _ & H3 & H4 & H5 & H6 & H7 & H8) Hc []. split; congruence.
Qed.

Lemma never_sent_internal e u u' :
  udp_internal e = true -> never_sent u -> uexec e u = Some (Ret u') -> never_sent u'.
Proof.
  intros He Hu. destruct (Hu) as [Hc Ht Hp Hq Ho _ _]. destruct e; try done; cbn [uexec];
    rewrite ?Ht, ?lookup_empty, ?Hp, ?Ho; try done.
  destruct (receiving u =? 0); [done|]. intros [= <-].
  eapply never_sent_same; [apply receive_handler_same| |done].
  unfold receive_handler, UdpEndpoint.start_receive.
  repeat (case_match; try done).
Qed.

Lemma exec_on_server_inv config v e v' :
  server_variant_inv config (TcpServerPtr (Some v)) -> exec_on_server v e = Some (Ret v') ->
  server_variant_inv config (TcpServerPtr (Some v')).
Proof.
  intros (Hr & Hp & Hv & Hreach). unfold exec_on_server. rewrite Hv.
  cbn [server_framing server_timeout server_on_receive server_state].
  destruct (handler_exec _ _ _ _ _ _ _) as [[st| | | |]|] eqn:He; try done. intros [= <-].
  split_and!; [done..|]. by eapply handlers_reach_step.
Qed.

Lemma exec_on_client_inv config c e c' :
  (match e with KConnect _ _ => False | _ => True end) ->
  client_variant_inv config (TcpClientPtr (Some c)) -> exec_on_client c e = Some (Ret c') ->
  client_variant_inv config (TcpClientPtr (Some c')).
Proof.
  intros Hne (Hr & Hp & Hc & Hreach & Honce). unfold exec_on_client. rewrite Hc.
  cbn [client_framing client_timeout client_on_receive client_state].
  destruct (client_exec _ _ _ _ _ _) as [[st| | | |]|] eqn:He; try done. intros [= <-].
  split_and!; [done..| |]; [by eapply client_reach_step|by eapply connects_once_step].
Qed.

Lemma set_server_inv config s v :
  app_inv config s -> context_ s <> None -> server_variant_inv config v -> app_inv config (set_server v s).
Proof. intros [] Hc Hv. by split. Qed.

Lemma set_client_inv config s v :
  app_inv config s -> context_ s <> None -> client_variant_inv config v -> app_inv config (set_client v s).
Proof. intros [] Hc Hv. by split. Qed.

(** An endpoint exists only while [run] is active. *)
Lemma server_in_run config s v :
  app_inv config s -> server_ s = v -> v <> TcpServerPtr None -> context_ s <> None.
Proof. intros [_ _ _ Hi] Hv Hne Hc. destruct (Hi Hc). congruence. Qed.

Lemma client_in_run config s v :
  app_inv config s -> client_ s = v -> v <> TcpClientPtr None -> context_ s <> None.
Proof. intros [_ _ _ Hi] Hv Hne Hc. destruct (Hi Hc). congruence. Qed.

Lemma bind_unconnected o (u : udp Addr) : is_connected_ (UdpEndpoint.bind o u).2 = is_connected_ u.
Proof. unfold UdpEndpoint.bind, socket_open_call. by repeat case_match; simplify_eq. Qed.

Lemma receive_started_inv (u : udp Addr) :
  ureachable addr0 n u -> ureachable addr0 n (UdpEndpoint.start_receive (UdpEndpoint.on_receive u)).
Proof.
  intros Hu. apply (ureach_step _ _ (UdpEndpoint.on_receive u) UStartReceive); [|done].
  by apply (ureach_step _ _ u UOnReceive).
Qed.

Lemma receive_started_same (u : udp Addr) :
  let u' := UdpEndpoint.start_receive (UdpEndpoint.on_receive u) in
  same_send u u' /\ is_connected_ u' = is_connected_ u.
Proof. unfold UdpEndpoint.start_receive. simpl. by destruct (negb (socket_open u)). Qed.

Lemma setup_server_inv config e s s' :
  app_inv config s -> context_ s <> None -> role config = ServerRole -> setup_server e s = Ret s' ->
  app_inv config s'.
Proof.
  intros Hs Hc Hrole. pose proof (inv_config _ _ Hs) as Hcfg. unfold setup_server. rewrite Hcfg.
  destruct (protocol config) eqn:Hp.
  - unfold create_tcp_server. destruct (env_acceptor e =? 0)%Z; [|done]. intros [= <-].
    apply set_server_inv; [done..|]. split_and!; [done..|].
    by apply (handlers_reach_step _ _ _ _ _ (handlers_init true) (HServer VStart)); [constructor|].
  - pose proof (create_udp_server_cases addr0 n (env_os e)) as Hcr.
    pose proof (bind_same (env_os e) (udp_init addr0 n)) as Hsame.
    pose proof (bind_unconnected (env_os e) (udp_init addr0 n)) as Hun.
    assert (ureachable addr0 n (UdpEndpoint.bind (env_os e) (udp_init addr0 n)).2) as Hu.
    { by apply (ureach_step _ _ (udp_init addr0 n) (UBind (env_os e))); [constructor|]. }
    destruct (UdpEndpoint.bind _ _) as [[[]|err] u]; rewrite Hcr; intros [= <-]; [|done].
    apply set_server_inv; [done..|]. split_and!; [done..|by apply receive_started_inv|].
    destruct (receive_started_same u) as [H1 H2].
    eapply never_sent_same; [exact H1|exact H2|].
    eapply never_sent_same; [exact Hsame|exact Hun|apply never_sent_init].
Qed.

Lemma setup_client_inv config e s s' :
  app_inv config s -> context_ s <> None -> role config = ClientRole -> setup_client e s = Ret s' ->
  app_inv config s'.
Proof.
  intros Hs Hc Hrole. pose proof (inv_config _ _ Hs) as Hcfg. unfold setup_client. rewrite Hcfg.
  destruct (protocol config) eqn:Hp.
  - cbn [create_tcp_client mbind outcome_bind operator_bool has_value of_value value tcp_client_on_receive].
    cbn [client_state client_framing client_timeout].
    destruct (TcpClient.connect _ _ _) as [res st] eqn:Hconn. intros [= <-].
    change (TcpClient.connect (env_resolve e) (env_opens e) (client_init n a0) = (res, st)) in Hconn.
    assert (client_exec app_framing 0 (Some on_message) (Some connect_callback)
              (KConnect (env_resolve e) (env_opens e)) (client_init n a0) = Some (Ret st)) as Hex.
    { change (Some (Ret (TcpClient.connect (env_resolve e) (env_opens e) (client_init n a0)).2) = Some (Ret st)).
      by rewrite Hconn. }
    apply set_client_inv; [done..|]. split_and!; [done..| |].
    + eapply client_reach_step; [constructor|exact Hex].
    + unfold TcpClient.connect in Hconn. destruct (negb _); injection Hconn as _ <-; (split; [done|]); cbn; lia.
  - pose proof (create_udp_client_cases addr0 n (env_os e)) as Hcr.
    assert (ureachable addr0 n (UdpEndpoint.connect (env_os e) (udp_init addr0 n)).2) as Hu.
    { by apply (ureach_step _ _ (udp_init addr0 n) (UConnect (env_os e))); [constructor|]. }
    destruct (UdpEndpoint.connect _ _) as [[[]|err] u]; rewrite Hcr; intros [= <-]; [|done].
    apply set_client_inv; [done..|]. split_and!; [done..|by apply receive_started_inv].
Qed.

Lemma set_context_inv config l c s : app_inv config s -> app_inv config (set_context l c s).
Proof. intros []. by split. Qed.

Lemma run_begin_inv config e s s' :
  app_inv config s -> run_begin e s = Ret s' -> app_inv config s'.
Proof.
  intros Hs. unfold run_begin. rewrite (inv_config _ _ (set_context_inv _ true context_init _ Hs)).
  destruct (match role config with ServerRole => _ | ClientRole => _ end) as [s1| | | |] eqn:Hset;
    try done. intros [= <-]. apply set_context_inv.
  destruct (role config) eqn:Hrole.
  - by eapply setup_server_inv; [apply set_context_inv| | |].
  - by eapply setup_client_inv; [apply set_context_inv| | |].
Qed.

Lemma run_end_inv config s s' :
  app_inv config s -> run_end s = Ret s' -> app_inv config s'.
Proof.
  intros [Hc _ _ _]. unfold run_end. destruct (destroy_server _); try done.
  destruct (destroy_client_variant _); try done. cbn [mbind outcome_bind].
  destruct (calls_inside s); [done|]. by intros [= <-].
Qed.

Lemma lift_app_inv {B} (put : B -> app) (o : option (outcome B)) s' :
  match o with Some o => Some (b ← o; Ret (put b)) | None => None end = Some (Ret s') ->
  exists b, o = Some (Ret b) /\ s' = put b.
Proof. destruct o as [[]|]; try done. intros [= <-]. eauto. Qed.

Lemma put_tcp_server_inv config s v e s' :
  app_inv config s -> server_ s = TcpServerPtr (Some v) ->
  lift_app put_tcp_server (exec_on_server v e) s = Some (Ret s') ->
  exists v', exec_on_server v e = Some (Ret v') /\ s' = put_tcp_server v' s /\ app_inv config s'.
Proof.
  intros Hs Hv (v' & He & ->)%(lift_app_inv (fun v => put_tcp_server v s)). exists v'.
  split_and!; [done..|]. apply set_server_inv; [done|by eapply server_in_run|].
  eapply exec_on_server_inv; [|done]. rewrite <- Hv. apply Hs.
Qed.

Lemma put_tcp_client_inv config s c e s' :
  app_inv config s -> client_ s = TcpClientPtr (Some c) ->
  (match e with KConnect _ _ => False | _ => True end) ->
  lift_app put_tcp_client (exec_on_client c e) s = Some (Ret s') ->
  exists c', exec_on_client c e = Some (Ret c') /\ s' = put_tcp_client c' s /\ app_inv config s'.
Proof.
  intros Hs Hc Hne (c' & He & ->)%(lift_app_inv (fun c => put_tcp_client c s)). exists c'.
  split_and!; [done..|]. apply set_client_inv; [done|by eapply client_in_run|].
  eapply exec_on_client_inv; [done| |done]. rewrite <- Hc. apply Hs.
Qed.

Lemma put_udp_server_inv config s u e s' :
  app_inv config s -> server_ s = UdpServerPtr (Some u) ->
  (udp_internal e = true \/ exists t data, e = USend t data) ->
  lift_app put_udp_server (uexec e u) s = Some (Ret s') ->
  exists u', uexec e u = Some (Ret u') /\ s' = put_udp_server u' s /\ app_inv config s'.
Proof.
  intros Hs Hu He (u' & Hex & ->)%(lift_app_inv (fun u => put_udp_server u s)). exists u'.
  split_and!; [done..|]. apply set_server_inv; [done|by eapply server_in_run|].
  pose proof (inv_server _ _ Hs) as Hv. rewrite Hu in Hv. destruct Hv as (H1 & H2 & Hr & Hns).
  split_and!; [done..|by eapply ureach_step|].
  destruct He as [He|(t & data & ->)]; [by eapply never_sent_internal|].
  revert Hex. cbn [uexec]. unfold send_entry, enter. rewrite (ns_unconnected _ Hns), (ns_threads _ Hns).
  rewrite lookup_empty. cbn. by intros [= <-].
Qed.

Lemma put_udp_client_inv config s u e s' :
  app_inv config s -> client_ s = UdpClientPtr (Some u) ->
  lift_app put_udp_client (uexec e u) s = Some (Ret s') ->
  exists u', uexec e u = Some (Ret u') /\ s' = put_udp_client u' s /\ app_inv config s'.
Proof.
  intros Hs Hu (u' & Hex & ->)%(lift_app_inv (fun u => put_udp_client u s)). exists u'.
  split_and!; [done..|]. apply set_client_inv; [done|by eapply client_in_run|].
  pose proof (inv_client _ _ Hs) as Hv. rewrite Hu in Hv. destruct Hv as (H1 & H2 & Hr).
  split_and!; [done..|by eapply ureach_step].
Qed.

Lemma send_inv config t data order s s' :
  app_inv config s -> send t data order s = Some (Ret s') -> app_inv config s'.
Proof.
  intros Hs. unfold send. destruct (role _), (protocol _).
  - destruct (server_ s) as [[v|]|u] eqn:Hv; try by intros [= <-].
    intros (v' & _ & _ & H')%(put_tcp_server_inv config); done.
  - destruct (server_ s) as [v|[u|]] eqn:Hv; try by intros [= <-].
    intros (u' & _ & _ & H')%(put_udp_server_inv config); eauto.
  - destruct (client_ s) as [[c|]|u] eqn:Hv; try by intros [= <-].
    intros (c' & _ & _ & H')%(put_tcp_client_inv config); done.
  - destruct (client_ s) as [c|[u|]] eqn:Hv; try by intros [= <-].
    intros (u' & _ & _ & H')%(put_udp_client_inv config); done.
Qed.

Lemma app_exec_inv config e s s' :
  app_inv config s -> app_exec e s = Some (Ret s') -> app_inv config s'.
Proof.
  intros Hs. unfold app_exec. destruct (_ && _); [done|].
  destruct e as [env|t data order|e|e|e| | |]; cbn [app_step].
  - destruct (context_ s); [done|]. intros [= Hr]. by eapply run_begin_inv.
  - by apply send_inv.
  - destruct (server_ s) as [[v|]|u] eqn:Hv; [|by destruct e as [[]| | |]..].
    assert (lift_app put_tcp_server (exec_on_server v e) s = Some (Ret s') -> app_inv config s') as Hput.
    { by intros (v' & _ & _ & H')%(put_tcp_server_inv config). }
    by destruct e as [[]| | |].
  - destruct (client_ s) as [[c|]|u] eqn:Hc; [|by destruct e..].
    destruct e; try done; by intros (c' & _ & _ & H')%(put_tcp_client_inv config).
  - destruct (udp_internal e) eqn:He; [|done].
    assert (forall u, client_ s = UdpClientPtr (Some u) ->
              lift_app put_udp_client (uexec e u) s = Some (Ret s') -> app_inv config s') as Hcl.
    { intros u Hu. by intros (u' & _ & _ & H')%(put_udp_client_inv config). }
    destruct (server_ s) as [v|[u|]] eqn:Hv.
    + destruct (client_ s) as [|[u|]] eqn:Hu; try done. by apply Hcl.
    + intros (u' & _ & _ & H')%(put_udp_server_inv config); auto.
    + destruct (client_ s) as [|[u|]] eqn:Hu; try done. by apply Hcl.
  - intros [= <-]. destruct Hs. by split.
  - destruct (context_ s); [|done]. destruct (_ && _); [|done]. intros [= <-]. by apply set_context_inv.
  - destruct (context_ s); [|done]. destruct (_ && _); [|done]. intros [= Hr]. by eapply run_end_inv.
Qed.

Lemma app_reachable_inv config s : app_reachable config s -> app_inv config s.
Proof. induction 1 as [l|s e s' _ IH He]; [by split|by eapply app_exec_inv]. Qed.

(** ** Entering the endpoints' [send] *)

Lemma client_send_enters c t data c' :
  exec_on_client c (KSession (SSendPath (EvSend t data))) = Some (Ret c') ->
  threads (tx (ep (session_ (client_state c')))) !! t =
  (if own (ep (session_ (client_state c))) && is_open (tx (ep (session_ (client_state c))))
   then Some (Popping data) else None).
Proof.
  unfold exec_on_client. cbn [client_exec sess_exec send_path_only send_exec own_sends client_owner exec].
  set (s := session_ (client_state c)). destruct (threads (tx (ep s)) !! t) as [x|] eqn:Ht;
    destruct (own (ep s)); try done; [destruct (is_open (tx (ep s)))|]; cbn [mbind outcome_bind andb];
    intros [= <-]; cbn; rewrite ?lookup_insert_eq; done.
Qed.

Lemma server_send_begins v t data order v' :
  exec_on_server v (HServer (VBroadcast t data order)) = Some (Ret v') ->
  broadcasts (hs_server (server_state v')) !! t = Some (Broadcast data [] order) /\
  order ≡ₚ elements (connections_ (hs_server (server_state v))).
Proof.
  unfold exec_on_server. cbn [handler_exec server_exec]. destruct (allowed _ _); [|done].
  destruct (_ && _) eqn:Hg; [|done]. intros [= <-].
  apply andb_prop in Hg as [Hg%bool_decide_eq_true _]. cbn. by rewrite lookup_insert_eq.
Qed.

Lemma udp_send_enters (u : udp Addr) t data u' :
  uexec (USend t data) u = Some (Ret u') ->
  uthreads u' !! t =
  if is_connected_ u && socket_open u then Some (UPopping data (remote_endpoint_ u)) else None.
Proof.
  cbn [uexec]. unfold enter, send_entry, send_to_entry. destruct (uthreads u !! t) eqn:Ht; [done|].
  destruct (is_connected_ u); simpl; [destruct (socket_open u)|]; intros [= <-]; simpl;
    rewrite ?lookup_insert_eq; done.
Qed.

(** What [send] does without a server. *)
Definition sends_as_client (config : AppConfig) (t : nat) (data : list byte) (s s' : app) : Prop :=
  match client_ s with
  | TcpClientPtr (Some c) =>
      role config = ClientRole /\ protocol config = TCP /\
      exists c', s' = put_tcp_client c' s /\
        threads (tx (ep (session_ (client_state c')))) !! t =
          if own (ep (session_ (client_state c))) && is_open (tx (ep (session_ (client_state c))))
          then Some (Popping data) else None
  | UdpClientPtr (Some u) =>
      role config = ClientRole /\ protocol config = UDP /\
      exists u', s' = put_udp_client u' s /\
        uthreads u' !! t =
          if is_connected_ u && socket_open u then Some (UPopping data (remote_endpoint_ u)) else None
  | _ => s' = s
  end.

Lemma send_without_server config t data order s s' :
  client_variant_inv config (client_ s) -> config_ s = config ->
  (server_ s = TcpServerPtr None \/ server_ s = UdpServerPtr None) ->
  send t data order s = Some (Ret s') -> sends_as_client config t data s s'.
Proof.
  intros Hcl Hc Hsv. unfold send, sends_as_client. rewrite Hc. destruct (client_ s) as [[c|]|[u|]].
  - destruct Hcl as (-> & -> & _). intros (c' & Hex & ->)%(lift_app_inv (fun c => put_tcp_client c s)).
    apply client_send_enters in Hex. eauto.
  - by destruct Hsv as [-> | ->], (role config), (protocol config); intros [= <-].
  - destruct Hcl as (-> & -> & _). intros (u' & Hex & ->)%(lift_app_inv (fun u => put_udp_client u s)).
    apply udp_send_enters in Hex. eauto.
  - by destruct Hsv as [-> | ->], (role config), (protocol config); intros [= <-].
Qed.

(** ** Taking down *)

Context (Hn : n <= queue_capacity).
Context (ext : HeaderType -> MessageType * Z) (Hext : get_extractor = Some ext).
Context (Hlim : small_limits app_framing).
Context (Hhandlers : handlers_defined setup_handlers ext (framed_message ext)).
Context (Hconnected : forall a, never_fails (on_client_connected a)).

Lemma app_framing_size : get_total_size_ app_framing = Some (announced_size ext).
Proof using Hext.
  unfold app_framing, get_size_lambda, dispatcher_. cbn [get_total_size_].
  by rewrite extractor_registered, Hext.
Qed.

Lemma on_message_defined : callback_defined app_framing (announced_size ext) (Some on_message).
Proof using Hext Hhandlers.
  intros cb [= <-] a m Hm. unfold on_message, dispatcher_. rewrite Hext.
  by apply (dispatch_callback_defined setup_handlers ext (framed_message ext)).
Qed.

Lemma connect_callback_ok : connect_callback_defined (Some connect_callback).
Proof using Hconnected.
  intros k [= <-] res a. unfold connect_callback. by destruct (operator_bool res).
Qed.

Lemma app_handlers_inv hs :
  handlers_reachable app_framing 0 (Some on_message) a0 n hs ->
  handlers_inv app_framing 0 (Some on_message) a0 n (announced_size ext) hs.
Proof using Hn Hext Hlim Hhandlers.
  by apply (handlers_reachable_inv app_framing 0 (Some on_message) a0 n Hn (announced_size ext)
              app_framing_size Hlim on_message_defined).
Qed.

Lemma app_server_inv hs :
  handlers_reachable app_framing 0 (Some on_message) a0 n hs ->
  server_inv app_framing 0 (Some no_handler) n (hs_server hs).
Proof using Hn Hext Hlim Hhandlers.
  intros Hr. apply (base_inv app_framing 0 n Hn (announced_size ext) app_framing_size Hlim).
  apply (hi_base _ _ _ _ _ _ _ (app_handlers_inv hs Hr)).
Qed.

Lemma app_connection_inv hs c k :
  handlers_reachable app_framing 0 (Some on_message) a0 n hs -> conns (hs_server hs) !! c = Some k ->
  sess_inv app_framing 0 n k.
Proof using Hn Hext Hlim Hhandlers.
  intros Hr. apply (base_sess_inv app_framing 0 n Hn (announced_size ext) app_framing_size Hlim).
  apply (hi_base _ _ _ _ _ _ _ (app_handlers_inv hs Hr)).
Qed.

(** ** Messages and handlers *)

(** What the registered handlers make of a message: what is shorter than the header or
    the registered struct is passed over. *)
Definition handler_program (a : A) (m : list byte) : app_prog (A * list byte) :=
  if Datatypes.length m <? sizeof HeaderType then Return (a, m)
  else match last_reg (ext (load (take (sizeof HeaderType) m))).1 setup_handlers with
       | None => Return (a, m)
       | Some r => if Datatypes.length m <? reg_size r then Return (a, m) else app_on_recv (reg_handler r) a m
       end.

(** The registered handlers run on messages, one after another. *)
Fixpoint serve_messages (a : A) (ms : list (list byte)) : outcome A :=
  match ms with
  | [] => Ret a
  | m :: ms => '(a, _) ← answered (handler_program a m); serve_messages a ms
  end.

Lemma on_message_answered a m :
  answered (app_on_recv on_message a m) = answered (handler_program a m).
Proof using Hext.
  clear Hhandlers Hn Hconnected Hlim. unfold on_message, dispatcher_. rewrite Hext.
  cbn [app_on_recv dispatch_callback]. rewrite dispatch_route. unfold route, handler_program.
  destruct (_ <? _); [done|]. destruct (last_reg _ setup_handlers) as [r|]; [|done].
  destruct (_ <? _); [done|]. rewrite !answered_bind.
  by destruct (answered (app_on_recv (reg_handler r) a m)) as [[a' m']| | | |].
Qed.

Lemma serve_registered a ms : serve (Some on_message) a ms = serve_messages a ms.
Proof using Hext.
  clear Hhandlers Hn Hconnected Hlim. revert a. induction ms as [|m ms IH]; intros a; [done|].
  cbn [serve serve_messages handle]. rewrite on_message_answered.
  by destruct (answered (handler_program a m)) as [[a' m']| | | |]; simpl.
Qed.

Lemma destroy_connections_ok (l : list (connection unit)) :
  Forall (fun k => pipe_inv n (tx (ep k))) l -> destroy_connections l = Ret tt.
Proof using.
  induction 1 as [|k l Hk _ IH]; [done|]. cbn [destroy_connections].
  by destruct (destroy_frees n _ Hk) as (h & -> & _).
Qed.

Lemma destroy_tcp_server_ok config v :
  server_variant_inv config (TcpServerPtr (Some v)) -> destroy_server (TcpServerPtr (Some v)) = Ret tt.
Proof using Hn Hext Hlim Hhandlers Hconnected.
  intros (_ & _ & _ & Hr). apply destroy_connections_ok, Forall_forall.
  intros k ([c k'] & -> & Hk%elem_of_map_to_list)%list_elem_of_fmap.
  pose proof (app_connection_inv _ c k' Hr Hk) as Hs.
  apply reachable_inv; [exact Hn|]. apply (inv_tx _ _ _ _ (inv_ep _ _ _ _ Hs)).
Qed.

Lemma app_client_pipe config c :
  client_variant_inv config (TcpClientPtr (Some c)) -> pipe_inv n (tx (ep (session_ (client_state c)))).
Proof using Hn Hext Hlim Hhandlers Hconnected.
  intros (_ & _ & _ & Hr & Hre & _).
  pose proof (client_reachable_inv app_framing 0 (Some on_message) (Some connect_callback) n Hn
                (announced_size ext) app_framing_size Hlim on_message_defined connect_callback_ok
                a0 _ Hr Hre) as Hi.
  apply reachable_inv; [exact Hn|].
  apply (inv_tx _ _ _ _ (inv_ep _ _ _ _ (inv_session _ _ _ _ Hi Hre))).
Qed.

Lemma destroy_tcp_client_ok config c :
  client_variant_inv config (TcpClientPtr (Some c)) ->
  destroy_client_variant (TcpClientPtr (Some c)) = Ret tt.
Proof using Hn Hext Hlim Hhandlers Hconnected.
  intros Hc. cbn [destroy_client_variant].
  by destruct (destroy_client_frees n _ (app_client_pipe config c Hc)) as (h & ->).
Qed.

(** What [run_end] leaves. *)
Definition shut_down (s : app) : app :=
  App (config_ s) (TcpServerPtr None) (TcpClientPtr None) (logger_ s) (app_running_ s) None.

Lemma run_end_tcp config s :
  app_inv config s -> protocol config = TCP -> run_end s = if calls_inside s then UB else Ret (shut_down s).
Proof using Hn Hext Hlim Hhandlers Hconnected.
  intros [_ Hv Hc _] Hp. unfold run_end.
  assert (destroy_server (server_ s) = Ret tt) as ->.
  { destruct (server_ s) as [[v|]|[u|]]; [by eapply destroy_tcp_server_ok|done| |done].
    destruct Hv as (_ & ? & _). congruence. }
  assert (destroy_client_variant (client_ s) = Ret tt) as ->; [|done].
  destruct (client_ s) as [[c|]|[u|]]; [by eapply destroy_tcp_client_ok|done| |done].
  destruct Hc as (_ & ? & _). congruence.
Qed.

Lemma run_end_udp config s u :
  app_inv config s -> server_ s = UdpServerPtr (Some u) \/ client_ s = UdpClientPtr (Some u) ->
  run_end s = match ubuffer_pool_ u with
              | [] => if calls_inside s then UB else Ret (shut_down s)
              | _ => UB
              end.
Proof using Hn.
  intros [_ Hv Hc _] Hu. unfold run_end.
  assert (ureachable addr0 n u) as Hr%(ureachable_inv addr0 n u Hn)%destroy_cases.
  { destruct Hu as [Hu|Hu]; [rewrite Hu in Hv|rewrite Hu in Hc]; [apply Hv|apply Hc]. }
  destruct Hu as [Hu|Hu]; rewrite Hu in *; cbn [destroy_server destroy_client_variant].
  - destruct Hv as (Hrole & Hp & _).
    assert (destroy_client_variant (client_ s) = Ret tt) as ->.
    { destruct (client_ s) as [[c|]|[u'|]]; try done; destruct Hc; congruence. }
    destruct (ubuffer_pool_ u); [destruct Hr as (h & ->)|rewrite Hr]; done.
  - destruct Hc as (Hrole & Hp & _).
    assert (destroy_server (server_ s) = Ret tt) as ->.
    { destruct (server_ s) as [[v|]|[u'|]]; try done; destruct Hv; congruence. }
    destruct (ubuffer_pool_ u); [destruct Hr as (h & ->)|rewrite Hr]; done.
Qed.

(** ** [context.stop()] *)

(** The context has been stopped, and its workers not joined yet. *)
Definition stopping (s : app) : Prop := exists c, context_ s = Some c /\ stopped c = true.

Lemma stopping_no_workers s : stopping s -> workers s = false.
Proof using. intros (c & Hc & Hs). unfold workers, serving. by rewrite Hc, Hs. Qed.

(** A handler of the server is inside [send], waiting for a buffer of [c']. *)
Definition blocked (c c' : nat) (s : app) : Prop :=
  exists v, server_ s = TcpServerPtr (Some v) /\ waiting_on (server_state v) c c'.

(** A thread other than the workers is inside [send] or [broadcast], waiting for a
    buffer. *)
Definition outsider_waits (s : app) : Prop :=
  match server_ s, client_ s with
  | TcpServerPtr (Some v), _ => caller_waits (hs_server (server_state v))
  | _, TcpClientPtr (Some c) => pipe_waits (tx (ep (session_ (client_state c))))
  | _, _ => False
  end.

Lemma outsider_inside s : outsider_waits s -> calls_inside s = true.
Proof using.
  assert (forall p : pipe, pipe_waits p -> threads p <> ∅) as Hne.
  { intros p (t & d & Ht & _) He. by rewrite He in Ht. }
  unfold outsider_waits, calls_inside. intros Hw.
  assert (forall c : tcp_client, client_ s = TcpClientPtr (Some c) ->
            pipe_waits (tx (ep (session_ (client_state c)))) ->
            negb (bool_decide (threads (tx (ep (session_ (client_state c)))) = ∅)) = true) as Hcl.
  { intros c _ Hc%Hne. by rewrite bool_decide_eq_false_2. }
  destruct (server_ s) as [[v|]|u]; [|destruct (client_ s) as [[c|]|]; try done; by rewrite Hcl, orb_true_r..].
  destruct Hw as (c & k & Hk & Hw%Hne). unfold called.
  rewrite (bool_decide_eq_false_2 (map_Forall _ (conns _))); [by rewrite andb_false_r|].
  intros Hall. by apply Hw, (map_Forall_lookup_1 _ _ _ _ Hall Hk).
Qed.

(** What is left to be done in [context.stop()] and in the calls in progress: the rest of
    the handlers that have begun, and of the calls of other threads. *)
Definition going_on (e : app_event) : Prop :=
  match e with
  | ATcpServer e => running_event e \/ call_event e
  | ATcpClient (KSession (SSendPath e)) => own_statement e
  | _ => False
  end.

Lemma going_on_server e :
  running_event e \/ call_event e ->
  without_worker e = true /\ match e with HServer (VStart | VBroadcast _ _ _) => False | _ => True end.
Proof using.
  intros [[->|(c & t & He)]|He]; [done|by destruct e as [[]| | |]|].
  destruct e as [[| | |c [|[e| | | | |]]| |]| | |]; try done. by destruct e.
Qed.

Lemma app_run_app es es' s :
  app_run (es ++ es') s = match app_run es s with Some s' => app_run es' s' | None => None end.
Proof using.
  revert s. induction es as [|e es IH]; intros s; [done|]. cbn [Datatypes.app app_run].
  destruct (app_exec e s) as [[s1| | | |]|]; done.
Qed.

Lemma app_run_handlers config s v es hs :
  app_inv config s -> server_ s = TcpServerPtr (Some v) -> Forall (fun e => running_event e \/ call_event e) es ->
  handlers_run app_framing 0 (Some on_message) a0 n es (server_state v) = Some hs ->
  app_run (ATcpServer <$> es) s = Some (put_tcp_server (set_server_state hs v) s).
Proof using.
  intros Hs Hv Hes. pose proof (inv_server _ _ Hs) as Hsv. rewrite Hv in Hsv.
  destruct Hsv as (_ & _ & Heq & _). clear Hs. revert s v Hv Heq.
  induction Hes as [|e es He _ IH]; intros s v Hv Heq; cbn [handlers_run app_run fmap list_fmap].
  - intros [= <-]. replace (set_server_state (server_state v) v) with v by by destruct v.
    unfold put_tcp_server, set_server. rewrite <- Hv. by destruct s.
  - destruct (handler_exec _ _ _ _ _ e _) as [[h1| | | |]|] eqn:Hex; try done. intros Hrun.
    apply going_on_server in He as [Hww He].
    assert (app_exec (ATcpServer e) s = Some (Ret (put_tcp_server (set_server_state h1 v) s))) as ->.
    { unfold app_exec. cbn [needs_worker]. rewrite Hww. cbn [negb andb app_step].
      rewrite Hv. assert (exec_on_server v e = Some (Ret (set_server_state h1 v))) as Hon.
      { unfold exec_on_server. rewrite Heq. cbn [server_framing server_timeout server_on_receive server_state].
        by rewrite Hex. }
      rewrite Hon. by destruct e as [[]| | |]. }
    rewrite (IH (put_tcp_server (set_server_state h1 v) s) (set_server_state h1 v)); [done|done| |exact Hrun].
    unfold set_server_state. rewrite Heq. done.
Qed.

(** The same on the pipe of a client. *)
Lemma app_run_calls s c es p' :
  client_ s = TcpClientPtr (Some c) -> Forall own_statement es ->
  run es (tx (ep (session_ (client_state c)))) = Some p' ->
  exists c', app_run ((fun e => ATcpClient (KSession (SSendPath e))) <$> es) s = Some (put_tcp_client c' s) /\
    tx (ep (session_ (client_state c'))) = p'.
Proof using.
  intros Hc Hes. revert s c Hc. induction Hes as [|e es He _ IH]; intros s c Hc; cbn [run app_run fmap list_fmap].
  - intros [= <-]. exists c. split; [|done]. unfold put_tcp_client, set_client. rewrite <- Hc. by destruct s.
  - destruct (exec e _) as [[p1| | | |]|] eqn:Hex; try done. intros Hrun.
    set (k := client_state c). set (k1 := Session (rx (session_ k)) (set_tx p1 (ep (session_ k))) (started (session_ k))).
    set (c1 := set_client_state (Client k1 (connecting k) (reopened k)) c).
    assert (app_exec (ATcpClient (KSession (SSendPath e))) s = Some (Ret (put_tcp_client c1 s))) as ->.
    { unfold app_exec. cbn [needs_worker].
      assert (outside_strand (CSession (SSendPath e)) = true) as -> by by destruct e. cbn [negb andb app_step]. rewrite Hc. unfold exec_on_client. cbn [client_exec sess_exec].
      replace (send_path_only e) with true by by destruct e. unfold send_exec. fold k in Hex.
      change (session_ (client_state c)) with (session_ k). rewrite Hex. by destruct e. }
    destruct (IH (put_tcp_client c1 s) c1) as (c' & Hrun' & Hp'); [done|exact Hrun|]. exists c'. by rewrite Hrun'.
Qed.

(** [run] returns, or is undefined, when no worker is in a handler any more. *)
Lemma app_end_tcp config s :
  app_inv config s -> protocol config = TCP -> stopping s -> workers_free s = true ->
  app_exec AEnd s = Some (if calls_inside s then UB else Ret (shut_down s)).
Proof using Hn Hext Hlim Hhandlers Hconnected.
  intros Hs Hp (ctx & Hc & Hstop) Hfree. unfold app_exec. cbn [needs_worker andb app_step].
  rewrite Hc, Hstop, Hfree. cbn [andb]. f_equal. by eapply run_end_tcp.
Qed.

Lemma blocked_busy c c' s : blocked c c' s -> workers_free s = false.
Proof using.
  intros (v & Hv & j & b & k & Hj & _). unfold workers_free, at_rest. rewrite Hv.
  rewrite bool_decide_eq_false_2; [done|]. intros He. by rewrite He in Hj.
Qed.

Lemma app_reachable_run config es s s' :
  app_reachable config s -> app_run es s = Some s' -> app_reachable config s'.
Proof using.
  revert s. induction es as [|e es IH]; intros s Hs; cbn [app_run]; [by intros [= <-]|].
  destruct (app_exec e s) as [[s1| | | |]|] eqn:He; try done. apply IH. by eapply app_reach_step.
Qed.

(** Without a TCP server the calls in progress are on the pipe of a client. *)
Lemma app_client_ends config s :
  app_inv config s -> protocol config = TCP -> (server_ s = TcpServerPtr None \/ exists u, server_ s = UdpServerPtr u) ->
  exists es s', Forall going_on es /\ app_run es s = Some s' /\
    server_ s' = server_ s /\ context_ s' = context_ s /\ (calls_inside s' = false \/ outsider_waits s').
Proof using Hn Hext Hlim Hhandlers Hconnected.
  intros Hs Hp Hv. pose proof (inv_server _ _ Hs) as Hsv. pose proof (inv_client _ _ Hs) as Hcl.
  destruct (client_ s) as [[c|]|[u|]] eqn:Hc.
  2, 4: exists [], s; split_and!; try done; left; unfold calls_inside; rewrite Hc;
    destruct Hv as [Hv|[[u|] Hv]]; rewrite Hv in *; try done; destruct Hsv as (_ & ? & _); congruence.
  2: destruct Hcl as (_ & ? & _); congruence.
  destruct (calls_end n _ Hn (app_client_pipe config c Hcl)) as (es & p' & Hes & Hrun & _ & Hend).
  destruct (app_run_calls s c es p' Hc Hes Hrun) as (c' & Hrun' & Hp').
  eexists _, (put_tcp_client c' s). split_and!; [|exact Hrun'|done|done|]; [by apply Forall_fmap|].
  unfold calls_inside, outsider_waits. cbn [put_tcp_client set_client server_ client_]. rewrite Hp'.
  destruct Hv as [Hv|[[u|] Hv]]; rewrite Hv in *; [|destruct Hsv as (_ & ? & _); congruence|];
    (destruct Hend as [->|Hw]; [by left|by right]).
Qed.

Lemma blocked_put c c' s v e s' :
  handlers_reachable app_framing 0 (Some on_message) a0 n (server_state v) ->
  v = MakeTcpServer app_framing 0 (Some on_message) None (server_state v) -> without_worker e = true ->
  waiting_on (server_state v) c c' -> lift_app put_tcp_server (exec_on_server v e) s = Some (Ret s') ->
  blocked c c' s' /\ context_ s' = context_ s.
Proof using Hn Hext Hlim Hhandlers.
  intros Hr Heq Hww Hw (v' & Hex & ->)%(lift_app_inv (fun v => put_tcp_server v s)). split; [|done].
  unfold exec_on_server in Hex. rewrite Heq in Hex.
  cbn [server_framing server_timeout server_on_receive server_state] in Hex.
  destruct (handler_exec _ _ _ _ _ _ _) as [[hs| | | |]|] eqn:He; try done. injection Hex as <-.
  exists (set_server_state hs v). split; [by rewrite Heq|]. cbn [server_state set_server_state].
  by eapply (waiting_without_worker app_framing 0 (Some on_message) a0 n Hn (announced_size ext) app_framing_size Hlim);
    [apply app_handlers_inv| | |].
Qed.

Lemma blocked_step config c c' e s s' :
  app_inv config s -> stopping s -> blocked c c' s -> app_exec e s = Some (Ret s') ->
  blocked c c' s' /\ stopping s'.
Proof using Hn Hext Hlim Hhandlers.
  intros Hs Hst Hb Hex. pose proof (blocked_busy c c' s Hb) as Hbusy. destruct Hb as (v & Hv & Hw).
  pose proof (inv_server _ _ Hs) as Hsv. rewrite Hv in Hsv. destruct Hsv as (Hrole & Hp & Heq & Hr).
  unfold app_exec in Hex. rewrite (stopping_no_workers s Hst) in Hex.
  assert (forall e s', without_worker e = true ->
            lift_app put_tcp_server (exec_on_server v e) s = Some (Ret s') ->
            blocked c c' s' /\ stopping s') as Hput.
  { intros e0 s0 Hww Hl. destruct (blocked_put c c' s v e0 s0 Hr Heq Hww Hw Hl) as [Hb0 Hc0].
    split; [done|]. unfold stopping. by rewrite Hc0. }
  pose proof Hst as (ctx & Hc & Hstop).
  destruct e as [env|t data order|e|e|e| | |]; cbn [needs_worker andb negb app_step] in Hex.
  - by rewrite Hc in Hex.
  - revert Hex. unfold send. rewrite (inv_config _ _ Hs), Hrole, Hp, Hv. by apply Hput.
  - destruct (without_worker e) eqn:Hww; [|done]. cbn [negb andb] in Hex. rewrite Hv in Hex.
    destruct e as [[]| | |]; try done; by apply (Hput _ _ Hww) in Hex.
  - destruct (_ && _); [done|]. destruct (client_ s) as [[cl|]|u]; [|by destruct e..].
    assert (forall o, lift_app put_tcp_client o s = Some (Ret s') -> blocked c c' s' /\ stopping s') as Hcl.
    { intros o (cl' & _ & ->)%(lift_app_inv (fun c => put_tcp_client c s)). split; [by exists v|by exists ctx]. }
    destruct e; try done; by apply Hcl in Hex.
  - destruct (_ && _); [done|]. destruct (udp_internal e); [|done]. rewrite Hv in Hex.
    destruct (client_ s) as [cl|[u|]]; try done.
    apply (lift_app_inv (fun u => put_udp_client u s)) in Hex as (u' & _ & ->).
    split; [by exists v|by exists ctx].
  - injection Hex as <-. split; [by exists v|by exists ctx].
  - by rewrite Hc, Hstop, andb_false_r in Hex.
  - by rewrite Hc, Hbusy, andb_false_r in Hex.
Qed.

End Application.

(** ** Properties *)

Section Properties.

Context `{!CircularBuffer} {A Addr : Type}.
Context (addr0 : Addr) (n : nat) (a0 : A).
Context {MessageType HeaderType : Type}.
Context `{EqDecision MessageType, !Countable MessageType, !Layout HeaderType}.
Context (ext : HeaderType -> MessageType * Z) (setup_handlers : list (registration MessageType A)).
Context (on_client_connected : A -> app_prog A).
Context (config : AppConfig) (s : app (A := A) (Addr := Addr)).

Abbreviation reachable_app := (app_reachable addr0 n a0 (Some ext) setup_handlers on_client_connected config).
Abbreviation exec_app := (app_exec addr0 n a0 (Some ext) setup_handlers on_client_connected).
Abbreviation run_app := (app_run addr0 n a0 (Some ext) setup_handlers on_client_connected).

Abbreviation app_frames :=
  (frames (header_size (HeaderType := HeaderType)) default_max_message_size (announced_size ext)).
Abbreviation serve_registered_messages := (serve_messages setup_handlers ext).

(** The header is not empty, and the application's functions come back. *)
Record app_wf : Prop := {
  wf_limits : small_limits (app_framing (A := A) (Some ext) setup_handlers);
  wf_handlers : handlers_defined setup_handlers ext (framed_message ext);
  wf_connected a : never_fails (on_client_connected a);
}.

(** C3: what RimApplication is for.  At any time of any run of a TCP server
    application, what the handlers of a connection keep is what the handlers registered
    for the messages' types make of the messages received on it, whole, in order, each
    exactly once.  Between two reads these are the messages delivered so far; and when the
    next read brings the bytes that complete the messages [ms], its thread starts on
    exactly these.  Inside a read they are the messages before the one being handled, of
    which the rest of the handler is left to run; the messages after it are to come. *)
Theorem app_dispatches v c k a :
  n <= pool_capacity -> app_wf ->
  reachable_app s -> server_ s = TcpServerPtr (Some v) ->
  conns (hs_server (server_state v)) !! c = Some k -> states_ (server_state v) !! c = Some a ->
  match jobs_ (server_state v) !! c with
  | Some j => exists don m e,
      app_frames (pending (rx k) 0 ++ job_data j) (don ++ m :: job_todo j) e /\
      serve_registered_messages a0 (delivered (rx k) ++ don) = Ret a /\
      answered (job_prog j) = answered (handler_program setup_handlers ext a m)
  | None =>
      serve_registered_messages a0 (delivered (rx k)) = Ret a /\
      forall t data off room ms e,
        workers s = true -> handling (server_state v) t = false -> free_thread (hs_server (server_state v)) t = true ->
        read_op (rx k) = Some (off, room) -> (0 < size_of data <= room)%Z ->
        app_frames (pending (rx k) 0 ++ data) ms e ->
        exists v', exec_app (ATcpServer (HRead t c data)) s = Some (Ret (put_tcp_server v' s)) /\
          jobs_ (server_state v') !! c =
            match ms with
            | [] => None
            | m :: ms => Some (Job t data (app_on_recv (on_message (Some ext) setup_handlers) a m) false ms)
            end
  end.
Proof.
  intros Hn%pool_fits [Hlim Hh _] Hr Hv Hk Ha.
  pose proof (inv_server _ _ _ _ _ _ _ _ (app_reachable_inv _ _ _ _ _ _ _ _ Hr)) as Hsv.
  rewrite Hv in Hsv. destruct Hsv as (_ & _ & Heq & Hreach).
  pose proof (app_handlers_inv n a0 (Some ext) setup_handlers Hn ext eq_refl Hlim Hh _ Hreach) as Hi.
  pose proof (serve_registered (Some ext) setup_handlers ext eq_refl) as Hserve.
  destruct (jobs_ (server_state v) !! c) as [j|] eqn:Hj.
  - destruct (hi_job _ _ _ _ _ _ _ Hi c j Hj)
      as (k' & a' & don & m & e & off & room & Hk' & Ha' & _ & _ & Hfr & Hs & Hans & _).
    rewrite Hk in Hk'. injection Hk' as <-. rewrite Ha in Ha'. injection Ha' as <-.
    exists don, m, e. split; [exact Hfr|]. split; [by rewrite <- Hserve|].
    rewrite Hans. apply (on_message_answered (Some ext) setup_handlers ext eq_refl).
  - split; [rewrite <- Hserve; by eapply (hi_idle _ _ _ _ _ _ _ Hi)|].
    intros t data off room ms e Hwork Hh0 Hfree Hop Hdata Hfr.
    destruct (base_read (app_framing (Some ext) setup_handlers) 0 n Hn (announced_size ext)
                (app_framing_size (Some ext) setup_handlers ext eq_refl) Hlim
                _ c k off room data ms e (hi_base _ _ _ _ _ _ _ Hi) Hk Hop Hdata Hfr) as (k' & _ & Hex & Hd & _).
    unfold app_exec. rewrite Hwork. cbn [needs_worker andb negb app_step without_worker].
    rewrite Hv. unfold exec_on_server. rewrite Heq.
    cbn [server_framing server_timeout server_on_receive server_state handler_exec].
    rewrite Hj, Ha, Hh0, Hfree. cbn [orb negb]. rewrite Hex. cbn [mbind outcome_bind].
    rewrite (new_messages_update _ c k k' ms Hk Hd).
    destruct ms as [|m ms]; (eexists; split; [reflexivity|]); cbn [server_state set_server_state set_hs_server jobs_ set_job].
    + done.
    + by rewrite lookup_insert_eq.
Qed.

(** C29: where [RimApplication::send] goes, at any time of any run.  A TCP client's
    thread enters [TcpClient::send] unless the client is not connected or closed; a
    UDP client's thread sends to the connected endpoint, unless there is none; a TCP
    server begins a broadcast to exactly the connections that are open at that moment.  A
    UDP server never sends: whatever has happened and will be called, nothing is
    accepted and no datagram leaves.  Without an endpoint (before, after and between
    runs, or when its set-up failed) [send] does nothing. *)
Theorem app_send_routes t data order s' :
  n <= pool_capacity -> app_wf ->
  reachable_app s -> exec_app (ASend t data order) s = Some (Ret s') ->
  match server_ s with
  | TcpServerPtr (Some v) =>
      role config = ServerRole /\ protocol config = TCP /\
      exists v', s' = put_tcp_server v' s /\
        broadcasts (hs_server (server_state v')) !! t = Some (Broadcast data [] order) /\
        forall c, c ∈ order <->
          exists k, conns (hs_server (server_state v)) !! c = Some k /\ is_open (tx (ep k)) = true
  | UdpServerPtr (Some u) =>
      role config = ServerRole /\ protocol config = UDP /\ uaccepted u = [] /\ uwire u = [] /\
      exists u', s' = put_udp_server u' s /\ uaccepted u' = [] /\ uthreads u' = ∅
  | _ => sends_as_client config t data s s'
  end.
Proof.
  intros Hn%pool_fits [Hlim Hh Hon] Hr. unfold app_exec. cbn [needs_worker andb app_step].
  pose proof (app_reachable_inv _ _ _ _ _ _ _ _ Hr) as Hs.
  pose proof Hs as [Hc Hv Hcl _]. intros Hsend.
  assert (server_ s = TcpServerPtr None \/ server_ s = UdpServerPtr None ->
          sends_as_client config t data s s') as Hno.
  { intros Hnone. by eapply send_without_server. }
  revert Hsend. unfold send. rewrite Hc.
  destruct (server_ s) as [[v|]|[u|]] eqn:Hsv.
  - destruct Hv as (Hrole & Hp & _ & Hrv). rewrite Hrole, Hp.
    intros (v' & Hex & ->)%(lift_app_inv (fun v => put_tcp_server v s)).
    apply server_send_begins in Hex as [Hb Hord]. split_and!; [done..|]. exists v'. split_and!; [done..|].
    intros c. rewrite Hord, elem_of_elements.
    apply (inv_tracked _ _ _ _ _ (app_server_inv n a0 (Some ext) setup_handlers Hn ext eq_refl Hlim Hh _ Hrv)).
  - intros _. auto.
  - destruct Hv as (Hrole & Hp & _ & Hns). rewrite Hrole, Hp.
    intros (u' & Hex & ->)%(lift_app_inv (fun u => put_udp_server u s)).
    split_and!; [done..|apply Hns|apply Hns|]. exists u'. split; [done|].
    revert Hex. cbn [uexec]. unfold send_entry, enter.
    rewrite (ns_unconnected _ Hns), (ns_threads _ Hns), lookup_empty. cbn. intros [= <-].
    split; apply Hns.
  - intros _. auto.
Qed.


(** C31: [context.stop()] comes back unless a handler waits for a buffer.  Once the
    context of a TCP application has been stopped, the handlers that had begun, and the
    threads inside [send], can go on by themselves until [run] returns, the application as
    it was made; or until a handler is in [send] to a connection that has no idle
    buffer; or until another thread is, under which [run] then destroys the endpoint. *)
Theorem app_stop_ends :
  n <= pool_capacity -> app_wf -> reachable_app s -> protocol config = TCP -> stopping s ->
  exists es s', Forall going_on es /\ run_app es s = Some s' /\
    (exec_app AEnd s' = Some (Ret (shut_down s')) \/
     (exists c c', blocked c c' s') \/
     outsider_waits s' /\ exec_app AEnd s' = Some UB).
Proof.
  intros Hn%pool_fits [Hlim Hh Hon] Hr Hp Hst.
  pose proof (app_reachable_inv _ _ _ _ _ _ _ _ Hr) as Hs.
  assert (forall s', app_inv addr0 n a0 (Some ext) setup_handlers on_client_connected config s' ->
    stopping s' -> workers_free s' = true -> calls_inside s' = false \/ outsider_waits s' ->
    exec_app AEnd s' = Some (Ret (shut_down s')) \/ outsider_waits s' /\ exec_app AEnd s' = Some UB) as Hend.
  { intros s' Hs' Hst' Hfree Hout.
    rewrite (app_end_tcp _ _ _ _ _ _ Hn ext eq_refl Hlim Hh Hon config s' Hs' Hp Hst' Hfree).
    destruct Hout as [->|Hw]; [by left|]. rewrite (outsider_inside s' Hw). by right. }
  destruct (server_ s) as [[v|]|u] eqn:Hv.
  2, 3: destruct (app_client_ends _ _ _ _ _ _ Hn ext eq_refl Hlim Hh Hon config s Hs Hp) as (es & s' & Hes & Hrun & Hsv & Hc & Hout);
    [rewrite Hv; naive_solver|];
    exists es, s'; split_and!; [done|done|];
    destruct (Hend s'); [by eapply app_reachable_inv, app_reachable_run| | |done|by left|by right; right];
    [unfold stopping; by rewrite Hc|unfold workers_free; by rewrite Hsv, Hv].
  pose proof (inv_server _ _ _ _ _ _ _ _ Hs) as Hsv. rewrite Hv in Hsv. destruct Hsv as (Hrole & _ & _ & Hreach).
  destruct (handlers_and_calls_end _ _ _ a0 n Hn (announced_size ext) (app_framing_size (Some ext) setup_handlers ext eq_refl)
              Hlim (on_message_defined (Some ext) setup_handlers ext eq_refl Hh) _
              (app_handlers_inv n a0 (Some ext) setup_handlers Hn ext eq_refl Hlim Hh _ Hreach))
    as (es & hs & Hes & Hrun & _ & Hres).
  pose proof (app_run_handlers addr0 n a0 (Some ext) setup_handlers on_client_connected config s v es hs
                Hs Hv Hes Hrun) as Hrun'.
  exists (ATcpServer <$> es), (put_tcp_server (set_server_state hs v) s). split; [by apply Forall_fmap|].
  split; [exact Hrun'|]. destruct Hres as [(c & c' & Hw)|[Hrest Hout]].
  - right. left. exists c, c'. eexists. split; [reflexivity|exact Hw].
  - destruct (Hend (put_tcp_server (set_server_state hs v) s)); [|done|exact Hrest| |by left|by right; right].
    + eapply (app_reachable_inv addr0 n a0 (Some ext) setup_handlers on_client_connected config).
      by eapply app_reachable_run.
    + destruct Hout as [Hout|Hout]; [left|by right]. unfold calls_inside. cbn.
      rewrite Hout. pose proof (inv_client _ _ _ _ _ _ _ _ Hs) as Hcl.
      destruct (client_ s) as [[c|]|[u|]]; try done; destruct Hcl; congruence.
Qed.

(** C32: otherwise it does not.  When the context is stopped while a handler waits for a
    buffer, no strand runs any more that could return one: whatever other threads still
    do, the handler never leaves [send], [context.stop()] never gets past joining the
    worker that runs it, and [run] never returns.  Nothing needs to be wrong with the
    connection: it is enough that its buffers are in use. *)
Theorem app_stop_blocked c c' es s' :
  n <= pool_capacity -> app_wf -> reachable_app s -> stopping s -> blocked c c' s ->
  run_app es s = Some s' -> blocked c c' s' /\ stopping s' /\ exec_app AEnd s' = None.
Proof.
  intros Hn Hwf Hr Hst Hb Hrun.
  assert (blocked c c' s' /\ stopping s' /\ reachable_app s') as (Hb' & Hst' & _).
  { revert s Hr Hst Hb Hrun. induction es as [|e es IH]; intros s Hr Hst Hb; cbn [app_run]; [by intros [= <-]|].
    destruct (exec_app e s) as [[s1| | | |]|] eqn:Hex; try done.
    destruct (blocked_step addr0 n a0 (Some ext) setup_handlers on_client_connected (pool_fits n Hn) ext eq_refl
                (wf_limits Hwf) (wf_handlers Hwf) config c c' e s s1
                (app_reachable_inv _ _ _ _ _ _ _ _ Hr) Hst Hb Hex) as [Hb1 Hst1].
    apply IH; [|done..]. by eapply app_reach_step. }
  split; [done|]. split; [done|]. destruct Hst' as (ctx & Hc & Hstop).
  unfold app_exec. cbn [needs_worker andb app_step]. rewrite Hc, Hstop, (blocked_busy c c' s' Hb'). done.
Qed.

End Properties.

(** ** Witnesses

    Applications on the messages of tests/test_dispatcher.cpp: a TCP server with one
    client that closes again, and a UDP server. *)

#[local] Existing Instance overwriting_buffer.

(** The handler answers each message with its first field and counts them. *)
Definition count_and_answer : RawHandler nat :=
  by_ref (fun k (m : MsgA) => CallSend [byte_of_Z (a_a m)] (fun _ => Return (S k, m))).

Definition demo_handlers : list (registration Z nat) := [reg_of MsgA 1%Z count_and_answer].

Definition demo_config (p : Protocol) : AppConfig := MakeAppConfig ServerRole p "127.0.0.1" 9000 0.

Definition demo_env : setup_env (Addr := nat) :=
  SetupEnv (Os 0 0 (fun _ => 0%Z) (0%Z, [5]) (0%Z, true) 0 0) 0 0 true.

Abbreviation demo_app := (app (A := nat) (Addr := nat)).
Abbreviation demo_app_exec := (app_exec 0 2 0 (Some fixed_extractor) demo_handlers Return).
Abbreviation demo_app_reachable p :=
  (app_reachable 0 2 0 (Some fixed_extractor) demo_handlers Return (demo_config p)).

Abbreviation demo_app_run := (app_run 0 2 0 (Some fixed_extractor) demo_handlers Return).

Lemma demo_app_reaches p es s d :
  demo_app_reachable p s -> (if demo_app_run es s is Some _ then true else false) = true ->
  demo_app_reachable p (default d (demo_app_run es s)).
Proof.
  revert s. induction es as [|e es IH]; intros s Hs; cbn [app_run]; [done|].
  destruct (demo_app_exec e s) as [[s'| | | |]|] eqn:He; try done.
  apply IH. by eapply app_reach_step.
Qed.

Definition served : demo_app :=
  default (app_init (demo_config TCP) false)
    (demo_app_run [ARun demo_env; ATcpServer (HServer (VAccept 9 false 4 tt)); ATcpServer (HServer VSetup)]
       (app_init (demo_config TCP) false)).

Definition bound : demo_app :=
  default (app_init (demo_config UDP) false)
    (demo_app_run [ARun demo_env; AStop; AContextStop] (app_init (demo_config UDP) false)).

Lemma served_reaches : demo_app_reachable TCP served.
Proof. apply demo_app_reaches; [constructor|vm_compute; reflexivity]. Qed.

Lemma bound_reaches : demo_app_reachable UDP bound.
Proof. apply demo_app_reaches; [constructor|vm_compute; reflexivity]. Qed.

Lemma demo_handler_of h r : last_reg (fixed_extractor h).1 demo_handlers = Some r -> r = reg_of MsgA 1%Z count_and_answer.
Proof. unfold fixed_extractor. cbn [fst last_reg demo_handlers]. case_decide; congruence. Qed.

Lemma demo_wf : app_wf fixed_extractor demo_handlers Return.
Proof.
  split; [split; split; by vm_compute| |done].
  intros a m r _ ->%demo_handler_of Hlen. cbn [reg_handler reg_of app_on_recv count_and_answer by_ref].
  cbn [reg_size reg_of] in Hlen. by destruct (Nat.ltb_spec (Datatypes.length m) (sizeof MsgA)); [lia|].
Qed.

(** The message arrives with the first byte of the next one; thread 1 runs its handler. *)
Definition packet_read : app_event (Addr := nat) := ATcpServer (HRead 1 4 (packetA ++ [x01])).

Lemma app_dispatches_witness :
  exists v v' j, server_ served = TcpServerPtr (Some v) /\
    demo_app_exec packet_read served = Some (Ret (put_tcp_server v' served)) /\
    jobs_ (server_state v') !! 4 = Some j /\ job_todo j = [] /\
    job_prog j = app_on_recv (on_message (Some fixed_extractor) demo_handlers) 0 packetA.
Proof.
  assert (match server_ served with
          | TcpServerPtr (Some v) =>
              match conns (hs_server (server_state v)) !! 4, states_ (server_state v) !! 4 with
              | Some k, Some a =>
                  match read_op (rx k), jobs_ (server_state v) !! 4 with
                  | Some (_, room), None =>
                      (17 <=? room)%Z && workers served && bool_decide (pending (rx k) 0 = []) && (a =? 0) &&
                      negb (handling (server_state v) 1) && free_thread (hs_server (server_state v)) 1
                  | _, _ => false
                  end
              | _, _ => false
              end
          | _ => false
          end = true) as Hstate by (vm_compute; reflexivity).
  destruct (server_ served) as [[v|]|u] eqn:Hv; [|discriminate Hstate..].
  destruct (conns (hs_server (server_state v)) !! 4) as [k|] eqn:Hk; [|discriminate Hstate].
  destruct (states_ (server_state v) !! 4) as [a|] eqn:Ha; [|discriminate Hstate].
  destruct (read_op (rx k)) as [[off room]|] eqn:Hop; [|discriminate Hstate].
  destruct (jobs_ (server_state v) !! 4) eqn:Hj; [discriminate Hstate|].
  apply andb_prop in Hstate as [[[[[Hroom%Z.leb_le Hwork]%andb_prop Hp%bool_decide_eq_true]%andb_prop Ha0%Nat.eqb_eq]%andb_prop
    Hh%negb_true_iff]%andb_prop Hfree].
  subst a.
  pose proof (app_dispatches 0 2 0 fixed_extractor demo_handlers Return (demo_config TCP) served v 4 k 0
                small_pool demo_wf served_reaches Hv Hk Ha) as Hd.
  rewrite Hj in Hd. destruct Hd as [_ Hd].
  destruct (Hd 1 (packetA ++ [x01]) off room [packetA] (Partial [x01]) Hwork Hh Hfree Hop) as (v' & Hex & Hjob).
  - change (size_of (packetA ++ [x01])) with 17%Z. lia.
  - rewrite Hp. change ([] ++ packetA ++ [x01]) with (packetA ++ [x01]).
    apply frames_msg; [by vm_compute|]. by apply frames_short.
  - exists v, v'. eexists. split; [reflexivity|]. split; [exact Hex|].
    split; [exact Hjob|]. split; reflexivity.
Defined.

(** The whole read: the handler broadcasts its answer, to the only client there is, and
    counts the message. *)
Definition packet_handled : demo_app :=
  default served
    (demo_app_run (packet_read :: ATcpServer (HSend 4 [4]) ::
                   replicate 4 (ATcpServer (HServer (VBroadcastStep 1))) ++
                   [ATcpServer (HStep 4); ATcpServer (HStep 4)]) served).

Lemma served_answers :
  match server_ packet_handled with
  | TcpServerPtr (Some v) =>
      states_ (server_state v) !! 4 = Some 1 /\ jobs_ (server_state v) !! 4 = None /\
      match conns (hs_server (server_state v)) !! 4 with
      | Some k => (delivered (rx k), accepted (tx (ep k))) = ([packetA], [[x2a]])
      | None => False
      end
  | _ => False
  end.
Proof. vm_compute. auto. Qed.

Lemma served_steps :
  (if server_ served is TcpServerPtr (Some _) then true else false) = true /\
  (if demo_app_exec (ASend 7 [x6d] [4]) served is Some (Ret _) then true else false) = true.
Proof. split; vm_compute; reflexivity. Qed.

Lemma app_send_routes_witness :
  exists v s' v', server_ served = TcpServerPtr (Some v) /\ s' = put_tcp_server v' served /\
    broadcasts (hs_server (server_state v')) !! 7 = Some (Broadcast [x6d] [] [4]).
Proof.
  destruct served_steps as [H1 H2].
  destruct (server_ served) as [[v|]|u] eqn:Hv; [|discriminate H1..].
  destruct (demo_app_exec (ASend 7 [x6d] [4]) served) as [[s'| | | |]|] eqn:Hex; [|discriminate H2..].
  pose proof (app_send_routes 0 2 0 fixed_extractor demo_handlers Return (demo_config TCP) served 7 [x6d] [4]
                s' small_pool demo_wf served_reaches Hex) as H.
  rewrite Hv in H. destruct H as (_ & _ & v' & Hs & Hb & _). by exists v, s', v'.
Defined.

(** The context is stopped between two messages; and while thread 7 broadcasts. *)
Definition stopped_at_rest : demo_app := default served (demo_app_run [AStop; AContextStop] served).

Definition stopped_under_call : demo_app :=
  default served (demo_app_run [ASend 7 [x6d] [4]; ATcpServer (HServer (VBroadcastStep 7)); AStop; AContextStop] served).


(** The context is stopped while the handler of the message is about to answer. *)
Definition stopped_in_handler : demo_app :=
  default served (demo_app_run [packet_read; AStop; AContextStop] served).

Lemma app_stop_ends_witness :
  exists es s', Forall going_on es /\ demo_app_run es stopped_in_handler = Some s' /\
    (demo_app_exec AEnd s' = Some (Ret (shut_down s')) \/
     (exists c c', blocked c c' s') \/
     outsider_waits s' /\ demo_app_exec AEnd s' = Some UB).
Proof.
  apply (app_stop_ends 0 2 0 fixed_extractor demo_handlers Return (demo_config TCP) stopped_in_handler
           small_pool demo_wf).
  - apply demo_app_reaches; [apply served_reaches|vm_compute; reflexivity].
  - reflexivity.
  - eexists. split; vm_compute; reflexivity.
Defined.

(** The context is stopped while the handler of the third message of a read waits for one
    of the connection's two buffers, which hold the answers to the first two. *)
Definition answer_whole : list (app_event (Addr := nat)) :=
  ATcpServer <$> (HSend 4 [4] :: replicate 4 (HServer (VBroadcastStep 1)) ++ [HStep 4; HStep 4]).

Definition stopped_in_send : demo_app :=
  default served
    (demo_app_run (ATcpServer (HRead 1 4 (packetA ++ packetA ++ packetA)) :: answer_whole ++ answer_whole ++
       [ATcpServer (HSend 4 [4]); ATcpServer (HServer (VBroadcastStep 1)); AStop; AContextStop]) served).

Definition other_threads : list (app_event (Addr := nat)) :=
  [ASend 7 [x6d] [4]; ATcpServer (HServer (VBroadcastStep 7)); ATcpServer (HServer (VBroadcastStep 1))].

Lemma app_stop_blocked_witness :
  demo_app_exec AEnd (default served (demo_app_run other_threads stopped_in_send)) = None.
Proof.
  apply (app_stop_blocked 0 2 0 fixed_extractor demo_handlers Return (demo_config TCP) stopped_in_send 4 4
           other_threads).
  - exact small_pool.
  - exact demo_wf.
  - apply demo_app_reaches; [apply served_reaches|vm_compute; reflexivity].
  - eexists. split; vm_compute; reflexivity.
  - assert (match server_ stopped_in_send with
            | TcpServerPtr (Some v) => waitingb (server_state v) 4 4 | _ => false end = true) as Hw
      by (vm_compute; reflexivity).
    destruct (server_ stopped_in_send) as [[v|]|u] eqn:Hv; [|discriminate Hw..].
    exists v. split; [exact Hv|by apply waitingb_waits].
  - assert ((if demo_app_run other_threads stopped_in_send is Some _ then true else false) = true) as Hsome
      by (vm_compute; reflexivity).
    by destruct (demo_app_run other_threads stopped_in_send).
Defined.
