(* ===== verification/DatagramApp.v ===== *)
(** * application.hpp over udp_endpoint.hpp: a UDP server application

    The receive lambda of [setup_server] on the endpoint of UdpSession.v: what the
    handlers have made of the application's state at any time of any run is what
    [serve_datagrams] of Application.v makes of the datagrams received so far. *)

From S2P Require Import Prelude Structs Expected SendPipeline Callbacks Dispatcher UdpEndpoint UdpSession Application.
From Stdlib Require Import ZArith Lia.

Open Scope nat_scope.

(** The lambda hands the datagram to the dispatcher and ignores its sender; the bytes
    belong to the receive buffer, which the next receive overwrites. *)
Definition datagram_callback {Addr A} (cb : app_callback A) : udp_callback Addr A :=
  fun a data _ => udp_of_app fst (app_on_recv cb a data).

Section DatagramApp.

Context `{!CircularBuffer} {Addr : Type} (addr0 : Addr) {A : Type}.

(** ** Handlers of an endpoint without a target *)

(** On such an endpoint [send] is refused whatever else happens, so that a handler comes
    to the same end as without an endpoint. *)
Lemma udp_interp_refused {R S} (g : R -> S) (p : app_prog R) (u : udp Addr) :
  is_connected_ u = false ->
  outcome_rel (fun ru r => ru.1 = g r /\ is_connected_ ru.2 = false)
    (udp_interp (udp_of_app g p) u) (run_refused p).
Proof.
  revert u. induction p as [r|data k IH|k IH|f]; intros u Hu; cbn [udp_of_app udp_interp run_refused].
  - by constructor.
  - unfold udp_send_in_strand. rewrite Hu. by apply IH.
  - by apply (IH (close u)).
  - destruct f; constructor.
Qed.

Definition never_connects (e : uevent Addr) : Prop :=
  match e with UConnect _ => False | _ => True end.

Lemma do_write_unconnected (u u' : udp Addr) :
  do_write u = Ret u' -> is_connected_ u' = is_connected_ u.
Proof.
  unfold do_write. destruct (usend_queue_ u) as [|i q]; [done|].
  destruct (uheap u !! i) as [[b t|]|]; try done.
  destruct (uheap u !! b) as [[|d]|], (uwrite_op u); try done. by intros [= <-].
Qed.

Lemma send_handler_unconnected ec ok (u u' : udp Addr) :
  is_connected_ u = false -> send_handler ec ok u = Ret u' -> is_connected_ u' = false.
Proof.
  intros Hu. unfold send_handler. destruct (usend_queue_ u) as [|i q]; [done|].
  destruct (if ok then _ else _) as [u1| | | |] eqn:E; try done.
  assert (is_connected_ u1 = false) as H1.
  { destruct ok; [by injection E as <-|]. destruct (uheap u !! i) as [[|]|]; try done.
    by injection E as <-. }
  cbn [mbind outcome_bind]. destruct (negb ec && _).
  - intros Hw. by rewrite (do_write_unconnected _ _ Hw).
  - destruct ec; by intros [= <-].
Qed.

Lemma setup_unconnected (o : os (Addr := Addr)) (u : udp Addr) :
  is_connected_ u = false ->
  is_connected_ (snd (bind o u)) = false /\ is_connected_ (snd (join_multicast o u)) = false.
Proof.
  assert (forall v : udp Addr, is_connected_ v = false ->
            is_connected_ (snd (socket_open_call o v)) = false) as Hopen.
  { intros v Hv. unfold socket_open_call. destruct (socket_open v); [done|].
    by destruct (is_open_error (os_open o)). }
  intros Hu. split.
  - unfold bind. specialize (Hopen u Hu). destruct (socket_open_call o u) as [ec v].
    destruct (is_open_error ec); [done|]. by destruct (is_open_error (os_bind o)).
  - unfold join_multicast. destruct (os_make_address o) as [ec v4].
    destruct (is_open_error ec); [done|]. destruct (negb v4); [done|].
    assert (is_connected_ (snd (if socket_open u then (0%Z, u) else socket_open_call o u)) = false) as Hv.
    { destruct (socket_open u); [done|by apply Hopen]. }
    destruct (if socket_open u then _ else _) as [ec' v].
    destruct (is_open_error ec'); [done|]. destruct (is_open_error (os_reuse_address o)); [done|].
    destruct (is_open_error (os_bind o)); [done|]. by destruct (is_open_error (os_join_group o)).
Qed.

Lemma start_receive_unconnected (u : udp Addr) : is_connected_ (start_receive u) = is_connected_ u.
Proof. unfold start_receive. by destruct (_ || _). Qed.

Lemma start_receive_received (u : udp Addr) : received (start_receive u) = received u.
Proof. unfold start_receive. by destruct (_ || _). Qed.

Lemma enter_unconnected t r (u u' : udp Addr) :
  enter t r u = Some (Ret u') -> is_connected_ u' = is_connected_ u /\ received u' = received u.
Proof.
  unfold enter. destruct (uthreads u !! t); [done|]. by destruct r; intros [= <-].
Qed.

Lemma uexec_unconnected e (u u' : udp Addr) :
  never_connects e -> (forall ec ab d x, e <> UReceive ec ab d x) -> is_connected_ u = false ->
  uexec e u = Some (Ret u') -> is_connected_ u' = false /\ received u' = received u.
Proof.
  intros He Hr Hu.
  destruct e as [o|o|o| | |ec ab data sender|t data|t data tgt|t|t|t|t| | |ec ok|]; cbn [uexec]; try done.
  - intros [= <-]. split; [by apply setup_unconnected|apply (setup_receive o u)].
  - intros [= <-]. split; [by apply setup_unconnected|apply (setup_receive o u)].
  - by intros [= <-].
  - intros [= <-]. by rewrite start_receive_unconnected, start_receive_received.
  - by destruct (Hr ec ab data sender).
  - intros [-> ->]%enter_unconnected. done.
  - intros [-> ->]%enter_unconnected. done.
  - destruct (uthreads u !! t) as [[]|]; try done. by destruct (ubuffer_pool_ u); intros [= <-].
  - destruct (uthreads u !! t) as [[|? ? i| |]|]; try done.
    destruct (uheap u !! i) as [[b ?|]|]; try done. destruct (uheap u !! b) as [[|]|]; try done.
    by intros [= <-].
  - destruct (uthreads u !! t) as [[| |? ? i|]|]; try done.
    destruct (uheap u !! i) as [[b ?|]|]; try done. by intros [= <-].
  - destruct (uthreads u !! t) as [[]|]; try done. by intros [= <-].
  - destruct (uposted u) as [|i l]; [done|]. unfold post_handler.
    destruct (match _ with [] => true | _ => false end).
    + intros [= Hd]. rewrite (do_write_unconnected _ _ Hd). split; [done|].
      by destruct (do_write_receive _ _ Hd).
    + by intros [= <-].
  - destruct (uwrite_op u) as [[[[b k] tgt] []]|]; try done. destruct (socket_open u); [|done].
    destruct (uheap u !! b) as [[|d]|]; try done. destruct (k <=? length d); [|done]. by intros [= <-].
  - destruct (uwrite_op u) as [[[[b k] tgt] sent]|]; [|done]. destruct (ec || sent); [|done].
    intros [= Hd]. split; [by eapply send_handler_unconnected|by destruct (send_handler_receive _ _ _ _ Hd)].
  - by intros [= <-].
Qed.

(** ** The application *)

Context {MessageType HeaderType : Type}.
Context `{EqDecision MessageType, !Countable MessageType, !Layout HeaderType}.
Context (get_extractor : option (HeaderType -> MessageType * Z)).
Context (setup_handlers : list (registration MessageType A)).

Abbreviation serve := (serve_datagrams get_extractor setup_handlers).
Abbreviation callback := (datagram_callback (Addr := Addr) (on_message get_extractor setup_handlers)).

Lemma serve_datagrams_snoc a ds d :
  serve a (ds ++ [d]) =
  a ← serve a ds; r ← run_refused (app_on_recv (on_message get_extractor setup_handlers) a d); Ret r.1.
Proof.
  revert a. induction ds as [|d0 ds IH]; intros a; cbn [Datatypes.app serve_datagrams mbind outcome_bind].
  - by destruct (run_refused _) as [[]| | | |].
  - destruct (run_refused _) as [[a1 m1]| | | |]; simpl; [apply IH|done..].
Qed.

(** What has been received is what has been served, and there is no target. *)
Definition serving (a : A) (s : usession (Addr := Addr) (A := A)) : Prop :=
  is_connected_ (uep s) = false /\ serve a (received (uep s)).*1 = Ret (uown s).

(** A completed receive, and how it ends. *)
Lemma serving_receive a s aborted data sender :
  serving a s -> data <> [] ->
  outcome_rel (fun s' a' => uown s' = a' /\ is_connected_ (uep s') = false /\
                 received (uep s') = received (uep s) ++ [(data, sender)])
    (session_receive callback false aborted data sender s) (serve a ((received (uep s)).*1 ++ [data])).
Proof.
  intros [Hu Hs] Hd. rewrite serve_datagrams_snoc, Hs. cbn [mbind outcome_bind].
  unfold session_receive. destruct data as [|b data]; [done|]. cbn [negb andb length Nat.ltb Nat.leb].
  rewrite udp_interp_frame, udp_interp_frame. unfold datagram_callback.
  pose proof (udp_interp_refused fst (app_on_recv (on_message get_extractor setup_handlers) (uown s) (b :: data))
                (uep s) Hu) as Hrel.
  destruct Hrel as [[a1 u1] [a2 m2] [Heq Hu1]| | | |]; try constructor.
  cbn [fst snd] in Heq, Hu1. cbn [uown uep]. rewrite start_receive_unconnected, start_receive_received.
  split; [exact Heq|]. split; [exact Hu1|done].
Qed.

Lemma exec_serving a e s s' :
  never_connects e -> serving a s -> usess_exec callback e s = Some (Ret s') -> serving a s'.
Proof.
  intros He Hs Hex.
  assert (forall o, (match uexec e (uep s) with
                     | Some o => Some (u ← o; Ret (USession u (uown s))) | None => None end) = Some o ->
    o = Ret s' -> (forall ec ab d x, e <> UReceive ec ab d x) -> serving a s') as Hown.
  { intros o Ho -> Hr. destruct (uexec e (uep s)) as [[u| | | |]|] eqn:Hu; try done. injection Ho as <-.
    destruct (uexec_unconnected e (uep s) u He Hr (proj1 Hs) Hu) as [H1 H2].
    split; [exact H1|]. cbn [uep uown]. rewrite H2. apply Hs. }
  destruct e as [| | | | |ec ab data sender| | | | | | | | | |]; try (by apply (Hown _ Hex)).
  clear Hown. cbn [usess_exec] in Hex. destruct (receiving (uep s) =? 0); [done|]. injection Hex as Hex.
  destruct (negb ec && (0 <? length data)) eqn:Hd.
  - apply andb_prop in Hd as [->%negb_true_iff Hlen%Nat.ltb_lt].
    assert (data <> []) as Hne by (intros ->; simpl in Hlen; lia).
    pose proof (serving_receive a s ab data sender Hs Hne) as Hrel. rewrite Hex in Hrel.
    inversion Hrel as [s1 a1 (Ha & Hu & Hrc) Hr1 Hr2| | | |]; subst.
    split; [exact Hu|]. rewrite Hrc, fmap_app. by symmetry.
  - revert Hex. unfold session_receive. rewrite Hd.
    destruct (ec && negb ab); intros Hret; injection Hret as <-; split; cbn [uep uown];
      rewrite ?start_receive_unconnected, ?start_receive_received; apply Hs.
Qed.

Lemma run_serving a es s s' :
  Forall never_connects es -> serving a s -> usess_run callback es s = Some s' -> serving a s'.
Proof.
  intros Hes. revert s. induction Hes as [|e es He _ IH]; intros s Hs; simpl; [by intros [= <-]|].
  destruct (usess_exec _ e s) as [[s1| | | |]|] eqn:Hex; try done.
  apply IH. by eapply exec_serving.
Qed.

Lemma serving_init n a : serving a (usess_init addr0 n a).
Proof. done. Qed.

End DatagramApp.

(** ** Properties *)

Section Properties.

Context `{!CircularBuffer} {Addr : Type} (addr0 : Addr) {A : Type}.
Context {MessageType HeaderType : Type}.
Context `{EqDecision MessageType, !Countable MessageType, !Layout HeaderType}.
Context (get_extractor : option (HeaderType -> MessageType * Z)).
Context (setup_handlers : list (registration MessageType A)).

(** C37: a UDP server application serves its datagrams one after another.  At any time of
    any run of its endpoint, whatever is sent, closed, bound again or fails, the state
    that its handlers keep is what handling the datagrams received so far one by one, with
    every [send] refused, makes of the initial state; and the next datagram's receive
    returns, throws, is undefined or never returns exactly as its handler then does. *)
Theorem app_serves_datagrams n a es s :
  Forall never_connects es ->
  usess_run (datagram_callback (on_message get_extractor setup_handlers)) es (usess_init addr0 n a) = Some s ->
  serve_datagrams get_extractor setup_handlers a (received (uep s)).*1 = Ret (uown s) /\
  (forall aborted data sender o, data <> [] ->
     usess_exec (datagram_callback (on_message get_extractor setup_handlers))
       (UReceive false aborted data sender) s = Some o ->
     outcome_rel (fun s' a' => uown s' = a') o
       (serve_datagrams get_extractor setup_handlers a ((received (uep s)).*1 ++ [data]))).
Proof.
  intros Hes Hrun.
  assert (serving get_extractor setup_handlers a s) as Hs.
  { eapply (run_serving get_extractor setup_handlers); [exact Hes|by apply serving_init|exact Hrun]. }
  split; [apply Hs|]. intros aborted data sender o Hd. cbn [usess_exec].
  destruct (receiving (uep s) =? 0); [done|]. intros [= <-].
  eapply outcome_rel_mono; [|by apply serving_receive]. by intros s' a' (Heq & _).
Qed.

End Properties.

(** ** Witnesses

    The counting handler of Application.v, which also tries to answer, behind a bound UDP
    endpoint; two packets come, and one that is too short. *)

#[local] Existing Instance overwriting_buffer.

Abbreviation counting := (datagram_callback (Addr := nat) (on_message (Some fixed_extractor) demo_handlers)).

Definition packets : list (uevent nat) :=
  echo_setup ++ [UReceive false false packetA 7; UReceive false false (take 9 packetA) 8;
                 UReceive false false packetA 8].

Definition counted : usession (Addr := nat) (A := nat) :=
  default (usess_init 0 1 0) (usess_run counting packets (usess_init 0 1 0)).

Lemma counted_run : usess_run counting packets (usess_init 0 1 0) = Some counted.
Proof.
  assert ((if usess_run counting packets (usess_init 0 1 0) is Some _ then true else false) = true) as H
    by (vm_compute; reflexivity).
  unfold counted. by destruct (usess_run _ _ _).
Qed.

Lemma app_serves_datagrams_witness :
  serve_datagrams (Some fixed_extractor) demo_handlers 0 [packetA; take 9 packetA; packetA] = Ret 2.
Proof.
  destruct (app_serves_datagrams 0 (Some fixed_extractor) demo_handlers 1 0 packets counted) as [H _].
  - by repeat constructor.
  - exact counted_run.
  - assert ((received (uep counted)).*1 = [packetA; take 9 packetA; packetA]) as Hr by (vm_compute; reflexivity).
    rewrite Hr in H. rewrite H. vm_compute. reflexivity.
Defined.
