(* ===== verification/WireHeader.v ===== *)
(** * The header of the examples

    The three programs under examples/ declare the same packed header, a type and the
    length of what follows in network order, and write the same extractor for it.
    Here it is once: [AppHeader] (01), [SensorHeader] (02) and [GatewayHeader] (03). *)

From S2P Require Import Prelude Framing Structs Expected SendPipeline Callbacks Dispatcher.
From S2P Require Import TcpSession TcpConnection EndToEnd Factory Application.
From Stdlib Require Import ZArith Lia.

Open Scope Z_scope.

Record wire_header := MkHeader { h_type : Z; h_length : Z }.

#[export] Instance wire_header_packed : Packed wire_header.
Proof.
  refine {|
    widths := [4; 4]%nat;
    fields h := [h_type h; h_length h];
    of_fields vs := match vs with [t; l] => MkHeader t l | _ => MkHeader 0 0 end;
  |}; [done|intros []; reflexivity|solve_fields].
Defined.

Section Header.

Context `{!Host}.

(** [get_extractor]'s lambda: [{be32toh(h.type), be32toh(h.length) + sizeof(Header)}]. *)
Definition extract (h : wire_header) : Z * Z :=
  (be32toh (h_type h), be32toh (h_length h) +! Z.of_nat (sizeof wire_header)).

(** The client's framing function: [memcpy] the header, the same sum. *)
Definition size_lambda (data : list byte) : Z :=
  let h := load (take (sizeof wire_header) data) in
  be32toh (h_length h) +! Z.of_nat (sizeof wire_header).

(** The header of an outgoing message. *)
Definition make_header (type length : Z) : wire_header := MkHeader (htobe32 type) (htobe32 length).

(** ** A message is its header and what follows *)

Definition frame (type : Z) (body : list byte) : list byte :=
  object_bytes (make_header type (size_of body)) ++ body.

Lemma length_frame type body : length (frame type body) = (8 + length body)%nat.
Proof. unfold frame. by rewrite length_app, length_object_bytes. Qed.

Lemma make_header_fits type len :
  fits 4 type -> fits 4 len -> Forall2 fits (widths wire_header) (fields (make_header type len)).
Proof. intros Ht Hl. repeat constructor; by apply htobe32_fits. Qed.

Lemma frame_header type body :
  fits 4 type -> fits 4 (size_of body) ->
  load (take (sizeof wire_header) (frame type body)) = make_header type (size_of body).
Proof. intros. rewrite load_take. by apply load_object_bytes, make_header_fits. Qed.

(** The fields of a header that was received. *)
Lemma received_fits bs :
  (8 <= length bs)%nat -> fits 4 (h_length (load (take (sizeof wire_header) bs))).
Proof.
  intros Hb. rewrite load_take. pose proof (load_fields_fit [4; 4]%nat bs Hb) as Hf.
  by inversion_clear Hf as [|? ? ? ? _ Hf2]; inversion_clear Hf2.
Qed.

Lemma extract_size h : fits 4 (h_length h) -> (extract h).2 = be32toh (h_length h) + 8.
Proof.
  intros Hl. apply (htobe_fits host_endian 4) in Hl. unfold extract. cbn [snd].
  change (Z.of_nat (sizeof wire_header)) with 8. unfold fits in Hl. change (256 ^ Z.of_nat 4) with (2 ^ 32) in Hl.
  apply size_add_small. unfold is_size, be32toh. lia.
Qed.

Lemma extract_frame type body :
  fits 4 type -> fits 4 (size_of body) ->
  extract (load (take (sizeof wire_header) (frame type body))) = (type, size_of (frame type body)).
Proof.
  intros Ht Hb. pose proof (extract_size (make_header type (size_of body))) as Hs.
  rewrite (frame_header type body Ht Hb).
  unfold size_of at 2. rewrite length_frame. rewrite (surjective_pairing (extract _)), Hs by by apply htobe32_fits.
  cbn [extract make_header h_type h_length fst]. rewrite !be32toh_htobe32 by done.
  f_equal. unfold size_of. lia.
Qed.

(** The framing lets exactly the announced bytes through. *)
Lemma framed_length m :
  framed_message extract m ->
  (8 <= length m)%nat /\ size_of m = be32toh (h_length (load (take (sizeof wire_header) m))) + 8.
Proof.
  intros (Hh & Ha & Hmax). change header_size with 8 in *. assert (8 <= length m)%nat by (unfold size_of in Hh; lia).
  split; [done|]. rewrite <- Ha. unfold announced, announced_size.
  change (take (Z.to_nat 8) m) with (take (sizeof wire_header) m). rewrite load_take.
  pose proof (received_fits m ltac:(done)) as Hl. rewrite load_take in Hl.
  rewrite load_take, extract_size by done. apply wrap_small.
  apply (htobe_fits host_endian 4) in Hl. unfold fits in Hl. change (256 ^ Z.of_nat 4) with (2 ^ 32) in Hl.
  unfold be32toh. lia.
Qed.

Lemma frame_framed type body :
  fits 4 type -> size_of body + 8 <= default_max_message_size -> framed_message extract (frame type body).
Proof.
  intros Ht Hb. unfold default_max_message_size in Hb. pose proof (size_of_nonneg body).
  assert (fits 4 (size_of body)) as Hf by (unfold fits; change (256 ^ Z.of_nat 4) with (2 ^ 32); lia).
  assert (size_of (frame type body) = size_of body + 8) as Hs by (unfold size_of; rewrite length_frame; lia).
  unfold framed_message, well_framed, announced, announced_size. change header_size with 8.
  split_and!; [lia| |unfold default_max_message_size; lia].
  change (take (Z.to_nat 8) ?m) with (take (sizeof wire_header) m).
  rewrite load_take, extract_frame by done. cbn [snd]. rewrite Hs. apply wrap_small. lia.
Qed.

Lemma extract_limits {A} ext (regs : list (registration Z A)) :
  small_limits (app_framing (HeaderType := wire_header) (Some ext) regs).
Proof. split; split; by vm_compute. Qed.

End Header.

(** ** Protocols over the header

    What a TCP server application with the extractor [ext] promises to peers that keep to its messages: the
    packets are framed, and receiving one has a known effect on the application's
    state.  On any other message that the framing lets through its handlers still only
    change that state. *)

Class WireProtocol `{!Host} {A : Type} (ext : wire_header -> Z * Z) (handlers : list (registration Z A)) (M : Type) := {
  packet : M -> list byte;
  sendable : M -> Prop;
  effect : A -> M -> A;
  packet_framed m : sendable m -> framed_message ext (packet m);
  packet_effect a m : sendable m -> after (on_message (Some ext) handlers) a (packet m) = effect a m;
  handlers_quiet a m : framed_message ext m -> quiet (app_on_recv (on_message (Some ext) handlers) a m);
}.

Section Protocol.

Context `{!Host, !CircularBuffer} {A M : Type} (ext : wire_header -> Z * Z) (handlers : list (registration Z A)).
Context `{!WireProtocol ext handlers M}.

Abbreviation protocol_framing := (app_framing (Some ext) handlers).
Abbreviation protocol_callback := (recv_callback (X := nat) 0 (Some (on_message (Some ext) handlers))).

#[local] Instance protocol_endpoint : StreamEndpoint (endpoint nat A) := session_endpoint 0.

Lemma packets_effect a ms :
  Forall sendable ms ->
  foldl (after (on_message (Some ext) handlers)) a (packet <$> ms) = foldl effect a ms.
Proof.
  intros Hms. revert a. induction Hms as [|m ms Hm _ IH]; intros a; simpl; [done|].
  by rewrite packet_effect, IH.
Qed.

(** The reads of a connection, from its start. *)
Definition received (cs : list (list byte)) (s : endpoint nat A) : outcome (rx_state * endpoint nat A) :=
  read_all protocol_framing protocol_callback cs (start_receive rx_init) s.

(** What has arrived of a sequence of packets, in whatever pieces. *)
Lemma protocol_received ms cs s :
  Forall sendable ms -> Forall (fun c => 0 < size_of c <= 65536) cs ->
  concat cs `prefix_of` concat (packet <$> ms) ->
  exists r' s' k,
    received cs s = Ret (r', s') /\ is_Some (read_op r') /\
    TcpSession.app s' = foldl effect (TcpSession.app s) (take k ms) /\
    (concat cs = concat (packet <$> ms) -> TcpSession.app s' = foldl effect (TcpSession.app s) ms).
Proof.
  intros Hms Hcs Hpre. pose proof (extract_limits ext handlers) as Hlim.
  assert (get_total_size_ protocol_framing = Some (announced_size ext)) as Hf.
  { by apply app_framing_size. }
  assert (tracks protocol_framing protocol_callback (announced_size ext) TcpSession.app
            (after (on_message (Some ext) handlers))) as Htr.
  { apply session_tracks. intros a m Hm. by apply handlers_quiet. }
  assert (Forall (framed_message ext) (packet <$> ms)) as Hwf.
  { apply Forall_fmap. eapply Forall_impl; [exact Hms|]. intros m. apply packet_framed. }
  destruct (arrived protocol_framing _ (announced_size ext) TcpSession.app _ (packet <$> ms) cs s
              Hf Hlim Htr Hwf) as (r' & s' & k & Hrun & _ & Hop & Happ & Hall); [|exact Hpre|].
  { apply (small_reads_fit _ _ _ Hf (small_limits_wf _ Hlim)); [done|by apply rx_init_armed|done]. }
  exists r', s', k. split; [exact Hrun|]. split; [exact Hop|].
  rewrite Happ, <- fmap_take. split; [by apply packets_effect, Forall_take|].
  intros Heq. specialize (Hall Heq). rewrite <- fmap_take in Hall.
  rewrite Hall. by apply packets_effect.
Qed.

End Protocol.

(** An effect that appends one line per message. *)
Lemma foldl_log {L M} (line : M -> L) log ms :
  foldl (fun log m => log ++ [line m]) log ms = log ++ (line <$> ms).
Proof.
  revert log. induction ms as [|m ms IH]; intros log; simpl; [by rewrite app_nil_r|].
  by rewrite IH, <- app_assoc.
Qed.
