(* ===== verification/DemoApp.v ===== *)
(** * examples/01_basic_demo.cpp

    A TCP server application with two handlers, and a client that sends two messages
    when it is connected.  The application's state is the list of lines that its
    handlers log; the text of a line is spdlog's. *)

From S2P Require Import Prelude Framing Structs Expected SendPipeline Callbacks Dispatcher.
From S2P Require Import TcpSession TcpConnection TcpClient ConnectSend EndToEnd Factory Application WireHeader.
From Stdlib Require Import ZArith Lia String.

Open Scope Z_scope.

#[local] Abbreviation length := Datatypes.length.
#[local] Abbreviation concat := List.concat.

(** ** Messages *)

(** [enum class MsgType : uint32_t]: any 32-bit value can be cast to it. *)
Definition MsgType_Ping : Z := 1.
Definition MsgType_TextData : Z := 2.

(** [struct AppHeader]. *)
Definition AppHeader : Type := wire_header.

Record Ping := MkPing { ping_header : AppHeader; ping_timestamp : Z }.

(** [text] is an array of no elements: the struct is its header. *)
Record TextMsg := MkTextMsg { text_header : AppHeader }.

#[export] Instance Ping_packed : Packed Ping.
Proof.
  refine {|
    widths := [4; 4; 8]%nat;
    fields p := [h_type (ping_header p); h_length (ping_header p); ping_timestamp p];
    of_fields vs := match vs with [t; l; s] => MkPing (MkHeader t l) s | _ => MkPing (MkHeader 0 0) 0 end;
  |}; [done|intros [[]]; reflexivity|solve_fields].
Defined.

#[export] Instance TextMsg_packed : Packed TextMsg.
Proof.
  refine {|
    widths := [4; 4]%nat;
    fields m := [h_type (text_header m); h_length (text_header m)];
    of_fields vs := match vs with [t; l] => MkTextMsg (MkHeader t l) | _ => MkTextMsg (MkHeader 0 0) end;
  |}; [done|intros [[]]; reflexivity|solve_fields].
Defined.

Section Demo.

Context `{!Host}.

(** ** The application *)

Inductive log_line :=
| ProcessedPing (role : AppRole) (timestamp : Z)
| ProcessedText (role : AppRole) (text : list byte)
| ShuttingDown (role : AppRole).

(** The byte order of the fields is changed in place. *)
Definition header_to_host (h : AppHeader) : AppHeader :=
  MkHeader (be32toh (h_type h)) (be32toh (h_length h)).

Definition handle_ping (this : AppConfig) : RawHandler (list log_line) :=
  by_ref (fun log ping =>
    let ping := MkPing (header_to_host (ping_header ping)) (be64toh (ping_timestamp ping)) in
    Return (log ++ [ProcessedPing (role this) (ping_timestamp ping)], ping)).

(** [std::string text(msg.text, msg.header.length)] reads past the struct: undefined
    when the span ends before. *)
Definition handle_text (this : AppConfig) : RawHandler (list log_line).
Proof.
  refine (AppCallback
    (fun log data =>
       if (length data <? sizeof TextMsg)%nat then Fails Undefined
       else
         let msg := load (take (sizeof TextMsg) data) in
         let msg := MkTextMsg (header_to_host (text_header msg)) in
         let data := store msg (take (sizeof TextMsg) data) ++ drop (sizeof TextMsg) data in
         let text_off := Z.of_nat (sizeof TextMsg) in
         if size_of data <? text_off + h_length (text_header msg) then Fails Undefined
         else
           Return (log ++ [ProcessedText (role this) (subspan data text_off (h_length (text_header msg)))],
                   data)) _).
  intros log data. destruct (Nat.ltb_spec (length data) (sizeof TextMsg)); [done|]. cbv zeta.
  destruct (_ <? _); [done|]. cbn [returns snd]. rewrite length_app, length_store, length_drop; [lia|].
  rewrite length_take. lia.
Defined.

Definition get_extractor : option (wire_header -> Z * Z) := Some extract.

Definition setup_handlers (this : AppConfig) : list (registration Z (list log_line)) :=
  [reg_of Ping MsgType_Ping (handle_ping this); reg_of TextMsg MsgType_TextData (handle_text this)].

Definition teardown (this : AppConfig) (log : list log_line) : list log_line :=
  log ++ [ShuttingDown (role this)].

(** ** The client *)

Definition ping_packet (timestamp : Z) : list byte :=
  object_bytes (MkPing (make_header MsgType_Ping 8) (htobe64 timestamp)).

Definition text_packet (text : list byte) : list byte :=
  object_bytes (make_header MsgType_TextData (wrap 32 (size_of text))) ++ text.

Inductive client_line :=
| Connected | SendingPing | FailedToSendPing (ec : send_result) | SendingText | FailedToSendText (ec : send_result).

Definition greeting_text : list byte := list_byte_of_string "Hello librim, callback routing works!".

(** The callback given to [connect]. *)
Definition on_connected (res : send_result) (log : list client_line) : app_prog (list client_line) :=
  if operator_bool res then
    let log := log ++ [Connected; SendingPing] in
    CallSend (ping_packet 123456789) (fun send_res1 =>
      let log := if negb (operator_bool send_res1) then log ++ [FailedToSendPing send_res1] else log in
      let log := log ++ [SendingText] in
      CallSend (text_packet greeting_text) (fun send_res2 =>
        Return (if negb (operator_bool send_res2) then log ++ [FailedToSendText send_res2] else log)))
  else Return log.

Definition tcp_client_cfg : ClientConfig :=
  client_config_framed TCP "127.0.0.1" 8080 (Z.of_nat (sizeof wire_header)) (Some size_lambda).

(** [run_demo_client] up to its call of [connect]; [None] where it returns at once. *)
Definition run_demo_client `{!CircularBuffer} (n : nat) (resolve_ec : Z) (opens : bool) :
    outcome (option (send_result * tcp_client (A := list client_line))) :=
  tcp_client_var ← create_tcp_client n [] tcp_client_cfg;
  if negb (operator_bool tcp_client_var) then Ret None
  else
    c ← value tcp_client_var;
    let '(conn_res, st) := connect resolve_ec opens (client_state c) in
    Ret (Some (conn_res, MakeTcpClient (client_framing c) (client_timeout c) (client_on_receive c) st)).

(** ** What the handlers do *)

Lemma demo_setup_handlers_add this (d : dispatcher Z wire_header (list log_line)) :
  registered (setup_handlers this) d =
  add_handler_member TextMsg MsgType_TextData this handle_text
    (add_handler_member Ping MsgType_Ping this handle_ping d).
Proof. done. Qed.

Lemma load_text_msg bs : load (T := TextMsg) bs = MkTextMsg (load (T := wire_header) bs).
Proof. done. Qed.

(** [handle_text] on a span as long as its header says. *)
Lemma handle_text_framed this log m :
  framed_message extract m ->
  exists m', app_on_recv (handle_text this) log m =
    Return (log ++ [ProcessedText (role this) (drop 8 m)], m').
Proof.
  intros [Hlen Hsize]%framed_length. cbn [handle_text app_on_recv].
  change (sizeof TextMsg) with 8%nat. change (sizeof wire_header) with 8%nat in Hsize.
  destruct (Nat.ltb_spec (length m) 8); [lia|]. rewrite load_text_msg.
  cbn [text_header header_to_host h_length].
  set (hdr := store _ _). assert (length hdr = 8%nat) as Hhdr.
  { subst hdr. rewrite length_store; [done|]. change (sizeof TextMsg) with 8%nat. rewrite length_take. lia. }
  assert (size_of (hdr ++ drop 8 m) = size_of m) as ->.
  { unfold size_of. rewrite length_app, Hhdr, length_drop. lia. }
  destruct (Z.ltb_spec (size_of m) (Z.of_nat 8 + be32toh (h_length (load (take 8 m))))); [lia|].
  eexists. do 3 f_equal. f_equal. unfold subspan. change (Z.to_nat (Z.of_nat 8)) with 8%nat.
  rewrite drop_app_length' by done. f_equal. apply take_ge. rewrite length_drop. unfold size_of in Hsize. lia.
Qed.

Lemma handle_ping_return this log m :
  (16 <= length m)%nat ->
  exists m', app_on_recv (handle_ping this) log m =
    Return (log ++ [ProcessedPing (role this) (be64toh (ping_timestamp (load m)))], m').
Proof.
  intros Hlen. cbn [handle_ping by_ref app_on_recv]. rewrite load_take. change (sizeof Ping) with 16%nat.
  destruct (Nat.ltb_spec (length m) 16); [lia|]. by eexists.
Qed.

(** The handlers only log, on every message that the framing lets through. *)
Lemma demo_handlers_quiet this log m :
  framed_message extract m ->
  quiet (app_on_recv (on_message get_extractor (setup_handlers this)) log m).
Proof.
  intros Hm. apply dispatched_quiet. intros r. unfold setup_handlers. cbn [last_reg].
  case_decide; [|case_decide; [|done]]; intros [= <-]; cbn [reg_size reg_handler reg_of]; intros Hlen.
  - by destruct (handle_text_framed this log m Hm) as [m' ->].
  - by destruct (handle_ping_return this log m Hlen) as [m' ->].
Qed.

(** ** Messages of the demo's protocol *)

Inductive demo_message := PingMessage (timestamp : Z) | TextMessage (text : list byte).

Definition demo_packet (m : demo_message) : list byte :=
  match m with PingMessage ts => ping_packet ts | TextMessage text => text_packet text end.

Definition line (this : AppConfig) (m : demo_message) : log_line :=
  match m with
  | PingMessage ts => ProcessedPing (role this) ts
  | TextMessage text => ProcessedText (role this) text
  end.

Definition demo_sendable (m : demo_message) : Prop :=
  match m with
  | PingMessage ts => fits 8 ts
  | TextMessage text => size_of text + 8 <= default_max_message_size
  end.

Lemma ping_packet_frame ts : ping_packet ts = frame MsgType_Ping (store_uint host_endian 8 (htobe64 ts)).
Proof.
  unfold ping_packet, frame. unfold size_of. rewrite length_store_uint.
  unfold object_bytes. cbn [store packed_layout]. unfold store_packed.
  cbn [widths Ping_packed wire_header_packed fields store_fields ping_header ping_timestamp make_header h_type h_length].
  change (drop 8 _) with ([] : list byte). change (drop 4 (drop 4 (replicate (sizeof wire_header) _))) with ([] : list byte).
  by rewrite !app_nil_r, app_assoc.
Qed.

Lemma text_fits (text : list byte) : size_of text + 8 <= default_max_message_size -> fits 4 (size_of text).
Proof.
  unfold default_max_message_size, fits. change (256 ^ Z.of_nat 4) with (2 ^ 32).
  pose proof (size_of_nonneg text). lia.
Qed.

Lemma text_packet_frame text :
  size_of text + 8 <= default_max_message_size -> text_packet text = frame MsgType_TextData text.
Proof.
  intros Ht%text_fits. unfold text_packet, frame. rewrite wrap_small; [done|exact Ht].
Qed.

Lemma demo_type_fits : fits 4 MsgType_Ping /\ fits 4 MsgType_TextData.
Proof. split; by vm_compute. Qed.

Lemma demo_packet_framed m : demo_sendable m -> framed_message extract (demo_packet m).
Proof.
  destruct demo_type_fits. destruct m as [ts|text]; intros Hm; cbn [demo_packet demo_sendable] in *.
  - rewrite ping_packet_frame. apply frame_framed; [done|]. unfold size_of. by rewrite length_store_uint.
  - rewrite text_packet_frame by done. by apply frame_framed.
Qed.

(** The types of the two packets select their handlers. *)
Lemma ping_registered this ts :
  last_reg (extract (load (take (sizeof wire_header) (ping_packet ts)))).1 (setup_handlers this) =
  Some (reg_of Ping MsgType_Ping (handle_ping this)).
Proof.
  destruct demo_type_fits. rewrite ping_packet_frame, extract_frame; [done|done|].
  unfold size_of. by rewrite length_store_uint.
Qed.

Lemma text_registered this text :
  size_of text + 8 <= default_max_message_size ->
  last_reg (extract (load (take (sizeof wire_header) (text_packet text)))).1 (setup_handlers this) =
  Some (reg_of TextMsg MsgType_TextData (handle_text this)).
Proof.
  intros Ht. destruct demo_type_fits. rewrite text_packet_frame by done.
  rewrite extract_frame; [done|done|by apply text_fits].
Qed.

Lemma length_ping_packet ts : length (ping_packet ts) = 16%nat.
Proof. unfold ping_packet. by rewrite length_object_bytes. Qed.

Lemma load_ping ts : fits 8 ts -> ping_timestamp (load (ping_packet ts)) = htobe64 ts.
Proof.
  intros Hts. unfold ping_packet. rewrite <- (app_nil_r (object_bytes _)).
  rewrite load_object_bytes; [done|].
  repeat constructor; try apply htobe32_fits; try apply htobe64_fits; try apply demo_type_fits; by try exact Hts.
Qed.

Lemma packet_logged this log m :
  demo_sendable m -> after (on_message get_extractor (setup_handlers this)) log (demo_packet m) = log ++ [line this m].
Proof.
  intros Hm. unfold after, on_message, dispatcher_, get_extractor.
  pose proof (demo_packet_framed m Hm) as Hfr. destruct m as [ts|text]; cbn [demo_packet demo_sendable line] in *.
  - destruct (handle_ping_return this log (ping_packet ts)) as [m' Hcall];
      [by rewrite length_ping_packet|].
    assert (sizeof wire_header <= length (ping_packet ts))%nat as Hlen8 by exact (proj1 (framed_length _ Hfr)).
    assert (sizeof Ping <= length (ping_packet ts))%nat as Hlen by by rewrite length_ping_packet.
    rewrite (dispatched_return (setup_handlers this) extract log (ping_packet ts) _ _ m'
               Hlen8 (ping_registered this ts) Hlen Hcall).
    by rewrite load_ping, be64toh_htobe64.
  - destruct (handle_text_framed this log (text_packet text) Hfr) as [m' Hcall].
    assert (sizeof wire_header <= length (text_packet text))%nat as Hlen8 by exact (proj1 (framed_length _ Hfr)).
    assert (sizeof TextMsg <= length (text_packet text))%nat as Hlen by exact Hlen8.
    rewrite (dispatched_return (setup_handlers this) extract log (text_packet text) _ _ m'
               Hlen8 (text_registered this text Hm) Hlen Hcall).
    do 3 f_equal. rewrite text_packet_frame by done. unfold frame.
    apply drop_app_length'. by rewrite length_object_bytes.
Qed.

#[export] Instance demo_protocol this : WireProtocol extract (setup_handlers this) demo_message := {|
  packet := demo_packet; sendable := demo_sendable; effect := fun log m => log ++ [line this m];
  packet_framed := demo_packet_framed; packet_effect := packet_logged this;
  handlers_quiet := demo_handlers_quiet this;
|}.

Lemma demo_on_connected_greets :
  greets on_connected [ping_packet 123456789; text_packet greeting_text].
Proof. split; intros; [by repeat (split; [done|intros ?])|done]. Qed.


End Demo.

(** ** Properties *)

Section Properties.

Context `{!Host, !CircularBuffer}.

(** The demo application's handlers are safe on a TCP connection.  Whatever bytes
    a peer sends, no message that reaches them makes them read past it, throw or fail
    to return: together with the dispatcher's size check, the framing function keeps
    the lengths in the headers true.  So everything that is proved of well-behaved
    applications holds of this one. *)
Theorem demo_app_wf this : app_wf extract (setup_handlers this) Return.
Proof.
  split; [apply extract_limits| |done]. intros log m r Hm.
  unfold setup_handlers. cbn [last_reg].
  case_decide; [|case_decide; [|done]]; intros [= <-]; cbn [reg_size reg_handler reg_of]; intros Hlen.
  - by destruct (handle_text_framed this log m Hm) as [m' ->].
  - by destruct (handle_ping_return this log m Hlen) as [m' ->].
Qed.

(** The demo's protocol.  Pings and texts of any content (texts up to the size
    limit), laid out the way the client lays them out, and sent over a connection that
    has so far carried any part of them, in reads of any size: the server has logged
    exactly the first so many of them, with their timestamps and texts, in order; all
    of them once everything has arrived; and it reads on. *)
Theorem demo_log this ms cs s :
  Forall demo_sendable ms -> Forall (fun c => 0 < size_of c <= 65536) cs ->
  concat cs `prefix_of` concat (demo_packet <$> ms) ->
  exists r' s' k,
    received extract (setup_handlers this) cs s = Ret (r', s') /\ is_Some (read_op r') /\
    TcpSession.app s' = TcpSession.app s ++ (line this <$> take k ms) /\
    (concat cs = concat (demo_packet <$> ms) -> TcpSession.app s' = TcpSession.app s ++ (line this <$> ms)).
Proof.
  intros Hms Hcs Hpre.
  destruct (protocol_received (WireProtocol0 := demo_protocol this) extract (setup_handlers this) ms cs s Hms Hcs Hpre) as (r' & s' & k & Hrcv).
  exists r', s', k. by rewrite <- !foldl_log.
Qed.

(** C5: the demo, end to end.  The client's one call of [connect], whatever happens
    to it, and what has arrived of its bytes at the server's connection, in whatever
    pieces: the server's log is a prefix of the ping with its timestamp and the text,
    and is both of them once all the bytes of the two messages are there. *)
Theorem demo_end_to_end this n resolve_ec opens conn_res client es c cs s :
  (n <= pool_capacity)%nat ->
  run_demo_client n resolve_ec opens = Ret (Some (conn_res, client)) ->
  Forall only_callback_sends es ->
  client_run (client_framing client) (client_timeout client) (client_on_receive client) (Some on_connected) es
    (client_state client) = Some c ->
  Forall (fun c => 0 < size_of c <= 65536) cs -> concat cs `prefix_of` wire (tx (ep (session_ c))) ->
  exists r' s' k,
    received extract (setup_handlers this) cs s = Ret (r', s') /\ is_Some (read_op r') /\
    TcpSession.app s' = TcpSession.app s ++
      take k [ProcessedPing (role this) 123456789; ProcessedText (role this) greeting_text] /\
    (concat cs = ping_packet 123456789 ++ text_packet greeting_text ->
     TcpSession.app s' = TcpSession.app s ++
       [ProcessedPing (role this) 123456789; ProcessedText (role this) greeting_text]).
Proof.
  intros Hn Hclient Hes Hrun Hcs Hpre.
  cbn [run_demo_client create_tcp_client mbind outcome_bind operator_bool has_value of_value value negb] in Hclient.
  destruct (connect _ _ _) as [res st] eqn:Hconn. injection Hclient as <- <-.
  cbn [client_framing client_timeout client_on_receive client_state] in *.
  destruct (connect_sends (FramingConfig 8 default_max_message_size (Some size_lambda)) 0 size_lambda
              on_connected [ping_packet 123456789; text_packet greeting_text] n [] resolve_ec opens es c)
    as (_ & _ & Hwire); [done|done|split; split; by vm_compute|apply demo_on_connected_greets|done| |].
  { change (client_init n []) with (client_init n ([] : list client_line)) in Hconn.
    by rewrite Hconn. }
  destruct (protocol_received (WireProtocol0 := demo_protocol this) extract (setup_handlers this) [PingMessage 123456789; TextMessage greeting_text] cs s)
    as (r' & s' & k & Hread & Hop & Happ & Hall).
  { repeat constructor; by vm_compute. }
  { exact Hcs. }
  { by etrans. }
  exists r', s', k. split; [exact Hread|]. split; [exact Hop|]. cbn [effect demo_protocol] in Happ, Hall.
  rewrite foldl_log in Happ, Hall. split; [by rewrite Happ, fmap_take|].
  intros Heq. apply Hall. rewrite Heq. cbn [fmap list_fmap packet demo_protocol demo_packet List.concat].
  by rewrite app_nil_r.
Qed.

End Properties.

(** ** Witnesses

    A little-endian host.  The demo runs: its client connects, the ping goes out, and
    arrives in two pieces. *)

#[local] Existing Instance overwriting_buffer.
#[local] Instance little_endian_host : Host := LittleEndian.

Definition demo_server : AppConfig := MakeAppConfig ServerRole TCP "127.0.0.1" 8080 0.

Definition demo_server_connection : endpoint nat (list log_line) := ep (connection_init 2 []).

Lemma demo_log_witness :
  exists r' s' k,
    received extract (setup_handlers demo_server) [take 9 (ping_packet 7); drop 9 (ping_packet 7) ++ [x00]]
      demo_server_connection = Ret (r', s') /\
    TcpSession.app s' = take k [ProcessedPing ServerRole 7; ProcessedText ServerRole [x61]].
Proof.
  destruct (demo_log demo_server [PingMessage 7; TextMessage [x61]]
              [take 9 (ping_packet 7); drop 9 (ping_packet 7) ++ [x00]] demo_server_connection)
    as (r' & s' & k & Hrun & _ & Happ & _).
  - constructor; [by vm_compute|]. constructor; [by vm_compute|constructor].
  - repeat constructor; by vm_compute.
  - exists (drop 1 (text_packet [x61])). vm_compute. reflexivity.
  - exists r', s', k. split; [exact Hrun|]. rewrite fmap_take in Happ. exact Happ.
Defined.

Definition demo_client_schedule : list client_event :=
  KConnectDone 0 ::
  session_events (SSendPath <$> [EvRunPosted; EvRunPosted] ++ replicate 16 EvTransmit).

Definition demo_client_start : client (A := list client_line) := (connect 0 true (client_init 2 [])).2.

Abbreviation demo_client_run :=
  (client_run (FramingConfig 8 default_max_message_size (Some size_lambda)) 0 None (Some on_connected)).

Definition demo_client_end : client :=
  default demo_client_start (demo_client_run demo_client_schedule demo_client_start).

Lemma demo_end_to_end_witness :
  exists r' s' k,
    received extract (setup_handlers demo_server) [take 9 (ping_packet 123456789); drop 9 (ping_packet 123456789)]
      demo_server_connection = Ret (r', s') /\
    TcpSession.app s' = take k [ProcessedPing ServerRole 123456789; ProcessedText ServerRole greeting_text].
Proof.
  destruct (demo_end_to_end demo_server 2 0 true ok
              (MakeTcpClient (FramingConfig 8 default_max_message_size (Some size_lambda)) 0 None demo_client_start)
              demo_client_schedule demo_client_end
              [take 9 (ping_packet 123456789); drop 9 (ping_packet 123456789)] demo_server_connection)
    as (r' & s' & k & Hrun & _ & Happ & _).
  - exact small_pool.
  - reflexivity.
  - repeat constructor.
  - apply some_default. vm_compute. reflexivity.
  - repeat constructor; by vm_compute.
  - exists []. vm_compute. reflexivity.
  - exists r', s', k. split; [exact Hrun|exact Happ].
Defined.
