(* ===== verification/SensorNetwork.v ===== *)
(** * examples/02_sensor_network_udp.cpp

    A UDP server application that logs telemetry and alerts, and the sensor nodes that
    send them.  Floats are IEEE binary32 as in the standard's [SpecFloat]; they travel
    as their bit patterns. *)

From S2P Require Import Prelude Framing Structs Expected SendPipeline Callbacks Dispatcher.
From S2P Require Import TcpSession ConnectSend EndToEnd UdpEndpoint UdpSession UdpThread Factory Application DatagramApp WireHeader.
From Stdlib Require Import ZArith Lia String SpecFloat.

Open Scope Z_scope.

#[local] Abbreviation length := Datatypes.length.
#[local] Abbreviation concat := List.concat.

(** ** Messages *)

(** [enum class SensorMsgType : uint32_t]. *)
Definition SensorMsgType_Telemetry : Z := 100.
Definition SensorMsgType_StatusAlert : Z := 101.

(** [struct SensorHeader]. *)
Definition SensorHeader : Type := wire_header.

(** The float members are given by their bits. *)
Record TelemetryPacket := MkTelemetryPacket {
  tp_header : SensorHeader; tp_sensor_id : Z; tp_temperature : Z; tp_humidity : Z;
}.

Record AlertPacket := MkAlertPacket { ap_header : SensorHeader; ap_sensor_id : Z }.

#[export] Instance TelemetryPacket_packed : Packed TelemetryPacket.
Proof.
  refine {|
    widths := [4; 4; 4; 4; 4]%nat;
    fields p := [h_type (tp_header p); h_length (tp_header p); tp_sensor_id p; tp_temperature p; tp_humidity p];
    of_fields vs :=
      match vs with
      | [t; l; i; c; h] => MkTelemetryPacket (MkHeader t l) i c h
      | _ => MkTelemetryPacket (MkHeader 0 0) 0 0 0
      end;
  |}; [done|intros [[]]; reflexivity|solve_fields].
Defined.

#[export] Instance AlertPacket_packed : Packed AlertPacket.
Proof.
  refine {|
    widths := [4; 4; 4]%nat;
    fields p := [h_type (ap_header p); h_length (ap_header p); ap_sensor_id p];
    of_fields vs := match vs with [t; l; i] => MkAlertPacket (MkHeader t l) i | _ => MkAlertPacket (MkHeader 0 0) 0 end;
  |}; [done|intros [[]]; reflexivity|solve_fields].
Defined.

(** ** Floats *)

(** The bit pattern of a binary32; for a NaN the usual quiet one. *)
Definition float_bits (x : spec_float) : Z :=
  let sign (s : bool) := if s then 2 ^ 31 else 0 in
  wrap 32
    match x with
    | S754_zero s => sign s
    | S754_infinity s => sign s + 255 * 2 ^ 23
    | S754_nan => 255 * 2 ^ 23 + 2 ^ 22
    | S754_finite s m e =>
        sign s + if 2 ^ 23 <=? Z.pos m then (e + 150) * 2 ^ 23 + (Z.pos m - 2 ^ 23) else Z.pos m
    end.

(** An integer converted to [float]. *)
Definition float_of_Z (z : Z) : spec_float := binary_normalize 24 128 z 0 false.

Definition fadd : spec_float -> spec_float -> spec_float := SFadd 24 128.
Definition fmul : spec_float -> spec_float -> spec_float := SFmul 24 128.

Lemma float_bits_fit x : fits 4 (float_bits x).
Proof. apply (wrap_range 32). lia. Qed.

(** [22.5f] and [22.5f + 1]. *)
Example float_bits_22_5 : float_bits (S754_finite false 11796480 (-19)) = 0x41b40000.
Proof. reflexivity. Qed.

Example float_bits_23_5 :
  float_bits (fadd (S754_finite false 11796480 (-19)) (float_of_Z 1)) = 0x41bc0000.
Proof. reflexivity. Qed.

Section Sensors.

Context `{!Host}.

(** ** The aggregator *)

Inductive sensor_line :=
| ReceivedTelemetry (sensor temperature humidity : Z)
| ReceivedAlert (sensor : Z) (text : list byte)
| SafelyShuttingDown.

Definition handle_telemetry (_ : AppConfig) : RawHandler (list sensor_line) :=
  by_ref (fun log packet =>
    let s_id := be32toh (tp_sensor_id packet) in
    let temp_i := be32toh (tp_temperature packet) in
    let hum_i := be32toh (tp_humidity packet) in
    Return (log ++ [ReceivedTelemetry s_id temp_i hum_i], packet)).

(** The largest [std::string]. *)
Definition max_string : Z := 2 ^ 63 - 1.

(** [str_len] is computed in [size_t].  The string constructor throws when it is too
    large for a string, and otherwise reads [str_len] bytes behind the struct. *)
Definition handle_alert (_ : AppConfig) : RawHandler (list sensor_line).
Proof.
  refine (AppCallback
    (fun log data =>
       if (length data <? sizeof AlertPacket)%nat then Fails Undefined
       else
         let packet := load (take (sizeof AlertPacket) data) in
         let len := be32toh (h_length (ap_header packet)) in
         let s_id := be32toh (ap_sensor_id packet) in
         let msg_off := Z.of_nat (sizeof AlertPacket) in
         let str_len := len -! 4 in
         if max_string <? str_len then Fails (Raises length_error)
         else if size_of data <? msg_off + str_len then Fails Undefined
         else Return (log ++ [ReceivedAlert s_id (subspan data msg_off str_len)], data)) _).
  intros log data. cbv zeta. destruct (_ <? _)%nat; [done|]. by repeat destruct (_ <? _).
Defined.

Definition get_extractor : option (wire_header -> Z * Z) := Some extract.

Definition setup_handlers (this : AppConfig) : list (registration Z (list sensor_line)) :=
  [reg_of TelemetryPacket SensorMsgType_Telemetry (handle_telemetry this);
   reg_of AlertPacket SensorMsgType_StatusAlert (handle_alert this)].

Definition teardown (log : list sensor_line) : list sensor_line := log ++ [SafelyShuttingDown].

(** The aggregator's endpoint is a UDP one: every datagram goes to the dispatcher as
    it is. *)
Definition aggregate (this : AppConfig) : list sensor_line -> list (list byte) -> outcome (list sensor_line) :=
  serve_datagrams get_extractor (setup_handlers this).

(** ** A sensor node *)

Definition telemetry_packet (id temperature humidity : Z) : list byte :=
  object_bytes (MkTelemetryPacket (make_header SensorMsgType_Telemetry 12) (htobe32 id)
                  (htobe32 temperature) (htobe32 humidity)).

Definition alert_packet (id : Z) (text : list byte) : list byte :=
  object_bytes (MkAlertPacket (make_header SensorMsgType_StatusAlert (wrap 32 (4 + size_of text))) (htobe32 id))
  ++ text.

Inductive node_line := WakingUp (id : Z) | TransmissionFailed (id : Z) (res : send_result).

Definition temperature (base_temp : spec_float) (i : Z) : spec_float := fadd base_temp (float_of_Z i).

Definition humidity (id : Z) : spec_float :=
  fadd (float_of_Z 45) (fmul (float_of_Z id) (float_of_Z 2)).

(** The loop of five transmissions: [k] are left, [i] is the loop variable. *)
Fixpoint transmit (id : Z) (base_temp : spec_float) (k : nat) (i : Z) (log : list node_line) :
    app_prog (list node_line) :=
  match k with
  | O => Return log
  | S k =>
      CallSend (telemetry_packet id (float_bits (temperature base_temp i)) (float_bits (humidity id)))
        (fun res => transmit id base_temp k (i + 1)
           (if negb (operator_bool res) then log ++ [TransmissionFailed id res] else log))
  end.

Definition closing_msg : list byte := list_byte_of_string "Shutting down gracefully.".

(** [run_sensor_node] from the start of the context to [close]. *)
Definition run_sensor_node (id : Z) (base_temp : spec_float) : app_prog (list node_line) :=
  log ← transmit id base_temp 5 0 [WakingUp id];
  CallSend (alert_packet id closing_msg) (fun _ => Return log).

(** The endpoint it sends on; [value()] throws when [connect] failed. *)
Definition udp_client `{!CircularBuffer} {Addr} (addr0 : Addr) (n : nat) (o : os (Addr := Addr)) :
    outcome (udp Addr) :=
  var ← create_udp_client addr0 n o; value var.

(** ** What the handlers do *)

Lemma sensor_setup_handlers_add this (d : dispatcher Z wire_header (list sensor_line)) :
  registered (setup_handlers this) d =
  add_handler_member AlertPacket SensorMsgType_StatusAlert this handle_alert
    (add_handler_member TelemetryPacket SensorMsgType_Telemetry this handle_telemetry d).
Proof. done. Qed.

Lemma handle_telemetry_return this log m :
  (20 <= length m)%nat ->
  app_on_recv (handle_telemetry this) log m =
  Return (log ++ [ReceivedTelemetry (be32toh (tp_sensor_id (load m))) (be32toh (tp_temperature (load m)))
                    (be32toh (tp_humidity (load m)))], m).
Proof.
  intros Hlen. cbn [handle_telemetry by_ref app_on_recv].
  change (sizeof TelemetryPacket) with 20%nat.
  destruct (Nat.ltb_spec (length m) 20); [lia|]. cbn [mbind app_prog_bind].
  rewrite store_load by (rewrite length_take; change (sizeof TelemetryPacket) with 20%nat; lia).
  rewrite take_drop. change 20%nat with (sizeof TelemetryPacket). by rewrite load_take.
Qed.

(** [handle_alert], by what the length field announces. *)
Lemma handle_alert_cases this log m :
  (12 <= length m)%nat ->
  let len := be32toh (h_length (ap_header (load m))) in
  app_on_recv (handle_alert this) log m =
  if len <? 4 then Fails (Raises length_error)
  else if size_of m <? len + 8 then Fails Undefined
  else Return (log ++ [ReceivedAlert (be32toh (ap_sensor_id (load m))) (subspan m 12 (len - 4))], m).
Proof.
  intros Hlen len. cbn [handle_alert app_on_recv].
  rewrite load_take. change (sizeof AlertPacket) with 12%nat.
  destruct (Nat.ltb_spec (length m) 12); [lia|]. fold len.
  assert (fits 4 len) as Hl.
  { apply htobe_fits. pose proof (received_fits m ltac:(lia)) as Hl. by rewrite load_take in Hl. }
  unfold fits in Hl. change (256 ^ Z.of_nat 4) with (2 ^ 32) in Hl.
  destruct (Z.ltb_spec len 4) as [Hs|Hs].
  - unfold size_sub, wrap. replace (len - 4) with (len - 4 + 2 ^ 64 + (-1) * 2 ^ 64) by lia.
    rewrite Z.mod_add, Z.mod_small by lia.
    by destruct (Z.ltb_spec max_string (len - 4 + 2 ^ 64)) as [_|Hx]; [|unfold max_string in Hx; lia].
  - rewrite size_sub_small by (unfold is_size; lia).
    destruct (Z.ltb_spec max_string (len - 4)) as [Hx|_]; [unfold max_string in Hx; lia|].
    change (Z.of_nat 12) with 12. by replace (12 + (len - 4)) with (len + 8) by lia.
Qed.

(** ** Messages of the sensors' protocol *)

Inductive sensor_message :=
| Telemetry (id temperature humidity : Z)
| StatusAlert (id : Z) (text : list byte).

Definition datagram (m : sensor_message) : list byte :=
  match m with
  | Telemetry id t h => telemetry_packet id t h
  | StatusAlert id text => alert_packet id text
  end.

Definition sensor_log (m : sensor_message) : sensor_line :=
  match m with
  | Telemetry id t h => ReceivedTelemetry id t h
  | StatusAlert id text => ReceivedAlert id text
  end.

(** The fields fit their widths. *)
Definition sensor_fits (m : sensor_message) : Prop :=
  match m with
  | Telemetry id t h => fits 4 id /\ fits 4 t /\ fits 4 h
  | StatusAlert id text => fits 4 id /\ 4 + size_of text < 2 ^ 32
  end.

(** What a node sends. *)
Definition node_messages (id : Z) (base_temp : spec_float) : list sensor_message :=
  ((fun i => Telemetry id (float_bits (temperature base_temp i)) (float_bits (humidity id))) <$> [0; 1; 2; 3; 4])
  ++ [StatusAlert id closing_msg].

Lemma sensor_type_fits : fits 4 SensorMsgType_Telemetry /\ fits 4 SensorMsgType_StatusAlert.
Proof. split; by vm_compute. Qed.

Lemma telemetry_packet_frame id t h :
  telemetry_packet id t h =
  frame SensorMsgType_Telemetry
    (store_uint host_endian 4 (htobe32 id) ++ store_uint host_endian 4 (htobe32 t) ++
     store_uint host_endian 4 (htobe32 h)).
Proof.
  unfold telemetry_packet, frame, size_of. rewrite !length_app, !length_store_uint.
  unfold object_bytes. cbn [store packed_layout]. unfold store_packed.
  cbn [widths TelemetryPacket_packed wire_header_packed fields store_fields tp_header tp_sensor_id
       tp_temperature tp_humidity make_header h_type h_length].
  change (drop 4 (drop 4 (replicate (sizeof wire_header) _))) with ([] : list byte).
  change (drop 4 (drop 4 (drop 4 (drop 4 (drop 4 _))))) with ([] : list byte).
  rewrite !app_nil_r. by rewrite <- !app_assoc.
Qed.

Lemma alert_packet_frame id text :
  4 + size_of text < 2 ^ 32 ->
  alert_packet id text = frame SensorMsgType_StatusAlert (store_uint host_endian 4 (htobe32 id) ++ text).
Proof.
  intros Ht. pose proof (size_of_nonneg text). unfold alert_packet, frame.
  rewrite wrap_small by lia. rewrite size_of_app. unfold size_of at 2. rewrite length_store_uint.
  unfold object_bytes. cbn [store packed_layout]. unfold store_packed.
  cbn [widths AlertPacket_packed wire_header_packed fields store_fields ap_header ap_sensor_id
       make_header h_type h_length].
  change (drop 4 (drop 4 (replicate (sizeof wire_header) _))) with ([] : list byte).
  change (drop 4 (drop 4 (drop 4 _))) with ([] : list byte).
  rewrite !app_nil_r. by rewrite <- !app_assoc.
Qed.

Lemma load_telemetry id t h :
  fits 4 id -> fits 4 t -> fits 4 h ->
  load (telemetry_packet id t h) =
  MkTelemetryPacket (make_header SensorMsgType_Telemetry 12) (htobe32 id) (htobe32 t) (htobe32 h).
Proof.
  intros. unfold telemetry_packet. rewrite <- (app_nil_r (object_bytes _)).
  apply load_object_bytes. repeat constructor; by apply htobe32_fits || (apply htobe32_fits; by vm_compute).
Qed.

Lemma load_alert id text :
  fits 4 id -> 4 + size_of text < 2 ^ 32 ->
  load (alert_packet id text) =
  MkAlertPacket (make_header SensorMsgType_StatusAlert (4 + size_of text)) (htobe32 id).
Proof.
  intros Hid Ht. pose proof (size_of_nonneg text). unfold alert_packet. rewrite wrap_small by lia.
  apply load_object_bytes. destruct sensor_type_fits.
  assert (fits 4 (4 + size_of text)) by (unfold fits; change (256 ^ Z.of_nat 4) with (2 ^ 32); lia).
  do 3 (constructor; [by apply htobe32_fits|]). constructor.
Qed.

Lemma length_telemetry id t h : length (telemetry_packet id t h) = 20%nat.
Proof. unfold telemetry_packet. by rewrite length_object_bytes. Qed.

Lemma length_alert id text : length (alert_packet id text) = (12 + length text)%nat.
Proof. unfold alert_packet. by rewrite length_app, length_object_bytes. Qed.

(** The types select the handlers. *)
Lemma registered_of this type body :
  fits 4 type -> fits 4 (size_of body) ->
  last_reg (extract (load (take (sizeof wire_header) (frame type body)))).1 (setup_handlers this) =
  last_reg type (setup_handlers this).
Proof. intros. by rewrite extract_frame. Qed.

Lemma datagram_logged this log m :
  sensor_fits m ->
  app_on_recv (on_message get_extractor (setup_handlers this)) log (datagram m) =
  Return (log ++ [sensor_log m], datagram m).
Proof.
  destruct sensor_type_fits as [Hty1 Hty2]. unfold on_message, dispatcher_, get_extractor.
  destruct m as [id t h|id text]; cbn [datagram sensor_log sensor_fits].
  - intros (Hi & Ht & Hh).
    assert (sizeof TelemetryPacket <= length (telemetry_packet id t h))%nat as Hlen by by rewrite length_telemetry.
    assert (sizeof wire_header <= length (telemetry_packet id t h))%nat as Hlen8.
    { etrans; [|exact Hlen]. change (8 <= 20)%nat. lia. }
    apply (dispatched_return (setup_handlers this) extract log _
             (reg_of TelemetryPacket SensorMsgType_Telemetry (handle_telemetry this)));
      [exact Hlen8| |exact Hlen|].
    + rewrite telemetry_packet_frame, registered_of; [done|done|].
      unfold size_of. rewrite !length_app, !length_store_uint. by vm_compute.
    + cbn [reg_handler reg_of]. rewrite handle_telemetry_return, load_telemetry by done.
      cbn [tp_sensor_id tp_temperature tp_humidity]. by rewrite !be32toh_htobe32.
  - intros (Hi & Ht). pose proof (size_of_nonneg text).
    assert (sizeof AlertPacket <= length (alert_packet id text))%nat as Hlen.
    { rewrite length_alert. change (sizeof AlertPacket) with 12%nat. lia. }
    assert (sizeof wire_header <= length (alert_packet id text))%nat as Hlen8.
    { etrans; [|exact Hlen]. change (8 <= 12)%nat. lia. }
    assert (fits 4 (4 + size_of text)) as Hf.
    { unfold fits. change (256 ^ Z.of_nat 4) with (2 ^ 32). lia. }
    apply (dispatched_return (setup_handlers this) extract log _
             (reg_of AlertPacket SensorMsgType_StatusAlert (handle_alert this)));
      [exact Hlen8| |exact Hlen|].
    + rewrite alert_packet_frame, registered_of; [done|done| |done].
      rewrite size_of_app. unfold size_of at 1. by rewrite length_store_uint.
    + cbn [reg_handler reg_of]. rewrite handle_alert_cases, load_alert by done.
      cbn [ap_header ap_sensor_id make_header h_length]. rewrite !be32toh_htobe32 by done.
      replace (4 + size_of text <? 4) with false by lia.
      assert (size_of (alert_packet id text) = 12 + size_of text) as Hs by (unfold size_of; rewrite length_alert; lia).
      rewrite Hs. replace (12 + size_of text <? 4 + size_of text + 8) with false by lia.
      do 3 f_equal. f_equal. f_equal. unfold subspan, alert_packet.
      rewrite drop_app_length' by by rewrite length_object_bytes. apply take_ge. unfold size_of. lia.
Qed.

Lemma aggregate_messages this log ms :
  Forall sensor_fits ms -> aggregate this log (datagram <$> ms) = Ret (log ++ (sensor_log <$> ms)).
Proof.
  unfold aggregate. intros Hms. revert log.
  induction Hms as [|m ms Hm _ IH]; intros log; cbn [fmap list_fmap serve_datagrams].
  { by rewrite app_nil_r. }
  rewrite datagram_logged by done. cbn [run_refused mbind outcome_bind]. by rewrite IH, <- app_assoc.
Qed.

Lemma node_messages_fit id base_temp : fits 4 id -> Forall sensor_fits (node_messages id base_temp).
Proof.
  intros Hid. apply Forall_app. split.
  - apply Forall_fmap, Forall_true. intros i.
    split; [exact Hid|]. split; apply float_bits_fit.
  - constructor; [|constructor]. split; [exact Hid|by vm_compute].
Qed.

Lemma transmit_sends id base_temp k i log :
  sends (transmit id base_temp k i log)
    ((fun j => telemetry_packet id (float_bits (temperature base_temp (i + j))) (float_bits (humidity id)))
     <$> (Z.of_nat <$> seq 0 k)).
Proof.
  revert i log. induction k as [|k IH]; intros i log; [done|].
  cbn [transmit seq fmap list_fmap sends]. rewrite Z.add_0_r. split; [done|]. intros res.
  eapply eq_ind; [apply IH|]. rewrite <- fmap_S_seq, <- !list_fmap_compose. apply list_fmap_ext.
  intros _ j _. unfold compose. by replace (i + 1 + Z.of_nat j) with (i + Z.of_nat (S j)) by lia.
Qed.

Lemma run_sensor_node_sends id base_temp :
  sends (run_sensor_node id base_temp) (datagram <$> node_messages id base_temp).
Proof.
  unfold node_messages. rewrite fmap_app. apply sends_bind; [apply transmit_sends|done].
Qed.

(** ** The nodes' endpoints and the aggregator's *)

Context `{!CircularBuffer} {Addr : Type} (addr0 : Addr).

(** One execution of a node: its endpoint when [run_sensor_node] begins to send, what
    happens then, and where that leads. *)
Record node := Node {
  node_id : Z; node_base : spec_float;
  node_start : udp Addr; node_events : list (tevent (Addr := Addr));
  node_end : user_thread (Addr := Addr) (R := list node_line);
}.

Definition node_runs (n : nat) (nd : node) : Prop :=
  fits 4 (node_id nd) /\ ureachable addr0 n (node_start nd) /\
  uthreads (node_start nd) = ∅ /\ uaccepted (node_start nd) = [] /\
  thread_run (node_events nd)
    (UserThread (node_start nd) (run_sensor_node (node_id nd) (node_base nd)) false) = Some (node_end nd).

(** What a node's messages are, and what has left its socket. *)
Definition messages_of (nd : node) : list sensor_message := node_messages (node_id nd) (node_base nd).

Definition left_node (nd : node) : list (list byte) := (uwire (tep (node_end nd))).*1.

Lemma left_node_messages n nd d :
  (n <= queue_capacity)%nat -> node_runs n nd -> d ∈ left_node nd ->
  exists m, m ∈ messages_of nd /\ d = datagram m /\ sensor_fits m.
Proof.
  intros Hn (Hid & Hr & Ht & Ha & Hrun) Hd.
  destruct (thread_accepted addr0 n _ _ _ _ _ Hn Hr (run_sensor_node_sends _ _) Ht Ha Hrun) as (_ & _ & Hw).
  unfold left_node in Hd.
  assert (d ∈ datagram <$> messages_of nd) as (m & -> & Hm)%list_elem_of_fmap.
  { by eapply elem_of_submseteq; [exact Hd|apply sublist_submseteq]. }
  exists m. split; [done|]. split; [done|].
  pose proof (node_messages_fit (node_id nd) (node_base nd) Hid) as Hfit.
  rewrite Forall_forall in Hfit. by apply Hfit.
Qed.

Lemma arrivals_are_messages n nodes ds :
  (n <= queue_capacity)%nat -> Forall (node_runs n) nodes ->
  Forall (fun d => exists nd, nd ∈ nodes /\ d ∈ left_node nd) ds ->
  exists ms, ds = datagram <$> ms /\ Forall sensor_fits ms /\
    Forall (fun m => exists nd, nd ∈ nodes /\ m ∈ messages_of nd) ms.
Proof.
  intros Hn Hnodes. induction 1 as [|d ds (nd & Hnd & Hd) _ (ms & -> & Hf & Hms)].
  { exists []. split; [done|]. split; constructor. }
  rewrite Forall_forall in Hnodes.
  destruct (left_node_messages n nd d Hn (Hnodes nd Hnd) Hd) as (m & Hm & -> & Hfit).
  exists (m :: ms). split; [done|]. split; [by constructor|]. constructor; [|done]. by exists nd.
Qed.

(** The aggregator's receive callback. *)
Definition aggregator_callback (this : AppConfig) : udp_callback Addr (list sensor_line) :=
  datagram_callback (on_message get_extractor (setup_handlers this)).

End Sensors.

(** ** Properties *)

Section Properties.

Context `{!Host}.

(** The sensor network.  Each node sends five telemetry datagrams, with the
    temperature rising by one from its base and the humidity of its id, and an alert.
    Whatever of the datagrams of any nodes UDP delivers, in whatever order, repeated
    or lost, the aggregator logs each one that arrives with exactly the sensor, the
    float values and the text that were sent, and faults on none. *)
Theorem sensors_logged this (nodes : list (Z * spec_float)) (ms : list sensor_message) :
  Forall (fun node => fits 4 node.1) nodes ->
  Forall (fun m => exists node, node ∈ nodes /\ m ∈ node_messages node.1 node.2) ms ->
  (forall node, sends (run_sensor_node node.1 node.2) (datagram <$> node_messages node.1 node.2)) /\
  aggregate this [] (datagram <$> ms) = Ret (sensor_log <$> ms).
Proof.
  intros Hn Hms. split; [intros node; apply run_sensor_node_sends|].
  apply (aggregate_messages this []). eapply Forall_impl; [exact Hms|]. intros m (node & Hin & Hm).
  rewrite Forall_forall in Hn. pose proof (node_messages_fit node.1 node.2 (Hn node Hin)) as Hfit.
  rewrite Forall_forall in Hfit. by apply Hfit.
Qed.

(** C38: the sensor network end to end.  Any number of nodes run their program on their
    endpoints, whatever the strands, the sockets and the network do meanwhile, and of the
    datagrams that have left them any arrive at the aggregator's endpoint, in any order,
    repeated or not.  At any time of any run of that endpoint what has been logged is
    exactly what has been received, each line with the sensor, the float values and the
    text that one of the nodes put into its message. *)
Theorem sensor_network_end_to_end `{!CircularBuffer} {Addr} (addr0 : Addr) this n k nodes es s :
  (n <= pool_capacity)%nat -> Forall (node_runs addr0 n) nodes ->
  Forall never_connects es ->
  usess_run (aggregator_callback this) es (usess_init addr0 k []) = Some s ->
  Forall (fun d => exists nd, nd ∈ nodes /\ d ∈ left_node nd) (UdpEndpoint.received (uep s)).*1 ->
  exists ms, Forall (fun m => exists nd, nd ∈ nodes /\ m ∈ messages_of nd) ms /\
    (UdpEndpoint.received (uep s)).*1 = datagram <$> ms /\ uown s = sensor_log <$> ms.
Proof.
  intros Hn%udp_pool_fits Hnodes Hes Hrun Harr.
  destruct (arrivals_are_messages addr0 n nodes _ Hn Hnodes Harr) as (ms & Hds & Hfit & Hms).
  exists ms. split; [exact Hms|]. split; [exact Hds|].
  destruct (run_serving get_extractor (setup_handlers this) [] es (usess_init addr0 k []) s Hes)
    as [_ Hserve]; [by apply serving_init|exact Hrun|].
  rewrite Hds in Hserve. pose proof (aggregate_messages this [] ms Hfit) as Hagg.
  unfold aggregate in Hagg. rewrite Hagg in Hserve. by injection Hserve as <-.
Qed.

(** C39: the aggregator trusts the length field of an alert.  Nothing checks it on the
    way of a datagram: one that announces less than four bytes makes the handler throw
    [std::length_error], one that announces more than it holds makes it read past the
    end; otherwise the text is what was announced, which may leave out bytes that came.
    Behind the framing of a TCP endpoint the same handler would be safe. *)
Theorem alert_trusts_length this log m :
  (12 <= length m)%nat -> (extract (load (take (sizeof wire_header) m))).1 = SensorMsgType_StatusAlert ->
  let len := be32toh (h_length (ap_header (load m))) in
  aggregate this log [m] =
    (if len <? 4 then Throw length_error
     else if size_of m <? len + 8 then UB
     else Ret (log ++ [ReceivedAlert (be32toh (ap_sensor_id (load m))) (subspan m 12 (len - 4))])) /\
  (framed_message extract m -> exists log', aggregate this log [m] = Ret log').
Proof.
  intros Hlen Hty len.
  assert (aggregate this log [m] =
    '(l, _) ← run_refused (app_on_recv (handle_alert this) log m); Ret l) as ->.
  { assert (sizeof wire_header <= length m)%nat as Hlen8 by (etrans; [|exact Hlen]; change (8 <= 12)%nat; lia).
    cbn [aggregate serve_datagrams]. unfold aggregate, serve_datagrams, on_message, dispatcher_, get_extractor.
    rewrite (dispatched_call (setup_handlers this) extract log m
               (reg_of AlertPacket SensorMsgType_StatusAlert (handle_alert this)) Hlen8);
      [|by rewrite Hty|exact Hlen].
    cbn [reg_handler reg_of]. rewrite handle_alert_cases by done. fold len.
    destruct (len <? 4); [done|]. by destruct (size_of m <? len + 8). }
  rewrite handle_alert_cases by done. fold len. split.
  - destruct (len <? 4); [done|]. by destruct (size_of m <? len + 8).
  - intros [_ Hsize]%framed_length.
    assert (len = be32toh (h_length (load (take (sizeof wire_header) m)))) as Hl by (unfold len; by rewrite load_take).
    assert (12 <= size_of m) by (unfold size_of; lia).
    replace (len <? 4) with false by lia. replace (size_of m <? len + 8) with false by lia. eauto.
Qed.

End Properties.

(** ** Witnesses *)

#[local] Instance little_endian_host : Host := LittleEndian.

Definition aggregator : AppConfig := MakeAppConfig ServerRole UDP "127.0.0.1" 8050 0.

Definition base_22_5 : spec_float := S754_finite false 11796480 (-19).

(** The fourth and the second datagram of sensor 100 arrive, the fourth twice. *)
Definition some_messages : list sensor_message :=
  (fun k => nth k (node_messages 100 base_22_5) (StatusAlert 0 [])) <$> [3; 1; 3]%nat.

Lemma some_messages_sent :
  Forall (fun m => exists node, node ∈ [(100, base_22_5)] /\ m ∈ node_messages node.1 node.2) some_messages.
Proof.
  assert (forall k m, node_messages 100 base_22_5 !! k = Some m ->
            exists node, node ∈ [(100, base_22_5)] /\ m ∈ node_messages node.1 node.2) as Hin.
  { intros k m Hm. exists (100, base_22_5). split; [by left|]. by apply list_elem_of_lookup; exists k. }
  constructor; [by apply (Hin 3%nat)|]. constructor; [by apply (Hin 1%nat)|].
  constructor; [by apply (Hin 3%nat)|constructor].
Qed.

Lemma sensors_logged_witness :
  aggregate aggregator [] (datagram <$> some_messages) =
  Ret [ReceivedTelemetry 100 0x41cc0000 0x43750000; ReceivedTelemetry 100 0x41bc0000 0x43750000;
       ReceivedTelemetry 100 0x41cc0000 0x43750000].
Proof.
  assert (Forall (fun node => fits 4 node.1) [(100, base_22_5)]) as Hid by (constructor; [by vm_compute|constructor]).
  rewrite (proj2 (sensors_logged aggregator [(100, base_22_5)] some_messages Hid some_messages_sent)).
  vm_compute. reflexivity.
Defined.

(** Sensor 100 has called [send] once and its datagram arrives twice. *)
#[local] Existing Instance overwriting_buffer.

Definition first_transmission : list (tevent (Addr := nat)) :=
  send_steps ++ [TEndpoint URunPosted; TEndpoint UTransmit].

Definition node_thread : user_thread (Addr := nat) (R := list node_line) :=
  UserThread connected_udp (run_sensor_node 100 base_22_5) false.

Definition sensor_100 : node (Addr := nat) :=
  Node 100 base_22_5 connected_udp first_transmission (default node_thread (thread_run first_transmission node_thread)).

Lemma sensor_100_runs : node_runs 0%nat 2 sensor_100.
Proof.
  split; [by vm_compute|]. split.
  { by apply (ureach_step _ _ (udp_init 0%nat 2) (UConnect lan)); [constructor|]. }
  split; [reflexivity|]. split; [reflexivity|].
  assert ((if thread_run first_transmission node_thread is Some _ then true else false) = true) as H
    by (vm_compute; reflexivity).
  unfold sensor_100. cbn [node_end node_start node_events node_id node_base]. unfold node_thread in *.
  by destruct (thread_run _ _).
Qed.

Definition first_datagram : list byte := nth 0 (left_node sensor_100) [].

Definition aggregator_events : list (uevent nat) :=
  echo_setup ++ [UReceive false false first_datagram 7%nat; UReceive false false first_datagram 7%nat].

Definition aggregator_session : usession (Addr := nat) (A := list sensor_line) :=
  default (usess_init 0%nat 1 [])
    (usess_run (aggregator_callback aggregator) aggregator_events (usess_init 0%nat 1 [])).

Lemma aggregator_session_run :
  usess_run (aggregator_callback aggregator) aggregator_events (usess_init 0%nat 1 []) = Some aggregator_session.
Proof.
  assert ((if usess_run (aggregator_callback aggregator) aggregator_events (usess_init 0%nat 1 [])
           is Some _ then true else false) = true) as H by (vm_compute; reflexivity).
  unfold aggregator_session. by destruct (usess_run _ _ _).
Qed.

Lemma first_datagram_left d :
  d ∈ (UdpEndpoint.received (uep aggregator_session)).*1 ->
  exists nd, nd ∈ [sensor_100] /\ d ∈ left_node nd.
Proof.
  assert ((UdpEndpoint.received (uep aggregator_session)).*1 = [first_datagram; first_datagram]) as ->
    by (vm_compute; reflexivity).
  intros Hd. exists sensor_100. split; [by left|].
  assert (d = first_datagram) as -> by set_solver.
  assert (left_node sensor_100 = [first_datagram]) as -> by (vm_compute; reflexivity). by left.
Qed.

Lemma sensor_network_end_to_end_witness :
  exists ms, (UdpEndpoint.received (uep aggregator_session)).*1 = datagram <$> ms /\
    [ReceivedTelemetry 100 0x41b40000 0x43750000; ReceivedTelemetry 100 0x41b40000 0x43750000] = sensor_log <$> ms.
Proof.
  destruct (sensor_network_end_to_end 0%nat aggregator 2 1 [sensor_100] aggregator_events aggregator_session
              small_pool) as (ms & _ & Hr & Hl).
  - constructor; [exact sensor_100_runs|constructor].
  - repeat constructor.
  - exact aggregator_session_run.
  - apply Forall_forall. exact first_datagram_left.
  - exists ms. split; [exact Hr|]. rewrite <- Hl. vm_compute. reflexivity.
Defined.

(** Twelve bytes that announce nothing. *)
Definition lying_alert : list byte :=
  object_bytes (MkAlertPacket (make_header SensorMsgType_StatusAlert 0) (htobe32 7)).

Lemma alert_trusts_length_witness : aggregate aggregator [] [lying_alert] = Throw length_error.
Proof.
  assert (12 <= length lying_alert)%nat as Hlen by (apply Nat.leb_le; vm_compute; reflexivity).
  assert ((extract (load (take (sizeof wire_header) lying_alert))).1 = SensorMsgType_StatusAlert) as Hty
    by (vm_compute; reflexivity).
  rewrite (proj1 (alert_trusts_length aggregator [] lying_alert Hlen Hty)).
  vm_compute. reflexivity.
Defined.

(** One that announces a text it does not carry. *)
Example alert_read_past_end :
  aggregate aggregator []
    [object_bytes (MkAlertPacket (make_header SensorMsgType_StatusAlert 1000) (htobe32 7))] = UB.
Proof. vm_compute. reflexivity. Qed.
