(* ===== verification/HybridGateway.v ===== *)
(** * examples/03_hybrid_gateway.cpp

    A TCP server application whose handler forwards every directive to a UDP endpoint of
    its own, the user interface that sends the directives, and the microcontroller that
    receives what is forwarded.  The application's state is the list of what its
    handler did: the lines it logged and its calls of the relay's [send], in order; on the
    relay's endpoint these are the program of one thread ([relay_program]). *)

From S2P Require Import Prelude Framing Structs Expected SendPipeline Callbacks Dispatcher.
From S2P Require Import TcpSession TcpConnection TcpClient ConnectSend EndToEnd UdpEndpoint UdpSession UdpThread Factory.
From S2P Require Import Application WireHeader.
From Stdlib Require Import ZArith Lia String.
From stdpp Require Import pretty.

Open Scope Z_scope.

#[local] Abbreviation length := Datatypes.length.
#[local] Abbreviation concat := List.concat.

(** ** Messages *)

(** [enum class GatewayMsgType : uint32_t]. *)
Definition GatewayMsgType_StateChange : Z := 50.

(** [struct GatewayHeader]. *)
Definition GatewayHeader : Type := wire_header.

Record StateDirective := MkStateDirective { sd_header : GatewayHeader; sd_new_state : Z }.

#[export] Instance StateDirective_packed : Packed StateDirective.
Proof.
  refine {|
    widths := [4; 4; 4]%nat;
    fields p := [h_type (sd_header p); h_length (sd_header p); sd_new_state p];
    of_fields vs :=
      match vs with [t; l; s] => MkStateDirective (MkHeader t l) s | _ => MkStateDirective (MkHeader 0 0) 0 end;
  |}; [done|intros [[]]; reflexivity|solve_fields].
Defined.

Section Gateway.

Context `{!Host}.

(** ** [HybridRelay] *)

Inductive gateway_action :=
| SwitchingState (state : Z)
| RelaySend (payload : list byte).

(** [std::to_string] of a [uint32_t]. *)
Definition to_string (state : Z) : list byte := list_byte_of_string (pretty (Z.to_N state)).

Definition alert (state : Z) : list byte := list_byte_of_string "STATE_CHANGE_" ++ to_string state.

Definition handle_state_change (_ : AppConfig) : RawHandler (list gateway_action) :=
  by_ref (fun done dir =>
    let state := be32toh (sd_new_state dir) in
    Return (done ++ [SwitchingState state; RelaySend (alert state)], dir)).

Definition get_extractor : option (wire_header -> Z * Z) := Some extract.

Definition setup_handlers (this : AppConfig) : list (registration Z (list gateway_action)) :=
  [reg_of StateDirective GatewayMsgType_StateChange (handle_state_change this)].

(** The relay: an endpoint and a context of its own.  The constructor starts the context
    only when the endpoint could be connected. *)
Definition make_relay `{!CircularBuffer} {Addr} (addr0 : Addr) (n : nat) (o : os (Addr := Addr)) :
    send_result * udp Addr * context :=
  let '(res, relay_client_) := UdpEndpoint.connect o (udp_init addr0 n) in
  (res, relay_client_,
   if negb (operator_bool res) then context_init else context_start 1 context_init).

Definition teardown {Addr} (relay_client_ : udp Addr) (background_ctx_ : context) : udp Addr * context :=
  (UdpEndpoint.close relay_client_, context_stop background_ctx_).

(** ** The user interface *)

(** Every message is taken to be a directive; none ever comes. *)
Definition size_lambda (_ : list byte) : Z := Z.of_nat (sizeof StateDirective).

Definition directive (state : Z) : list byte :=
  object_bytes (MkStateDirective (make_header GatewayMsgType_StateChange 4) (htobe32 state)).

(** The loop from [active_state], with [k] iterations left. *)
Fixpoint send_directives {A} (k : nat) (active_state : Z) (a : A) : app_prog A :=
  match k with
  | O => Return a
  | S k => CallSend (directive active_state) (fun _ => send_directives k (active_state + 1) a)
  end.

Definition on_connected {A} (res : send_result) (a : A) : app_prog A :=
  if negb (operator_bool res) then Return a else send_directives 3 1 a.

Definition tcp_cfg : ClientConfig :=
  client_config_framed TCP "127.0.0.1" 8100 (Z.of_nat (sizeof wire_header)) (Some size_lambda).

(** [run_tcp_user_interface] up to its call of [connect]; [value()] cannot fail. *)
Definition run_tcp_user_interface `{!CircularBuffer} (n : nat) (resolve_ec : Z) (opens : bool) :
    outcome (tcp_client (A := unit)) :=
  var ← create_tcp_client n tt tcp_cfg;
  c ← value var;
  let '(_, st) := TcpClient.connect resolve_ec opens (client_state c) in
  Ret (MakeTcpClient (client_framing c) (client_timeout c) (client_on_receive c) st).

(** ** The microcontroller *)

(** [run_udp_downstream_target] up to the start of its context. *)
Definition run_udp_downstream_target `{!CircularBuffer} {Addr} (addr0 : Addr) (n : nat) (o : os (Addr := Addr)) :
    outcome (udp Addr) :=
  var ← create_udp_server addr0 n o;
  endpoint ← value var;
  Ret (UdpEndpoint.start_receive (UdpEndpoint.on_receive endpoint)).

(** Its callback: the text of the datagram is logged. *)
Definition mcu_callback {Addr} : udp_callback Addr (list (list byte)) :=
  listener (fun log data => log ++ [data]).

(** The calls of the relay's [send] in what handlers have done, as a thread's program: the
    strand goes on to the next handler when a call has returned. *)
Fixpoint relay_program (done : list gateway_action) : app_prog unit :=
  match done with
  | [] => Return tt
  | SwitchingState _ :: done => relay_program done
  | RelaySend payload :: done => CallSend payload (fun _ => relay_program done)
  end.

(** ** What the handler does *)

Lemma gateway_setup_handlers_add this (d : dispatcher Z wire_header (list gateway_action)) :
  registered (setup_handlers this) d =
  add_handler_member StateDirective GatewayMsgType_StateChange this handle_state_change d.
Proof. done. Qed.

Lemma handle_state_change_return this log m :
  (12 <= length m)%nat ->
  let state := be32toh (sd_new_state (load m)) in
  app_on_recv (handle_state_change this) log m =
  Return (log ++ [SwitchingState state; RelaySend (alert state)], m).
Proof.
  intros Hlen. cbn [handle_state_change by_ref app_on_recv].
  change (sizeof StateDirective) with 12%nat.
  destruct (Nat.ltb_spec (length m) 12); [lia|]. cbn [mbind app_prog_bind].
  rewrite store_load by (rewrite length_take; change (sizeof StateDirective) with 12%nat; lia).
  rewrite take_drop. change 12%nat with (sizeof StateDirective). by rewrite load_take.
Qed.

Lemma gateway_type_fits : fits 4 GatewayMsgType_StateChange.
Proof. by vm_compute. Qed.

Lemma directive_frame state :
  directive state = frame GatewayMsgType_StateChange (store_uint host_endian 4 (htobe32 state)).
Proof.
  unfold directive, frame, size_of. rewrite length_store_uint.
  unfold object_bytes. cbn [store packed_layout]. unfold store_packed.
  cbn [widths StateDirective_packed wire_header_packed fields store_fields sd_header sd_new_state
       make_header h_type h_length].
  change (drop 4 (drop 4 (replicate (sizeof wire_header) _))) with ([] : list byte).
  change (drop 4 (drop 4 (drop 4 _))) with ([] : list byte).
  rewrite !app_nil_r. by rewrite <- app_assoc.
Qed.

Lemma length_directive state : length (directive state) = 12%nat.
Proof. unfold directive. by rewrite length_object_bytes. Qed.

Lemma load_directive state :
  fits 4 state ->
  load (directive state) = MkStateDirective (make_header GatewayMsgType_StateChange 4) (htobe32 state).
Proof.
  intros Hs. unfold directive. rewrite <- (app_nil_r (object_bytes _)). apply load_object_bytes.
  assert (fits 4 4) by by vm_compute. pose proof gateway_type_fits.
  do 3 (constructor; [by apply htobe32_fits|]). constructor.
Qed.

Lemma directive_framed state : fits 4 state -> framed_message extract (directive state).
Proof.
  intros _. rewrite directive_frame. apply frame_framed; [apply gateway_type_fits|].
  unfold size_of. by rewrite length_store_uint.
Qed.

Definition gateway_effect (log : list gateway_action) (state : Z) : list gateway_action :=
  log ++ [SwitchingState state; RelaySend (alert state)].

Lemma directive_effect this log state :
  fits 4 state ->
  after (on_message (Some extract) (setup_handlers this)) log (directive state) = gateway_effect log state.
Proof.
  intros Hs. unfold after, on_message, dispatcher_.
  assert (sizeof StateDirective <= length (directive state))%nat as Hlen by by rewrite length_directive.
  assert (sizeof wire_header <= length (directive state))%nat as Hlen8.
  { etrans; [|exact Hlen]. change (8 <= 12)%nat. lia. }
  assert (last_reg (extract (load (take (sizeof wire_header) (directive state)))).1 (setup_handlers this) =
          Some (reg_of StateDirective GatewayMsgType_StateChange (handle_state_change this))) as Hreg.
  { rewrite directive_frame, extract_frame; [done|apply gateway_type_fits|].
    unfold size_of. rewrite length_store_uint. by vm_compute. }
  rewrite (dispatched_return (setup_handlers this) extract log _ _ _ _ Hlen8 Hreg Hlen
             (handle_state_change_return this log _ Hlen)).
  unfold gateway_effect. rewrite load_directive by done. cbn [sd_new_state].
  by rewrite be32toh_htobe32.
Qed.

Lemma gateway_quiet this log m :
  framed_message extract m -> quiet (app_on_recv (on_message (Some extract) (setup_handlers this)) log m).
Proof.
  intros _. apply dispatched_quiet. intros r. unfold setup_handlers. cbn [last_reg].
  case_decide; [|done]. intros [= <-]. cbn [reg_size reg_handler reg_of]. intros Hlen.
  by rewrite (handle_state_change_return this log m Hlen).
Qed.

#[export] Instance gateway_protocol this : WireProtocol extract (setup_handlers this) Z := {|
  packet := directive; sendable := fits 4; effect := gateway_effect;
  packet_framed := directive_framed; packet_effect := directive_effect this;
  handlers_quiet := gateway_quiet this;
|}.

Lemma gateway_on_connected_greets {A} : greets (A := A) on_connected [directive 1; directive 2; directive 3].
Proof. split; intros; [by repeat (split; [done|intros ?])|done]. Qed.

(** What was relayed, in the order of the calls. *)
Definition relayed (log : list gateway_action) : list (list byte) :=
  omap (fun a => match a with RelaySend p => Some p | _ => None end) log.

Lemma relayed_effect log states : relayed (foldl gateway_effect log states) = relayed log ++ (alert <$> states).
Proof.
  revert log. induction states as [|s states IH]; intros log; simpl; [by rewrite app_nil_r|].
  rewrite IH. unfold gateway_effect, relayed. rewrite omap_app. by rewrite <- app_assoc.
Qed.

Lemma relay_program_sends log : sends (relay_program log) (relayed log).
Proof. induction log as [|[state|p] log IH]; [done|exact IH|]. by split. Qed.

Lemma make_relay_endpoint `{!CircularBuffer} {Addr} (addr0 : Addr) n o :
  let u := (make_relay addr0 n o).1.2 in
  ureachable addr0 n u /\ uthreads u = ∅ /\ uaccepted u = [].
Proof.
  unfold make_relay. destruct (UdpEndpoint.connect o (udp_init addr0 n)) as [res u] eqn:Hc. cbn [fst snd].
  pose proof (connect_same o (udp_init addr0 n)) as Hs. rewrite Hc in Hs.
  destruct Hs as (_ & _ & _ & _ & _ & Ht & Ha & _). cbn [snd] in Ht, Ha. split; [|by rewrite Ht, Ha].
  apply (ureach_step _ _ (udp_init addr0 n) (UConnect o)); [constructor|]. cbn [uexec]. by rewrite Hc.
Qed.

Lemma run_udp_downstream_target_received `{!CircularBuffer} {Addr} (addr0 : Addr) n o u :
  run_udp_downstream_target addr0 n o = Ret u -> UdpEndpoint.received u = [].
Proof.
  unfold run_udp_downstream_target. pose proof (create_udp_server_cases addr0 n o) as Hc.
  pose proof (proj1 (setup_receive o (udp_init addr0 n))) as [_ Hr].
  destruct (UdpEndpoint.bind o (udp_init addr0 n)) as [[[]|e] v]; rewrite Hc; cbn; [|done].
  intros [= <-]. unfold UdpEndpoint.start_receive. cbn [snd] in Hr. by destruct (_ || _).
Qed.

Lemma foldl_collect {B} (log l : list B) : foldl (fun log x => log ++ [x]) log l = log ++ l.
Proof.
  revert log. induction l as [|x l IH]; intros log; simpl; [by rewrite app_nil_r|].
  by rewrite IH, <- app_assoc.
Qed.

(** Different states are announced differently. *)
Lemma alert_inj s1 s2 : 0 <= s1 -> 0 <= s2 -> alert s1 = alert s2 -> s1 = s2.
Proof.
  intros H1 H2 Heq. apply app_inv_head in Heq. unfold to_string in Heq.
  assert (pretty (Z.to_N s1) = pretty (Z.to_N s2)) as Hp%(inj pretty).
  { by rewrite <- (string_of_list_byte_of_string (pretty (Z.to_N s1))), Heq, string_of_list_byte_of_string. }
  by apply Z2N.inj.
Qed.

End Gateway.

(** ** Properties *)

Section Properties.

Context `{!Host, !CircularBuffer}.

Lemma gateway_app_wf this : app_wf extract (setup_handlers this) Return.
Proof.
  split; [apply extract_limits| |done]. intros log m r _. unfold setup_handlers. cbn [last_reg].
  case_decide; [|done]. intros [= <-]. cbn [reg_size reg_handler reg_of]. intros Hlen.
  by rewrite (handle_state_change_return this log m Hlen).
Qed.

(** The gateway relays in order.  Directives for any states, of which any part has
    arrived in reads of any size: the gateway has called the relay's [send] exactly once
    for each of the first so many of them, in order, with the text that names its state,
    once for every directive when everything has arrived; and different states give
    different texts. *)
Theorem gateway_relays this states cs s :
  Forall (fits 4) states -> Forall (fun c => 0 < size_of c <= 65536) cs ->
  concat cs `prefix_of` concat (directive <$> states) ->
  exists r' s' k,
    received extract (setup_handlers this) cs s = Ret (r', s') /\ is_Some (read_op r') /\
    relayed (TcpSession.app s') = relayed (TcpSession.app s) ++ (alert <$> take k states) /\
    (concat cs = concat (directive <$> states) ->
     relayed (TcpSession.app s') = relayed (TcpSession.app s) ++ (alert <$> states)) /\
    (forall s1 s2, s1 ∈ states -> s2 ∈ states -> alert s1 = alert s2 -> s1 = s2).
Proof.
  intros Hst Hcs Hpre.
  destruct (protocol_received (WireProtocol0 := gateway_protocol this) extract (setup_handlers this) states cs s
              Hst Hcs Hpre) as (r' & s' & k & Hrun & Hop & Happ & Hall).
  exists r', s', k. split; [exact Hrun|]. split; [exact Hop|]. cbn [effect gateway_protocol] in Happ, Hall.
  split; [by rewrite Happ, relayed_effect|].
  split; [intros Heq; by rewrite (Hall Heq), relayed_effect|].
  rewrite Forall_forall in Hst. intros s1 s2 H1%Hst H2%Hst. unfold fits in *. apply alert_inj; lia.
Qed.

(** The gateway example, end to end.  Whatever happens to the user interface's one
    call of [connect], and whatever part of its bytes has reached the gateway in whatever
    pieces, what the gateway has relayed is a prefix of the three state changes, in
    order; all three once all their bytes are there. *)
Theorem gateway_end_to_end this n resolve_ec opens client es c cs s :
  (n <= pool_capacity)%nat ->
  run_tcp_user_interface n resolve_ec opens = Ret client -> Forall only_callback_sends es ->
  client_run (client_framing client) (client_timeout client) (client_on_receive client) (Some on_connected) es
    (client_state client) = Some c ->
  Forall (fun c => 0 < size_of c <= 65536) cs -> concat cs `prefix_of` wire (tx (ep (session_ c))) ->
  exists r' s' k,
    received extract (setup_handlers this) cs s = Ret (r', s') /\ is_Some (read_op r') /\
    relayed (TcpSession.app s') = relayed (TcpSession.app s) ++ take k (alert <$> [1; 2; 3]) /\
    (concat cs = concat (directive <$> [1; 2; 3]) ->
     relayed (TcpSession.app s') = relayed (TcpSession.app s) ++ (alert <$> [1; 2; 3])).
Proof.
  intros Hn Hclient Hes Hrun Hcs Hpre.
  cbn [run_tcp_user_interface create_tcp_client mbind outcome_bind of_value value] in Hclient.
  destruct (TcpClient.connect _ _ _) as [res st] eqn:Hconn. injection Hclient as <-.
  cbn [client_framing client_timeout client_on_receive client_state] in *.
  destruct (connect_sends (FramingConfig 8 default_max_message_size (Some size_lambda)) 0 size_lambda
              on_connected [directive 1; directive 2; directive 3] n tt resolve_ec opens es c)
    as (_ & _ & Hwire); [done|done|split; split; by vm_compute|apply gateway_on_connected_greets|done| |].
  { change (client_init n tt) with (client_init n tt) in Hconn. by rewrite Hconn. }
  destruct (protocol_received (WireProtocol0 := gateway_protocol this) extract (setup_handlers this) [1; 2; 3] cs s)
    as (r' & s' & k & Hread & Hop & Happ & Hall).
  { do 3 (constructor; [by vm_compute|]). constructor. }
  { exact Hcs. }
  { by etrans. }
  exists r', s', k. split; [exact Hread|]. split; [exact Hop|]. cbn [effect gateway_protocol] in Happ, Hall.
  rewrite <- fmap_take. split; [by rewrite Happ, relayed_effect|].
  intros Heq. by rewrite (Hall Heq), relayed_effect.
Qed.

(** C40: the chain of the example, from the user interface over the gateway and its
    relay to the microcontroller.  Whatever happens to the user interface's connection and
    whatever part of its bytes has arrived in whatever pieces; whatever becomes of the
    relay's endpoint while the handlers call its [send] one after another; and whichever
    of the datagrams that left it UDP delivers, in whatever order, lost or repeated: what
    has left the relay is some of the three state changes, in order and each at most once,
    and what the microcontroller has logged is only these texts, whole.  When everything has
    arrived, and the calls are through on a relay that stays connected, all three have been
    accepted for sending, in order. *)
Theorem gateway_chain {Addr Addr'} (addr0 : Addr) (addr1 : Addr')
    this n resolve_ec opens client es c cs s r' s' nr ro ts th nm mo mcu ms m :
  (n <= pool_capacity)%nat -> (nr <= pool_capacity)%nat ->
  run_tcp_user_interface n resolve_ec opens = Ret client -> Forall only_callback_sends es ->
  client_run (client_framing client) (client_timeout client) (client_on_receive client) (Some on_connected) es
    (client_state client) = Some c ->
  Forall (fun c => 0 < size_of c <= 65536) cs -> concat cs `prefix_of` wire (tx (ep (session_ c))) ->
  TcpSession.app s = [] -> received extract (setup_handlers this) cs s = Ret (r', s') ->
  thread_run ts (UserThread (make_relay addr0 nr ro).1.2 (relay_program (TcpSession.app s')) false) = Some th ->
  run_udp_downstream_target addr1 nm mo = Ret mcu ->
  usess_run mcu_callback ms (USession mcu []) = Some m ->
  Forall (fun d => d ∈ (uwire (tep th)).*1) (UdpEndpoint.received (uep m)).*1 ->
  (uwire (tep th)).*1 `sublist_of` (alert <$> [1; 2; 3]) /\
  (exists states, Forall (fun state => state ∈ [1; 2; 3]) states /\ uown m = alert <$> states) /\
  (concat cs = concat (directive <$> [1; 2; 3]) ->
   is_connected_ (make_relay addr0 nr ro).1.2 = true -> socket_open (make_relay addr0 nr ro).1.2 = true ->
   Forall thread_keeps_open ts -> tprog th = Return tt ->
   (uaccepted (tep th)).*1 = alert <$> [1; 2; 3]).
Proof.
  intros Hn Hnr%udp_pool_fits Hclient Hes Hrun Hcs Hpre Hs Hread Hth Hmcu Hm Harr.
  destruct (gateway_end_to_end this n resolve_ec opens client es c cs s Hn Hclient Hes Hrun Hcs Hpre)
    as (r1 & s1 & k & Hread1 & _ & Hrel & Hall).
  rewrite Hread in Hread1. injection Hread1 as <- <-. rewrite Hs in Hrel, Hall.
  destruct (make_relay_endpoint addr0 nr ro) as (Hr & Ht & Ha).
  destruct (thread_accepted addr0 nr _ _ _ ts th Hnr Hr (relay_program_sends _) Ht Ha Hth) as (_ & _ & Hw).
  assert ((uwire (tep th)).*1 `sublist_of` (alert <$> [1; 2; 3])) as Hw3.
  { etrans; [exact Hw|]. rewrite Hrel. apply (sublist_take _ k). }
  split; [exact Hw3|]. split.
  - pose proof (listener_run (fun log data => log ++ [data]) ms (USession mcu []) [] m) as Hl. unfold mcu_callback in Hm.
    rewrite Hl; [|cbn [uep uown]; by rewrite (run_udp_downstream_target_received addr1 nm mo mcu Hmcu)|exact Hm].
    rewrite foldl_collect. cbn [Datatypes.app]. clear -Harr Hw3.
    induction Harr as [|d ds Hd _ (states & Hst & ->)]; [by exists []|].
    assert (d ∈ alert <$> [1; 2; 3]) as (state & -> & Hstate)%list_elem_of_fmap.
    { by eapply elem_of_submseteq; [exact Hd|apply sublist_submseteq]. }
    exists (state :: states). split; [by constructor|done].
  - intros Heq Hc Ho Hes' Hret.
    destruct (thread_kept (relayed (TcpSession.app s')) _ _ ts th (relay_program_sends _) Ht Ha
                (conj Hc Ho) Hes' Hth) as [_ Hall'].
    rewrite Hall' by by exists tt. exact (Hall Heq).
Qed.

End Properties.

(** ** Witnesses

    A little-endian host; the first directive and part of the second arrive. *)

#[local] Existing Instance overwriting_buffer.
#[local] Instance little_endian_host : Host := LittleEndian.

Definition gateway : AppConfig := MakeAppConfig ServerRole TCP "127.0.0.1" 8100 0.

Definition gateway_connection : endpoint nat (list gateway_action) := ep (connection_init 2 []).

Example alert_17 : alert 17 = list_byte_of_string "STATE_CHANGE_17".
Proof. reflexivity. Qed.

Lemma gateway_relays_witness :
  exists r' s' k,
    received extract (setup_handlers gateway) [take 5 (directive 17); drop 5 (directive 17) ++ [x00]]
      gateway_connection = Ret (r', s') /\
    relayed (TcpSession.app s') = alert <$> take k [17; 18].
Proof.
  destruct (gateway_relays gateway [17; 18] [take 5 (directive 17); drop 5 (directive 17) ++ [x00]]
              gateway_connection) as (r' & s' & k & Hrun & _ & Happ & _).
  - do 2 (constructor; [by vm_compute|]). constructor.
  - repeat constructor; by vm_compute.
  - exists (drop 1 (directive 18)). vm_compute. reflexivity.
  - exists r', s', k. split; [exact Hrun|exact Happ].
Defined.

Definition ui_schedule : list client_event :=
  KConnectDone 0 ::
  session_events (SSendPath <$> [EvRunPosted; EvRunPosted; EvRunPosted] ++ replicate 12 EvTransmit).

Definition ui_start : client (A := unit) := (TcpClient.connect 0 true (client_init 3 tt)).2.

Definition ui_end : client :=
  default ui_start
    (client_run (FramingConfig 8 default_max_message_size (Some size_lambda)) 0 None (Some on_connected)
       ui_schedule ui_start).

Lemma gateway_end_to_end_witness :
  exists r' s' k,
    received extract (setup_handlers gateway) [take 5 (directive 1); drop 5 (directive 1)] gateway_connection = Ret (r', s') /\
    relayed (TcpSession.app s') = take k (alert <$> [1; 2; 3]).
Proof.
  destruct (gateway_end_to_end gateway 3 0 true
              (MakeTcpClient (FramingConfig 8 default_max_message_size (Some size_lambda)) 0 None ui_start)
              ui_schedule ui_end [take 5 (directive 1); drop 5 (directive 1)] gateway_connection)
    as (r' & s' & k & Hrun & _ & Happ & _).
  - exact three_fit.
  - reflexivity.
  - repeat constructor.
  - apply some_default. vm_compute. reflexivity.
  - repeat constructor; by vm_compute.
  - exists []. vm_compute. reflexivity.
  - exists r', s', k. split; [exact Hrun|exact Happ].
Defined.

(** The first directive has arrived; its text leaves the relay and arrives twice. *)
Definition first_relayed : rx_state * endpoint nat (list gateway_action) :=
  match received extract (setup_handlers gateway) [directive 1] gateway_connection with
  | Ret r => r
  | _ => (rx_init, gateway_connection)
  end.

Definition relay_thread : user_thread (Addr := nat) (R := unit) :=
  UserThread (make_relay 0%nat 2 lan).1.2 (relay_program (TcpSession.app first_relayed.2)) false.

Definition relay_events : list (tevent (Addr := nat)) := send_steps ++ [TEndpoint URunPosted; TEndpoint UTransmit].

Definition relay_end : user_thread := default relay_thread (thread_run relay_events relay_thread).

Definition mcu_start : udp nat :=
  match run_udp_downstream_target 0%nat 1 lan with Ret u => u | _ => udp_init 0%nat 1 end.

Definition mcu_events : list (uevent nat) :=
  [UReceive false false (alert 1) 7%nat; UReceive false false (alert 1) 7%nat].

Definition mcu_end : usession :=
  default (USession mcu_start []) (usess_run mcu_callback mcu_events (USession mcu_start [])).

Lemma gateway_chain_witness :
  exists states, Forall (fun state => state ∈ [1; 2; 3]) states /\ uown mcu_end = alert <$> states.
Proof.
  apply (gateway_chain 0%nat 0%nat gateway 3 0 true
           (MakeTcpClient (FramingConfig 8 default_max_message_size (Some size_lambda)) 0 None ui_start)
           ui_schedule ui_end [directive 1] gateway_connection first_relayed.1 first_relayed.2 2 lan relay_events
           relay_end 1 lan mcu_start mcu_events mcu_end).
  - exact three_fit.
  - exact small_pool.
  - reflexivity.
  - repeat constructor.
  - apply some_default. vm_compute. reflexivity.
  - repeat constructor; by vm_compute.
  - exists []. vm_compute. reflexivity.
  - reflexivity.
  - unfold first_relayed.
    assert ((if received extract (setup_handlers gateway) [directive 1] gateway_connection is Ret _ then true else false) = true)
      as Hret by (vm_compute; reflexivity).
    destruct (received _ _ _) as [[r s]| | | |]; [done|discriminate Hret..].
  - unfold relay_end, relay_thread.
    assert ((if thread_run relay_events relay_thread is Some _ then true else false) = true) as Hsome
      by (vm_compute; reflexivity).
    unfold relay_thread in Hsome. by destruct (thread_run _ _).
  - unfold mcu_start.
    assert ((if run_udp_downstream_target 0%nat 1 lan is Ret _ then true else false) = true) as Hret
      by (vm_compute; reflexivity).
    destruct (run_udp_downstream_target 0%nat 1 lan); [done|discriminate Hret..].
  - unfold mcu_end.
    assert ((if usess_run mcu_callback mcu_events (USession mcu_start []) is Some _ then true else false) = true)
      as Hsome by (vm_compute; reflexivity).
    by destruct (usess_run _ _ _).
  - assert ((UdpEndpoint.received (uep mcu_end)).*1 = [alert 1; alert 1]) as -> by (vm_compute; reflexivity).
    assert ((uwire (tep relay_end)).*1 = [alert 1]) as -> by (vm_compute; reflexivity).
    repeat constructor.
Defined.
