(* ===== verification/LoneSender.v ===== *)
(** * One thread that sends on an endpoint

    With several threads inside [send] a failed write can leave one of them waiting for a
    buffer for ever ([stalled_sender_never_returns] of SendPipeline.v).  With a single one
    it cannot: the failed write itself returns the buffers of its batch, the thread needs
    one, and its next call finds the socket closed.  So every call comes back. *)

From S2P Require Import Prelude SendPipeline TcpSession TcpServer CallbackSteps.
From Stdlib Require Import ZArith Lia.

Open Scope nat_scope.

#[local] Abbreviation length := Datatypes.length.

(** ** The calls of the one thread *)

(** What a step does to the call that the thread is inside of, and to what is accepted. *)
Definition call_step (call call' : option (list byte)) (acc acc' : list (list byte)) : Prop :=
  (call' = call /\ acc' = acc) \/ (exists m, call = Some m /\ call' = None /\ acc' = acc ++ [m]).

Section Lone.

Context `{!CircularBuffer}.

(** The thread is number 0. *)
Definition lone_sender (p : pipe) : Prop := forall t, t <> 0 -> threads p !! t = None.

Definition pipe_call (p : pipe) : option (list byte) := sender_data <$> threads p !! 0.

Lemma exec_lone e p p' :
  (match e with EvSend _ _ => False | _ => True end) -> lone_sender p -> exec e p = Some (Ret p') ->
  lone_sender p' /\ call_step (pipe_call p) (pipe_call p') (accepted p) (accepted p').
Proof.
  intros He Hl Hex. destruct (event_thread e) as [t|] eqn:Ht.
  2: { destruct (exec_no_thread e p p' Ht Hex) as [Ha Hth]. unfold lone_sender, pipe_call. rewrite Ha, Hth.
       split; [done|by left]. }
  assert (forall snd, threads p !! t = Some snd -> t = 0) as Hzero.
  { intros snd Hs. destruct (decide (t = 0)) as [|Hne]; [done|]. by rewrite Hl in Hs. }
  assert (forall snd, threads p !! 0 = Some snd -> lone_sender p' -> forall snd',
    threads p' !! 0 = Some snd' -> sender_data snd' = sender_data snd -> accepted p' = accepted p ->
    call_step (pipe_call p) (pipe_call p') (accepted p) (accepted p')) as Hstay.
  { intros snd Hs _ snd' Hs' Hd Ha. left. unfold pipe_call. by rewrite Hs, Hs', Ha; cbn; rewrite Hd. }
  assert (forall snd, lone_sender (set_threads (<[0 := snd]> (threads p)) p)) as Hins.
  { intros snd t' Ht'. cbn [threads set_threads]. rewrite lookup_insert_ne by done. by apply Hl. }
  destruct e as [| t'|t'|t'| | | |]; try done; injection Ht as ->; cbn [exec] in Hex;
    destruct (threads p !! t) as [[d|d b|d b]|] eqn:Hs; try done; pose proof (Hzero _ eq_refl) as ->.
  - destruct (buffer_pool_ p) as [|b pool]; injection Hex as <-; [split; [done|by left]|].
    split; [apply (Hins (Copying d b))|]. eapply (Hstay _ Hs); [apply (Hins (Copying d b))|apply lookup_insert_eq|done|done].
  - destruct (heap p !! b); [|done]. injection Hex as <-.
    split; [apply (Hins (Posting d b))|]. eapply (Hstay _ Hs); [apply (Hins (Posting d b))|apply lookup_insert_eq|done|done].
  - injection Hex as <-. split.
    + intros t' Ht'. cbn [threads set_threads]. rewrite lookup_delete_ne by done. by apply Hl.
    + right. exists d. unfold pipe_call. rewrite Hs. cbn [threads set_threads set_posted accepted].
      by rewrite lookup_delete_eq.
Qed.

(** Steps of the send path that begin no call. *)
Definition lone_steps (p p' : pipe) : Prop :=
  lone_sender p' /\ call_step (pipe_call p) (pipe_call p') (accepted p) (accepted p').

Lemma lone_steps_exec e p p1 p2 :
  (match e with EvSend _ _ => False | _ => True end) ->
  lone_steps p p1 -> exec e p1 = Some (Ret p2) -> lone_steps p p2.
Proof.
  intros He [Hl Hs] Hex. destruct (exec_lone e p1 p2 He Hl Hex) as [Hl' Hs']. split; [done|].
  destruct Hs as [[Hc Ha]|(m & Hm & Hc & Ha)].
  - by rewrite Hc, Ha in Hs'.
  - right. exists m. destruct Hs' as [[-> ->]|(m' & Hm' & _)]; [done|congruence].
Qed.


(** ** No call waits for ever *)

(** [buffer_pool_.push] fails when the pool is full or memory runs out. *)
Definition pushes_succeed (e : event) : Prop :=
  match e with EvWriteDone _ push_ok => forall b, push_ok b = true | _ => True end.

(** A write is outstanding as long as something is queued, until one has failed; from then
    on there is a buffer for the thread, or it has taken the last it will ask for. *)
Record lone_inv (n : nat) (p : pipe) : Prop := {
  li_alone : lone_sender p;
  li_size : size (heap p) = n;
  li_failed : write_op p = None -> send_queue_ p <> [] ->
    is_open p = false /\ (buffer_pool_ p <> [] \/ forall d, threads p !! 0 <> Some (Popping d));
}.

Lemma do_write_op p p' :
  do_write p = Ret p' -> write_op p' = Some 0 /\ send_queue_ p' = send_queue_ p /\ heap p' = heap p.
Proof.
  unfold do_write. destruct (collect _ _ _ _) as [[wb k]| | | |]; try done.
  cbn [mbind outcome_bind]. destruct (write_op p); [done|]. by intros [= <-].
Qed.

Lemma post_handler_op b p p' :
  post_handler b p = Ret p' -> heap p' = heap p /\
  (write_op p' = Some 0 \/
   (write_op p' = write_op p /\ send_queue_ p <> [] /\ buffer_pool_ p' = buffer_pool_ p /\
    threads p' = threads p /\ is_open p' = is_open p)).
Proof.
  unfold post_handler. destruct (send_queue_ p) eqn:Hq.
  - intros (Hop & _ & Hh)%do_write_op. auto.
  - intros [= <-]. split; [done|]. right. by split_and!.
Qed.

Lemma write_handler_op ec push_ok p p' mc :
  write_handler ec push_ok p = Ret (p', mc) ->
  mc = ec /\ (write_op p' = None -> send_queue_ p' <> [] -> ec = true).
Proof.
  unfold write_handler. destruct (recycle _ _ _) as [p1| | | |]; try done. cbn [mbind outcome_bind].
  destruct ec; cbn [negb andb].
  - by intros [= _ <-].
  - destruct (send_queue_ p1) eqn:Hq; [by intros [= <- <-]|].
    destruct (do_write p1) as [p2| | | |] eqn:Hd; try done. cbn [mbind outcome_bind]. intros [= <- <-].
    apply do_write_op in Hd as (Hop & _). split; [done|congruence].
Qed.

Lemma recycled_pool n ec push_ok p p' k :
  pipe_inv n p -> write_op p = Some k -> recycled ec push_ok p p' -> (forall b, push_ok b = true) ->
  heap p' = heap p /\ buffer_pool_ p' <> [].
Proof.
  intros Hinv Hop (_ & _ & _ & _ & _ & _ & Hok) Hpush. destruct (Hok Hpush) as [Hh ->]. split; [done|].
  pose proof (inv_write _ _ Hinv) as Hw. unfold write_inv in Hw. rewrite Hop in Hw.
  unfold batch. destruct Hw as (_ & Hact & _).
  destruct (active_writes_ p), (send_queue_ p); cbn in *; try lia. by destruct (buffer_pool_ p).
Qed.

Lemma lone_inv_send n p d :
  lone_inv n p -> threads p !! 0 = None -> pipe_inv n p -> is_open p = true ->
  lone_inv n (set_threads (<[0 := Popping d]> (threads p)) p).
Proof.
  intros [Hl Hs Hf] Ht Hinv Ho. split; [|done|].
  - intros t Hne. cbn [threads set_threads]. rewrite lookup_insert_ne by done. by apply Hl.
  - intros Hop Hq. by destruct (Hf Hop Hq) as [? _]; congruence.
Qed.

Lemma lone_inv_exec n e p p' :
  n <= queue_capacity -> pipe_inv n p -> lone_inv n p -> pushes_succeed e ->
  (match e with EvSend t _ => t = 0 | _ => True end) -> exec e p = Some (Ret p') -> lone_inv n p'.
Proof.
  intros Hn Hinv Hlone Hpush He Hex. pose proof Hlone as [Hl Hs Hf].
  assert (match e with EvSend _ _ => False | _ => True end -> lone_sender p') as Hl'.
  { intros Hno. by apply (exec_lone e p p' Hno Hl). }
  destruct e as [t d|t|t|t| | |ec ok|]; cbn [exec] in Hex; try specialize (Hl' I).
  - subst t. destruct (threads p !! 0) eqn:Ht; [done|]. destruct (is_open p) eqn:Ho; injection Hex as <-; [|done].
    by apply lone_inv_send.
  - destruct (threads p !! t) as [[d| |]|] eqn:Ht; try done.
    destruct (decide (t = 0)) as [->|Hne]; [|by rewrite Hl in Ht].
    destruct (buffer_pool_ p) as [|b pool]; injection Hex as <-; [done|]. split; [done|done|].
    intros Hop Hq. destruct (Hf Hop Hq) as [Ho _]. split; [done|]. right. intros d'.
    cbn [threads set_threads]. by rewrite lookup_insert_eq.
  - destruct (threads p !! t) as [[|d b|]|] eqn:Ht; try done.
    destruct (decide (t = 0)) as [->|Hne]; [|by rewrite Hl in Ht].
    destruct (heap p !! b) eqn:Hb; [|done]. injection Hex as <-. split; [done| |].
    + cbn [heap set_threads set_storage]. by rewrite map_size_insert_Some.
    + intros Hop Hq. destruct (Hf Hop Hq) as [Ho _]. split; [done|]. right. intros d'.
      cbn [threads set_threads]. by rewrite lookup_insert_eq.
  - destruct (threads p !! t) as [[| |d b]|] eqn:Ht; try done.
    destruct (decide (t = 0)) as [->|Hne]; [|by rewrite Hl in Ht].
    injection Hex as <-. split; [done|done|].
    intros Hop Hq. destruct (Hf Hop Hq) as [Ho _]. split; [done|]. right. intros d'.
    cbn [threads set_threads set_posted]. by rewrite lookup_delete_eq.
  - destruct (posted p) as [|b l]; [done|]. injection Hex as Hex.
    apply post_handler_op in Hex as [Hh Hop]. split; [done|by rewrite Hh|].
    destruct Hop as [Hop|(Hop & Hq & Hpl & Hth & Ho)]; [congruence|]. rewrite Hop, Hpl, Hth, Ho. intros Hnone _.
    by apply Hf.
  - destruct (write_op p) as [k|]; [|done]. destruct (is_open p); [|done].
    destruct (gather _ _) as [data|]; [|done]. destruct (data !! k); [|done]. by injection Hex as <-.
  - destruct (write_op p) as [k|] eqn:Hop; [|done].
    destruct (gather_batch p k (inv_storage _ _ Hinv) (inv_write _ _ Hinv) Hop) as [_ Hsum]. rewrite Hsum in Hex.
    destruct (_ || _) eqn:Hec; [|done].
    destruct (inv_write_done n p k ec ok Hinv Hop) as (p1 & Hwd & _ & Hrec & _).
    { intros ->. by apply Nat.eqb_eq in Hec. }
    rewrite Hwd in Hex. injection Hex as <-. destruct (write_handler_op _ _ _ _ _ Hwd) as [_ Hfail].
    destruct (recycled_pool n ec ok p p1 k Hinv Hop Hrec Hpush) as [Hh Hne].
    destruct ec; (split; [done|cbn [heap close_socket]; by rewrite Hh|]).
    + intros _ _. split; [done|by left].
    + intros Hnone Hq. by specialize (Hfail Hnone Hq).
  - injection Hex as <-. split; [done|done|]. intros Hop Hq. split; [done|]. by apply Hf.
Qed.

(** Statements of the call, handlers of the strand and the kernel: all that it takes. *)
Definition calm (e : event) : Prop :=
  match e with EvSend _ _ | EvClose => False | _ => pushes_succeed e end.

Lemma benign_calm e : benign e -> calm e.
Proof. destruct e; try done. by intros [_ ?]. Qed.

Lemma run_calm_inv n es p p' :
  n <= queue_capacity -> Forall calm es -> pipe_inv n p -> lone_inv n p -> run es p = Some p' ->
  pipe_inv n p' /\ lone_inv n p'.
Proof.
  intros Hn Hes. revert p. induction Hes as [|e es He _ IH]; intros p Hp Hl; cbn [run]; [by intros [= <-]|].
  destruct (exec e p) as [o|] eqn:Hex; [|done].
  destruct (exec_inv n e p o Hn Hp Hex) as (p1 & -> & Hp1). apply IH; [done|].
  eapply (lone_inv_exec n e p p1); try done; by destruct e.
Qed.

Lemma popping_places n p d :
  pipe_inv n p -> lone_inv n p -> threads p !! 0 = Some (Popping d) ->
  length (buffer_pool_ p ++ send_queue_ p ++ posted p) = n.
Proof.
  intros Hinv [Hl <- _] Ht. rewrite <- (storage_length p (inv_storage _ _ Hinv)). unfold places.
  assert (held (threads p) = []) as ->; [|by rewrite !app_nil_r].
  apply Permutation_nil. symmetry. rewrite (held_lookup _ _ _ Ht). cbn [sender_buf app].
  assert (delete 0 (threads p) = ∅) as ->; [|done].
  apply map_eq. intros t. rewrite lookup_empty. destruct (decide (t = 0)) as [->|Hne].
  - apply lookup_delete_eq.
  - rewrite lookup_delete_ne by done. by apply Hl.
Qed.

(** What gets a buffer to the thread leaves its call and the socket alone. *)
Definition buffer_comes (n : nat) (p : pipe) : Prop :=
  exists es p', Forall calm es /\ run es p = Some p' /\
    buffer_pool_ p' <> [] /\ threads p' = threads p /\ accepted p' = accepted p /\ is_open p' = is_open p.

Lemma aborted_write n p k :
  pipe_inv n p -> is_open p = false -> write_op p = Some k -> buffer_comes n p.
Proof.
  intros Hinv Ho Hop. destruct (inv_write_done n p k true (fun _ => true) Hinv Hop) as (p1 & Hwd & _ & Hrec & _); [done|].
  exists [EvWriteDone true (fun _ => true)], (close_socket p1). split; [by repeat constructor|].
  destruct (recycled_pool n true _ p p1 k Hinv Hop Hrec) as [_ Hne]; [done|].
  destruct Hrec as (_ & _ & Ha & _ & Ht & _ & _). cbn [run exec]. rewrite Hop, Hwd.
  split_and!; [done..|]. by rewrite Ho.
Qed.

Lemma popping_buffer n p d :
  1 <= n <= queue_capacity -> pipe_inv n p -> lone_inv n p -> threads p !! 0 = Some (Popping d) -> buffer_comes n p.
Proof.
  intros [H1 Hn] Hinv Hlone Ht. pose proof (popping_places n p d Hinv Hlone Ht) as Hlen.
  destruct (is_open p) eqn:Ho.
  - destruct (drain n p Hinv Hn Ho) as (es & p' & Hes & Hrun & _ & (Ha & Hth & Ho' & Hperm) & Hp & Hq).
    exists es, p'. split; [by eapply Forall_impl; [exact Hes|apply benign_calm]|].
    split_and!; [done| |done|done|done]. intros Hpool.
    apply Permutation_length in Hperm. rewrite Hlen, Hpool, Hp, Hq in Hperm. cbn in Hperm. lia.
  - destruct (buffer_pool_ p) as [|b pool] eqn:Hpool.
    2: { exists [], p. rewrite Hpool. by split_and!. }
    destruct (write_op p) as [k|] eqn:Hop; [by eapply aborted_write|].
    destruct (send_queue_ p) as [|b q] eqn:Hq.
    2: { destruct (li_failed _ _ Hlone Hop) as [_ [Hne|Hne]]; [by rewrite Hq|done|]. by destruct (Hne d). }
    destruct (posted p) as [|b l] eqn:Hl; [cbn in Hlen; lia|].
    destruct (inv_run_posted n p b l Hn Hinv Hl) as (p1 & Hex & Hinv1 & (_ & _ & Ha & _ & Hth & Ho1 & _)).
    destruct (post_handler_op _ _ _ Hex) as [_ [Hop1|(_ & Hne & _)]]; [|done].
    destruct (aborted_write n p1 0 Hinv1) as (es & p' & Hes & Hrun & Hp' & Hth' & Ha' & Ho'); [congruence|done|].
    exists (EvRunPosted :: es), p'. split; [by constructor|]. cbn [run exec]. rewrite Hl, Hex.
    split_and!; congruence.
Qed.

(** From any state that the thread and its surroundings can reach, the call comes back,
    the message accepted, without the socket being closed for it. *)
Lemma call_returns n p m :
  1 <= n <= queue_capacity -> pipe_inv n p -> lone_inv n p -> pipe_call p = Some m ->
  exists es p', Forall calm es /\ run es p = Some p' /\ pipe_call p' = None /\
    accepted p' = accepted p ++ [m] /\ is_open p' = is_open p.
Proof.
  intros [H1 Hn] Hinv Hlone Hc. unfold pipe_call in *.
  assert (forall p b, pipe_inv n p -> threads p !! 0 = Some (Copying m b) -> exists p', run [EvCopy 0; EvPost 0] p = Some p' /\
    pipe_call p' = None /\ accepted p' = accepted p ++ [m] /\ is_open p' = is_open p) as Hcopy.
  { intros q b Hq Ht. destruct (exec (EvCopy 0) q) as [o|] eqn:Hex; [|cbn [exec] in Hex; by rewrite Ht in Hex].
    destruct (exec_inv n _ q o Hn Hq Hex) as (q1 & -> & _). cbn [exec] in Hex. rewrite Ht in Hex.
    destruct (heap q !! b) eqn:Hb; [|done]. injection Hex as <-. eexists. cbn [run exec]. rewrite Ht, Hb.
    cbn [threads set_threads]. rewrite lookup_insert_eq. split; [reflexivity|]. unfold pipe_call.
    cbn [threads set_threads]. by rewrite lookup_delete_eq. }
  destruct (threads p !! 0) as [[d|d b|d b]|] eqn:Ht; [| | |done]; injection Hc as ->.
  - destruct (popping_buffer n p m (conj H1 Hn) Hinv Hlone Ht) as (es & p1 & Hes & Hrun & Hpool & Hth & Ha & Ho).
    destruct (run_calm_inv n es p p1 Hn Hes Hinv Hlone Hrun) as [Hinv1 _].
    destruct (buffer_pool_ p1) as [|b pool] eqn:Hp1; [done|]. rewrite <- Hth in Ht.
    destruct (Hcopy _ b (inv_pop n p1 0 m b pool Hinv1 Ht Hp1)) as (p2 & Hrun2 & Hc2 & Ha2 & Ho2).
    { cbn [threads set_threads]. by rewrite lookup_insert_eq. }
    exists (es ++ EvPop 0 :: [EvCopy 0; EvPost 0]), p2. split; [by apply Forall_app; repeat constructor|].
    rewrite run_app, Hrun. cbn [mbind option_bind]. change (run (EvPop 0 :: ?l) p1) with
      (match exec (EvPop 0) p1 with Some (Ret q) => run l q | _ => None end). cbn [exec]. rewrite Ht, Hp1.
    split; [exact Hrun2|]. rewrite Ha2, Ho2, <- Ha, <- Ho. done.
  - destruct (Hcopy p b Hinv Ht) as (p2 & Hrun2 & Hc2 & Ha2 & Ho2).
    exists [EvCopy 0; EvPost 0], p2. by split; [repeat constructor|].
  - eexists [EvPost 0], _. split; [repeat constructor|]. cbn [run exec]. rewrite Ht. split; [reflexivity|].
    cbn [threads set_threads]. by rewrite lookup_delete_eq.
Qed.

End Lone.
