(* ===== verification/UdpLone.v ===== *)
(** * One thread that sends on a UDP endpoint

    As over TCP (LoneSender.v), a call of [send] comes back when no other thread sends: the
    thread needs one item, and the write under way returns its own, also when it fails. *)

From S2P Require Import Prelude Expected SendPipeline UdpEndpoint UdpSession UdpThread LoneSender.
From Stdlib Require Import ZArith Lia.

Open Scope nat_scope.

#[local] Abbreviation length := Datatypes.length.

(** ** The calls of the one thread *)

Section Lone.

Context `{!CircularBuffer} {Addr : Type} (addr0 : Addr).

Definition lone_udp (u : udp Addr) : Prop := forall t, t <> 0 -> uthreads u !! t = None.

Definition lone_call (u : udp Addr) : option (list byte * Addr) := sender_load <$> uthreads u !! 0.

Lemma lone_udp_cases (u : udp Addr) :
  lone_udp u -> match lone_call u with Some x => in_send (uthreads u) x | None => uthreads u = ∅ end.
Proof.
  intros Hl. unfold lone_call. destruct (uthreads u !! 0) as [s|] eqn:Hs; cbn.
  - exists s. split; [|done]. apply map_eq. intros t. destruct (decide (t = 0)) as [->|Ht].
    + by rewrite lookup_singleton_eq.
    + by rewrite lookup_singleton_ne, Hl.
  - apply map_eq. intros t. rewrite lookup_empty. destruct (decide (t = 0)) as [->|Ht]; [done|by apply Hl].
Qed.

Lemma empty_lone (u : udp Addr) : uthreads u = ∅ -> lone_udp u /\ lone_call u = None.
Proof. intros Ht. unfold lone_udp, lone_call. rewrite Ht. by split. Qed.

Lemma in_send_lone (u : udp Addr) x : in_send (uthreads u) x -> lone_udp u /\ lone_call u = Some x.
Proof.
  intros (s & Hs & Hx). unfold lone_udp, lone_call. rewrite Hs. split.
  - intros t Ht. by rewrite lookup_singleton_ne.
  - rewrite lookup_singleton_eq. cbn. by f_equal.
Qed.

Definition udp_event (e : uevent Addr) : bool :=
  match e with USend _ _ | USendTo _ _ _ => false | _ => true end.

Lemma uexec_lone e (u u' : udp Addr) :
  udp_event e = true -> lone_udp u -> uexec e u = Some (Ret u') ->
  lone_udp u' /\
  call_step (fst <$> lone_call u) (fst <$> lone_call u') (uaccepted u).*1 (uaccepted u').*1.
Proof.
  intros He Hl Hex. assert (UdpSession.no_other_sender e) as Hno by by destruct e.
  pose proof (lone_udp_cases u Hl) as Hc. destruct (lone_call u) as [x|] eqn:Hcall.
  - destruct (uexec_in_send e u u' x Hno Hc Hex) as [[Hin Ha]|[Ht Ha]]; rewrite Ha.
    + destruct (in_send_lone u' x Hin) as [Hl' ->]. split; [done|by left].
    + destruct (empty_lone u' Ht) as [Hl' ->]. split; [done|]. right. exists x.1. by rewrite fmap_app.
  - destruct (uexec_idle e u u' Hno Hc Hex) as [Ht Ha]. rewrite Ha.
    destruct (empty_lone u' Ht) as [Hl' ->]. split; [done|by left].
Qed.

Lemma usend_lone m (u u' : udp Addr) :
  lone_udp u -> (fst <$> lone_call u) = None -> uexec (USend 0 m) u = Some (Ret u') ->
  lone_udp u' /\ (uaccepted u').*1 = (uaccepted u).*1 /\
  ((fst <$> lone_call u') = None \/ (fst <$> lone_call u') = Some m).
Proof.
  intros Hl Hc. pose proof (lone_udp_cases u Hl) as Ht. destruct (lone_call u) eqn:Hcall; [done|].
  cbn [uexec]. unfold enter. rewrite Ht, lookup_empty.
  destruct (send_entry m u) as [res|s] eqn:Hs; intros [= <-]; [by rewrite Hcall; auto|].
  assert (in_send {[0 := s]} (sender_load s)) as Hin by by exists s.
  destruct (in_send_lone (set_front {[0 := s]} (uposted u) (uaccepted u) u) _ Hin) as [Hl' Hc'].
  change (<[0 := s]> ∅) with ({[0 := s]} : gmap nat usender). rewrite Hc'.
  split_and!; [done|done|]. right. cbn. by rewrite (send_entry_load m u s Hs).
Qed.

(** ** No call waits for ever *)

(** [buffer_pool_.push] succeeds, and nobody opens the socket again: what the benchmark
    does, which connects before it sends. *)
Definition udp_steady (e : uevent Addr) : Prop :=
  match e with
  | UBind _ | UConnect _ | UJoin _ => False
  | USendDone _ push_ok => push_ok = true
  | _ => True
  end.

Lemma do_write_starts (u u' : udp Addr) :
  do_write u = Ret u' -> exists op, u' = set_op (Some op) (uwire u) u.
Proof.
  unfold do_write. destruct (usend_queue_ u) as [|i q]; [done|].
  destruct (uheap u !! i) as [[b t|]|]; try done.
  destruct (uheap u !! b) as [[|d]|], (uwrite_op u); try done. intros [= <-]. by eexists.
Qed.

(** The item of a write that ends is back in the pool, and the next write starts, if the
    queue has more and nothing failed. *)
Lemma send_handler_returns ec (u u' : udp Addr) i q :
  usend_queue_ u = i :: q -> send_handler ec true u = Ret u' ->
  ubuffer_pool_ u' = ubuffer_pool_ u ++ [i] /\ usend_queue_ u' = q /\ uposted u' = uposted u /\
  uthreads u' = uthreads u /\ uaccepted u' = uaccepted u /\
  socket_open u' = (if ec then false else socket_open u) /\
  (uwrite_op u' = None -> q <> [] -> ec = true).
Proof.
  intros Hq. unfold send_handler. rewrite Hq. cbn [mbind outcome_bind usend_queue_ set_op set_store].
  destruct ec; cbn [negb andb]; [by intros [= <-]|].
  destruct q as [|j q]; [by intros [= <-]|]. intros (op & ->)%do_write_starts. by split_and!.
Qed.

Lemma circular_push_back_below (q : list nat) i :
  length q < queue_capacity -> circular_push_back queue_capacity q i = q ++ [i].
Proof. intros. by apply circular_push_back_room. Qed.

Lemma post_handler_returns n (u u' : udp Addr) i l :
  n <= queue_capacity -> udp_inv addr0 n u -> uposted u = i :: l ->
  post_handler i (set_front (uthreads u) l (uaccepted u) u) = Ret u' ->
  ubuffer_pool_ u' = ubuffer_pool_ u /\ usend_queue_ u' = usend_queue_ u ++ [i] /\ uposted u' = l /\
  uthreads u' = uthreads u /\ uaccepted u' = uaccepted u /\ socket_open u' = socket_open u /\
  (usend_queue_ u = [] -> uwrite_op u' <> None) /\ (usend_queue_ u <> [] -> uwrite_op u' = uwrite_op u).
Proof.
  intros Hn Hinv Hl. pose proof (uinv_count addr0 n u Hinv) as Hlen.
  unfold uplaces in Hlen. rewrite !length_app, Hl in Hlen. cbn [length] in Hlen.
  unfold post_handler. cbn [usend_queue_ uheap ubuffer_pool_ set_front].
  rewrite circular_push_back_below by lia.
  destruct (usend_queue_ u) as [|j q] eqn:Hq.
  - intros (op & ->)%do_write_starts. by split_and!.
  - intros [= <-]. by split_and!.
Qed.

(** Every item stays in some place. *)
Lemma uexec_places n e (u u' : udp Addr) :
  n <= queue_capacity -> udp_inv addr0 n u -> udp_steady e -> uexec e u = Some (Ret u') ->
  length (uplaces u') = length (uplaces u).
Proof.
  intros Hn Hinv Hst Hex.
  assert (forall v, same_send u v -> length (uplaces v) = length (uplaces u)) as Hsame.
  { intros v (_ & Hp & Hq & _ & Hl & Ht & _). unfold uplaces. by rewrite Hp, Hq, Hl, Ht. }
  assert (forall t s, uthreads u !! t = None -> usender_item s = [] ->
    length (uplaces (set_front (<[t := s]> (uthreads u)) (uposted u) (uaccepted u) u)) = length (uplaces u)) as Henter.
  { intros t s Ht Hs. unfold uplaces. cbn [ubuffer_pool_ usend_queue_ uposted uthreads set_front].
    by rewrite uheld_insert, Hs, uheld_delete_none. }
  assert (forall t s s' h, uthreads u !! t = Some s -> usender_item s' = usender_item s ->
    length (uplaces (set_front (<[t := s']> (uthreads u)) (uposted u) (uaccepted u)
                       (set_store h (ubuffer_pool_ u) (usend_queue_ u) u))) = length (uplaces u)) as Hwrite.
  { intros t s s' h Ht Hs. unfold uplaces. cbn [ubuffer_pool_ usend_queue_ uposted uthreads set_front set_store].
    by rewrite uheld_insert, Hs, (uheld_lookup _ _ _ Ht). }
  destruct e as [o|o|o| | |ec ab data sender|t data|t data tgt|t|t|t|t| | |ec ok|]; try done; cbn [uexec] in Hex.
  - injection Hex as <-. by apply Hsame.
  - injection Hex as <-. apply Hsame, start_receive_same.
  - destruct (receiving u =? 0); [done|]. injection Hex as <-. apply Hsame, receive_handler_same.
  - unfold enter, send_entry, send_to_entry in Hex. destruct (uthreads u !! t) eqn:Ht; [done|].
    destruct (negb _); [by injection Hex as <-|]. destruct (socket_open u); injection Hex as <-; auto.
  - unfold enter, send_to_entry in Hex. destruct (uthreads u !! t) eqn:Ht; [done|].
    destruct (socket_open u); injection Hex as <-; auto.
  - destruct (uthreads u !! t) as [[d x| | |]|] eqn:Ht; try done.
    destruct (ubuffer_pool_ u) as [|i pool] eqn:Hp; injection Hex as <-; [done|].
    unfold uplaces. cbn [ubuffer_pool_ usend_queue_ uposted uthreads set_front set_store].
    rewrite uheld_insert, (uheld_lookup _ _ _ Ht), Hp. cbn [usender_item]. rewrite !length_app. cbn [length app]. lia.
  - destruct (uthreads u !! t) as [[|d x i| |]|] eqn:Ht; try done.
    destruct (uheap u !! i) as [[b y|]|]; try done. destruct (uheap u !! b) as [[|]|]; try done.
    injection Hex as <-. by eapply Hwrite.
  - destruct (uthreads u !! t) as [[| |d x i|]|] eqn:Ht; try done.
    destruct (uheap u !! i) as [[b y|]|]; try done. injection Hex as <-. by eapply Hwrite.
  - destruct (uthreads u !! t) as [[| | |d x i]|] eqn:Ht; try done. injection Hex as <-.
    unfold uplaces. cbn [ubuffer_pool_ usend_queue_ uposted uthreads set_front].
    rewrite (uheld_lookup _ _ _ Ht). cbn [usender_item]. rewrite !length_app. cbn [length app]. lia.
  - destruct (uposted u) as [|i l] eqn:Hl; [done|]. injection Hex as Hex.
    destruct (post_handler_returns n u u' i l Hn Hinv Hl Hex) as (Hp & Hq & Hl' & Ht & _).
    unfold uplaces. rewrite Hp, Hq, Hl', Ht, Hl. by rewrite <- app_assoc.
  - destruct (uwrite_op u) as [[[[b k] x] []]|]; try done. destruct (socket_open u); [|done].
    destruct (uheap u !! b) as [[|d]|]; try done. destruct (k <=? length d); [|done]. by injection Hex as <-.
  - destruct (uwrite_op u) as [[[[b k] x] sent]|] eqn:Hop; [|done]. destruct (ec || sent); [|done].
    cbn in Hst. subst ok. injection Hex as Hex.
    destruct (uinv_write addr0 n u Hinv b k x sent Hop) as (i & q & d & Hq & _).
    destruct (send_handler_returns ec u u' i q Hq Hex) as (Hp & Hq' & Hl & Ht & _).
    unfold uplaces. rewrite Hp, Hq', Hl, Ht, Hq, !length_app. cbn [length]. lia.
  - by injection Hex as <-.
Qed.

(** A write is outstanding as long as something is queued, until one has failed; from then
    on there is an item for the thread, or it has taken the last it will ask for. *)
Definition quiet_failure (u : udp Addr) : Prop :=
  uwrite_op u = None -> usend_queue_ u <> [] ->
  socket_open u = false /\ (ubuffer_pool_ u <> [] \/ forall d x, uthreads u !! 0 <> Some (UPopping d x)).

Record lone_udp_inv (n : nat) (u : udp Addr) : Prop := {
  lu_alone : lone_udp u;
  lu_places : length (uplaces u) = n;
  lu_failed : quiet_failure u;
}.

(** The thread's own calls are of [send]. *)
Definition own_call (e : uevent Addr) : Prop :=
  match e with USend t _ => t = 0 | USendTo _ _ _ => False | _ => True end.

Lemma uexec_alone e (u u' : udp Addr) :
  own_call e -> lone_udp u -> uexec e u = Some (Ret u') -> lone_udp u'.
Proof.
  intros He Hl Hex. destruct (udp_event e) eqn:Hev; [by apply (uexec_lone e u u')|].
  destruct e as [| | | | | |t m| | | | | | | | |]; try done. cbn in He. subst t.
  destruct (fst <$> lone_call u) eqn:Hc; [|by apply (usend_lone m u u')].
  unfold lone_call in Hc. cbn [uexec] in Hex. unfold enter in Hex. by destruct (uthreads u !! 0).
Qed.

(** A thread's step after which it does not ask for an item. *)
Lemma failure_held (u : udp Addr) s t h pool l acc :
  lone_udp u -> uthreads u !! t = Some s -> quiet_failure u ->
  forall s', (forall d x, s' <> UPopping d x) ->
  quiet_failure (set_front (<[t := s']> (uthreads u)) l acc (set_store h pool (usend_queue_ u) u)).
Proof.
  intros Hl Ht Hf. assert (t = 0) as ->.
  { destruct (decide (t = 0)) as [|Hne]; [done|]. by rewrite Hl in Ht. }
  intros s' Hs' Hop Hq.
  destruct (Hf Hop Hq) as [Ho _]. split; [done|]. right. intros d x.
  cbn [uthreads set_front]. rewrite lookup_insert_eq. intros [= E]. by apply (Hs' d x).
Qed.

Lemma start_receive_open (u : udp Addr) : socket_open (start_receive u) = socket_open u.
Proof. apply start_receive_front. Qed.

Lemma receive_handler_open ec ab data sender (u : udp Addr) :
  socket_open (receive_handler ec ab data sender u) = socket_open u.
Proof. unfold receive_handler. by destruct ec, ab, (0 <? length data); cbn [negb andb]; rewrite ?start_receive_open. Qed.

Lemma uexec_failure n e (u u' : udp Addr) :
  n <= queue_capacity -> udp_inv addr0 n u -> lone_udp u -> quiet_failure u -> udp_steady e -> own_call e ->
  uexec e u = Some (Ret u') -> quiet_failure u'.
Proof.
  intros Hn Hinv Hl Hf Hst He Hex.
  assert (forall v, same_send u v -> socket_open v = socket_open u -> quiet_failure v) as Hsame.
  { intros v (_ & Hp & Hq & Hop & _ & Ht & _) Ho. unfold quiet_failure. by rewrite Hp, Hq, Hop, Ht, Ho. }
  destruct e as [o|o|o| | |ec ab data sender|t data|t data tgt|t|t|t|t| | |ec ok|]; try done; cbn [uexec] in Hex.
  - injection Hex as <-. by apply Hsame.
  - injection Hex as <-. apply Hsame; [apply start_receive_same|apply start_receive_open].
  - destruct (receiving u =? 0); [done|]. injection Hex as <-. apply Hsame; [apply receive_handler_same|].
    apply receive_handler_open.
  - unfold enter, send_entry, send_to_entry in Hex. destruct (uthreads u !! t) eqn:Ht; [done|].
    destruct (negb _); [by injection Hex as <-|]. destruct (socket_open u) eqn:Ho; injection Hex as <-; [|done].
    intros Hop Hq. destruct (Hf Hop Hq); congruence.
  - destruct (uthreads u !! t) as [[d x| | |]|] eqn:Ht; try done.
    destruct (ubuffer_pool_ u) as [|i pool] eqn:Hp; injection Hex as <-; [done|].
    by eapply failure_held.
  - destruct (uthreads u !! t) as [[|d x i| |]|] eqn:Ht; try done.
    destruct (uheap u !! i) as [[b y|]|]; try done. destruct (uheap u !! b) as [[|]|]; try done.
    injection Hex as <-. by eapply failure_held.
  - destruct (uthreads u !! t) as [[| |d x i|]|] eqn:Ht; try done.
    destruct (uheap u !! i) as [[b y|]|]; try done. injection Hex as <-. by eapply failure_held.
  - destruct (uthreads u !! t) as [[| | |d x i]|] eqn:Ht; try done. injection Hex as <-.
    assert (t = 0) as -> by (destruct (decide (t = 0)) as [|Hne]; [done|by rewrite Hl in Ht]).
    intros Hop Hq. destruct (Hf Hop Hq) as [Ho _]. split; [done|]. right. intros d' x'.
    cbn [uthreads set_front]. by rewrite lookup_delete_eq.
  - destruct (uposted u) as [|i l] eqn:Hpo; [done|]. injection Hex as Hex.
    destruct (post_handler_returns n u u' i l Hn Hinv Hpo Hex) as (Hp & _ & _ & Ht & _ & Ho & Hnew & Hold).
    intros Hop _. rewrite Hp, Ht, Ho. apply Hf.
    + destruct (usend_queue_ u); [by destruct (Hnew eq_refl)|]. by rewrite <- Hold.
    + intros Hq. by apply (Hnew Hq).
  - destruct (uwrite_op u) as [[[[b k] x] []]|]; try done. destruct (socket_open u); [|done].
    destruct (uheap u !! b) as [[|d]|]; try done. destruct (k <=? length d); [|done]. by injection Hex as <-.
  - destruct (uwrite_op u) as [[[[b k] x] sent]|] eqn:Hop; [|done]. destruct (ec || sent); [|done].
    cbn in Hst. subst ok. injection Hex as Hex.
    destruct (uinv_write addr0 n u Hinv b k x sent Hop) as (i & q & d & Hq & _).
    destruct (send_handler_returns ec u u' i q Hq Hex) as (Hp & Hq' & _ & _ & _ & Ho & Hec).
    intros Hnone. rewrite Hq', Ho, Hp. intros Hne. rewrite (Hec Hnone Hne). split; [done|]. left.
    by destruct (ubuffer_pool_ u).
  - injection Hex as <-. intros Hop Hq. split; [done|]. by apply Hf.
Qed.

Lemma lone_udp_inv_exec n e (u u' : udp Addr) :
  n <= queue_capacity -> udp_inv addr0 n u -> lone_udp_inv n u -> udp_steady e -> own_call e ->
  uexec e u = Some (Ret u') -> udp_inv addr0 n u' /\ lone_udp_inv n u'.
Proof.
  intros Hn Hinv [Hl Hs Hf] Hst He Hex. split.
  - by destruct (uexec_inv addr0 n e u _ Hn Hinv Hex) as (u'' & [= <-] & ?).
  - split; [by eapply uexec_alone|by rewrite (uexec_places n e u u')|]. by eapply (uexec_failure n e u u').
Qed.

(** Statements of the call, handlers of the strand and the network: all that it takes. *)
Definition ucalm (e : uevent Addr) : Prop :=
  match e with
  | UPop _ | UCopy _ | UAddress _ | UPost _ | URunPosted | UTransmit => True
  | USendDone _ push_ok => push_ok = true
  | _ => False
  end.

Lemma urun_calm_inv n es (u u' : udp Addr) :
  n <= queue_capacity -> Forall ucalm es -> udp_inv addr0 n u -> lone_udp_inv n u -> urun es u = Some u' ->
  udp_inv addr0 n u' /\ lone_udp_inv n u'.
Proof.
  intros Hn Hes. revert u. induction Hes as [|e es He _ IH]; intros u Hu Hl; cbn [urun]; [by intros [= <-]|].
  destruct (uexec e u) as [[u1| | | |]|] eqn:Hex; try done. intros Hrun.
  destruct (lone_udp_inv_exec n e u u1 Hn Hu Hl) as [Hu1 Hl1]; [by destruct e..|exact Hex|]. by apply (IH u1).
Qed.

(** What gets an item to the thread leaves its call and the socket alone. *)
Definition item_comes (u : udp Addr) : Prop :=
  exists es u', Forall ucalm es /\ urun es u = Some u' /\
    ubuffer_pool_ u' <> [] /\ uthreads u' = uthreads u /\ uaccepted u' = uaccepted u /\ socket_open u' = socket_open u.

Lemma write_ends n (u : udp Addr) b k x sent ec :
  udp_inv addr0 n u -> uwrite_op u = Some (b, k, x, sent) -> ec || sent = true -> socket_open u = negb ec -> item_comes u.
Proof.
  intros Hinv Hop Hec Ho.
  destruct (uinv_send_done addr0 n u ec true Hinv) as (u' & Hs & _); [by rewrite Hop|].
  destruct (uinv_write addr0 n u Hinv b k x sent Hop) as (i & q & d & Hq & _).
  destruct (send_handler_returns ec u u' i q Hq Hs) as (Hp & _ & _ & Ht & Ha & Ho' & _).
  exists [USendDone ec true], u'. split; [by repeat constructor|]. cbn [urun uexec]. rewrite Hop, Hec, Hs.
  split_and!; [done| |done|done|].
  - rewrite Hp. by destruct (ubuffer_pool_ u).
  - rewrite Ho', Ho. by destruct ec.
Qed.

Lemma item_comes_after e (u u1 : udp Addr) :
  ucalm e -> uexec e u = Some (Ret u1) -> uthreads u1 = uthreads u -> uaccepted u1 = uaccepted u ->
  socket_open u1 = socket_open u -> item_comes u1 -> item_comes u.
Proof.
  intros He Hex Ht Ha Ho (es & u' & Hes & Hrun & Hp & Ht' & Ha' & Ho'). exists (e :: es), u'.
  split; [by constructor|]. cbn [urun]. rewrite Hex. split_and!; [done|done|congruence..].
Qed.

Lemma written_item n (u : udp Addr) : udp_inv addr0 n u -> uwrite_op u <> None -> item_comes u.
Proof.
  intros Hinv Hop. destruct (uwrite_op u) as [[[[b k] x] sent]|] eqn:Hw; [|done].
  destruct (socket_open u) eqn:Ho; [destruct sent|].
  - by apply (write_ends n u b k x true false).
  - destruct (uinv_transmit addr0 n u b k x Hinv Hw) as (d & Hb & Hk & Hinv1).
    apply (item_comes_after UTransmit u (set_op (Some (b, k, x, true)) (uwire u ++ [(take k d, x)]) u));
      [done| |done..|].
    + cbn [uexec]. by rewrite Hw, Ho, Hb, Hk, Nat.leb_refl.
    + by apply (write_ends n _ b k x true false Hinv1).
  - by apply (write_ends n u b k x sent true).
Qed.

Lemma popping_item n (u : udp Addr) d x :
  1 <= n <= queue_capacity -> udp_inv addr0 n u -> lone_udp_inv n u -> uthreads u !! 0 = Some (UPopping d x) -> item_comes u.
Proof.
  intros [H1 Hn] Hinv [Hl Hs Hf] Ht.
  destruct (ubuffer_pool_ u) as [|i pool] eqn:Hp.
  2: { exists [], u. rewrite Hp. by split_and!. }
  destruct (uwrite_op u) as [op|] eqn:Hop; [apply (written_item n u Hinv); congruence|].
  destruct (usend_queue_ u) as [|i q] eqn:Hq.
  2: { destruct (Hf Hop) as [_ [Hne|Hne]]; [by rewrite Hq|done|]. by destruct (Hne d x). }
  assert (uheld (uthreads u) = []) as Hheld.
  { apply Permutation_nil. symmetry. rewrite (uheld_lookup _ _ _ Ht). cbn [usender_item app].
    assert (delete 0 (uthreads u) = ∅) as ->; [|done].
    apply map_eq. intros t. rewrite lookup_empty. destruct (decide (t = 0)) as [->|Hne].
    - apply lookup_delete_eq.
    - rewrite lookup_delete_ne by done. by apply Hl. }
  unfold uplaces in Hs. rewrite Hp, Hq, Hheld, app_nil_r in Hs.
  destruct (uposted u) as [|i l] eqn:Hpo; [cbn in Hs; lia|].
  destruct (uinv_run_posted addr0 n u i l Hn Hinv Hpo) as (u1 & Hex & Hinv1).
  destruct (post_handler_returns n u u1 i l Hn Hinv Hpo Hex) as (_ & _ & _ & Ht1 & Ha1 & Ho1 & Hop1 & _).
  apply (item_comes_after URunPosted u u1); [done| |done..|].
  - cbn [uexec]. by rewrite Hpo, Hex.
  - by apply (written_item n u1 Hinv1), Hop1.
Qed.

(** With an item in hand the call comes back by itself. *)
Definition call_done (u : udp Addr) (m : list byte) : Prop :=
  exists es u', Forall ucalm es /\ urun es u = Some u' /\ lone_call u' = None /\
    (uaccepted u').*1 = (uaccepted u).*1 ++ [m] /\ socket_open u' = socket_open u.

Lemma call_done_after e (u u1 : udp Addr) m :
  ucalm e -> uexec e u = Some (Ret u1) -> uaccepted u1 = uaccepted u -> socket_open u1 = socket_open u ->
  call_done u1 m -> call_done u m.
Proof.
  intros He Hex Ha Ho (es & u' & Hes & Hrun & Hc & Ha' & Ho'). exists (e :: es), u'.
  split; [by constructor|]. cbn [urun]. rewrite Hex. split_and!; [done|done|congruence..].
Qed.

Lemma posting_done (u : udp Addr) m x i : uthreads u !! 0 = Some (UPosting m x i) -> call_done u m.
Proof.
  intros Ht. exists [UPost 0]. eexists. split; [by repeat constructor|]. cbn [urun uexec]. rewrite Ht.
  split; [reflexivity|]. unfold lone_call. cbn [uthreads uaccepted socket_open set_front].
  by rewrite lookup_delete_eq, fmap_app.
Qed.

Lemma addressing_done n (u : udp Addr) m x i :
  udp_inv addr0 n u -> uthreads u !! 0 = Some (UAddressing m x i) -> call_done u m.
Proof.
  intros Hinv Ht. destruct (held_live addr0 n u 0 _ i Hinv Ht eq_refl) as (d & y & _ & Hi & _).
  eapply (call_done_after (UAddress 0)); [done| |..|apply (posting_done _ m x i)];
    [cbn [uexec]; by rewrite Ht, Hi|done|done|apply lookup_insert_eq].
Qed.

Lemma copying_done n (u : udp Addr) m x i :
  udp_inv addr0 n u -> uthreads u !! 0 = Some (UCopying m x i) -> call_done u m.
Proof.
  intros Hinv Ht. destruct (held_live addr0 n u 0 _ i Hinv Ht eq_refl) as (d & y & Hl).
  pose proof (uinv_copy addr0 n u 0 m x i d y Hinv Ht Hl) as Hinv1. pose proof Hl as (_ & Hi & Hb).
  eapply (call_done_after (UCopy 0)); [done| |..|apply (addressing_done n _ m x i Hinv1)];
    [cbn [uexec]; by rewrite Ht, Hi, Hb|done|done|apply lookup_insert_eq].
Qed.

(** From any state that the thread and its surroundings can reach, the call comes back,
    the message accepted, without the socket being closed for it. *)
Lemma udp_call_returns n (u : udp Addr) m :
  1 <= n <= queue_capacity -> udp_inv addr0 n u -> lone_udp_inv n u -> (fst <$> lone_call u) = Some m -> call_done u m.
Proof.
  intros Hn Hinv Hl Hc. unfold lone_call in Hc.
  destruct (uthreads u !! 0) as [[d x|d x i|d x i|d x i]|] eqn:Ht; [..|done]; injection Hc as ->.
  - destruct (popping_item n u m x Hn Hinv Hl Ht) as (es & u1 & Hes & Hrun & Hp & Ht1 & Ha & Ho).
    destruct (urun_calm_inv n es u u1 ltac:(lia) Hes Hinv Hl Hrun) as [Hinv1 _].
    destruct (ubuffer_pool_ u1) as [|i pool] eqn:Hp1; [done|]. rewrite <- Ht1 in Ht.
    pose proof (uinv_pop addr0 n u1 0 m x i pool Hinv1 Ht Hp1) as Hinv2.
    assert (call_done u1 m) as (es' & u' & Hes' & Hrun' & Hc' & Ha' & Ho').
    { eapply (call_done_after (UPop 0)); [done| |..|apply (copying_done n _ m x i Hinv2)];
        [cbn [uexec]; by rewrite Ht, Hp1|done|done|apply lookup_insert_eq]. }
    exists (es ++ es'), u'. rewrite urun_app, Hrun. split; [by apply Forall_app|].
    split_and!; [done|done|congruence..].
  - by apply (copying_done n u m x i).
  - by apply (addressing_done n u m x i).
  - by apply (posting_done u m x i).
Qed.

End Lone.
