(* ===== verification/Benchmark.v ===== *)
(** * benchmark/: a server that counts and clients that pump

    benchmark_server.cpp is an application whose one handler adds to two global counters,
    which the main thread reads and resets once a second.  benchmark_client.cpp starts any
    number of threads, each with an endpoint of its own, that send one message over and
    over and add to a global counter.  Here both programs are machines: their atomic
    operations interleave, and so do the statements of [send]. *)

From S2P Require Import Prelude Framing Structs Expected SendPipeline Callbacks Dispatcher.
From S2P Require Import TcpSession TcpConnection TcpClient ConnectSend TcpServer CallbackSteps UdpEndpoint UdpSession UdpThread.
From S2P Require Import EndToEnd Factory Application WireHeader.
From Stdlib Require Import ZArith Lia String.

Open Scope Z_scope.

#[local] Abbreviation length := Datatypes.length.
#[local] Abbreviation concat := List.concat.

(** ** The message *)

(** [struct BenchHeader]: two fields in the order of the host. *)
Abbreviation BenchHeader := wire_header.

Definition BenchData : Z := 1.

(** [struct BenchMsg] is its header; the payload follows it. *)
Record BenchMsg := MkBenchMsg { bench_header : BenchHeader }.

#[export] Instance BenchMsg_packed : Packed BenchMsg.
Proof.
  refine {|
    widths := [4; 4]%nat;
    fields m := [h_type (bench_header m); h_length (bench_header m)];
    of_fields vs := match vs with [t; l] => MkBenchMsg (MkHeader t l) | _ => MkBenchMsg (MkHeader 0 0) end;
  |}; [done|intros [[]]; reflexivity|solve_fields].
Defined.

Definition PAYLOAD_SIZE : Z := 1024.
Definition BATCH_SIZE : nat := 50.

(** ** The server *)

(** The atomic operations of the handler.  The handler's state is the sequence that it
    performs: what they make of the counters depends on the other threads ([metrics]). *)
Inductive metric_op := AddTotal | AddCurrent.

Definition handled_once : list metric_op := [AddTotal; AddCurrent].

Section Server.

Context `{!Host}.

(** The loop over [x], a local variable, has no effect. *)
Definition handle_bench_msg : RawHandler (list metric_op) :=
  by_ref (fun ops (msg : BenchMsg) => Return (ops ++ handled_once, msg)).

Definition bench_extract (h : BenchHeader) : Z * Z :=
  (h_type h, h_length h +! Z.of_nat (sizeof wire_header)).

Definition bench_handlers : list (registration Z (list metric_op)) :=
  [reg_of BenchMsg BenchData handle_bench_msg].

(** The client's [msg]: zeros, with the header copied over the front. *)
Definition bench_message : list byte :=
  splice (replicate (Z.to_nat (Z.of_nat (sizeof wire_header) + PAYLOAD_SIZE)) x00) 0
    (object_bytes (MkHeader BenchData PAYLOAD_SIZE)).

Lemma bench_message_frame :
  bench_message = object_bytes (MkHeader BenchData PAYLOAD_SIZE) ++ replicate (Z.to_nat PAYLOAD_SIZE) x00.
Proof.
  unfold bench_message, splice. pose proof (length_object_bytes (MkHeader BenchData PAYLOAD_SIZE)) as Hl.
  change (sizeof wire_header) with 8%nat in *. unfold PAYLOAD_SIZE in *. rewrite Hl.
  cbn [Z.to_nat take Datatypes.app]. f_equal.
Qed.

Lemma bench_header_fits : Forall2 fits (widths wire_header) (fields (MkHeader BenchData PAYLOAD_SIZE)).
Proof. repeat constructor; by vm_compute. Qed.

Lemma load_bench_header :
  load (take (sizeof wire_header) bench_message) = MkHeader BenchData PAYLOAD_SIZE.
Proof.
  rewrite load_take, bench_message_frame. apply load_object_bytes, bench_header_fits.
Qed.

Lemma length_bench_message : length bench_message = 1032%nat.
Proof. rewrite bench_message_frame, length_app, length_object_bytes, length_replicate. reflexivity. Qed.

Lemma bench_message_framed : framed_message bench_extract bench_message.
Proof.
  unfold framed_message, well_framed, announced, announced_size. change header_size with 8.
  change (take (Z.to_nat 8) bench_message) with (take (sizeof wire_header) bench_message).
  rewrite load_take, load_bench_header. unfold size_of. rewrite length_bench_message.
  split_and!; by vm_compute.
Qed.

Lemma bench_handler_return ops m :
  (8 <= length m)%nat -> exists m', app_on_recv handle_bench_msg ops m = Return (ops ++ handled_once, m').
Proof.
  intros Hl. cbn [handle_bench_msg by_ref app_on_recv]. change (sizeof BenchMsg) with 8%nat.
  destruct (Nat.ltb_spec (length m) 8); [lia|]. by eexists.
Qed.

Lemma bench_effect ops :
  after (on_message (Some bench_extract) bench_handlers) ops bench_message = ops ++ handled_once.
Proof.
  destruct (bench_handler_return ops bench_message) as [m' Hm]; [rewrite length_bench_message; lia|].
  unfold after, on_message, dispatcher_.
  assert (sizeof wire_header <= length bench_message)%nat as H8.
  { rewrite length_bench_message. change (sizeof wire_header) with 8%nat. lia. }
  assert (last_reg (bench_extract (load (take (sizeof wire_header) bench_message))).1 bench_handlers =
    Some (reg_of BenchMsg BenchData handle_bench_msg)) as Hreg by by rewrite load_bench_header.
  by rewrite (dispatched_return bench_handlers bench_extract ops bench_message _ _ m' H8 Hreg H8 Hm).
Qed.

Lemma bench_quiet ops m :
  framed_message bench_extract m -> quiet (app_on_recv (on_message (Some bench_extract) bench_handlers) ops m).
Proof.
  intros _. apply dispatched_quiet. intros r. unfold bench_handlers. cbn [last_reg].
  case_decide; [|done]. intros [= <-]. cbn [reg_size reg_handler reg_of]. intros Hlen.
  by destruct (bench_handler_return ops m Hlen) as [m' ->].
Qed.

#[export] Instance bench_protocol : WireProtocol bench_extract bench_handlers unit := {|
  packet _ := bench_message; sendable _ := True; effect ops _ := ops ++ handled_once;
  packet_framed _ _ := bench_message_framed; packet_effect ops _ _ := bench_effect ops;
  handlers_quiet := bench_quiet;
|}.

End Server.

(** ** The counters *)

(** [todo]: what the handlers of each connection still have to do; [reports]: what the
    main thread's calls of [exchange(0)] have returned. *)
Record metrics := Metrics {
  g_total_received : Z;
  g_current_sec_received : Z;
  todo : list (list metric_op);
  reports : list Z;
}.

Definition metrics_init (ops : list (list metric_op)) : metrics := Metrics 0 0 ops [].

Inductive metrics_event :=
| MHandler (i : nat)       (* the next atomic operation of the handlers of connection [i] *)
| MReport.                 (* [g_current_sec_received.exchange(0)] *)

Definition metrics_exec (e : metrics_event) (m : metrics) : option metrics :=
  match e with
  | MHandler i =>
      match todo m !! i with
      | Some (AddTotal :: l) =>
          Some (Metrics (wrap 64 (g_total_received m + 1)) (g_current_sec_received m) (<[i := l]> (todo m)) (reports m))
      | Some (AddCurrent :: l) =>
          Some (Metrics (g_total_received m) (wrap 64 (g_current_sec_received m + 1)) (<[i := l]> (todo m)) (reports m))
      | _ => None
      end
  | MReport => Some (Metrics (g_total_received m) 0 (todo m) (reports m ++ [g_current_sec_received m]))
  end.

Fixpoint metrics_run (es : list metrics_event) (m : metrics) : option metrics :=
  match es with
  | [] => Some m
  | e :: es => match metrics_exec e m with Some m' => metrics_run es m' | None => None end
  end.

(** What [k] calls of the handler do. *)
Definition calls_of (k : nat) : list metric_op := concat (replicate k handled_once).

Definition is_op (op o : metric_op) : bool :=
  match op, o with AddTotal, AddTotal | AddCurrent, AddCurrent => true | _, _ => false end.

Definition ops_left (op : metric_op) (l : list metric_op) : nat := length (List.filter (is_op op) l).

(** Between two calls, or between the two operations of one. *)
Definition in_calls (l : list metric_op) : Prop := exists k, l = calls_of k \/ l = AddCurrent :: calls_of k.

Lemma ops_left_calls op k : ops_left op (calls_of k) = k.
Proof. induction k as [|k IH]; [done|]. unfold ops_left in *. by destruct op; cbn; f_equal. Qed.

Lemma in_calls_next o l :
  in_calls (o :: l) ->
  in_calls l /\ forall op, (ops_left op (o :: l) = ops_left op l + if is_op op o then 1 else 0)%nat.
Proof.
  intros [k Hl]. split.
  - destruct Hl as [Hl|Hl]; [|injection Hl as _ ->; exists k; by left].
    destruct k as [|k]; [done|]. injection Hl as -> ->. exists k. by right.
  - intros op. unfold ops_left. cbn. destruct (is_op op o); cbn; lia.
Qed.

Definition ops_todo (op : metric_op) (m : metrics) : nat := sum_list (ops_left op <$> todo m).

(** [N] calls in all; [N - ops_todo] operations of each kind have been performed. *)
Record metrics_inv (N : nat) (m : metrics) : Prop := {
  mi_calls : Forall in_calls (todo m);
  mi_bound : (ops_todo AddTotal m <= ops_todo AddCurrent m <= N)%nat;
  mi_total : g_total_received m = wrap 64 (Z.of_nat (N - ops_todo AddTotal m));
  mi_current : wrap 64 (foldr Z.add 0 (reports m) + g_current_sec_received m) = wrap 64 (Z.of_nat (N - ops_todo AddCurrent m));
}.

Lemma in_calls_le l : in_calls l -> (ops_left AddTotal l <= ops_left AddCurrent l)%nat.
Proof.
  intros [k [->| ->]].
  - by rewrite !ops_left_calls.
  - pose proof (ops_left_calls AddTotal k) as Ht. pose proof (ops_left_calls AddCurrent k) as Hc.
    unfold ops_left in *. cbn. lia.
Qed.

Lemma todo_le ls : Forall in_calls ls -> (sum_list (ops_left AddTotal <$> ls) <= sum_list (ops_left AddCurrent <$> ls))%nat.
Proof. induction 1 as [|l ls Hl%in_calls_le _ IH]; cbn; lia. Qed.

Lemma metrics_step_inv N e m m' : metrics_inv N m -> metrics_exec e m = Some m' -> metrics_inv N m'.
Proof.
  intros [Hc Hb Ht Hr]. destruct e as [i|]; cbn [metrics_exec].
  - destruct (todo m !! i) as [[|o l]|] eqn:Hi; [done| |done].
    destruct (in_calls_next o l) as [Hl Hcnt]; [by eapply Forall_lookup_1|].
    assert (Forall in_calls (<[i := l]> (todo m))) as Hc' by by apply Forall_insert.
    pose proof (todo_le _ Hc') as Hle.
    assert (forall op, (sum_list (ops_left op <$> <[i := l]> (todo m)) + (if is_op op o then 1 else 0) =
                        ops_todo op m)%nat) as Hsum.
    { intros op. pose proof (sum_list_insert (ops_left op) (todo m) i (o :: l) l Hi) as Hs.
      rewrite Hcnt in Hs. unfold ops_todo. lia. }
    pose proof (Hsum AddTotal) as HsT. pose proof (Hsum AddCurrent) as HsC. unfold ops_todo in *.
    destruct o; intros [= <-]; cbn in HsT, HsC; (split; cbn [todo g_total_received g_current_sec_received reports];
      unfold ops_todo; cbn [todo]; [done|lia| |]).
    + rewrite Ht, wrap_add_l by lia. f_equal. lia.
    + etrans; [exact Hr|f_equal; lia].
    + rewrite Ht. f_equal. f_equal. lia.
    + rewrite wrap_add_r, Z.add_assoc, <- wrap_add_l, Hr, wrap_add_l by lia. f_equal. lia.
  - intros [= <-]. split; cbn [todo g_total_received g_current_sec_received reports]; try done.
    etrans; [|exact Hr]. f_equal. rewrite foldr_app. cbn [foldr].
    assert (forall l a, foldr Z.add a l = foldr Z.add 0 l + a) as Hf.
    { induction l as [|z l IH]; intros a; cbn; [lia|]. rewrite IH. lia. }
    rewrite Hf. lia.
Qed.

Lemma metrics_run_inv N es m m' : metrics_inv N m -> metrics_run es m = Some m' -> metrics_inv N m'.
Proof.
  revert m. induction es as [|e es IH]; intros m Hm; cbn [metrics_run]; [by intros [= <-]|].
  destruct (metrics_exec e m) as [m1|] eqn:He; [|done]. apply IH. by eapply metrics_step_inv.
Qed.

Lemma metrics_init_inv ks : metrics_inv (sum_list ks) (metrics_init (calls_of <$> ks)).
Proof.
  assert (forall op, ops_todo op (metrics_init (calls_of <$> ks)) = sum_list ks) as Hs.
  { intros op. unfold ops_todo. cbn [metrics_init todo]. induction ks as [|k ks IH]; cbn; [done|].
    by rewrite ops_left_calls, IH. }
  split; cbn [metrics_init g_total_received g_current_sec_received reports todo]; rewrite ?Hs, ?Nat.sub_diag; try done.
  apply Forall_fmap, Forall_true. intros k. exists k. by left.
Qed.

(** Whatever the threads do in whatever order: of [N] calls, [t] have been counted in the
    total, [c] of them for the reports, and each of these in exactly one report or not yet
    in one. *)
Lemma metrics_counted ks es m :
  metrics_run es (metrics_init (calls_of <$> ks)) = Some m ->
  exists t c, (c <= t <= sum_list ks)%nat /\
    g_total_received m = wrap 64 (Z.of_nat t) /\
    wrap 64 (foldr Z.add 0 (reports m) + g_current_sec_received m) = wrap 64 (Z.of_nat c) /\
    (Forall (fun l => l = []) (todo m) -> t = sum_list ks /\ c = sum_list ks).
Proof.
  intros Hrun. destruct (metrics_run_inv _ es _ m (metrics_init_inv ks) Hrun) as [_ Hb Ht Hr].
  do 2 eexists. split; [|split; [exact Ht|split; [exact Hr|]]]; [lia|].
  intros Hnil. assert (forall op, ops_todo op m = 0%nat) as H0.
  { intros op. unfold ops_todo. induction Hnil as [|l ls -> _ IH]; cbn; [done|]. by rewrite IH. }
  rewrite !H0. lia.
Qed.
