(* ===== verification/BenchClient.v ===== *)
(** * benchmark_client.cpp: threads that pump

    Any number of threads run [run_pumping_client], each with an endpoint of its own, and
    add to one global counter until the main thread clears [running].  Every statement
    that touches a shared variable is a step, and so is every event of an endpoint. *)

From S2P Require Import Prelude Framing Structs Expected SendPipeline Callbacks Dispatcher.
From S2P Require Import TcpSession TcpConnection TcpClient ConnectSend TcpServer CallbackSteps UdpEndpoint UdpSession UdpThread.
From S2P Require Import EndToEnd Factory Application WireHeader Benchmark LoneSender UdpLone.
From Stdlib Require Import ZArith Lia String.

Open Scope nat_scope.

#[local] Abbreviation length := Datatypes.length.
#[local] Abbreviation concat := List.concat.

(** ** What a pumping thread needs of its endpoint *)

(** [call s]: the message of the call of [send] that the thread is inside of.  [alone s]:
    no other thread is inside one. *)
Class Transport (S E : Type) := {
  tr_exec : E -> S -> option (outcome S);             (* all but the thread's own calls *)
  tr_send : list byte -> S -> option (outcome S);     (* [send] up to the test of the socket *)
  tr_call : S -> option (list byte);
  tr_connected : S -> bool;                           (* the variable [connected] *)
  tr_accepted : S -> list (list byte);
  tr_destroy : S -> outcome unit;                     (* the destructor *)
  tr_alone : S -> Prop;
  tr_exec_law e s s' : tr_alone s -> tr_exec e s = Some (Ret s') ->
    tr_alone s' /\ call_step (tr_call s) (tr_call s') (tr_accepted s) (tr_accepted s');
  tr_send_law m s s' : tr_alone s -> tr_call s = None -> tr_send m s = Some (Ret s') ->
    tr_alone s' /\ tr_accepted s' = tr_accepted s /\ (tr_call s' = None \/ tr_call s' = Some m);
}.

Section Bench.

Context `{!Host} {S E : Type} `{!Transport S E}.

(** The statement of [run_pumping_client] that a thread executes next. *)
Inductive pump_pc :=
| PRunning                 (* [while (running && ...)], before the batches *)
| PConnected               (* [... && !connected] *)
| PLastTest                (* [if (!connected)] *)
| PWhile                   (* [while (running)] *)
| PFor (i : nat)           (* [i < BATCH_SIZE], then the call of [send] *)
| PSend (i : nat)          (* inside [send] *)
| PCount (i : nat)         (* [g_sent_count.fetch_add(1)] *)
| PClose                   (* [close()] *)
| PStop                    (* [ctx.stop()] *)
| PReturn                  (* the context has stopped; the end of the function destroys the endpoint *)
| PDone.

#[global] Instance pump_pc_eq_dec : EqDecision pump_pc.
Proof. solve_decision. Defined.

(** [sent]: how often this thread has added to [g_sent_count] (history). *)
Record pump := Pump { pep : S; ppc : pump_pc; sent : nat }.

(** One statement, given what it reads of [running]; the flag tells whether it adds to
    [g_sent_count].  [close] is dispatched to the strand, an event of the endpoint. *)
Definition pump_step (running : bool) (p : pump) : option (outcome (pump * bool)) :=
  let go pc := Some (Ret (Pump (pep p) pc (sent p), false)) in
  match ppc p with
  | PRunning => go (if running then PConnected else PLastTest)
  | PConnected => go (if tr_connected (pep p) then PLastTest else PRunning)
  | PLastTest => go (if tr_connected (pep p) then PWhile else PStop)
  | PWhile => go (if running then PFor 0 else PClose)
  | PFor i =>
      if i <? BATCH_SIZE then
        match tr_send bench_message (pep p) with
        | Some o => Some (s ← o; Ret (Pump s (if tr_call s is Some _ then PSend i else PFor (1 + i)) (sent p), false))
        | None => None
        end
      else go PWhile
  | PSend i => if tr_call (pep p) is Some _ then None else go (PCount i)
  | PCount i => Some (Ret (Pump (pep p) (PFor (1 + i)) (1 + sent p), true))
  | PClose => go PStop
  | PStop => go PReturn
  | PReturn => Some (_ ← tr_destroy (pep p); Ret (Pump (pep p) PDone (sent p), false))
  | PDone => None
  end.

Record bench := Bench { g_sent_count : Z; running : bool; pumps : list pump }.

Inductive bench_event :=
| BThread (i : nat)
| BEndpoint (i : nat) (e : E)
| BStop.                      (* [running = false] *)

(** The thread is past [ctx.stop()], and the workers of its context have been joined. *)
Definition context_stopped (p : pump) : bool := match ppc p with PReturn | PDone => true | _ => false end.

Definition bench_exec (e : bench_event) (b : bench) : option (outcome bench) :=
  match e with
  | BThread i =>
      p ← pumps b !! i;
      o ← pump_step (running b) p;
      Some ('(p', counted) ← o;
            Ret (Bench (if counted : bool then wrap 64 (g_sent_count b + 1) else g_sent_count b)
                   (running b) (<[i := p']> (pumps b))))
  | BEndpoint i e =>
      p ← pumps b !! i;
      if context_stopped p then None
      else
        o ← tr_exec e (pep p);
        Some (s ← o; Ret (Bench (g_sent_count b) (running b) (<[i := Pump s (ppc p) (sent p)]> (pumps b))))
  | BStop => Some (Ret (Bench (g_sent_count b) false (pumps b)))
  end.

Fixpoint bench_run (es : list bench_event) (b : bench) : option bench :=
  match es with
  | [] => Some b
  | e :: es => match bench_exec e b with Some (Ret b') => bench_run es b' | _ => None end
  end.

(** [main] starts a thread for each endpoint; with TCP it first waits for the connection. *)
Definition bench_start (protocol : Protocol) (eps : list S) : bench :=
  Bench 0 true ((fun s => Pump s (if decide (protocol = TCP) then PRunning else PWhile) 0) <$> eps).

(** ** The invariant *)

(** The thread has left [send] and not counted yet. *)
Definition uncounted (p : pump) : nat :=
  match ppc p, tr_call (pep p) with PSend _, None | PCount _, _ => 1 | _, _ => 0 end.

Record pump_inv (p : pump) : Prop := {
  pi_alone : tr_alone (pep p);
  pi_call : match ppc p with
            | PSend _ => tr_call (pep p) = None \/ tr_call (pep p) = Some bench_message
            | _ => tr_call (pep p) = None
            end;
  pi_accepted : tr_accepted (pep p) = replicate (sent p + uncounted p) bench_message;
  pi_batch : match ppc p with PFor i => i <= BATCH_SIZE | PSend i | PCount i => i < BATCH_SIZE | _ => True end;
}.

Lemma pump_step_inv r p p' counted :
  pump_inv p -> pump_step r p = Some (Ret (p', counted)) ->
  pump_inv p' /\ sent p' = sent p + if counted then 1 else 0.
Proof.
  destruct p as [s pc k]. intros [Hal Hc Hacc Hb]. unfold pump_step, uncounted in *. cbn [ppc pep sent] in *.
  assert (forall pc', uncounted (Pump s pc k) = uncounted (Pump s pc' k) ->
    (match pc' with
     | PSend _ => tr_call s = None \/ tr_call s = Some bench_message
     | _ => tr_call s = None end) ->
    (match pc' with PFor i => i <= BATCH_SIZE | PSend i | PCount i => i < BATCH_SIZE | _ => True end) ->
    pump_inv (Pump s pc' k)) as Hgo.
  { intros pc' Hu Hc' Hb'. split; [done|done| |done]. rewrite <- Hu. exact Hacc. }
  unfold uncounted in Hgo. cbn [ppc pep] in Hgo.
  destruct pc as [| | | |i|i|i| | | |]; try done;
    try (destruct r, (tr_connected s); intros [= <- <-]; (split; [apply Hgo; (done || lia)|cbn; lia])).
  - destruct (Nat.ltb_spec i BATCH_SIZE) as [Hi|Hi].
    + destruct (tr_send bench_message s) as [[s'| | | |]|] eqn:Hs; try done. intros [= <- <-].
      destruct (tr_send_law _ _ _ Hal Hc Hs) as (Hal' & Ha' & Hc'). cbn [sent].
      split; [|lia]. split; unfold uncounted; cbn [ppc pep sent]; [done| | |].
      * destruct Hc' as [-> | ->]; auto.
      * rewrite Ha', Hacc. f_equal. by destruct Hc' as [-> | ->].
      * by destruct Hc' as [-> | ->].
    + intros [= <- <-]. split; [by apply Hgo|cbn; lia].
  - destruct (tr_call s) eqn:Hcs; [done|]. intros [= <- <-]. split; [by apply Hgo|cbn; lia].
  - intros [= <- <-]. split; [|cbn; lia].
    split; unfold uncounted; cbn [ppc pep sent]; [done|done| |exact Hb].
    rewrite Hacc. f_equal. lia.
  - destruct (tr_destroy s); try done. intros [= <- <-]. split; [by apply Hgo|cbn; lia].
Qed.

Lemma pump_endpoint_inv e p s' :
  pump_inv p -> tr_exec e (pep p) = Some (Ret s') -> pump_inv (Pump s' (ppc p) (sent p)).
Proof.
  destruct p as [s pc k]. intros [Hal Hc Hacc Hb] Hex. unfold uncounted in *. cbn [ppc pep sent] in *.
  destruct (tr_exec_law _ _ _ Hal Hex) as [Hal' [[Hc' Ha']|(m & Hm & Hc' & Ha')]].
  - split; unfold uncounted; cbn [ppc pep sent]; rewrite ?Hc', ?Ha'; done.
  - destruct pc; try congruence. destruct Hc as [Hc|Hc]; [congruence|].
    assert (m = bench_message) as -> by congruence.
    split; unfold uncounted; cbn [ppc pep sent]; [done|by left| |done].
    rewrite Ha', Hacc, Hm, Hc', Nat.add_0_r, replicate_add. done.
Qed.

(** Every operation on the counter is some thread's, once. *)
Record bench_inv (b : bench) : Prop := {
  bi_pumps : Forall pump_inv (pumps b);
  bi_count : g_sent_count b = wrap 64 (Z.of_nat (sum_list (sent <$> pumps b)));
}.

Lemma bench_step_inv e b b' : bench_inv b -> bench_exec e b = Some (Ret b') -> bench_inv b'.
Proof.
  intros [Hp Hg]. destruct e as [i|i e|]; cbn [bench_exec].
  - destruct (pumps b !! i) as [p|] eqn:Hi; [|done]. cbn [mbind option_bind].
    destruct (pump_step (running b) p) as [[[p' counted]| | | |]|] eqn:Hs; try done.
    intros [= <-]. destruct (pump_step_inv _ _ _ _ (Forall_lookup_1 _ _ _ _ Hp Hi) Hs) as [Hp' Hk].
    split; cbn [pumps g_sent_count]; [by apply Forall_insert|].
    pose proof (sum_list_insert sent (pumps b) i p p' Hi) as Hsum. rewrite Hg.
    destruct counted; [rewrite wrap_add_l by lia|]; f_equal; lia.
  - destruct (pumps b !! i) as [p|] eqn:Hi; [|done]. cbn [mbind option_bind].
    destruct (context_stopped p); [done|]. destruct (tr_exec e (pep p)) as [[s'| | | |]|] eqn:Hs; try done.
    intros [= <-]. pose proof (pump_endpoint_inv _ _ _ (Forall_lookup_1 _ _ _ _ Hp Hi) Hs) as Hp'.
    split; cbn [pumps g_sent_count]; [by apply Forall_insert|].
    pose proof (sum_list_insert sent (pumps b) i p _ Hi : _ + _ = _ + sent (Pump s' (ppc p) (sent p))) as Hsum.
    rewrite Hg. f_equal. cbn [sent] in Hsum. lia.
  - by intros [= <-].
Qed.

Lemma bench_run_inv es b b' : bench_inv b -> bench_run es b = Some b' -> bench_inv b'.
Proof.
  revert b. induction es as [|e es IH]; intros b Hb; cbn [bench_run]; [by intros [= <-]|].
  destruct (bench_exec e b) as [[b1| | | |]|] eqn:He; try done. apply IH. by eapply bench_step_inv.
Qed.

(** An endpoint that nobody has sent on. *)
Definition unused (s : S) : Prop := tr_alone s /\ tr_call s = None /\ tr_accepted s = [].

Lemma bench_start_inv protocol eps : Forall unused eps -> bench_inv (bench_start protocol eps).
Proof.
  intros He. split; unfold bench_start; cbn [pumps g_sent_count].
  - apply Forall_fmap. eapply Forall_impl; [exact He|]. intros s (Hal & Hc & Ha).
    by destruct (decide (protocol = TCP)); split.
  - assert (sum_list (sent <$> ((fun s => Pump s (if decide (protocol = TCP) then PRunning else PWhile) 0) <$> eps)) = 0)
      as -> by (clear; induction eps; done). done.
Qed.

Definition endpoint_events (Q : E -> Prop) (e : bench_event) : Prop :=
  match e with BEndpoint _ e => Q e | _ => True end.

(** A predicate of endpoints that their events and the calls keep. *)
Lemma bench_run_endpoints (Q : E -> Prop) (P : S -> Prop) es b b' :
  (forall e s s', Q e -> P s -> tr_exec e s = Some (Ret s') -> P s') ->
  (forall m s s', P s -> tr_send m s = Some (Ret s') -> P s') ->
  Forall (endpoint_events Q) es ->
  Forall (fun p => P (pep p)) (pumps b) -> bench_run es b = Some b' -> Forall (fun p => P (pep p)) (pumps b').
Proof.
  intros He Hm Hes. revert b. induction Hes as [|e es HQ _ IH]; intros b Hb; cbn [bench_run]; [by intros [= <-]|].
  destruct (bench_exec e b) as [[b1| | | |]|] eqn:Hex; try done. apply IH. revert Hex.
  destruct e as [i|i e|]; cbn [bench_exec]; [| |by intros [= <-]];
    (destruct (pumps b !! i) as [p|] eqn:Hi; [|done]); cbn [mbind option_bind];
    pose proof (Forall_lookup_1 _ _ _ _ Hb Hi) as Hp; cbn beta in Hp.
  - destruct (pump_step (running b) p) as [[[p' c]| | | |]|] eqn:Hs; try done. intros [= <-]. cbn [pumps].
    apply Forall_insert; [done|]. revert Hs. unfold pump_step. cbn zeta.
    destruct (ppc p) as [| | | |j|j|j| | | |]; try (by intros [= <- _]).
    + destruct (j <? BATCH_SIZE); [|by intros [= <- _]].
      destruct (tr_send _ _) as [[s'| | | |]|] eqn:Hs; try done. intros [= <- _]. by eapply Hm.
    + destruct (tr_call _); [done|]. by intros [= <- _].
    + destruct (tr_destroy _); try done. by intros [= <- _].
  - destruct (context_stopped p); [done|]. destruct (tr_exec e (pep p)) as [[s'| | | |]|] eqn:Hs; try done.
    intros [= <-]. apply Forall_insert; [done|]. by eapply He.
Qed.

Lemma bench_run_threads es b b' : bench_run es b = Some b' -> length (pumps b') = length (pumps b).
Proof.
  revert b. induction es as [|e es IH]; intros b; cbn [bench_run]; [by intros [= <-]|].
  destruct (bench_exec e b) as [[b1| | | |]|] eqn:Hex; try done. intros ->%IH. revert Hex.
  destruct e as [i|i e|]; cbn [bench_exec]; [| |by intros [= <-]];
    (destruct (pumps b !! i) as [p|]; [|done]); cbn [mbind option_bind].
  - destruct (pump_step (running b) p) as [[[p' c]| | | |]|]; try done. intros [= <-]. apply length_insert.
  - destruct (context_stopped p); [done|]. destruct (tr_exec e (pep p)) as [[s'| | | |]|]; try done.
    intros [= <-]. apply length_insert.
Qed.

(** ** What has been counted *)

Definition total_accepted (b : bench) : nat := sum_list ((fun p => length (tr_accepted (pep p))) <$> pumps b).

Lemma sum_uncounted ps :
  Forall pump_inv ps ->
  sum_list ((fun p => length (tr_accepted (pep p))) <$> ps) = sum_list (sent <$> ps) + sum_list (uncounted <$> ps) /\
  sum_list (uncounted <$> ps) <= length ps /\
  (Forall (fun p => context_stopped p) ps -> sum_list (uncounted <$> ps) = 0).
Proof.
  induction 1 as [|p ps [_ _ Ha _] _ (IH1 & IH2 & IH3)]; [done|]. rewrite !fmap_cons. cbn [sum_list].
  rewrite Ha, length_replicate, IH1. assert (uncounted p <= 1) as Hu.
  { unfold uncounted. destruct (ppc p), (tr_call (pep p)); lia. }
  rewrite length_cons. unfold id in *. split_and!; [lia|lia|].
  intros [Hd Hds]%Forall_cons. rewrite (IH3 Hds). unfold context_stopped in Hd. unfold uncounted.
  by destruct (ppc p).
Qed.

(** Of the messages accepted for sending each has been counted once, save at most one per
    thread; none when the threads are done. *)
Lemma bench_counted protocol eps es b :
  Forall unused eps -> bench_run es (bench_start protocol eps) = Some b ->
  Forall (fun p => exists k, tr_accepted (pep p) = replicate k bench_message) (pumps b) /\
  exists s, s <= total_accepted b <= s + length eps /\ g_sent_count b = wrap 64 (Z.of_nat s) /\
    (Forall (fun p => context_stopped p) (pumps b) -> s = total_accepted b).
Proof.
  intros He Hrun. pose proof (bench_run_inv es _ b (bench_start_inv protocol eps He) Hrun) as [Hp Hg].
  split.
  - eapply Forall_impl; [exact Hp|]. intros p [_ _ Ha _]. eauto.
  - exists (sum_list (sent <$> pumps b)). destruct (sum_uncounted _ Hp) as (Hs & Hle & Hd).
    rewrite (bench_run_threads _ _ _ Hrun) in Hle. unfold bench_start in Hle. cbn [pumps] in Hle.
    rewrite length_fmap in Hle. unfold total_accepted. rewrite Hs.
    split_and!; [lia|lia|done|]. intros ->%Hd. lia.
Qed.

End Bench.

(** ** Over TCP *)

Section Tcp.

Context `{!Host, !CircularBuffer}.

Definition size_lambda (_ : list byte) : Z := (Z.of_nat (sizeof wire_header) + PAYLOAD_SIZE)%Z.

Definition bench_config (protocol : Protocol) (ip : string) (port : Z) : ClientConfig :=
  client_config_framed protocol ip port (Z.of_nat (sizeof wire_header)) (Some size_lambda).

(** The callback given to [connect]; the client's application state is [connected]. *)
Definition on_connected (res : send_result) (connected : bool) : app_prog bool :=
  Return (if operator_bool res then true else connected).

(** [Factory::create_tcp_client(ctx, cfg).value()]. *)
Definition make_tcp (n : nat) (ip : string) (port : Z) : outcome (tcp_client (A := bool)) :=
  e ← create_tcp_client n false (bench_config TCP ip port); value e.

Abbreviation bench_framing := (FramingConfig 8 default_max_message_size (Some size_lambda)).
Abbreviation exec_tcp := (client_exec bench_framing 0 None (Some on_connected)).
Abbreviation tcp_pipe c := (tx (ep (session_ c))).

(** Neither [connect], which the thread calls once before the pumping, nor [send]. *)
Definition tcp_event (e : client_event) : bool :=
  match e with KConnect _ _ | KSession (SSendPath (EvSend _ _)) => false | _ => true end.

Lemma session_lone e (s s' : session (X := bool) (A := bool)) :
  TcpSession.no_other_sender e -> lone_sender (tx (ep s)) -> sess_exec bench_framing 0 None e s = Some (Ret s') ->
  lone_steps (tx (ep s)) (tx (ep s')).
Proof.
  intros He Hl. apply (sess_exec_tx bench_framing 0 None (lone_steps (tx (ep s)))); [|done|].
  - intros ev p p' Hev Hp. apply lone_steps_exec; [|done]. destruct ev; try done. by rewrite (Hev eq_refl) in He.
  - split; [done|by left].
Qed.

(** A callback that only assigns. *)
Lemma connect_handler_tx ec (s s' : session (X := bool) (A := bool)) :
  connect_handler 0 (Some on_connected) ec s = Ret s' -> tx (ep s') = tx (ep s).
Proof.
  unfold connect_handler, run_connect_callback, on_connected. by destruct (ec =? 0)%Z; cbn; intros [= <-].
Qed.

Lemma tcp_exec_lone e (c c' : client (A := bool)) :
  tcp_event e = true -> lone_sender (tcp_pipe c) -> exec_tcp e c = Some (Ret c') ->
  lone_steps (tcp_pipe c) (tcp_pipe c').
Proof.
  intros He Hl Hex. assert (lone_steps (tcp_pipe c) (tcp_pipe c)) as Hrefl by (split; [done|by left]).
  destruct e as [ec o|o|ec|e]; [done|..]; cbn [client_exec] in Hex.
  - destruct (connecting c =? 0); [done|]. by injection Hex as <-.
  - destruct (connecting c); [done|]. destruct (read_op _); [done|].
    destruct (connect_handler _ _ _ _) as [s'| | | |] eqn:Hh; try done. injection Hex as <-.
    cbn [session_]. by rewrite (connect_handler_tx _ _ _ Hh).
  - destruct (sess_exec _ _ _ e (session_ c)) as [[s'| | | |]|] eqn:Hs; try done. injection Hex as <-.
    apply session_lone in Hs; [done| |done]. by destruct e as [[]| | | | |].
Qed.

Lemma tcp_send_lone m (c c' : client (A := bool)) :
  lone_sender (tcp_pipe c) -> exec_tcp (KSession (SSendPath (EvSend 0 m))) c = Some (Ret c') ->
  lone_sender (tcp_pipe c') /\ accepted (tcp_pipe c') = accepted (tcp_pipe c) /\
  (pipe_call (tcp_pipe c) = None -> pipe_call (tcp_pipe c') = None \/ pipe_call (tcp_pipe c') = Some m).
Proof.
  intros Hl. cbn [client_exec sess_exec send_path_only send_exec exec].
  destruct (own_sends _); destruct (threads (tcp_pipe c) !! 0) eqn:Hth; try done.
  - destruct (is_open (tcp_pipe c)); intros [= <-]; cbn [session_ ep tx set_tx].
    + split_and!; [|done|]; unfold pipe_call; cbn [threads set_threads].
      * intros t Ht. cbn [threads set_threads]. rewrite lookup_insert_ne by done. by apply Hl.
      * right. by rewrite lookup_insert_eq.
    + split_and!; [done|done|by left].
  - intros [= <-]. cbn [session_ ep]. split_and!; [done|done|by left].
Qed.

#[export] Instance tcp_transport : Transport (client (A := bool)) client_event.
Proof.
  refine {|
    tr_exec e c := if tcp_event e then exec_tcp e c else None;
    tr_send m c := exec_tcp (KSession (SSendPath (EvSend 0 m))) c;
    tr_call c := pipe_call (tcp_pipe c);
    tr_connected c := TcpSession.app (ep (session_ c));
    tr_accepted c := accepted (tcp_pipe c);
    tr_destroy c := _ ← destroy_client c; Ret tt;
    tr_alone c := lone_sender (tcp_pipe c);
  |}.
  - intros e c c' Hl. destruct (tcp_event e) eqn:He; [|done]. by apply tcp_exec_lone.
  - intros m c c' Hl Hc Hs. destruct (tcp_send_lone m c c' Hl Hs) as (H1 & H2 & H3). auto.
Defined.

(** What a client sends lies within what it has had accepted. *)
Definition tcp_started (n : nat) (c : client (A := bool)) : Prop :=
  client_reachable bench_framing 0 None (Some on_connected) n false c /\ connects_once c.

Lemma tcp_started_connect n resolve_ec opens :
  tcp_started n (TcpClient.connect resolve_ec opens (client_init n false)).2.
Proof.
  split.
  - by apply (client_reach_step _ _ _ _ _ _ (client_init n false) (KConnect resolve_ec opens)); [constructor|].
  - unfold TcpClient.connect. by destruct (negb _); (split; [|cbn; lia]).
Qed.

Lemma tcp_started_step n e (c c' : client (A := bool)) :
  (match e with KConnect _ _ => False | _ => True end) ->
  tcp_started n c -> exec_tcp e c = Some (Ret c') -> tcp_started n c'.
Proof.
  intros He [Hr Hc] Hex. split; [by eapply client_reach_step|by eapply connects_once_step].
Qed.

Lemma bench_small_limits : small_limits bench_framing.
Proof. split; split; by vm_compute. Qed.

Lemma on_connected_defined : connect_callback_defined (Some on_connected).
Proof. by intros k [= <-] res a. Qed.

Lemma tcp_started_inv n c :
  n <= queue_capacity -> tcp_started n c -> client_inv bench_framing 0 n c /\ pipe_inv n (tcp_pipe c).
Proof.
  intros Hn [Hr [Hre _]].
  pose proof (client_reachable_inv bench_framing 0 None (Some on_connected) n Hn size_lambda eq_refl bench_small_limits
                (no_callback_defined bench_framing size_lambda) on_connected_defined false c Hr Hre) as Hi.
  split; [exact Hi|]. pose proof (inv_session _ _ _ _ Hi Hre) as Hs.
  apply reachable_inv; [exact Hn|apply (inv_tx _ _ _ _ (inv_ep _ _ _ _ Hs))].
Qed.

Lemma tcp_started_wire n c : n <= queue_capacity -> tcp_started n c -> wire (tcp_pipe c) `prefix_of` concat (accepted (tcp_pipe c)).
Proof. intros Hn Hc. apply (inv_wire n). by apply tcp_started_inv. Qed.

(** The clients as [run_pumping_client] has them when it starts to wait: [connect] has been
    called, and has found [resolve_ec] and [opens]. *)
Definition tcp_clients (n : nat) (answers : list (Z * bool)) : list (client (A := bool)) :=
  (fun a => (TcpClient.connect a.1 a.2 (client_init n false)).2) <$> answers.

Lemma tcp_clients_unused n answers : Forall unused (tcp_clients n answers).
Proof.
  apply Forall_fmap, Forall_true. intros [ec opens]. cbn. unfold TcpClient.connect. by destruct (negb _).
Qed.

Lemma tcp_bench_wire n answers es b :
  n <= pool_capacity -> bench_run es (bench_start TCP (tcp_clients n answers)) = Some b ->
  Forall (fun p => wire (tcp_pipe (pep p)) `prefix_of` concat (accepted (tcp_pipe (pep p)))) (pumps b).
Proof.
  intros Hn%pool_fits Hrun.
  assert (Forall (fun p => tcp_started n (pep p)) (pumps b)) as Hp.
  { eapply (bench_run_endpoints (fun _ => True) (tcp_started n)); [..|exact Hrun].
    - intros e c c' _ Hc. cbn [tr_exec tcp_transport]. destruct (tcp_event e) eqn:He; [|done].
      apply tcp_started_step; [by destruct e|done].
    - intros m c c'. by apply tcp_started_step.
    - apply Forall_forall. by intros [].
    - apply Forall_fmap, Forall_fmap, Forall_true. intros [ec opens]. apply tcp_started_connect. }
  eapply Forall_impl; [exact Hp|]. intros p. by apply tcp_started_wire.
Qed.

End Tcp.

(** ** Over UDP *)

Section Udp.

Context `{!Host, !CircularBuffer} {Addr : Type} (addr0 : Addr).

(** [Factory::create_udp_client(ctx, cfg).value()]; no callback is registered. *)
Definition make_udp (n : nat) (o : os (Addr := Addr)) : outcome (udp Addr) :=
  e ← create_udp_client addr0 n o; value e.

(** Nothing is waited for: the branch that tests [connected] is TCP's. *)
#[export] Instance udp_transport : Transport (udp Addr) (uevent Addr).
Proof.
  refine {|
    tr_exec e u := if udp_event e then uexec e u else None;
    tr_send m u := uexec (USend 0 m) u;
    tr_call u := fst <$> lone_call u;
    tr_connected u := true;
    tr_accepted u := (uaccepted u).*1;
    tr_destroy u := _ ← UdpEndpoint.destroy u; Ret tt;
    tr_alone := lone_udp;
  |}.
  - intros e u u' Hl. destruct (udp_event e) eqn:He; [|done]. by apply uexec_lone.
  - intros m u u'. apply usend_lone.
Defined.

Lemma make_udp_unused n o u : make_udp n o = Ret u -> ureachable addr0 n u /\ unused u.
Proof.
  unfold make_udp. pose proof (create_udp_client_cases addr0 n o) as Hc.
  pose proof (connect_same o (udp_init addr0 n)) as Hs.
  destruct (UdpEndpoint.connect o (udp_init addr0 n)) as [res u'] eqn:Hcon. rewrite Hc.
  destruct res as [[]|e]; [|done]. cbn [mbind outcome_bind value]. intros [= <-].
  destruct Hs as (_ & _ & _ & _ & _ & Ht & Ha & _). cbn [snd] in Ht, Ha. split.
  - apply (ureach_step _ _ (udp_init addr0 n) (UConnect o)); [constructor|]. cbn [uexec]. by rewrite Hcon.
  - destruct (empty_lone u') as [Hl Hcall]; [by rewrite Ht|]. split; [exact Hl|].
    cbn [tr_call tr_accepted udp_transport]. by rewrite Hcall, Ha.
Qed.

Lemma udp_bench_wire n os eps es b :
  n <= pool_capacity -> Forall2 (fun o u => make_udp n o = Ret u) os eps ->
  bench_run es (bench_start UDP eps) = Some b ->
  Forall (fun p => (uwire (pep p)).*1 `sublist_of` (uaccepted (pep p)).*1) (pumps b).
Proof.
  intros Hn%udp_pool_fits Hos Hrun.
  assert (Forall (fun p => ureachable addr0 n (pep p)) (pumps b)) as Hp.
  { eapply (bench_run_endpoints (fun _ => True) (ureachable addr0 n)); [..|exact Hrun].
    - intros e u u' _ Hu. cbn [tr_exec udp_transport]. destruct (udp_event e); [|done]. by apply ureach_step.
    - intros m u u' Hu. by apply (ureach_step _ _ u (USend 0 m)).
    - apply Forall_forall. by intros [].
    - apply Forall_fmap. clear Hrun. induction Hos as [|o u os us [Hu _]%make_udp_unused _ IH]; [constructor|].
      constructor; [exact Hu|exact IH]. }
  eapply Forall_impl; [exact Hp|]. intros p Hu. apply fmap_sublist.
  by apply (uinv_wire_accepted addr0 n), (ureachable_inv addr0 n _ Hn).
Qed.

End Udp.

(** ** Both programs, over TCP *)

Section EndToEnd.

Context `{!Host, !CircularBuffer}.

Abbreviation tcp_pipe c := (tx (ep (session_ c))).

Lemma make_tcp_value n ip port :
  make_tcp n ip port =
  Ret (MakeTcpClient (FramingConfig 8 default_max_message_size (Some size_lambda)) 0 None (client_init n false)).
Proof. reflexivity. Qed.

Lemma pumped_effect ops k : foldl effect ops (replicate k ()) = ops ++ calls_of k.
Proof.
  revert ops. induction k as [|k IH]; intros ops; cbn; [by rewrite app_nil_r|].
  rewrite IH. unfold calls_of. cbn. by rewrite <- app_assoc.
Qed.

(** One connection: [k] messages have been accepted by the client. *)
Lemma connection_calls k cs (s : endpoint nat (list metric_op)) :
  Forall (fun c => 0 < size_of c <= 65536)%Z cs -> concat cs `prefix_of` concat (replicate k bench_message) ->
  TcpSession.app s = [] ->
  exists r s' j, received bench_extract bench_handlers cs s = Ret (r, s') /\ is_Some (read_op r) /\
    TcpSession.app s' = calls_of j /\ j <= k /\ (concat cs = concat (replicate k bench_message) -> j = k).
Proof.
  intros Hcs Hpre Hs.
  assert (packet (WireProtocol := bench_protocol) <$> replicate k () = replicate k bench_message) as Hpk
    by exact (fmap_replicate _ k ()).
  destruct (protocol_received bench_extract bench_handlers (replicate k ()) cs s)
    as (r & s' & j & Hrun & Hop & Happ & Hall); [|done|by rewrite Hpk|].
  { apply Forall_forall. intros x _. exact I. }
  rewrite take_replicate, pumped_effect, Hs in Happ. rewrite Hpk, pumped_effect, Hs in Hall.
  destruct (decide (concat cs = concat (replicate k bench_message))) as [He|He].
  - exists r, s', k. split_and!; try done. by apply Hall.
  - exists r, s', (Nat.min j k). split_and!; try done; lia.
Qed.

(** All connections. *)
Lemma connections_calls css ks (s : endpoint nat (list metric_op)) :
  Forall2 (fun cs k => Forall (fun c => 0 < size_of c <= 65536)%Z cs /\
                       concat cs `prefix_of` concat (replicate k bench_message)) css ks ->
  TcpSession.app s = [] ->
  exists js, Forall2 (fun cs j => exists r s', received bench_extract bench_handlers cs s = Ret (r, s') /\
                        is_Some (read_op r) /\ TcpSession.app s' = calls_of j) css js /\
    sum_list js <= sum_list ks /\
    (Forall2 (fun cs k => concat cs = concat (replicate k bench_message)) css ks -> sum_list js = sum_list ks).
Proof.
  intros Hall Hs. induction Hall as [|cs k css ks [Hcs Hpre] _ (js & Hjs & Hle & Heq)]; [by exists []|].
  destruct (connection_calls k cs s Hcs Hpre Hs) as (r & s' & j & Hrun & Hop & Happ & Hj & Hk).
  exists (j :: js). split; [constructor; [by exists r, s'|exact Hjs]|]. split; [cbn; unfold id in *; lia|].
  intros [Hc Hcs']%Forall2_cons. cbn. by rewrite Hk, Heq.
Qed.

End EndToEnd.

(** ** Property *)

Section Properties.

Context `{!Host, !CircularBuffer}.

(** C6: the benchmark over TCP.  Whatever the threads of both programs, the strands, the
    network and the kernel do in whatever order, and whatever part of what the clients
    sent has arrived in whatever pieces: every connection's handlers run; with [total]
    messages accepted for sending, the clients have counted all but at most one per
    thread; the server has counted no more, and has put into its reports no more than it
    has counted, each message into one report at most.  When the threads have ended, all
    bytes have arrived and the handlers are done, the counts of both programs agree: that
    of the clients, the server's total, and the sum of its reports. *)
Theorem bench_counts n answers bes b css (s : endpoint nat (list metric_op)) :
  n <= pool_capacity -> bench_run bes (bench_start TCP (tcp_clients n answers)) = Some b ->
  Forall2 (fun cs p => Forall (fun c => 0 < size_of c <= 65536)%Z cs /\
                       concat cs `prefix_of` wire (tx (ep (session_ (pep p))))) css (pumps b) ->
  TcpSession.app s = [] ->
  exists opss,
    Forall2 (fun cs ops => exists r s', received bench_extract bench_handlers cs s = Ret (r, s') /\
               is_Some (read_op r) /\ TcpSession.app s' = ops) css opss /\
    forall mes m, metrics_run mes (metrics_init opss) = Some m ->
    let total := total_accepted b in
    let reported := (foldr Z.add 0 (reports m) + g_current_sec_received m)%Z in
    exists sent received counted,
      sent <= total <= sent + length answers /\ counted <= received <= total /\
      g_sent_count b = wrap 64 (Z.of_nat sent) /\
      g_total_received m = wrap 64 (Z.of_nat received) /\
      wrap 64 reported = wrap 64 (Z.of_nat counted) /\
      (Forall (fun p => ppc p = PDone) (pumps b) ->
       Forall2 (fun cs p => concat cs = concat (accepted (tx (ep (session_ (pep p)))))) css (pumps b) ->
       Forall (fun ops => ops = []) (todo m) ->
       g_total_received m = g_sent_count b /\ wrap 64 reported = g_sent_count b).
Proof.
  intros Hn Hrun Hcs Hs.
  pose proof (tcp_bench_wire n answers bes b Hn Hrun) as Hw.
  destruct (bench_counted TCP _ bes b (tcp_clients_unused n answers) Hrun) as (Hacc & st & Hst & Hg & Hdone).
  unfold tcp_clients in Hst. rewrite length_fmap in Hst.
  set (count p := length (accepted (tx (ep (session_ (pep (S := client (A := bool)) p)))))).
  assert (Forall (fun p => accepted (tx (ep (session_ (pep p)))) = replicate (count p) bench_message) (pumps b)) as Hrep.
  { eapply Forall_impl; [exact Hacc|]. intros p [k Hk]. cbn [tr_accepted tcp_transport] in Hk.
    unfold count. by rewrite Hk, length_replicate. }
  destruct (connections_calls css (count <$> pumps b) s) as (js & Hjs & Hle & Heq); [|exact Hs|].
  { apply Forall2_fmap_r. eapply Forall2_impl; [exact (Forall2_with _ _ _ _ (Forall2_with _ _ _ _ Hcs Hw) Hrep)|].
    cbn beta. intros cs p [[[Hsz Hpre] Hpw] Hp]. split; [exact Hsz|]. rewrite <- Hp. by etrans. }
  exists (calls_of <$> js). split.
  { apply Forall2_fmap_r. exact Hjs. }
  intros mes m Hm total reported. subst total reported.
  destruct (metrics_counted js mes m Hm) as (t & c & Hb & Ht & Hr & Hnil).
  change (sum_list (count <$> pumps b)) with (total_accepted b) in *.
  exists st, t, c. split_and!; [lia|lia|lia|lia|exact Hg|exact Ht|exact Hr|].
  intros Hd Hall Htodo. destruct (Hnil Htodo) as [-> ->].
  assert (Forall (fun p => context_stopped p) (pumps b)) as Hd'.
  { eapply Forall_impl; [exact Hd|]. intros p Hp. unfold context_stopped. by rewrite Hp. }
  rewrite Ht, Hr, Hg, (Hdone Hd'), Heq; [done|].
  apply Forall2_fmap_r. eapply Forall2_impl; [exact (Forall2_with _ _ _ _ Hall Hrep)|].
  cbn beta. intros cs p [Hc Hp]. by rewrite Hc, Hp.
Qed.

End Properties.

(** ** Witness

    Of two threads one is connected, sends one message and finds its socket closed
    afterwards; the other never gets a connection. *)

#[local] Existing Instance overwriting_buffer.
#[local] Instance little_endian_host : Host := LittleEndian.

Definition steps_of (i : nat) (es : list sess_event) : list bench_event := (fun e => BEndpoint i (KSession e)) <$> es.

Definition pumping_schedule : list bench_event :=
  BEndpoint 0 (KConnectDone 0) :: replicate 5 (BThread 0) ++
  steps_of 0 (SSendPath <$> [EvPop 0; EvCopy 0; EvPost 0]) ++ [BThread 0; BThread 0] ++
  steps_of 0 (SSendPath EvRunPosted :: replicate (Z.to_nat 1032) (SSendPath EvTransmit) ++
              [SWriteDone false (fun _ => true); SClose]) ++
  replicate 50 (BThread 0) ++ BStop :: replicate 4 (BThread 1) ++ replicate 4 (BThread 0).

Definition pumping_start : bench := bench_start TCP (tcp_clients 2 [(0%Z, true); (host_not_found, true)]).

Definition pumping_end : bench := default pumping_start (bench_run pumping_schedule pumping_start).

Definition bench_arrivals : list (list (list byte)) := [[take 500 bench_message; drop 500 bench_message]; []].

Definition bench_connection : endpoint nat (list metric_op) := ep (connection_init 2 []).

Definition bench_calls : list (list metric_op) :=
  (fun cs => match received bench_extract bench_handlers cs bench_connection with
             | Ret (_, s) => TcpSession.app s
             | _ => []
             end) <$> bench_arrivals.

Definition monitor_schedule : list metrics_event := [MHandler 0; MReport; MHandler 0; MReport].

Definition monitored : metrics :=
  default (metrics_init bench_calls) (metrics_run monitor_schedule (metrics_init bench_calls)).

Lemma pumping_runs :
  bench_run pumping_schedule pumping_start = Some pumping_end /\
  (ppc <$> pumps pumping_end) = [PDone; PDone] /\
  ((fun p => accepted (tx (ep (session_ (pep p))))) <$> pumps pumping_end) = [[bench_message]; []] /\
  ((fun p => wire (tx (ep (session_ (pep p))))) <$> pumps pumping_end) = [bench_message; []] /\
  g_sent_count pumping_end = 1%Z.
Proof.
  assert ((if bench_run pumping_schedule pumping_start is Some b
           then bool_decide ((ppc <$> pumps b) = [PDone; PDone]) &&
                bool_decide ((fun p => accepted (tx (ep (session_ (pep p))))) <$> pumps b = [[bench_message]; []]) &&
                bool_decide ((fun p => wire (tx (ep (session_ (pep p))))) <$> pumps b = [bench_message; []]) &&
                (g_sent_count b =? 1)%Z
           else false) = true) as H by (vm_compute; reflexivity).
  unfold pumping_end. destruct (bench_run _ _) as [b|]; [|done]. cbn [default].
  apply andb_prop in H as [H H4%Z.eqb_eq]. apply andb_prop in H as [H H3%bool_decide_eq_true].
  apply andb_prop in H as [H1%bool_decide_eq_true H2%bool_decide_eq_true]. done.
Qed.

Lemma bench_calls_received opss :
  Forall2 (fun cs ops => exists r s', received bench_extract bench_handlers cs bench_connection = Ret (r, s') /\
             is_Some (read_op r) /\ TcpSession.app s' = ops) bench_arrivals opss -> opss = bench_calls.
Proof.
  unfold bench_calls. generalize bench_arrivals. intros css.
  induction 1 as [|cs ops css opss (r & s' & Hr & _ & Ha) _ IH]; [done|]. cbn [fmap list_fmap].
  rewrite Hr, Ha. by f_equal.
Qed.

Lemma monitored_runs :
  metrics_run monitor_schedule (metrics_init bench_calls) = Some monitored /\ Forall (fun ops => ops = []) (todo monitored).
Proof.
  assert ((if metrics_run monitor_schedule (metrics_init bench_calls) is Some m
           then forallb (fun ops => match ops with [] => true | _ => false end) (todo m) else false) = true) as H
    by (vm_compute; reflexivity).
  unfold monitored. destruct (metrics_run _ _) as [m|]; [|done]. cbn [default]. split; [done|].
  apply Forall_forall. intros ops Hin. apply list_elem_of_In in Hin. by destruct ops; [|apply (proj1 (forallb_forall _ _) H) in Hin].
Qed.

Lemma bench_counts_witness :
  g_sent_count pumping_end = 1%Z /\ g_total_received monitored = g_sent_count pumping_end /\
  wrap 64 (foldr Z.add 0 (reports monitored) + g_current_sec_received monitored)%Z = g_sent_count pumping_end.
Proof.
  destruct pumping_runs as (Hrun & Hpc & Hacc & Hwire & Hg). destruct monitored_runs as [Hmon Htodo].
  split; [exact Hg|].
  destruct (pumps pumping_end) as [|p1 [|p2 [|]]] eqn:Hp; try discriminate Hpc.
  injection Hpc as Hpc1 Hpc2. injection Hacc as Ha1 Ha2. injection Hwire as Hw1 Hw2.
  destruct (bench_counts 2 [(0%Z, true); (host_not_found, true)] pumping_schedule pumping_end bench_arrivals bench_connection)
    as (opss & Hops & Hall).
  - exact small_pool.
  - exact Hrun.
  - rewrite Hp. constructor; [|constructor; [|constructor]].
    + split; [repeat constructor; by vm_compute|]. rewrite Hw1. vm_compute. by exists [].
    + split; [constructor|]. rewrite Hw2. by exists [].
  - vm_compute. reflexivity.
  - apply bench_calls_received in Hops. subst opss.
    destruct (Hall monitor_schedule monitored Hmon) as (st & rc & cn & _ & _ & _ & _ & _ & Hend).
    apply Hend; [| |exact Htodo]; rewrite Hp.
    + repeat constructor; assumption.
    + constructor; [|constructor; [|constructor]]; [rewrite Ha1|rewrite Ha2]; vm_compute; reflexivity.
Defined.
