(* ===== verification/BenchEnds.v ===== *)
(** * benchmark_client.cpp: how the threads end

    [main] joins its threads after it has cleared [running].  A thread is then at most one
    batch away from the end of its function, if its calls of [send] come back; and they do,
    since it is the only sender on its endpoint (LoneSender.v, UdpLone.v).  There the
    endpoint is destroyed: a TCP client without a fault, a UDP endpoint only if it has no
    idle item. *)

From S2P Require Import Prelude Framing Structs Expected SendPipeline Callbacks Dispatcher.
From S2P Require Import TcpSession TcpConnection TcpClient ConnectSend TcpServer CallbackSteps UdpEndpoint UdpSession.
From S2P Require Import Factory WireHeader LoneSender UdpLone Benchmark BenchClient.
From Stdlib Require Import ZArith Lia.

Open Scope nat_scope.

#[local] Abbreviation length := Datatypes.length.

Section Ends.

Context `{!Host} {S E : Type} `{!Transport S E}.

Fixpoint tr_run (es : list E) (s : S) : option S :=
  match es with
  | [] => Some s
  | e :: es => match tr_exec e s with Some (Ret s') => tr_run es s' | _ => None end
  end.

Lemma bench_run_app es1 es2 (b : bench (S := S)) : bench_run (es1 ++ es2) b = bench_run es1 b ≫= bench_run es2.
Proof.
  revert b. induction es1 as [|e es1 IH]; intros b; cbn; [done|].
  destruct (bench_exec e b) as [[b1| | | |]|]; cbn; auto.
Qed.

(** An endpoint goes on under its thread. *)
Lemma bench_run_endpoint i es (b : bench (S := S)) p s' :
  pumps b !! i = Some p -> context_stopped p = false -> tr_run es (pep p) = Some s' ->
  bench_run (BEndpoint i <$> es) b =
  Some (Bench (g_sent_count b) (running b) (<[i := Pump s' (ppc p) (sent p)]> (pumps b))).
Proof.
  intros Hi Hpc. revert b p Hi Hpc. induction es as [|e es IH]; intros b p Hi Hpc; cbn [tr_run].
  - intros [= <-]. cbn. rewrite list_insert_id; [by destruct b|]. rewrite Hi. by destruct p.
  - destruct (tr_exec e (pep p)) as [[s1| | | |]|] eqn:Hex; try done. intros Hrun.
    change (BEndpoint i <$> e :: es) with (BEndpoint i e :: (BEndpoint i <$> es)). cbn [bench_run bench_exec].
    rewrite Hi. cbn [mbind option_bind]. rewrite Hpc, Hex. cbn [mbind option_bind outcome_bind].
    rewrite (IH _ (Pump s1 (ppc p) (sent p))); [|cbn [pumps]|done|done].
    + cbn [g_sent_count running pumps ppc sent]. by rewrite list_insert_insert_eq.
    + apply list_lookup_insert_eq. by eapply lookup_lt_Some.
Qed.

(** What the calls need: [P] holds of an endpoint on which they come back, and [obs] is
    what that leaves alone. *)
Context (P : S -> Prop) {O : Type} (obs : S -> O).

Definition calls_begin : Prop := forall s,
  P s -> tr_call s = None ->
  exists s', tr_send bench_message s = Some (Ret s') /\ P s' /\ obs s' = obs s.

Definition calls_return : Prop := forall s m,
  P s -> tr_call s = Some m ->
  exists es s', tr_run es s = Some s' /\ P s' /\ tr_call s' = None /\ obs s' = obs s.

(** The end of the function: [Q] is what becomes of a thread there. *)
Context (Q : pump (S := S) -> Prop).

Definition function_ends : Prop := forall p,
  P (pep p) -> context_stopped p = true ->
  Q p \/ exists pc, pump_step false p = Some (Ret (Pump (pep p) pc (sent p), false)) /\ Q (Pump (pep p) pc (sent p)).

Context (Hbegin : calls_begin) (Hreturn : calls_return) (Hend : function_ends).

Definition pump_rank (pc : pump_pc) : nat :=
  match pc with
  | PDone | PReturn => 0
  | PStop => 1
  | PClose => 2
  | PWhile => 3
  | PFor i => 4 + 3 * (BATCH_SIZE - i)
  | PSend i => 3 + 3 * (BATCH_SIZE - i)
  | PCount i => 2 + 3 * (BATCH_SIZE - i)
  | PLastTest => 4
  | PRunning => 5
  | PConnected => 6
  end.

(** The thread's next statement, where it is not held up. *)
Lemma pump_step_down p :
  P (pep p) -> pump_inv p -> context_stopped p = false -> ((exists i, ppc p = PSend i) -> tr_call (pep p) = None) ->
  exists p' counted, pump_step false p = Some (Ret (p', counted)) /\
    P (pep p') /\ obs (pep p') = obs (pep p) /\ pump_rank (ppc p') < pump_rank (ppc p).
Proof using Hbegin.
  clear Hreturn Hend. destruct p as [s pc k]. intros HP [_ Hc _ Hb] Hpc Hsend. unfold pump_step. cbn [ppc pep sent] in *.
  destruct pc as [| | | |i|i|i| | | |]; try done;
    try (eexists _, _; split; [reflexivity|]; cbn; split_and!; [done|done|destruct (tr_connected s); cbn; lia]).
  - destruct (Nat.ltb_spec i BATCH_SIZE).
    + destruct (Hbegin s HP Hc) as (s' & Hs & HP' & Ho). rewrite Hs. cbn [mbind outcome_bind].
      eexists _, _. split; [reflexivity|]. cbn [pep ppc]. split_and!; [done|done|].
      destruct (tr_call s'); cbn [pump_rank]; lia.
    + eexists _, _. split; [reflexivity|]. cbn [pep ppc]. split_and!; [done|done|]. cbn [pump_rank]. lia.
  - rewrite Hsend by eauto. eexists _, _. split; [reflexivity|]. cbn [pep ppc]. split_and!; [done|done|].
    cbn [pump_rank]. lia.
  - eexists _, _. split; [reflexivity|]. cbn [pep ppc]. split_and!; [done|done|]. cbn [pump_rank]. lia.
Qed.

(** [running] has been cleared. *)
Record stopping (b : bench (S := S)) : Prop := {
  st_running : running b = false;
  st_pumps : Forall (fun p => P (pep p) /\ pump_inv p) (pumps b);
}.

Lemma stopping_lookup b i p : stopping b -> pumps b !! i = Some p -> P (pep p) /\ pump_inv p.
Proof. intros [_ Hp] Hi. exact (Forall_lookup_1 _ _ _ _ Hp Hi). Qed.

(** One thread goes on, and the others stay where they are. *)
Definition moved (i : nat) (p : pump (S := S)) (b b' : bench) (rank : nat) : Prop :=
  stopping b' /\ exists p', pumps b' = <[i := p']> (pumps b) /\ obs (pep p') = obs (pep p) /\ pump_rank (ppc p') <= rank.

Lemma thread_steps i b p :
  stopping b -> pumps b !! i = Some p -> context_stopped p = false ->
  ((exists j, ppc p = PSend j) -> tr_call (pep p) = None) ->
  exists b', bench_run [BThread i] b = Some b' /\ moved i p b b' (Nat.pred (pump_rank (ppc p))).
Proof using Hbegin.
  clear Hreturn Hend. intros Hst Hi Hpc Hsend. destruct (stopping_lookup b i p Hst Hi) as [HP Hinv].
  destruct (pump_step_down p HP Hinv Hpc Hsend) as (p' & counted & Hs & HP' & Ho & Hr).
  destruct (pump_step_inv _ _ _ _ Hinv Hs) as [Hinv' _].
  destruct Hst as [Hrun Hp]. cbn [bench_run bench_exec]. rewrite Hi. cbn [mbind option_bind]. rewrite Hrun, Hs.
  cbn [mbind option_bind outcome_bind]. eexists. split; [reflexivity|]. split.
  - split; [done|]. by apply Forall_insert.
  - exists p'. split_and!; [done|done|lia].
Qed.

Lemma thread_advances i b p :
  stopping b -> pumps b !! i = Some p -> context_stopped p = false ->
  exists es b', bench_run es b = Some b' /\ moved i p b b' (Nat.pred (pump_rank (ppc p))).
Proof using Hbegin Hreturn.
  intros Hst Hi Hpc. destruct (stopping_lookup b i p Hst Hi) as [HP Hinv].
  destruct (tr_call (pep p)) as [m|] eqn:Hc.
  2: { destruct (thread_steps i b p Hst Hi Hpc ltac:(done)) as (b' & Hb). by exists [BThread i], b'. }
  destruct (Hreturn (pep p) m HP Hc) as (es & s' & Hes & HP' & Hc' & Ho).
  set (p1 := Pump s' (ppc p) (sent p)).
  set (b1 := Bench (g_sent_count b) (running b) (<[i := p1]> (pumps b))).
  assert (bench_run (BEndpoint i <$> es) b = Some b1) as Hb1 by by apply bench_run_endpoint.
  assert (pumps b1 !! i = Some p1) as Hi1 by (apply list_lookup_insert_eq; by eapply lookup_lt_Some).
  assert (pump_inv p1) as Hinv1.
  { clear - Hinv Hes. subst p1. revert p Hinv Hes. induction es as [|e es IH]; intros [s pc k] Hinv; cbn [tr_run pep ppc sent].
    - by intros [= <-].
    - destruct (tr_exec e s) as [[s1| | | |]|] eqn:Hex; try done. intros Hes.
      apply (IH (Pump s1 pc k)); [|done]. by apply (pump_endpoint_inv e (Pump s pc k)). }
  assert (stopping b1) as Hst1.
  { destruct Hst as [Hrun Hp]. split; [done|]. by apply Forall_insert. }
  destruct (thread_steps i b1 p1 Hst1 Hi1 Hpc) as (b' & Hb' & Hst' & p' & Hp' & Ho' & Hr); [done|].
  exists ((BEndpoint i <$> es) ++ [BThread i]), b'. rewrite bench_run_app, Hb1. split; [done|]. split; [done|].
  exists p'. rewrite Hp'. cbn [pumps b1]. rewrite list_insert_insert_eq. split_and!; [done|by rewrite Ho'|done].
Qed.

(** The thread runs to the end of its function. *)
Lemma thread_ends i b p :
  stopping b -> pumps b !! i = Some p -> exists es b', bench_run es b = Some b' /\ moved i p b b' 0.
Proof using Hbegin Hreturn.
  clear Hend. remember (pump_rank (ppc p)) as r eqn:Hr. revert b p Hr.
  induction r as [r IH] using lt_wf_ind. intros b p -> Hst Hi.
  destruct (context_stopped p) eqn:Hd.
  - exists [], b. split; [done|]. split; [done|]. exists p. rewrite list_insert_id by done.
    unfold context_stopped in Hd. split_and!; [done|done|]. by destruct (ppc p).
  - destruct (thread_advances i b p Hst Hi Hd) as (es & b1 & Hes & Hst1 & p1 & Hp1 & Ho1 & Hr1).
    assert (pumps b1 !! i = Some p1) as Hi1.
    { rewrite Hp1. apply list_lookup_insert_eq. by eapply lookup_lt_Some. }
    assert (0 < pump_rank (ppc p)) by (unfold context_stopped in Hd; destruct (ppc p); cbn; (done || lia)).
    destruct (IH (pump_rank (ppc p1)) ltac:(lia) b1 p1 eq_refl Hst1 Hi1) as (es' & b' & Hes' & Hst' & p' & Hp' & Ho' & Hr').
    exists (es ++ es'), b'. rewrite bench_run_app, Hes. split; [done|]. split; [done|].
    exists p'. rewrite Hp', Hp1, list_insert_insert_eq. split_and!; [done|by rewrite Ho'|done].
Qed.

Lemma rank_zero p : pump_rank (ppc p) <= 0 -> context_stopped (S := S) p = true.
Proof. unfold context_stopped. destruct (ppc p); cbn; (done || lia). Qed.

Lemma thread_finishes i b p :
  stopping b -> pumps b !! i = Some p ->
  exists es b', bench_run es b = Some b' /\ stopping b' /\
    exists p', pumps b' = <[i := p']> (pumps b) /\ obs (pep p') = obs (pep p) /\ Q p'.
Proof using Hbegin Hreturn Hend.
  intros Hst Hi. destruct (thread_ends i b p Hst Hi) as (es & b1 & Hes & Hst1 & p1 & Hp1 & Ho1 & Hr1).
  assert (pumps b1 !! i = Some p1) as Hi1.
  { rewrite Hp1. apply list_lookup_insert_eq. by eapply lookup_lt_Some. }
  destruct (stopping_lookup b1 i p1 Hst1 Hi1) as [HP Hinv].
  destruct (Hend p1 HP (rank_zero p1 Hr1)) as [HQ|(pc & Hs & HQ)].
  { exists es, b1. split; [done|]. split; [done|]. by exists p1. }
  destruct (pump_step_inv _ _ _ _ Hinv Hs) as [Hinv' _]. destruct Hst1 as [Hrun Hp].
  exists (es ++ [BThread i]). eexists. rewrite bench_run_app, Hes. cbn [mbind option_bind bench_run bench_exec].
  rewrite Hi1. cbn [mbind option_bind]. rewrite Hrun, Hs. cbn [mbind option_bind outcome_bind].
  split; [reflexivity|]. split; [split; [done|by apply Forall_insert]|].
  exists (Pump (pep p1) pc (sent p1)). cbn [pumps pep]. by rewrite Hp1, list_insert_insert_eq.
Qed.

(** All of them, one after another. *)
Lemma all_threads_end b :
  stopping b ->
  exists es b', bench_run es b = Some b' /\ Forall Q (pumps b') /\
    (obs ∘ pep) <$> pumps b' = (obs ∘ pep) <$> pumps b.
Proof using Hbegin Hreturn Hend.
  intros Hst.
  assert (forall k, k <= length (pumps b) -> exists es b', bench_run es b = Some b' /\ stopping b' /\
            Forall Q (take k (pumps b')) /\ (obs ∘ pep) <$> pumps b' = (obs ∘ pep) <$> pumps b)
    as Hall.
  { intros k. induction k as [|k IH]; intros Hk.
    - exists [], b. split_and!; [done|done|by rewrite take_0|done].
    - destruct IH as (es & b1 & Hes & Hst1 & Hdone & Hobs); [lia|].
      assert (length (pumps b1) = length (pumps b)) as Hlen by by apply (bench_run_threads es).
      destruct (lookup_lt_is_Some_2 (pumps b1) k) as [p Hp]; [lia|].
      destruct (thread_finishes k b1 p Hst1 Hp) as (es' & b' & Hes' & Hst' & p' & Hp' & Ho & HQ).
      exists (es ++ es'), b'. rewrite bench_run_app, Hes. split_and!; [done|done| |].
      + rewrite Hp'. rewrite (take_S_r _ _ p'); [|apply list_lookup_insert_eq; lia].
        rewrite take_insert_ge by lia. apply Forall_app. split; [done|]. by constructor.
      + rewrite Hp', list_fmap_insert, <- Hobs. apply list_insert_id.
        rewrite list_lookup_fmap, Hp. cbn. by rewrite <- Ho. }
  destruct (Hall (length (pumps b)) ltac:(done)) as (es & b' & Hes & _ & Hdone & Hobs).
  exists es, b'. split_and!; [done| |done]. rewrite take_ge in Hdone; [done|].
  by rewrite (bench_run_threads _ _ _ Hes).
Qed.

(** What the clients come to: every thread is where [Q] says, what [obs] shows is as it was,
    and the counter is the number of messages accepted. *)
Definition can_end (b : bench (S := S)) : Prop :=
  exists es b', bench_run es b = Some b' /\ Forall Q (pumps b') /\
    (obs ∘ pep) <$> pumps b' = (obs ∘ pep) <$> pumps b /\
    g_sent_count b' = wrap 64 (Z.of_nat (total_accepted b')).

Lemma clients_end protocol eps es b :
  Forall unused eps -> bench_run es (bench_start protocol eps) = Some b ->
  Forall (fun p => P (pep p)) (pumps b) -> running b = false ->
  (forall p, Q p -> context_stopped p = true) -> can_end b.
Proof using Hbegin Hreturn Hend.
  intros Heps Hrun HP Hst HQ.
  pose proof (bench_run_inv es _ b (bench_start_inv protocol eps Heps) Hrun) as [Hinv _].
  destruct (all_threads_end b) as (es' & b' & Hrun' & Hdone & Hobs).
  { split; [done|]. apply Forall_and. by split. }
  exists es', b'. split_and!; [exact Hrun'|exact Hdone|exact Hobs|].
  destruct (bench_counted protocol eps (es ++ es') b' Heps) as (_ & k & _ & Hg & Hk).
  { by rewrite bench_run_app, Hrun. }
  rewrite Hg, Hk; [done|]. eapply Forall_impl; [exact Hdone|]. intros p Hp. by rewrite (HQ p Hp).
Qed.

End Ends.

(** ** Over TCP *)

Section Tcp.

Context `{!Host, !CircularBuffer}.

Abbreviation bench_framing := (FramingConfig 8 default_max_message_size (Some size_lambda)).
Abbreviation exec_tcp := (client_exec bench_framing 0 None (Some on_connected)).
Abbreviation tcp_pipe c := (tx (ep (session_ c))).
Abbreviation tcp_client_state := (client (A := bool)).

Definition client_pushes (e : client_event) : Prop :=
  match e with KSession (SWriteDone _ push_ok) => forall b, push_ok b = true | _ => True end.

Context (n : nat) (Hn : 1 <= n <= queue_capacity).

Definition tcp_alone (c : tcp_client_state) : Prop := tcp_started n c /\ lone_inv n (tcp_pipe c).

Lemma lone_inv_init open : lone_inv n (open_socket open (pipe_init n)).
Proof using.
  clear Hn. split; [done| |done].
  pose proof (storage_length (pipe_init n) (inv_storage n _ (inv_init n))) as Hs.
  change (size (heap (open_socket open (pipe_init n)))) with (size (heap (pipe_init n))). rewrite <- Hs.
  unfold places, pipe_init. cbn [buffer_pool_ send_queue_ posted threads].
  rewrite held_empty, !app_nil_r. apply length_seq.
Qed.

Lemma tcp_alone_connect resolve_ec opens : tcp_alone (TcpClient.connect resolve_ec opens (client_init n false)).2.
Proof using.
  clear Hn. split; [apply tcp_started_connect|]. unfold TcpClient.connect.
  destruct (negb _); [apply (lone_inv_init false)|apply (lone_inv_init opens)].
Qed.

Lemma session_alone e (s s' : session (X := bool) (A := bool)) :
  client_pushes (KSession e) -> (match e with SSendPath (EvSend t _) => t = 0 | _ => True end) ->
  pipe_inv n (tx (ep s)) -> lone_inv n (tx (ep s)) ->
  sess_exec bench_framing 0 None e s = Some (Ret s') -> lone_inv n (tx (ep s')).
Proof using Hn.
  intros Hpush He Hinv Hl Hex.
  apply (sess_exec_pipe bench_framing 0 None (fun p => pipe_inv n p /\ lone_inv n p) e s s'); [|done|done|done].
  intros ev p p' Hev [Hp Hlp] Hx. destruct (exec_inv n ev p _ ltac:(lia) Hp Hx) as (p1 & [= <-] & Hp').
  split; [done|]. eapply (lone_inv_exec n ev p); try done; [lia| |]; destruct ev; cbn in Hev; try subst e; done.
Qed.

Lemma tcp_alone_session e c c' :
  client_pushes (KSession e) -> (match e with SSendPath (EvSend t _) => t = 0 | _ => True end) ->
  tcp_alone c -> exec_tcp (KSession e) c = Some (Ret c') -> tcp_alone c'.
Proof using Hn.
  intros Hpush He [Hs Hl] Hex. split; [eapply tcp_started_step; [|exact Hs|exact Hex]; done|].
  destruct (tcp_started_inv n c ltac:(lia) Hs) as [_ Hinv]. cbn [client_exec] in Hex.
  destruct (sess_exec _ _ _ e (session_ c)) as [[s'| | | |]|] eqn:Hse; try done. injection Hex as <-.
  by eapply session_alone.
Qed.

Lemma tcp_alone_step e c c' :
  client_pushes e -> tcp_event e = true -> tcp_alone c -> exec_tcp e c = Some (Ret c') -> tcp_alone c'.
Proof using Hn.
  intros Hpush He Hc Hex. pose proof Hc as [Hs Hl].
  destruct e as [ec o|o|ec|e]; [done|..].
  - split; [eapply tcp_started_step; [|exact Hs|exact Hex]; done|]. destruct (tcp_started_inv n c ltac:(lia) Hs) as [Hi _].
    destruct Hs as [_ [_ Honce]]. cbn [client_exec] in Hex.
    destruct (Nat.eqb_spec (connecting c) 0) as [|Hne]; [done|]. injection Hex as <-.
    assert (started (session_ c) = false) as Hst by (destruct (started (session_ c)); [lia|done]).
    destruct (inv_unconnected _ _ _ _ Hi Hst) as ([o' Ho] & _). cbn [session_ TcpClient.set_socket ep tx set_tx].
    rewrite Ho. apply (lone_inv_init o).
  - split; [eapply tcp_started_step; [|exact Hs|exact Hex]; done|]. cbn [client_exec] in Hex.
    destruct (connecting c); [done|]. destruct (read_op _); [done|].
    destruct (connect_handler _ _ _ _) as [s'| | | |] eqn:Hh; try done. injection Hex as <-.
    cbn [session_]. by rewrite (connect_handler_tx _ _ _ Hh).
  - eapply tcp_alone_session; [exact Hpush| |exact Hc|exact Hex]. by destruct e as [[]| | | | |].
Qed.

Lemma tcp_calls_begin : calls_begin tcp_alone (fun c : tcp_client_state => is_open (tcp_pipe c)).
Proof using Hn.
  intros c Hc Hcall. cbn [tr_call tcp_transport] in Hcall. unfold pipe_call in Hcall.
  assert (threads (tcp_pipe c) !! 0 = None) as Ht by by destruct (threads (tcp_pipe c) !! 0).
  assert (exists c', exec_tcp (KSession (SSendPath (EvSend 0 bench_message))) c = Some (Ret c') /\
            is_open (tcp_pipe c') = is_open (tcp_pipe c)) as (c' & Hex & Ho).
  { cbn [client_exec sess_exec send_path_only send_exec exec]. rewrite Ht.
    destruct (own_sends _); [|by eexists]. by destruct (is_open (tcp_pipe c)) eqn:Ho; eexists. }
  exists c'. split; [exact Hex|]. split; [|exact Ho]. by eapply tcp_alone_session; [..|exact Hex].
Qed.

(** An event of the pipe as the client's. *)
Definition lift (e : event) : client_event :=
  KSession (match e with EvWriteDone ec push_ok => SWriteDone ec push_ok | e => SSendPath e end).

Lemma lift_exec e c p' :
  calm e -> exec e (tcp_pipe c) = Some (Ret p') ->
  exists c', tr_exec (lift e) c = Some (Ret c') /\ tcp_pipe c' = p'.
Proof using.
  clear Hn. intros He Hex. destruct e as [t d|t|t|t| | |ec ok|]; try done;
    cbn [tr_exec tcp_transport lift tcp_event client_exec sess_exec send_path_only send_exec];
    try (rewrite Hex; by eexists).
  cbn [exec] in Hex. destruct (write_op (tcp_pipe c)) as [k|]; [|done].
  destruct (ec || _); [|done]. destruct (write_handler ec ok (tcp_pipe c)) as [[p1 mc]| | | |]; try done.
  injection Hex as <-. cbn [mbind outcome_bind]. eexists. split; [reflexivity|]. cbn [session_ ep].
  destruct mc; [|done]. by rewrite close_tx.
Qed.

Lemma lift_run es c p' :
  Forall calm es -> run es (tcp_pipe c) = Some p' -> exists c', tr_run (lift <$> es) c = Some c' /\ tcp_pipe c' = p'.
Proof using.
  clear Hn. intros Hes. revert c. induction Hes as [|e es He _ IH]; intros c; cbn [run]; [intros [= <-]; by exists c|].
  destruct (exec e (tcp_pipe c)) as [[p1| | | |]|] eqn:Hex; try done. intros Hrun.
  destruct (lift_exec e c p1 He Hex) as (c1 & Hc1 & <-). destruct (IH c1 Hrun) as (c' & Hc' & Hp').
  exists c'. split; [|done]. change (lift <$> e :: es) with (lift e :: (lift <$> es)). cbn [tr_run]. by rewrite Hc1.
Qed.

Lemma tr_run_alone es c c' :
  Forall (fun e => client_pushes e) es -> tcp_alone c -> tr_run es c = Some c' -> tcp_alone c'.
Proof using Hn.
  intros Hes. revert c. induction Hes as [|e es He _ IH]; intros c Hc; cbn [tr_run]; [by intros [= <-]|].
  destruct (tr_exec e c) as [[c1| | | |]|] eqn:Hex; try done. apply IH. revert Hex. cbn [tr_exec tcp_transport].
  destruct (tcp_event e) eqn:Hev; [|done]. by apply tcp_alone_step.
Qed.

Lemma tcp_calls_return : calls_return tcp_alone (fun c : tcp_client_state => is_open (tcp_pipe c)).
Proof using Hn.
  intros c m Hc Hcall. pose proof Hc as [Hs Hl].
  destruct (tcp_started_inv n c ltac:(lia) Hs) as [_ Hinv].
  destruct (call_returns n (tcp_pipe c) m Hn Hinv Hl Hcall) as (es & p' & Hes & Hrun & Hcp & _ & Ho).
  destruct (lift_run es c p' Hes Hrun) as (c' & Hrun' & Hp'). exists (lift <$> es), c'.
  split; [exact Hrun'|]. split; [|by rewrite <- Hp' in Hcp, Ho].
  eapply tr_run_alone; [|exact Hc|exact Hrun']. apply Forall_fmap. eapply Forall_impl; [exact Hes|]. by intros [].
Qed.

Lemma tcp_function_ends : function_ends tcp_alone (fun p => ppc p = PDone).
Proof using Hn.
  intros [c pc k] [Hs _] Hst. cbn [pep ppc sent] in *. unfold context_stopped in Hst. cbn [ppc] in Hst.
  destruct pc; try done; [right|by left]. exists PDone. split; [|done].
  destruct (tcp_started_inv n c ltac:(lia) Hs) as [_ Hinv].
  destruct (destroy_client_frees n c Hinv) as (h & Hd). unfold pump_step. cbn [ppc pep sent tr_destroy tcp_transport].
  by rewrite Hd.
Qed.

End Tcp.

(** ** Over UDP *)

Section Udp.

Context `{!Host} {CB : CircularBuffer} {Addr : Type} (addr0 : Addr) (n : nat) (Hn : 1 <= n <= queue_capacity).

Definition udp_alone (u : udp Addr) : Prop := udp_inv addr0 n u /\ lone_udp_inv n u.

Lemma udp_alone_step e (u u' : udp Addr) :
  udp_steady e -> own_call e -> udp_alone u -> uexec e u = Some (Ret u') -> udp_alone u'.
Proof using CB Hn. intros Hst He [Hu Hl]. apply (lone_udp_inv_exec addr0 n e u u'); [lia|done..]. Qed.

Lemma udp_alone_made o u : make_udp addr0 n o = Ret u -> udp_alone u.
Proof using CB Hn.
  intros Hm. pose proof (make_udp_unused addr0 n o u Hm) as [Hr [Hal _]].
  split; [apply (ureachable_inv addr0 n); [lia|exact Hr]|]. revert Hm. unfold make_udp.
  pose proof (create_udp_client_cases addr0 n o) as Hc. pose proof (connect_same o (udp_init addr0 n)) as Hs.
  destruct (UdpEndpoint.connect o (udp_init addr0 n)) as [res v]. rewrite Hc.
  destruct res as [[]|e]; [|done]. cbn [mbind outcome_bind value]. intros [= <-].
  destruct Hs as (_ & Hp & Hq & _ & Hl & Ht & _). cbn [snd] in Hp, Hq, Hl, Ht. split; [exact Hal| |].
  - unfold uplaces. rewrite Hp, Hq, Hl, Ht. cbn [udp_init ubuffer_pool_ usend_queue_ uposted uthreads].
    assert (uheld (∅ : gmap nat (usender (Addr := Addr))) = []) as -> by done.
    rewrite !app_nil_r. apply length_alloc.
  - intros _ Hne. by rewrite Hq in Hne.
Qed.

Lemma udp_calls_begin : calls_begin udp_alone socket_open.
Proof using CB Hn.
  intros u Hu Hc. cbn [tr_call udp_transport] in Hc. unfold lone_call in Hc.
  assert (exists u', uexec (USend 0 bench_message) u = Some (Ret u') /\ socket_open u' = socket_open u)
    as (u' & Hex & Ho).
  { cbn [uexec]. unfold enter. destruct (uthreads u !! 0); [done|]. by destruct (send_entry _ u); eexists. }
  exists u'. split; [exact Hex|]. split; [|exact Ho]. by eapply udp_alone_step; [..|exact Hex].
Qed.

Lemma calm_run es (u u' : udp Addr) : Forall ucalm es -> urun es u = Some u' -> tr_run es u = Some u'.
Proof.
  intros Hes. revert u. induction Hes as [|e es He _ IH]; intros u; cbn [urun tr_run]; [done|].
  cbn [tr_exec udp_transport]. assert (udp_event e = true) as -> by by destruct e.
  destruct (uexec e u) as [[u1| | | |]|]; try done. apply IH.
Qed.

Lemma udp_calls_return : calls_return udp_alone socket_open.
Proof using CB Hn.
  intros u m [Hu Hl] Hc.
  destruct (udp_call_returns addr0 n u m Hn Hu Hl Hc) as (es & u' & Hes & Hrun & Hc' & _ & Ho).
  exists es, u'. split; [by apply calm_run|]. split; [|split; [|exact Ho]].
  - apply (urun_calm_inv addr0 n es u u'); [lia|done..].
  - cbn [tr_call udp_transport]. by rewrite Hc'.
Qed.

(** Where the function ends: with an idle item the destructor is undefined, and without
    one the thread is done. *)
Definition udp_ended (p : pump (S := udp Addr)) : Prop :=
  ppc p = PDone \/
  (ppc p = PReturn /\ ubuffer_pool_ (pep p) <> [] /\ forall running, pump_step running p = Some UB).

Lemma udp_function_ends : function_ends udp_alone udp_ended.
Proof using CB Hn.
  intros [u pc k] [Hu _] Hst. cbn [pep ppc sent] in *. unfold context_stopped in Hst. cbn [ppc] in Hst.
  destruct pc; try done; [|by left; left].
  pose proof (destroy_cases addr0 n u Hu) as Hd. destruct (ubuffer_pool_ u) as [|i pool] eqn:Hp.
  - right. exists PDone. split; [|by left]. destruct Hd as [h Hd]. unfold pump_step.
    cbn [ppc pep sent tr_destroy udp_transport]. by rewrite Hd.
  - left. right. cbn [pep]. rewrite Hp. split_and!; [done|done|]. intros r. unfold pump_step.
    cbn [ppc pep sent tr_destroy udp_transport]. by rewrite Hd.
Qed.

End Udp.

(** ** Property *)

Section Properties.

Context `{!Host, !CircularBuffer}.

(** C7: how the clients of the benchmark end.  From any state of any run, over TCP however
    its connections have fared and over UDP however its writes have, as long as the pools
    have taken what was given back to them: once [running] has been cleared, the strands,
    the kernel and the threads can go on so that every thread comes to the end of
    [run_pumping_client], no socket needs to be closed for that, and [g_sent_count] is then
    the number of messages accepted.  Over TCP every thread returns, its client destroyed
    without a fault.  Over UDP a thread returns if its endpoint's pool is empty; with an
    idle item the endpoint's destructor, which is what is left of the function, is
    undefined behaviour. *)
Theorem pumps_end n :
  1 <= n <= pool_capacity ->
  (forall answers es b,
     Forall (endpoint_events client_pushes) es ->
     bench_run es (bench_start TCP (tcp_clients n answers)) = Some b -> running b = false ->
     can_end (fun c => is_open (tx (ep (session_ c)))) (fun p => ppc p = PDone) b) /\
  (forall (Addr : Type) (addr0 : Addr) os eps es b,
     Forall2 (fun o u => make_udp addr0 n o = Ret u) os eps -> Forall (endpoint_events udp_steady) es ->
     bench_run es (bench_start UDP eps) = Some b -> running b = false -> can_end socket_open udp_ended b).
Proof.
  intros [H1 Hn]. split.
  - intros answers es b Hes Hrun. assert (1 <= n <= queue_capacity) as Hnq by (pose proof (pool_fits n Hn); lia).
    intros Hst. apply (clients_end (tcp_alone n) _ _ (tcp_calls_begin n Hnq) (tcp_calls_return n Hnq)
      (tcp_function_ends n Hnq) TCP _ es b (tcp_clients_unused n answers) Hrun); [|exact Hst|].
    2: { intros p Hp. unfold context_stopped. by rewrite Hp. }
    eapply (bench_run_endpoints client_pushes (tcp_alone n)); [| |exact Hes| |exact Hrun].
    + intros e c c' He Hc. cbn [tr_exec tcp_transport]. destruct (tcp_event e) eqn:Hev; [|done].
      by apply tcp_alone_step.
    + intros m c c' Hc. by apply tcp_alone_session.
    + apply Forall_fmap, Forall_fmap, Forall_true. intros [ec opens]. apply tcp_alone_connect.
  - intros Addr addr0 os eps es b Hos Hes Hrun.
    assert (1 <= n <= queue_capacity) as Hnq by (pose proof (udp_pool_fits n Hn); lia).
    assert (Forall unused eps /\ Forall (udp_alone addr0 n) eps) as [Hun Hal].
    { clear Hrun. induction Hos as [|o u os eps Hm _ [IH1 IH2]]; [by split|]. split; constructor; try done.
      - apply (make_udp_unused addr0 n o u Hm).
      - by apply (udp_alone_made addr0 n Hnq o). }
    intros Hst. apply (clients_end (udp_alone addr0 n) _ _ (udp_calls_begin addr0 n Hnq) (udp_calls_return addr0 n Hnq)
      (udp_function_ends addr0 n Hnq) UDP eps es b Hun Hrun); [|exact Hst|].
    2: { intros p [Hp|(Hp & _)]; unfold context_stopped; by rewrite Hp. }
    eapply (bench_run_endpoints udp_steady (udp_alone addr0 n)); [| |exact Hes| |exact Hrun].
    + intros e u u' He Hu. cbn [tr_exec udp_transport]. destruct (udp_event e) eqn:Hev; [|done].
      apply udp_alone_step; [done..|by destruct e|done].
    + intros m u u' Hu. by apply udp_alone_step.
    + by apply Forall_fmap.
Qed.

End Properties.

(** ** Witness

    Two buffers: one message is being written when the write fails, one is queued behind it
    for good, and the thread, inside its third call, takes the buffer that the failed write
    gives back. *)

#[local] Existing Instance overwriting_buffer.
#[local] Instance little_endian_host : Host := LittleEndian.

Definition one_call : list bench_event :=
  BThread 0 :: steps_of 0 (SSendPath <$> [EvPop 0; EvCopy 0; EvPost 0]) ++ [BThread 0; BThread 0].

Definition breaking_schedule : list bench_event :=
  BEndpoint 0 (KConnectDone 0) :: replicate 4 (BThread 0) ++ one_call ++ one_call ++ [BThread 0] ++
  steps_of 0 [SSendPath EvRunPosted; SSendPath EvRunPosted; SWriteDone true (fun _ => true)] ++ [BStop].

Definition breaking_start : bench := bench_start TCP (tcp_clients 2 [(0%Z, true)]).

Definition broken : bench := default breaking_start (bench_run breaking_schedule breaking_start).

Lemma broken_runs :
  bench_run breaking_schedule breaking_start = Some broken /\ running broken = false /\
  (ppc <$> pumps broken) = [PSend 2].
Proof.
  assert ((if bench_run breaking_schedule breaking_start is Some b
           then negb (running b) && bool_decide ((ppc <$> pumps b) = [PSend 2]) else false) = true) as H
    by (vm_compute; reflexivity).
  unfold broken. destruct (bench_run _ _) as [b|]; [|done]. cbn [default].
  apply andb_prop in H as [H1%negb_true_iff H2%bool_decide_eq_true]. done.
Qed.

(** The same over UDP. *)
Definition one_datagram : list (bench_event (E := uevent nat)) :=
  BThread 0 :: (BEndpoint 0 <$> [UPop 0; UCopy 0; UAddress 0; UPost 0]) ++ [BThread 0; BThread 0].

Definition failing_schedule : list (bench_event (E := uevent nat)) :=
  BThread 0 :: one_datagram ++ one_datagram ++ [BThread 0] ++
  (BEndpoint 0 <$> [URunPosted; URunPosted; USendDone true true]) ++ [BStop].

Definition lan_client : udp nat := match make_udp 0 2 lan with Ret u => u | _ => udp_init 0 2 end.

Definition failing_start : bench := bench_start UDP [lan_client].

Definition failed : bench := default failing_start (bench_run failing_schedule failing_start).

Lemma failed_runs :
  bench_run failing_schedule failing_start = Some failed /\ running failed = false /\
  (ppc <$> pumps failed) = [PSend 2].
Proof.
  assert ((if bench_run failing_schedule failing_start is Some b
           then negb (running b) && bool_decide ((ppc <$> pumps b) = [PSend 2]) else false) = true) as H
    by (vm_compute; reflexivity).
  unfold failed. destruct (bench_run _ _) as [b|]; [|done]. cbn [default].
  apply andb_prop in H as [H1%negb_true_iff H2%bool_decide_eq_true]. done.
Qed.

(** A client that is stopped before it sends has all its items idle. *)
Lemma idle_client_undefined :
  (if bench_run (BStop :: replicate 3 (BThread 0)) failing_start is Some b
   then if bench_exec (BThread 0) b is Some UB then true else false else false) = true.
Proof. vm_compute. reflexivity. Qed.

Lemma pumps_end_witness :
  ((ppc <$> pumps broken) = [PSend 2] /\
   exists es b', bench_run es broken = Some b' /\ Forall (fun p => ppc p = PDone) (pumps b')) /\
  ((ppc <$> pumps failed) = [PSend 2] /\
   exists es b', bench_run es failed = Some b' /\ Forall udp_ended (pumps b')).
Proof.
  destruct broken_runs as (Hrun & Hst & Hpc). destruct failed_runs as (Hrun2 & Hst2 & Hpc2).
  destruct (pumps_end 2) as [Htcp Hudp]; [split; [lia|exact small_pool]|].
  split; (split; [assumption|]).
  - destruct (Htcp [(0%Z, true)] breaking_schedule broken) as (es & b' & Hrun' & Hdone & _).
    + repeat constructor.
    + exact Hrun.
    + exact Hst.
    + exists es, b'. by split.
  - destruct (Hudp nat 0 [lan] [lan_client] failing_schedule failed) as (es & b' & Hrun' & Hdone & _).
    + constructor; [reflexivity|constructor].
    + repeat constructor.
    + exact Hrun2.
    + exact Hst2.
    + exists es, b'. by split.
Defined.
