(* ===== verification/Tests.v ===== *)
(** * tests/: the programs of the test suite, on the model

    Each test of test_dispatcher.cpp and test_networking.cpp as a schedule of the machines,
    with the conditions that the test asserts. *)

From S2P Require Import Prelude Framing Structs Expected SendPipeline Callbacks Dispatcher.
From S2P Require Import TcpSession TcpConnection TcpClient ConnectSend TcpServer UdpEndpoint UdpSession Factory.
From Stdlib Require Import ZArith Lia String.

Open Scope nat_scope.

#[local] Existing Instance overwriting_buffer.
#[local] Abbreviation length := Datatypes.length.

(** ** MessageDispatcherTest *)

(** [struct MsgB]: a header and [char data[12]]. *)
Record MsgB := mkMsgB { b_header : TestHeader; b_data : list byte }.

Definition load_MsgB (bs : list byte) : MsgB :=
  mkMsgB (load_TestHeader (subspan bs 0 8)) (subspan bs 8 12).

Definition store_MsgB (m : MsgB) (bs : list byte) : list byte :=
  splice (splice bs 0 (store_TestHeader (b_header m) (subspan bs 0 8))) 8
    (take 12 (b_data m ++ replicate 12 x00)).

Lemma length_store_MsgB m bs : length bs = 20 -> length (store_MsgB m bs) = 20.
Proof.
  intros Hb. unfold store_MsgB.
  assert (length (store_TestHeader (b_header m) (subspan bs 0 8)) = 8) as Hh.
  { apply length_store_TestHeader. solve_length. }
  assert (length (take 12 (b_data m ++ replicate 12 x00)) = 12) as Hd.
  { rewrite length_take, length_app, length_replicate. lia. }
  rewrite length_splice; rewrite length_splice; rewrite ?Hh, ?Hd; lia.
Qed.

Lemma store_load_MsgB bs : length bs = 20 -> store_MsgB (load_MsgB bs) bs = bs.
Proof.
  intros Hb. unfold store_MsgB, load_MsgB. cbn [b_header b_data].
  rewrite store_load_TestHeader by solve_length. rewrite splice_subspan by lia.
  rewrite take_app_length' by solve_length. apply splice_subspan. lia.
Qed.

#[export] Instance Layout_MsgB : Layout MsgB := {|
  sizeof := 20; load := load_MsgB; store := store_MsgB;
  length_store := length_store_MsgB; store_load := store_load_MsgB;
|}.

(** What the handlers of BasicDispatch look at. *)
Inductive dispatched := CalledA (a b : Z) | CalledB (text : list byte).

Definition handle_MsgA : RawHandler (list dispatched) :=
  by_ref (fun calls (m : MsgA) => Return (calls ++ [CalledA (a_a m) (a_b m)], m)).

Definition handle_MsgB : RawHandler (list dispatched) :=
  by_ref (fun calls (m : MsgB) => Return (calls ++ [CalledB (take 5 (b_data m))], m)).

Definition basic_dispatcher : dispatcher Z TestHeader (list dispatched) :=
  add_handler MsgB 2%Z handle_MsgB (add_handler MsgA 1%Z handle_MsgA (dispatcher_init (Some test_extractor))).

Definition pktA : list byte :=
  store (mkMsgA (mkTestHeader 1%Z 5%Z) 42%Z 100%Z) (replicate 16 x00).

(** What [pktB] holds behind the text is indeterminate. *)
Definition pktB (rest : list byte) : list byte :=
  store (mkMsgB (mkTestHeader 2%Z 12%Z) (list_byte_of_string "Hello" ++ rest)) (replicate 20 x00).

Example test_BasicDispatch_A :
  dispatch basic_dispatcher [] pktA = Return (true, [CalledA 42%Z 100%Z], pktA).
Proof. reflexivity. Qed.

Lemma test_BasicDispatch_B rest :
  length rest = 7 ->
  dispatch basic_dispatcher [] (pktB rest) = Return (true, [CalledB (list_byte_of_string "Hello")], pktB rest).
Proof. intros H. do 8 (destruct rest as [|? rest]; try discriminate H). reflexivity. Qed.

Definition incomplete_dispatcher : dispatcher Z TestHeader unit :=
  add_handler MsgA 1%Z (by_ref (fun u (m : MsgA) => Return (u, m)))
    (dispatcher_init (Some (fun _ => (1%Z, 0%Z)))).

Example test_IncompleteHeader short_packet :
  length short_packet = sizeof TestHeader - 1 ->
  dispatch incomplete_dispatcher tt short_packet = Return (false, tt, short_packet).
Proof.
  intros H. do 8 (destruct short_packet as [|? short_packet]; try discriminate H). reflexivity.
Qed.

(** ** NetworkingTest.TcpClientServer *)

Definition hello_packet : list byte :=
  store_uint LittleEndian 4 9%Z ++ list_byte_of_string "hello tcp".

(** The server's callback fulfils the promise and closes the connection. *)
Definition promise_callback : app_callback (list (list byte)).
Proof. refine (AppCallback (fun promised m => CallClose (Return (promised ++ [drop 4 m], m))) _). by intros. Defined.

Definition send_hello (res : send_result) (a : unit) : app_prog unit :=
  if operator_bool res then CallSend hello_packet (fun _ => Return a) else Return a.

Definition sconfig : ServerConfig :=
  server_config_framed TCP 12345%Z 4%Z (Some test_get_total_size).

Definition cconfig : ClientConfig :=
  client_config_framed TCP "127.0.0.1" 12345%Z 4%Z (Some test_get_total_size).

(** The client: connected, its message on the wire. *)
Definition hello_schedule : list client_event :=
  [KConnect 0%Z true; KConnectDone 0%Z] ++
  (KSession <$> (SSendPath <$> EvRunPosted :: replicate 13 EvTransmit)).

Definition hello_wire : option (list byte) :=
  match create_tcp_client 2 tt cconfig with
  | Ret (Alt0 c) =>
      c ← client_run (client_framing c) (client_timeout c) (client_on_receive c) (Some send_hello) hello_schedule
            (client_state c);
      Some (wire (tx (ep (session_ c))))
  | _ => None
  end.

(** The server: started, the client accepted, the bytes read. *)
Definition tcp_test (wire : list byte) : option (list (list byte) * bool * gset nat) :=
  match create_tcp_server server_init 0%Z sconfig with
  | Ret (Alt0 v) =>
      let v := tcp_server_on_receive promise_callback v in
      st ← server_run (server_framing v) (server_timeout v) (server_on_receive v) (server_on_connect v) 2
             [VStart; VAccept 9 false 0 []; VSetup; VConn 0 (CSession (SRead false wire))] (server_state v);
      k ← conns st !! 0;
      Some (TcpSession.app (ep k), is_open (tx (ep k)), connections_ st)
  | _ => None
  end.

Example test_TcpClientServer :
  hello_wire = Some hello_packet /\
  tcp_test hello_packet = Some ([list_byte_of_string "hello tcp"], false, ∅).
Proof. split; vm_compute; reflexivity. Qed.

(** ** NetworkingTest.UdpClientServer *)

Definition hello_udp : list byte := list_byte_of_string "hello udp".

(** [res.has_value()], and what has left. *)
Definition udp_client_test : option (bool * list (list byte)) :=
  match create_udp_client 0 2 lan with
  | Ret (Alt0 c) =>
      u ← urun (post_datagram 0 hello_udp ++ [URunPosted; UTransmit]) c;
      Some (match send_entry hello_udp c with inl _ => false | inr _ => true end, (uwire u).*1)
  | _ => None
  end.

(** The promise keeps the first datagram. *)
Definition promise_first (promised : option (list byte)) (data : list byte) : option (list byte) :=
  match promised with Some d => Some d | None => Some data end.

Definition udp_server_test (data : list byte) : option (option (list byte)) :=
  match create_udp_server 0 2 lan with
  | Ret (Alt0 v) =>
      s ← usess_run (listener promise_first) [UOnReceive; UStartReceive; UReceive false false data 7; UClose]
            (USession v None);
      Some (uown s)
  | _ => None
  end.

Example test_UdpClientServer :
  udp_client_test = Some (true, [hello_udp]) /\ udp_server_test hello_udp = Some (Some hello_udp).
Proof. split; vm_compute; reflexivity. Qed.

(** ** NetworkingTest.ReadTimeout *)

Definition timeout_config : ClientConfig :=
  MakeClientConfig TCP "127.0.0.1" 12347%Z 4%Z (Some test_get_total_size) default_max_message_size 50%Z.

(** The client is connected and nothing comes until its timer has closed it; then
    [send(data)] by thread 1 leaves it where it is: [not_connected]. *)
Definition timeout_test : option (bool * bool * option sender * list (list byte)) :=
  match create_tcp_client 2 tt timeout_config with
  | Ret (Alt0 c) =>
      c ← client_run (client_framing c) (client_timeout c) (client_on_receive c) (Some (fun _ a => Return a))
            [KConnect 0%Z true; KConnectDone 0%Z; KSession STimerExpire; KSession STimerHandler;
             KSession (SSendPath (EvSend 1 (list_byte_of_string "too late")))] (client_state c);
      let s := ep (session_ c) in
      Some (own s, is_open (tx s), threads (tx s) !! 1, accepted (tx s))
  | _ => None
  end.

Example test_ReadTimeout : timeout_test = Some (false, false, None, []).
Proof. vm_compute. reflexivity. Qed.
